(* ===== verification/_CoqProject ===== *)
-Q . S2P
Prelude.v
Bitmap.v
Lists.v
Machine.v
Mips.v
Stats.v
Disk.v
Files.v
FileSys.v
Copying.v
CommandLine.v
Interrupt.v
Devices.v
AddrSpace.v
Threads.v
Sched.v
SelfTests.v
Switch.v
Locks.v
Hash.v
Syscalls.v
FileCalls.v
Coff.v
SemTable.v
Exceptions.v
UserMode.v
TimeSharing.v
Processes.v
Joins.v
Procs.v
Monitor.v
SynchLists.v
Consoles.v
Terminals.v
Network.v
TimeSlices.v
Post.v
Deliveries.v
Office.v
Sender.v
Route.v
Boot.v
