(* ===== verification/Prelude.v ===== *)
(** * NachOS 4.0: a verification development

    The repository is a teaching operating system: a kernel in C++ that runs user
    programs on a MIPS machine it simulates itself, with the devices of that
    machine (timer, disk, console, network) driven by a simulated clock, and a
    converter that makes executables for it.  This library models the kernel, the
    machine and the converter, and proves what makes them correct.

    ** How the system is put together, and where each part is modelled

    lib/, the data structures the rest uses:
    - Bitmap.v: bitmap.cc, an array of 32-bit words seen as a list of bits.  The
      class [SlotMap] states what a set of slots promises; the file headers, the
      address spaces, the semaphore table and the process table are verified
      against it, and the bitmap satisfies its laws.
    - Lists.v: list.cc, linked cells in a heap, [List] and [SortedList].  [ListSpec]
      holds the operations on sequences that the cells implement and that the
      scheduler and the semaphores are modelled with.
    - Hash.v: hash.cc and libtest.cc, the growing hash table over those lists.

    machine/, the simulated hardware:
    - Machine.v: machine.cc and translate.cc, registers, memory, page tables and TLB.
    - Mips.v: mipssim.cc, the decoder and one instruction.
    - Stats.v, Disk.v, Interrupt.v: stats.cc; disk.cc with filesys/synchdisk.cc;
      interrupt.cc, timer.cc and threads/alarm.cc.
    - Devices.v: the part of the kernel the devices below see, and that the
      interrupt code provides it.
    - Consoles.v, Terminals.v: console.cc with userprog/synchconsole.cc, and their
      invariants.
    - Network.v: network.cc, the packets and both halves of the device.

    threads/, concurrency on one processor:
    - Threads.v: thread.cc, scheduler.cc, and of synch.cc the semaphores and locks,
      as a step function on the state of the kernel.
    - Sched.v, Locks.v: the invariants of that step function.
    - SelfTests.v: the tests of threads and semaphores, under every timing of the clock.
    - Boot.v: [Kernel::Initialize], the objects of the kernel on one clock.
    - Switch.v: switch.S for the x86 and StackAllocate of thread.cc, one
      instruction at a time: what Threads.v takes for one step.
    - CommandLine.v: the arguments of kernel.cc and main.cc; Copying.v: the two
      tools of main.cc that copy a file of the host to the disk and show it.
    - SemTable.v: sem.cc and stable.cc, semaphores with names for user programs.
    - Processes.v, Joins.v: pcb.cc and ptable.cc, and their invariants.
    - Procs.v: threads that share a state and its semaphores, as steps; the class
      [Component] is what a component gives.  Used by Monitor.v, Consoles.v, Post.v.
    - Monitor.v, SynchLists.v: the condition variables of synch.cc and
      synchlist.cc over them, and their invariants.

    network/, mail between machines:
    - Post.v: post.cc, mail boxes over the synchronised lists, the postal worker
      and the sender.
    - Deliveries.v: the layout of a message on the wire; Office.v: the receiving
      half at work; Sender.v: the sending half; Route.v: two machines joined.

    filesys/, both builds of the file system:
    - Files.v: filehdr.cc and openfile.cc; FileSys.v: directory.cc, pbitmap.cc and
      filesys.cc, on the simulated disk, against the class [BlockStore] of Disk.v.
    - FileCalls.v: the build with FILESYS_STUB, where a file is a file of the host.

    userprog/, processes and system calls:
    - AddrSpace.v: addrspace.cc, the loader and the page tables.
    - Syscalls.v, FileCalls.v, SemTable.v, Processes.v: the calls of ksyscall.h.
    - Exceptions.v: exception.cc, which runs a call and returns to the program.
      The record [promise] is what a relation between machines must satisfy for
      every call to keep it.
    - UserMode.v: the loop of Machine::Run, a program between the kernel's entries.
    - TimeSharing.v: several programs on the threads of Threads.v, instruction by
      instruction, against each of them alone; TimeSlices.v: the loop of Machine::Run
      with the clock, the timer and the switches, as a function.

    coff2noff/, the tool that makes executables:
    - Coff.v: coff2noff.c and coff.h, from the compiler's format to the one that
      AddrSpace.v loads.

    ** Conventions

    An operation of the source is a definition of the same name.  Code that can
    fail returns [res]: [Fault] says which way it fails (an [ASSERT], an access to
    what is not there, a host trap, waiting for ever, fuel).  A theorem that an
    operation is [Ok] therefore says that none of these happens.  Integers are [Z]
    with the wrap-around of their type written out ([u32], [s32]).  A trap of the
    simulated machine is a result ([Machine.Trap], [FileCalls.Trapped]), since the
    code that handles it is kernel code that runs after it.

    Four kinds of concurrency appear.  Disk.v, module [Protocol], interleaves
    threads on the synchronous disk.  Threads.v has what a thread still has to do
    as a list of calls, with the points inside [P], [Sleep] and [Yield] where it
    can lose the processor; time slices, device interrupts and user code are events
    between them.  Processes.v has an operation as code between two semaphore
    operations, which is where the clock can tick.  Procs.v has the same for any
    component, with its locks, and with the interrupts of its devices in between;
    a device may interrupt at any time from when it asked to, which covers every
    order in which interrupt.cc may call it ([fire_implements]).

    ** What the theorems show

    - Threads: no assertion of the scheduler fails, the ready list and the queues
      are consistent ([scheduler_safe]); nobody is forgotten ([idle_only_when_blocked]);
      user registers survive a switch ([user_state_survives]); locks exclude
      ([lock_mutual_exclusion]).  Below them, a thread that was switched out goes on
      with its registers and its stack ([kernel_state_survives]), and a new one
      calls its function with its argument ([forked_thread_runs]).
    - Processes: for programs that join each child once and exit when they have
      joined all, no deleted object is used ([processes_safe]), Join gives the
      exit code ([join_returns_exit_code]), and nobody is stuck ([handshake_progress]).
      Named semaphores are a map ([semaphore_table_is_map]) and their calls are safe
      in every state of the kernel ([semaphore_calls_safe]).
    - Memory: translation never leaves memory and its exceptions are exact
      ([translate_total]), a loaded program is its image ([load_program_image]),
      stores and runs of a program up to a call for the scheduler do not touch
      another's memory ([spaces_isolated], [program_confined]); no program notices the others when
      they share the processor ([time_sharing_invisible]); a small program goes from the
      compiler's format through the loader to the screen ([says_hi]).
    - The processor: an instruction always ends ([one_instruction_total]), with
      exact products, overflows and unaligned accesses.
    - Time: interrupts fire in order when they are due ([check_if_due_fires]), a tick
      of the clock calls those that are due ([tick_spec]), programs take turns of
      ninety instructions ([programs_take_turns]), and the disk takes the time its
      geometry says.
    - Files: what Create, Remove, Read and Write do to the disk ([file_create_spec],
      [file_remove_spec], [write_at_read_at], [allocate_then_deallocate]), directories
      are maps ([directory_is_map]), one request at a time ([one_request_at_a_time]);
      a file copied from the host is shown as it was ([copy_then_print]).
    - Shared lists: no assertion of the lists, their locks and their condition
      variables fails but the one against an item that is in the list twice
      ([synchlist_safe]), no wakeup is lost
      ([synchlist_no_lost_wakeup]), and threads come to rest
      ([synchlist_comes_to_rest]).
    - Terminals: what is read is what was typed, in order ([keyboard_in_order]), a
      thread that waits is not forgotten ([keyboard_polls]), one character is on
      its way to the display at a time ([display_one_at_a_time]).
    - Mail: a message survives the headers and the wire ([mail_round_trip]); one
      packet goes out at a time ([send_one_at_a_time]); what arrived for a box is
      what the calls of [Receive] for it return, in order ([mail_in_order]), and
      nothing is left lying ([mail_not_left]); so what is received on one machine is
      what was sent on the other, in order, unchanged and at most once
      ([mail_end_to_end]).
    - Executables: the converter puts every segment where its header says
      ([coff_to_noff]), refuses the rest ([coff_refused]), and what it made is in
      memory after loading what the compiler wrote ([coff_program_loads]).
    - System calls: they return to the instruction after the call with the registers
      kept ([syscall_returns]); numbers, strings and files survive a round trip.
    - The command line: the kernel and main read from it what was asked for
      ([command_line_read]).
    - Start and self tests: the kernel starts in a state that satisfies the invariants,
      with the first poll of every device pending ([kernel_starts]), and the tests of
      threads and semaphores pass ([self_tests_pass]).
    - Data structures: each refines its abstract counterpart ([bitmap_ops_refine],
      [list_ops_refine], [hash_table_is_map]).

    Where the code does not do what it means to, lemmas show it on concrete states
    ([JoinDemo.second_join_faults], [load_overwrites_neighbour],
    [sorted_insert_loses_items], [allocate_overruns_header], and others); the
    theorems then state the conditions under which it does.

    ** Bounds and fuel

    Loops over a counter run with [forN], which needs no fuel.  Loops over a linked
    list run with the number of cells of its heap, one step more than a list
    without a cycle needs; the list theorems show that this is enough.  The loop
    that fires interrupts gets as many turns as there are interrupts pending, which
    is enough because what a device schedules lies in the future (a law of the
    devices).  [Broadcast] signals as often as there are waiters in the queue
    ([broadcast_wakes_all]).  Copies to and from user memory are bounded by their length argument.
    No theorem has [OutOfFuel] as a possible outcome.  Statistics and the clock are
    not bounded, since they only grow.

    ** Not modelled

    The parts of switch.S for other processors than the x86, which is what the
    Makefile builds for; sysdep.cc, debug.cc and the printing of every class (calls
    of the host); progtest.cc (starts the interpreter loop); the copies of sources an editor left
    (tempCodeRunnerFile.cc); the C++ tutorial; the user programs; destructors,
    which free, unless something else depends on them.  The class [Console] at the
    end of console.cc and threads/synchcons.cc, an older console, which nothing in
    the kernel uses.  The self test of synchronised lists, which plays over two
    lists at once (SynchLists.v is about any number of threads on one), and the tests
    of the console and the network in kernel.cc, which need a person or a second
    machine.  The host's
    sockets are queues that keep order and lose nothing; what NachOS loses on
    purpose is an argument of [NetworkOutput.Send].  Exec's lookup of the
    executable and the comparison of its name with a thread's name (which is freed
    memory) are arguments of the model.  That a process table operation runs
    between semaphore operations without a switch is the granularity of
    Processes.v, justified by the kernel code there not setting the interrupt
    level. *)

(** ** Shared vocabulary *)

From Stdlib Require Export ZArith Lia.
From stdpp Require Export base numbers gmap list.

#[global] Open Scope Z_scope.
#[global] Set Default Proof Using "Type".

(** ** Outcomes of kernel code

    [ASSERT] aborts NachOS; an access outside an object is undefined in C++.
    Both are values of [res], so that "this never happens" is a statement. *)

Inductive fault : Set :=
  | AssertFailure   (** an [ASSERT] whose condition is false *)
  | MemoryFault     (** a NULL, dangling or out-of-range access *)
  | ArithFault      (** an integer division the host traps on *)
  | Blocked         (** the running thread waits for something nobody will do *)
  | OutOfFuel.      (** a loop that did not end within its bound *)

Inductive res (A : Type) : Type :=
  | Ok (a : A)
  | Fault (f : fault).
Arguments Ok {A} _.
Arguments Fault {A} _.

#[global] Instance fault_eq_dec : EqDecision fault.
Proof. solve_decision. Defined.

#[export] Instance res_ret : MRet res := @Ok.
#[export] Instance res_bind : MBind res := fun A B k m =>
  match m with Ok a => k a | Fault f => Fault f end.

(** [ASSERT(cond)], debug.h *)
Definition ASSERT (cond : bool) : res unit :=
  if cond then Ok tt else Fault AssertFailure.

(** A dereference of something that may not be there. *)
Definition deref {A} (o : option A) : res A :=
  match o with Some a => Ok a | None => Fault MemoryFault end.

Lemma bind_Ok_inv {A B} (m : res A) (k : A -> res B) b :
  m ≫= k = Ok b -> exists a, m = Ok a /\ k a = Ok b.
Proof. destruct m; simpl; [eauto | discriminate]. Qed.

Lemma ASSERT_true b : b = true -> ASSERT b = Ok tt.
Proof. by intros ->. Qed.

Lemma ASSERT_eqb x y : x = y -> ASSERT (x =? y) = Ok tt.
Proof. intros ->. by rewrite Z.eqb_refl. Qed.

Lemma ASSERT_false b : b = false -> ASSERT b = Fault AssertFailure.
Proof. by intros ->. Qed.

Lemma ASSERT_Ok_inv b u : ASSERT b = Ok u -> b = true.
Proof. by destruct b. Qed.

Lemma deref_Ok_inv {A} (o : option A) a : deref o = Ok a -> o = Some a.
Proof. destruct o; simpl; congruence. Qed.

(** [returns r Q]: the code returns (no fault), with a result in [Q]. *)
Definition returns {A} (r : res A) (Q : A -> Prop) : Prop :=
  match r with Ok a => Q a | Fault _ => False end.

Lemma returns_bind {A B} (m : res A) (k : A -> res B) (Q : B -> Prop) :
  returns m (fun a => returns (k a) Q) -> returns (m ≫= k) Q.
Proof. by destruct m. Qed.

Lemma returns_mono {A} (r : res A) (P Q : A -> Prop) :
  returns r P -> (forall a, P a -> Q a) -> returns r Q.
Proof. destruct r; simpl; auto. Qed.

Lemma returns_Ok {A} (r : res A) Q : returns r Q <-> exists a, r = Ok a /\ Q a.
Proof. destruct r; simpl; [naive_solver | split; [done | by intros (? & ? & ?)]]. Qed.

Lemma returns_ASSERT b (Q : unit -> Prop) : b = true -> Q tt -> returns (ASSERT b) Q.
Proof. by intros ->. Qed.

(** Inverts every successful monadic step of the context. *)
Ltac inv_ok :=
  repeat match goal with
  | H : _ ≫= _ = Ok _ |- _ =>
      let a := fresh "a" in let H1 := fresh "E" in let H2 := fresh "K" in
      apply bind_Ok_inv in H as (a & H1 & H2); simpl in H2
  | H : ASSERT _ = Ok _ |- _ => apply ASSERT_Ok_inv in H
  | H : deref _ = Ok _ |- _ => apply deref_Ok_inv in H
  | H : Ok _ = Ok _ |- _ => injection H as H; subst
  | H : mret _ = Ok _ |- _ => injection H as H; subst
  | H : Fault _ = Ok _ |- _ => discriminate H
  | H : (_, _) = (_, _) |- _ => injection H as ? ?; subst
  end.

(** ** Counted loops

    [for (i = start; i < start + n; i++) body], with the state threaded. *)
Fixpoint forN {St : Type} (body : nat -> St -> res St) (start n : nat) (s : St) : res St :=
  match n with
  | O => Ok s
  | S n' => s' ← body start s; forN body ((S start)) n' s'
  end.

Lemma forN_ind {St} (I : nat -> St -> Prop) body start n s :
  I start s ->
  (forall i s, (start <= i < start + n)%nat -> I i s ->
     exists s', body i s = Ok s' /\ I (S i) s') ->
  exists s', forN body start n s = Ok s' /\ I (start + n)%nat s'.
Proof.
  revert start s. induction n as [|n IH]; intros start s Hs Hstep.
  - exists s. by rewrite Nat.add_0_r.
  - destruct (Hstep start s) as (s1 & E & H1); [lia | done |].
    destruct (IH ((S start)) s1 H1) as (s2 & E2 & H2).
    + intros i s' Hi. apply Hstep. lia.
    + exists s2. simpl. rewrite E. simpl. split; [done |].
      by replace (start + S n)%nat with ((S start) + n)%nat by lia.
Qed.

(** ** C integers on the 32-bit host ([-m32])

    [u32] and [s32] are the conversions to [unsigned int] and [int];
    arithmetic that wraps is written with them at the place it wraps. *)
Definition u32 (z : Z) : Z := z mod 2 ^ 32.
Definition s32 (z : Z) : Z := (z + 2 ^ 31) mod 2 ^ 32 - 2 ^ 31.
Definition is_u32 (z : Z) : Prop := 0 <= z < 2 ^ 32.
Definition is_s32 (z : Z) : Prop := - 2 ^ 31 <= z < 2 ^ 31.

#[export] Instance is_u32_dec z : Decision (is_u32 z).
Proof. unfold is_u32. apply _. Defined.
#[export] Instance is_s32_dec z : Decision (is_s32 z).
Proof. unfold is_s32. apply _. Defined.

Lemma u32_range z : is_u32 (u32 z).
Proof. apply Z.mod_pos_bound. lia. Qed.

Lemma s32_range z : is_s32 (s32 z).
Proof. unfold is_s32, s32. pose proof (Z.mod_pos_bound (z + 2^31) (2^32)). lia. Qed.

Lemma u32_id z : is_u32 z -> u32 z = z.
Proof. intros H. by apply Z.mod_small. Qed.

Lemma s32_id z : is_s32 z -> s32 z = z.
Proof. unfold is_s32, s32. intros H. rewrite Z.mod_small; lia. Qed.

Lemma s32_u32 z : s32 (u32 z) = s32 z.
Proof. unfold s32, u32. by rewrite Zplus_mod_idemp_l. Qed.

Lemma u32_s32 z : u32 (s32 z) = u32 z.
Proof.
  unfold s32, u32. rewrite Zminus_mod_idemp_l. f_equal. lia.
Qed.

(** A signed value is its unsigned one, or that minus 2^32. *)
Lemma s32_add_l a b : s32 (s32 a + b) = s32 (a + b).
Proof.
  unfold s32. f_equal. replace ((a + 2 ^ 31) mod 2 ^ 32 - 2 ^ 31 + b + 2 ^ 31) with ((a + 2 ^ 31) mod 2 ^ 32 + b) by lia.
  rewrite Zplus_mod_idemp_l. f_equal. lia.
Qed.

Lemma s32_cases z : s32 z = u32 z \/ s32 z = u32 z - 2 ^ 32.
Proof. unfold s32, u32. Z.div_mod_to_equations. lia. Qed.

Lemma testbit_mod_pow2 z n i :
  0 <= n -> 0 <= i -> Z.testbit (z mod 2 ^ n) i = (i <? n) && Z.testbit z i.
Proof.
  intros Hn Hi. destruct (Z.ltb_spec i n).
  - by rewrite Z.mod_pow2_bits_low.
  - rewrite Z.mod_pow2_bits_high; [done | lia].
Qed.

Lemma testbit_u32 z i :
  0 <= i -> Z.testbit (u32 z) i = (i <? 32) && Z.testbit z i.
Proof. intros. by apply testbit_mod_pow2. Qed.

Lemma testbit_s32_low z i : 0 <= i < 32 -> Z.testbit (s32 z) i = Z.testbit z i.
Proof.
  intros Hi. pose proof (testbit_u32 (s32 z) i) as H1.
  pose proof (testbit_u32 z i) as H2. rewrite u32_s32 in H1.
  destruct (Z.ltb_spec i 32); simpl in *; [| lia].
  rewrite <- H1 by lia. rewrite H2 by lia. done.
Qed.

(** Low bits by mask. *)
Lemma land_mask z k : 0 <= k -> Z.land z (2 ^ k - 1) = z mod 2 ^ k.
Proof. intros. rewrite <- Z.land_ones by done. f_equal. rewrite Z.ones_equiv. lia. Qed.

Lemma land_mask_range z k : 0 <= k -> 0 <= Z.land z (2 ^ k - 1) < 2 ^ k.
Proof. intros. rewrite land_mask by done. apply Z.mod_pos_bound. lia. Qed.

(** Signed 32-bit values are those whose bits from 31 on agree. *)
Lemma is_s32_bits z : is_s32 z <-> exists b, forall i, 31 <= i -> Z.testbit z i = b.
Proof.
  split.
  - intros Hz. exists (z <? 0). intros i Hi. unfold is_s32 in Hz.
    destruct (Z.ltb_spec z 0) as [Hn|Hn].
    + rewrite <- (Z.lnot_involutive z), Z.lnot_spec by lia. apply negb_true_iff.
      apply Z.bits_above_log2; unfold Z.lnot; [lia |]. destruct (decide (Z.pred (- z) = 0)) as [E|E].
      * rewrite E. simpl. lia.
      * apply Z.log2_lt_pow2; [lia |]. assert (2 ^ 31 <= 2 ^ i) by (apply Z.pow_le_mono_r; lia). lia.
    + destruct (decide (z = 0)) as [->|E]; [apply Z.bits_0 |].
      apply Z.bits_above_log2; [lia |]. apply Z.log2_lt_pow2; [lia |].
      assert (2 ^ 31 <= 2 ^ i) by (apply Z.pow_le_mono_r; lia). lia.
  - intros [b Hb]. assert (z = if b then z mod 2 ^ 31 - 2 ^ 31 else z mod 2 ^ 31) as E.
    { assert (Z.shiftr z 31 = if b then -1 else 0) as Hs.
      { apply Z.bits_inj'. intros i Hi. rewrite Z.shiftr_spec, Hb by lia.
        destruct b; [by rewrite Z.bits_m1 | by rewrite Z.bits_0]. }
      rewrite Z.shiftr_div_pow2 in Hs by lia. pose proof (Z.div_mod z (2 ^ 31)). destruct b; lia. }
    pose proof (Z.mod_pos_bound z (2 ^ 31)). unfold is_s32. destruct b; lia.
Qed.

Lemma is_s32_land a b : is_s32 a -> is_s32 b -> is_s32 (Z.land a b).
Proof.
  rewrite !is_s32_bits. intros [x Hx] [y Hy]. exists (x && y). intros i Hi.
  by rewrite Z.land_spec, Hx, Hy.
Qed.
Lemma is_s32_lor a b : is_s32 a -> is_s32 b -> is_s32 (Z.lor a b).
Proof.
  rewrite !is_s32_bits. intros [x Hx] [y Hy]. exists (x || y). intros i Hi.
  by rewrite Z.lor_spec, Hx, Hy.
Qed.
Lemma is_s32_lxor a b : is_s32 a -> is_s32 b -> is_s32 (Z.lxor a b).
Proof.
  rewrite !is_s32_bits. intros [x Hx] [y Hy]. exists (xorb x y). intros i Hi.
  by rewrite Z.lxor_spec, Hx, Hy.
Qed.
Lemma is_s32_lnot a : is_s32 a -> is_s32 (Z.lnot a).
Proof. unfold is_s32, Z.lnot. lia. Qed.
Lemma is_s32_shiftr a n : is_s32 a -> 0 <= n -> is_s32 (Z.shiftr a n).
Proof.
  rewrite !is_s32_bits. intros [x Hx] Hn. exists x. intros i Hi.
  rewrite Z.shiftr_spec by lia. apply Hx. lia.
Qed.
Lemma is_s32_mask a k : 0 <= k <= 31 -> is_s32 (Z.land a (2 ^ k - 1)).
Proof.
  intros Hk. pose proof (land_mask_range a k). unfold is_s32.
  assert (2 ^ k <= 2 ^ 31) by (apply Z.pow_le_mono_r; lia). lia.
Qed.

(** [divRoundUp] and [divRoundDown], utility.h: C division truncates. *)
Definition divRoundDown (n s : Z) : Z := Z.quot n s.
Definition divRoundUp (n s : Z) : Z :=
  Z.quot n s + (if 0 <? Z.rem n s then 1 else 0).

Lemma divRoundUp_spec n s :
  0 <= n -> 0 < s -> n <= divRoundUp n s * s < n + s.
Proof.
  intros Hn Hs. unfold divRoundUp.
  rewrite Z.quot_div_nonneg, Z.rem_mod_nonneg by lia.
  pose proof (Z.mod_pos_bound n s Hs). pose proof (Z.div_mod n s).
  case_match; nia.
Qed.

(** ** Bytes of an [int] in memory (little endian host) *)
Definition is_byte (b : Z) : Prop := 0 <= b < 256.

#[export] Instance is_byte_dec b : Decision (is_byte b).
Proof. unfold is_byte. apply _. Defined.

(** The value of the bytes, least significant first, and the [n] low bytes of
    a value. *)
Fixpoint le_combine (bs : list Z) : Z :=
  match bs with [] => 0 | b :: bs' => b + 256 * le_combine bs' end.
Fixpoint le_split (n : nat) (v : Z) : list Z :=
  match n with O => [] | S n' => v mod 256 :: le_split n' (v / 256) end.

Lemma length_le_split n v : length (le_split n v) = n.
Proof. revert v. induction n; intros; simpl; auto. Qed.

Lemma le_split_bytes n v : Forall is_byte (le_split n v).
Proof.
  revert v. induction n; intros; simpl; constructor; auto.
  apply Z.mod_pos_bound. lia.
Qed.

Lemma le_combine_range bs :
  Forall is_byte bs -> 0 <= le_combine bs < 256 ^ Z.of_nat (length bs).
Proof.
  induction 1 as [|b bs Hb _ IH]; [simpl; lia |].
  rewrite length_cons, Nat2Z.inj_succ, Z.pow_succ_r by lia. simpl.
  unfold is_byte in Hb. lia.
Qed.

Lemma le_combine_split n v : le_combine (le_split n v) = v mod 256 ^ Z.of_nat n.
Proof.
  revert v. induction n as [|n IH]; intros v; simpl le_split; [simpl; by rewrite Z.mod_1_r |].
  simpl. rewrite IH, Nat2Z.inj_succ, Z.pow_succ_r by lia.
  rewrite Z.rem_mul_r by lia. lia.
Qed.

Lemma le_split_combine bs : Forall is_byte bs -> le_split (length bs) (le_combine bs) = bs.
Proof.
  induction 1 as [|b bs Hb _ IH]; [done |]. simpl. unfold is_byte in Hb.
  rewrite (Z.mul_comm 256), Z.mod_add, Z.div_add, Z.mod_small, Z.div_small, Z.add_0_l by lia.
  by rewrite IH.
Qed.

(** A [char] read as an [int]: plain [char] is signed on the x86 host. *)
Definition char_to_int (b : Z) : Z := if b <? 128 then b else b - 256.

(** ** Lists updated by index *)

Lemma alter_lookup {A} (f : A -> A) (l : list A) i x :
  l !! i = Some x -> alter f i l = <[i := f x]> l.
Proof. revert i. induction l; intros [|i] H; simplify_eq/=; f_equal; auto. Qed.

(** The [n] elements from index [i], and their replacement ([list_inserts]). *)
Definition slice {A} (i n : nat) (l : list A) : list A := take n (drop i l).

Lemma length_slice {A} i n (l : list A) : (i + n <= length l)%nat -> length (slice i n l) = n.
Proof. intros. unfold slice. rewrite length_take, length_drop. lia. Qed.

Lemma lookup_slice {A} i n (l : list A) j :
  slice i n l !! j = if decide (j < n)%nat then l !! (i + j)%nat else None.
Proof.
  unfold slice. case_decide; [by rewrite lookup_take_lt, lookup_drop |].
  apply lookup_take_ge. lia.
Qed.

Lemma Forall_slice {A} (P : A -> Prop) i n l : Forall P l -> Forall P (slice i n l).
Proof. intros. by apply Forall_take, Forall_drop. Qed.

Lemma lookup_inserts {A} i (k l : list A) j :
  (i + length k <= length l)%nat ->
  list_inserts i k l !! j =
  if decide (i <= j < i + length k)%nat then k !! (j - i)%nat else l !! j.
Proof.
  intros Hl. case_decide as Hj.
  - apply list_lookup_inserts; lia.
  - destruct (decide (j < i)%nat); [apply list_lookup_inserts_lt; lia |].
    apply list_lookup_inserts_ge. lia.
Qed.

Lemma slice_inserts_eq {A} i (k l : list A) :
  (i + length k <= length l)%nat -> slice i (length k) (list_inserts i k l) = k.
Proof.
  intros Hl. apply list_eq. intros j. rewrite lookup_slice, lookup_inserts by done.
  case_decide.
  - rewrite decide_True by lia. f_equal. lia.
  - symmetry. apply lookup_ge_None_2. lia.
Qed.

Lemma slice_inserts_ne {A} i (k l : list A) i' n :
  (i + length k <= length l)%nat -> (i' + n <= i \/ i + length k <= i')%nat ->
  slice i' n (list_inserts i k l) = slice i' n l.
Proof.
  intros Hl Hd. apply list_eq. intros j. rewrite !lookup_slice. case_decide; [| done].
  rewrite lookup_inserts by done. rewrite decide_False by lia. done.
Qed.

Lemma Forall_list_inserts {A} (P : A -> Prop) i k l :
  Forall P k -> Forall P l -> Forall P (list_inserts i k l).
Proof. intros Hk Hl. revert i. induction Hk; intros i; simpl; auto using Forall_insert. Qed.

Lemma slice_add {A} i m n (l : list A) : slice i (m + n) l = slice i m l ++ slice (i + m) n l.
Proof.
  apply list_eq. intros j. rewrite lookup_app. rewrite !lookup_slice.
  destruct (decide (j < m)%nat).
  - rewrite decide_True by lia. destruct (l !! (i + j)%nat) eqn:E; [done |].
    apply lookup_ge_None in E. case_decide; [| done]. symmetry. apply lookup_ge_None_2.
    unfold slice. rewrite length_take, length_drop. lia.
  - destruct (decide (i + m <= length l)%nat).
    + rewrite length_slice by lia. destruct (decide (j < m + n)%nat).
      * rewrite decide_True by lia. f_equal. lia.
      * by rewrite decide_False by lia.
    + assert (forall k, (length l <= k)%nat -> l !! k = None) as Hn by (intros; by apply lookup_ge_None_2).
      repeat case_decide; rewrite ?Hn by lia; done.
Qed.

Lemma slice_slice {A} i n a b (l : list A) :
  (a + b <= n)%nat -> slice a b (slice i n l) = slice (i + a) b l.
Proof.
  intros H. apply list_eq. intros j. rewrite !lookup_slice. case_decide; [| done].
  rewrite decide_True by lia. f_equal. lia.
Qed.

Lemma take_slice {A} n (l : list A) : take n l = slice 0 n l.
Proof. unfold slice. by rewrite drop_0. Qed.

(** Two writes side by side are one. *)
Lemma inserts_app {A} i (a b l : list A) :
  (i + length a + length b <= length l)%nat ->
  list_inserts (i + length a) b (list_inserts i a l) = list_inserts i (a ++ b) l.
Proof.
  intros H. apply list_eq. intros j.
  rewrite !lookup_inserts by (rewrite ?length_inserts, ?length_app; lia).
  rewrite length_app. repeat case_decide; try lia; try done.
  - rewrite lookup_app_r by lia. f_equal. lia.
  - rewrite lookup_app_l by lia. done.
Qed.

(** Concatenations of blocks of one size. *)
Section blocks.
Context {A : Type} (k : nat).
Implicit Types bss : list (list A).
#[local] Abbreviation sized bss := (Forall (fun b => length b = k) bss).

Lemma length_concat_blocks bss : sized bss -> length (concat bss) = (k * length bss)%nat.
Proof.
  induction 1 as [|b bss Hb _ IH]; simpl; [lia |]. rewrite length_app, IH, Hb. lia.
Qed.

Lemma slice_concat bss i b : sized bss -> bss !! i = Some b -> slice (k * i) k (concat bss) = b.
Proof.
  revert i. induction bss as [|c bss IH]; intros [|i] Hs Hi; simplify_eq/=;
    apply Forall_cons in Hs as [Hc Hs].
  - unfold slice. rewrite Nat.mul_0_r, drop_0. apply take_app_length'. done.
  - unfold slice. rewrite drop_app_ge by lia.
    replace (k * S i - length c)%nat with (k * i)%nat by lia. by apply IH.
Qed.

Lemma concat_insert bss i b :
  sized bss -> length b = k -> (i < length bss)%nat ->
  concat (<[i := b]> bss) = list_inserts (k * i) b (concat bss).
Proof.
  revert i. induction bss as [|c bss IH]; intros i Hs Hb Hi; simpl in Hi; [lia |].
  apply Forall_cons in Hs as [Hc Hs]. pose proof (length_concat_blocks bss Hs) as Hl.
  destruct i as [|i]; simpl.
  - rewrite Nat.mul_0_r. apply list_eq. intros j.
    rewrite lookup_inserts by (rewrite length_app; lia). case_decide.
    + rewrite lookup_app_l by lia. f_equal. lia.
    + rewrite !lookup_app_r by lia. f_equal. lia.
  - assert (k * S i <= k * length bss)%nat by (apply Nat.mul_le_mono_l; lia).
    rewrite IH by (done || lia). apply list_eq. intros j.
    rewrite lookup_inserts by (rewrite length_app; lia).
    destruct (decide (j < length c)%nat).
    + rewrite !lookup_app_l by lia. by rewrite decide_False by lia.
    + rewrite !lookup_app_r by lia. rewrite lookup_inserts by lia.
      repeat case_decide; try lia; [| done]. f_equal. lia.
Qed.
End blocks.

Lemma le_split_mod n v : le_split n (v mod 256 ^ Z.of_nat n) = le_split n v.
Proof.
  rewrite <- le_combine_split. rewrite <- (length_le_split n v) at 1.
  apply le_split_combine, le_split_bytes.
Qed.

Create HintDb nachos discriminated.
#[export] Hint Resolve u32_range s32_range is_s32_land is_s32_lor is_s32_lxor is_s32_lnot
  is_s32_shiftr : nachos.
Create Rewrite HintDb nachos_rw.
#[export] Hint Rewrite s32_u32 u32_s32 : nachos_rw.
