(* ===== verification/Bitmap.v ===== *)
(** * Bitmap: lib/bitmap.h, lib/bitmap.cc

    The bitmap is an array of 32-bit words; the abstract state is the list of
    its bits ([bits]).  Every operation is shown to implement its abstract
    counterpart, and the [SlotMap] interface states what the clients
    (file headers, process and semaphore tables, frame allocation) rely on. *)

From S2P Require Import Prelude.

(** ** The interface of a slot allocator

    [slots t] lists, for every slot, whether it is in use. *)
Class SlotMap (T : Type) := {
  slots_wf : T -> Prop;
  slots : T -> list bool;
  slot_test : T -> Z -> res bool;
  slot_mark : T -> Z -> res T;
  slot_clear : T -> Z -> res T;
  slot_find_and_set : T -> res (Z * T);
  slot_num_clear : T -> res Z;
}.

(** Position of the first unused slot. *)
Fixpoint first_clear (l : list bool) : option nat :=
  match l with
  | [] => None
  | false :: _ => Some O
  | true :: l' => S <$> first_clear l'
  end.

Fixpoint count_clear (l : list bool) : nat :=
  match l with
  | [] => O
  | b :: l' => ((if b then 0 else 1) + count_clear l')%nat
  end.

Class SlotMapLaws (T : Type) `{SlotMap T} : Prop := {
  slot_test_law t i b : slots_wf t -> slots t !! i = Some b ->
    slot_test t (Z.of_nat i) = Ok b;
  slot_test_oob t z : slots_wf t -> ~ (0 <= z < Z.of_nat (length (slots t))) ->
    slot_test t z = Fault AssertFailure;
  slot_mark_law t i : slots_wf t -> (i < length (slots t))%nat ->
    exists t', slot_mark t (Z.of_nat i) = Ok t' /\ slots_wf t' /\
               slots t' = <[i := true]> (slots t);
  slot_clear_law t i : slots_wf t -> (i < length (slots t))%nat ->
    exists t', slot_clear t (Z.of_nat i) = Ok t' /\ slots_wf t' /\
               slots t' = <[i := false]> (slots t);
  slot_find_law t : slots_wf t ->
    match first_clear (slots t) with
    | Some i => exists t', slot_find_and_set t = Ok (Z.of_nat i, t') /\
                  slots_wf t' /\ slots t' = <[i := true]> (slots t)
    | None => slot_find_and_set t = Ok (-1, t)
    end;
  slot_num_law t : slots_wf t ->
    slot_num_clear t = Ok (Z.of_nat (count_clear (slots t)));
}.

(** ** The implementation *)
Module Bitmap.

Definition BitsInByte : Z := 8.
Definition BitsInWord : Z := 4 * BitsInByte.

Record t := mk {
  numBits : Z;
  numWords : Z;
  map : list Z;      (** [unsigned int *map] *)
}.

(** [1 << k], an [int] used in an unsigned expression. *)
Definition bit_mask (k : Z) : Z := s32 (Z.shiftl 1 k).

Definition in_range (bm : t) (which : Z) : bool :=
  (0 <=? which) && (which <? numBits bm).

Definition word_index (which : Z) : nat := Z.to_nat (Z.quot which BitsInWord).

Definition Test (bm : t) (which : Z) : res bool :=
  _ ← ASSERT (in_range bm which);
  w ← deref (map bm !! word_index which);
  Ok (if Z.land w (u32 (bit_mask (Z.rem which BitsInWord))) =? 0
      then false else true).

Definition set_word (bm : t) (which w : Z) : t :=
  mk (numBits bm) (numWords bm) (<[word_index which := w]> (map bm)).

Definition Mark (bm : t) (which : Z) : res t :=
  _ ← ASSERT (in_range bm which);
  w ← deref (map bm !! word_index which);
  let bm' := set_word bm which
               (Z.lor w (u32 (bit_mask (Z.rem which BitsInWord)))) in
  b ← Test bm' which;
  _ ← ASSERT b;
  Ok bm'.

Definition Clear (bm : t) (which : Z) : res t :=
  _ ← ASSERT (in_range bm which);
  w ← deref (map bm !! word_index which);
  let bm' := set_word bm which
               (Z.land w (u32 (Z.lnot (bit_mask (Z.rem which BitsInWord))))) in
  b ← Test bm' which;
  _ ← ASSERT (negb b);
  Ok bm'.

(** [Bitmap::Bitmap]; the words are set to 0, then every bit is cleared. *)
Definition create (numItems : Z) : res t :=
  _ ← ASSERT (0 <? numItems);
  let nw := divRoundUp numItems BitsInWord in
  let bm := mk numItems nw (replicate (Z.to_nat nw) 0) in
  forN (fun i bm => Clear bm (Z.of_nat i)) 0 (Z.to_nat numItems) bm.

(** The search loop of [FindAndSet], from bit [i] with [n] bits left. *)
Fixpoint find_loop (bm : t) (i : Z) (n : nat) : res (Z * t) :=
  match n with
  | O => Ok (-1, bm)
  | S n' =>
      b ← Test bm i;
      if negb b then bm' ← Mark bm i; Ok (i, bm')
      else find_loop bm (i + 1) n'
  end.

Definition FindAndSet (bm : t) : res (Z * t) :=
  find_loop bm 0 (Z.to_nat (numBits bm)).

Definition NumClear (bm : t) : res Z :=
  forN (fun i count =>
          b ← Test bm (Z.of_nat i);
          Ok (if negb b then count + 1 else count))
       0 (Z.to_nat (numBits bm)) 0.

(** [Bitmap::Print] writes the numbers of the bits that are set. *)
Definition Print (bm : t) : res (list Z) :=
  forN (fun i out =>
          b ← Test bm (Z.of_nat i);
          Ok (if b : bool then out ++ [Z.of_nat i] else out))
       0 (Z.to_nat (numBits bm)) [].

Definition SelfTest (bm : t) : res t :=
  _ ← ASSERT (BitsInWord <=? numBits bm);
  c ← NumClear bm;
  _ ← ASSERT (c =? numBits bm);
  '(r, bm) ← FindAndSet bm;
  _ ← ASSERT (r =? 0);
  bm ← Mark bm 31;
  b0 ← Test bm 0;
  b31 ← Test bm 31;
  _ ← ASSERT (b0 && b31);
  '(r, bm) ← FindAndSet bm;
  _ ← ASSERT (r =? 1);
  bm ← Clear bm 0;
  bm ← Clear bm 1;
  bm ← Clear bm 31;
  bm ← forN (fun i bm => Mark bm (Z.of_nat i)) 0 (Z.to_nat (numBits bm)) bm;
  '(r, bm) ← FindAndSet bm;
  _ ← ASSERT (r =? -1);
  forN (fun i bm => Clear bm (Z.of_nat i)) 0 (Z.to_nat (numBits bm)) bm.

(** ** Well-formedness and the abstract bits *)

Record wf (bm : t) : Prop := {
  wf_pos : 0 < numBits bm;
  wf_words : numWords bm = divRoundUp (numBits bm) BitsInWord;
  wf_len : Z.of_nat (length (map bm)) = numWords bm;
  wf_u32 : Forall is_u32 (map bm);
}.

Definition bit (bm : t) (i : nat) : bool :=
  Z.testbit (nth (i / 32) (map bm) 0) (Z.of_nat (i mod 32)).

Definition bits (bm : t) : list bool :=
  bit bm <$> seq 0 (Z.to_nat (numBits bm)).

Lemma length_bits bm : length (bits bm) = Z.to_nat (numBits bm).
Proof. unfold bits. by rewrite length_fmap, length_seq. Qed.

Lemma lookup_bits bm i :
  (i < Z.to_nat (numBits bm))%nat -> bits bm !! i = Some (bit bm i).
Proof.
  intros Hi. unfold bits. rewrite list_lookup_fmap, lookup_seq_lt by done. done.
Qed.

Lemma lookup_bits_Some bm i b :
  bits bm !! i = Some b <-> (i < Z.to_nat (numBits bm))%nat /\ bit bm i = b.
Proof.
  split.
  - intros H. pose proof (lookup_lt_Some _ _ _ H) as Hl.
    rewrite length_bits in Hl. rewrite lookup_bits in H by done.
    split; congruence.
  - intros [Hi <-]. by apply lookup_bits.
Qed.

Lemma word_index_nat i : word_index (Z.of_nat i) = (i / 32)%nat.
Proof.
  unfold word_index. change BitsInWord with 32.
  rewrite Z.quot_div_nonneg by lia.
  change 32 with (Z.of_nat 32). rewrite <- Nat2Z.inj_div. lia.
Qed.

Lemma bit_index_nat i : Z.rem (Z.of_nat i) BitsInWord = Z.of_nat (i mod 32).
Proof.
  change BitsInWord with (Z.of_nat 32). rewrite Z.rem_mod_nonneg by lia.
  by rewrite <- Nat2Z.inj_mod.
Qed.

Lemma testbit_mask k i :
  0 <= k < 32 -> 0 <= i -> Z.testbit (u32 (bit_mask k)) i = (i =? k).
Proof.
  intros Hk Hi. unfold bit_mask. rewrite u32_s32, testbit_u32 by lia.
  rewrite Z.shiftl_1_l, Z.pow2_bits_eqb by lia.
  destruct (Z.ltb_spec i 32), (Z.eqb_spec i k), (Z.eqb_spec k i); simpl; lia || done.
Qed.

Lemma testbit_notmask k i :
  0 <= k < 32 -> 0 <= i < 32 ->
  Z.testbit (u32 (Z.lnot (bit_mask k))) i = negb (i =? k).
Proof.
  intros Hk Hi. rewrite testbit_u32 by lia.
  destruct (Z.ltb_spec i 32); [| lia]. simpl. rewrite Z.lnot_spec by lia. f_equal.
  rewrite <- (testbit_mask k i) by lia. rewrite testbit_u32 by lia.
  destruct (Z.ltb_spec i 32); [done | lia].
Qed.

Lemma land_mask_eqb w k :
  0 <= k < 32 -> (Z.land w (u32 (bit_mask k)) =? 0) = negb (Z.testbit w k).
Proof.
  intros Hk.
  assert (Z.land w (u32 (bit_mask k)) = if Z.testbit w k then 2 ^ k else 0) as ->.
  { apply Z.bits_inj'. intros i Hi. rewrite Z.land_spec, testbit_mask by lia.
    destruct (Z.eqb_spec i k) as [->|Hne].
    - rewrite andb_true_r. destruct (Z.testbit w k);
        [by rewrite Z.pow2_bits_true by lia | by rewrite Z.bits_0].
    - rewrite andb_false_r. destruct (Z.testbit w k);
        [by rewrite Z.pow2_bits_false by lia | by rewrite Z.bits_0]. }
  destruct (Z.testbit w k); simpl; [| done].
  apply Z.eqb_neq. pose proof (Z.pow_pos_nonneg 2 k). lia.
Qed.

Lemma mod32_range i : 0 <= Z.of_nat (i mod 32) < 32.
Proof. pose proof (Nat.mod_upper_bound i 32). lia. Qed.

(** The word that holds bit [i] exists. *)
Lemma word_lookup bm i :
  wf bm -> (i < Z.to_nat (numBits bm))%nat ->
  map bm !! (i / 32)%nat = Some (nth (i / 32) (map bm) 0) /\
  is_u32 (nth (i / 32) (map bm) 0).
Proof.
  intros [Hpos Hw Hl Hu] Hi.
  assert (i / 32 < length (map bm))%nat as Hlt.
  { pose proof (divRoundUp_spec (numBits bm) 32 ltac:(lia) ltac:(lia)) as Hd.
    change 32 with BitsInWord in Hd at 1. rewrite <- Hw, <- Hl in Hd.
    apply Nat.Div0.div_lt_upper_bound. lia. }
  pose proof (lookup_lt_is_Some_2 _ _ Hlt) as [w Hlk].
  rewrite (nth_lookup_Some _ _ 0 _ Hlk). split; [done |].
  by eapply Forall_lookup_1 in Hu.
Qed.

Lemma in_range_nat bm i :
  (i < Z.to_nat (numBits bm))%nat -> in_range bm (Z.of_nat i) = true.
Proof. intros. unfold in_range. lia. Qed.

Lemma Test_spec bm i :
  wf bm -> (i < Z.to_nat (numBits bm))%nat -> Test bm (Z.of_nat i) = Ok (bit bm i).
Proof.
  intros Hwf Hi. unfold Test. rewrite in_range_nat by done. simpl.
  rewrite word_index_nat, bit_index_nat.
  destruct (word_lookup bm i Hwf Hi) as [-> _]. simpl.
  rewrite land_mask_eqb by apply mod32_range. unfold bit.
  by destruct (Z.testbit _ _).
Qed.

Lemma wf_set_word bm i w :
  wf bm -> is_u32 w -> wf (set_word bm (Z.of_nat i) w).
Proof.
  intros [Hp Hw Hl Hu] Hw32. split; simpl; try done.
  - by rewrite length_insert.
  - by apply Forall_insert.
Qed.

(** Reading bit [j] after bit [i]'s word has become [w]. *)
Lemma bit_set_word bm i j w :
  wf bm -> (i < Z.to_nat (numBits bm))%nat ->
  bit (set_word bm (Z.of_nat i) w) j =
  if decide (j / 32 = i / 32)%nat then Z.testbit w (Z.of_nat (j mod 32)) else bit bm j.
Proof.
  intros Hwf Hi. unfold bit, set_word. simpl. rewrite word_index_nat.
  destruct (word_lookup bm i Hwf Hi) as [Hlk _].
  pose proof (lookup_lt_Some _ _ _ Hlk) as Hlt. case_decide as Heq.
  - rewrite Heq. erewrite nth_lookup_Some; [done |].
    by apply list_lookup_insert_eq.
  - by rewrite !nth_lookup, list_lookup_insert_ne by done.
Qed.

Lemma same_bit i j : (j / 32 = i / 32 -> j mod 32 = i mod 32 -> j = i)%nat.
Proof.
  intros Hd Hm. rewrite (Nat.div_mod_eq j 32), (Nat.div_mod_eq i 32). lia.
Qed.

(** Storing [w] stores the bit [b] at [i] and no other, when [w] differs from
    the old word in that bit only. *)
Lemma bits_set_word bm i w b :
  wf bm -> (i < Z.to_nat (numBits bm))%nat ->
  (forall k, 0 <= k < 32 -> Z.testbit w k =
     if k =? Z.of_nat (i mod 32) then b
     else Z.testbit (nth (i / 32) (map bm) 0) k) ->
  bits (set_word bm (Z.of_nat i) w) = <[i := b]> (bits bm).
Proof.
  intros Hwf Hi Hw. apply list_eq. intros j.
  destruct (decide (j < Z.to_nat (numBits bm))%nat) as [Hj|Hj].
  - rewrite lookup_bits by done. rewrite bit_set_word by done.
    pose proof (mod32_range j) as Hr.
    destruct (decide (i = j)) as [->|Hne].
    + rewrite list_lookup_insert_eq by (rewrite length_bits; done).
      rewrite decide_True by done. rewrite Hw, Z.eqb_refl by done. done.
    + rewrite list_lookup_insert_ne, lookup_bits by done. f_equal.
      case_decide as Hd; [| done]. rewrite Hw by done.
      destruct (Z.eqb_spec (Z.of_nat (j mod 32)) (Z.of_nat (i mod 32))) as [He|He].
      * exfalso. apply Hne. symmetry. apply same_bit; lia.
      * unfold bit. by rewrite Hd.
  - rewrite !lookup_ge_None_2; [done | |]; rewrite ?length_insert, length_bits; simpl; lia.
Qed.

Lemma is_u32_land a b : is_u32 a -> is_u32 b -> is_u32 (Z.land a b).
Proof.
  unfold is_u32. intros Ha Hb. split; [apply Z.land_nonneg; lia |].
  destruct (Z.eq_dec (Z.land a b) 0) as [->|Hn]; [lia |].
  apply Z.log2_lt_pow2; [pose proof (proj2 (Z.land_nonneg a b)); lia |].
  pose proof (Z.log2_land a b). pose proof (Z.log2_lt_pow2 a 32).
  pose proof (Z.log2_nonneg a).
  destruct (Z.eq_dec a 0) as [->|]; [rewrite Z.land_0_l in Hn; lia |].
  lia.
Qed.

Lemma is_u32_lor a b : is_u32 a -> is_u32 b -> is_u32 (Z.lor a b).
Proof.
  unfold is_u32. intros Ha Hb. split; [apply Z.lor_nonneg; lia |].
  destruct (Z.eq_dec (Z.lor a b) 0) as [->|Hn]; [lia |].
  apply Z.log2_lt_pow2; [pose proof (proj2 (Z.lor_nonneg a b)); lia |].
  rewrite Z.log2_lor by lia.
  pose proof (Z.log2_lt_pow2 a 32). pose proof (Z.log2_lt_pow2 b 32).
  destruct (Z.eq_dec a 0) as [->|], (Z.eq_dec b 0) as [->|]; simpl in *; lia.
Qed.

Lemma Mark_spec bm i :
  wf bm -> (i < Z.to_nat (numBits bm))%nat ->
  exists bm', Mark bm (Z.of_nat i) = Ok bm' /\ wf bm' /\
              numBits bm' = numBits bm /\ bits bm' = <[i := true]> (bits bm).
Proof.
  intros Hwf Hi. unfold Mark. rewrite in_range_nat by done. simpl.
  rewrite word_index_nat, bit_index_nat.
  destruct (word_lookup bm i Hwf Hi) as [-> Hu]. simpl.
  set (w := Z.lor _ _). set (bm' := set_word _ _ _).
  assert (wf bm') as Hwf' by
    (apply wf_set_word; [done | apply is_u32_lor; auto with nachos]).
  assert (bits bm' = <[i := true]> (bits bm)) as Hb.
  { apply bits_set_word; [done..|]. intros k Hk. unfold w.
    rewrite Z.lor_spec, testbit_mask by (pose proof (mod32_range i); lia).
    destruct (_ =? _); [apply orb_true_r | apply orb_false_r]. }
  assert (bit bm' i = true) as Hbit.
  { pose proof (lookup_bits bm' i Hi) as Hlk. rewrite Hb in Hlk.
    rewrite list_lookup_insert_eq in Hlk by (rewrite length_bits; done).
    congruence. }
  rewrite Test_spec by done. simpl. rewrite Hbit. simpl. eauto.
Qed.

Lemma Clear_spec bm i :
  wf bm -> (i < Z.to_nat (numBits bm))%nat ->
  exists bm', Clear bm (Z.of_nat i) = Ok bm' /\ wf bm' /\
              numBits bm' = numBits bm /\ bits bm' = <[i := false]> (bits bm).
Proof.
  intros Hwf Hi. unfold Clear. rewrite in_range_nat by done. simpl.
  rewrite word_index_nat, bit_index_nat.
  destruct (word_lookup bm i Hwf Hi) as [-> Hu]. simpl.
  set (w := Z.land _ _). set (bm' := set_word _ _ _).
  assert (wf bm') as Hwf' by
    (apply wf_set_word; [done | apply is_u32_land; auto with nachos]).
  assert (bits bm' = <[i := false]> (bits bm)) as Hb.
  { apply bits_set_word; [done..|]. intros k Hk. unfold w.
    rewrite Z.land_spec, testbit_notmask by (pose proof (mod32_range i); lia).
    destruct (_ =? _); [apply andb_false_r | apply andb_true_r]. }
  assert (bit bm' i = false) as Hbit.
  { pose proof (lookup_bits bm' i Hi) as Hlk. rewrite Hb in Hlk.
    rewrite list_lookup_insert_eq in Hlk by (rewrite length_bits; done).
    congruence. }
  rewrite Test_spec by done. simpl. rewrite Hbit. simpl. eauto.
Qed.

(** ** The search and counting loops *)

Lemma first_clear_Some l i :
  first_clear l = Some i ->
  l !! i = Some false /\ (forall j, (j < i)%nat -> l !! j = Some true).
Proof.
  revert i. induction l as [|[] l IH]; intros i; simpl; intros H; [done | |].
  - destruct (first_clear l) as [k|]; simplify_eq/=.
    destruct (IH k eq_refl) as [H1 H2]. split; [done |].
    intros [|j] Hj; [done |]. apply H2. lia.
  - simplify_eq/=. split; [done |]. lia.
Qed.

Lemma find_loop_spec bm l i :
  wf bm -> bits bm = take i (bits bm) ++ l -> length (take i (bits bm)) = i ->
  match first_clear l with
  | Some k => exists bm', find_loop bm (Z.of_nat i) (length l) = Ok (Z.of_nat (i + k), bm') /\
                wf bm' /\ numBits bm' = numBits bm /\
                bits bm' = <[(i + k)%nat := true]> (bits bm)
  | None => find_loop bm (Z.of_nat i) (length l) = Ok (-1, bm)
  end.
Proof.
  intros Hwf. revert i. induction l as [|b l IH]; intros i Hl Hi; [done |].
  assert (bits bm !! i = Some b) as Hb.
  { rewrite Hl, lookup_app_r by lia. by rewrite Hi, Nat.sub_diag. }
  pose proof (proj1 (lookup_bits_Some _ _ _) Hb) as [Hlt Hbit].
  cbn [length find_loop]. rewrite Test_spec, Hbit by done. simpl.
  destruct b; simpl.
  - specialize (IH (S i)). rewrite (take_S_r _ _ _ Hb) in IH.
    rewrite length_app, Hi in IH. simpl in IH.
    replace (Z.of_nat i + 1) with (Z.of_nat (S i)) by lia.
    rewrite <- app_assoc in IH. simpl in IH. specialize (IH Hl ltac:(lia)).
    destruct (first_clear l) as [k|]; simpl; [| done].
    by replace (i + S k)%nat with (S i + k)%nat by lia.
  - rewrite Nat.add_0_r. destruct (Mark_spec bm i Hwf Hlt) as (bm' & -> & H).
    simpl. eauto.
Qed.

Lemma FindAndSet_spec bm :
  wf bm ->
  match first_clear (bits bm) with
  | Some i => exists bm', FindAndSet bm = Ok (Z.of_nat i, bm') /\ wf bm' /\
                numBits bm' = numBits bm /\ bits bm' = <[i := true]> (bits bm)
  | None => FindAndSet bm = Ok (-1, bm)
  end.
Proof.
  intros Hwf. unfold FindAndSet. rewrite <- length_bits.
  by apply (find_loop_spec bm (bits bm) 0).
Qed.

Lemma count_clear_app l k :
  count_clear (l ++ k) = (count_clear l + count_clear k)%nat.
Proof. induction l as [|b l IH]; simpl; [done |]. rewrite IH. lia. Qed.

(** A loop that reads the bits in order and folds them into its state. *)
Lemma fold_bits_spec {St} (body : nat -> St -> res St) (I : list bool -> St -> Prop) bm s :
  wf bm -> I [] s ->
  (forall i s b, bits bm !! i = Some b -> I (take i (bits bm)) s ->
     exists s', body i s = Ok s' /\ I (take i (bits bm) ++ [b]) s') ->
  exists s', forN body 0 (Z.to_nat (numBits bm)) s = Ok s' /\ I (bits bm) s'.
Proof.
  intros Hwf H0 Hstep. rewrite <- length_bits.
  destruct (forN_ind (fun i s => I (take i (bits bm)) s) body 0 (length (bits bm)) s)
    as (s' & E & HI); [done | |].
  - intros i s1 Hi HI. destruct (lookup_lt_is_Some_2 (bits bm) i) as [b Hb]; [lia |].
    destruct (Hstep i s1 b Hb HI) as (s2 & E2 & H2). exists s2. split; [done |].
    by rewrite (take_S_r _ _ _ Hb).
  - exists s'. split; [done |]. simpl in HI. by rewrite take_ge in HI by lia.
Qed.

Lemma NumClear_spec bm :
  wf bm -> NumClear bm = Ok (Z.of_nat (count_clear (bits bm))).
Proof.
  intros Hwf. unfold NumClear.
  match goal with |- forN ?f _ _ _ = _ =>
    destruct (fold_bits_spec f (fun l c => c = Z.of_nat (count_clear l)) bm 0 Hwf)
      as (c & -> & ->); [done | | done] end.
  intros i c b Hb ->. apply lookup_bits_Some in Hb as [Hi Hb].
  rewrite Test_spec, Hb by done. simpl. eexists. split; [done |].
  rewrite count_clear_app. destruct b; simpl; lia.
Qed.

(** The set bits, in order. *)
Fixpoint set_positions (i : Z) (l : list bool) : list Z :=
  match l with
  | [] => []
  | b :: l' => (if b then [i] else []) ++ set_positions (i + 1) l'
  end.

Lemma set_positions_app i l k :
  set_positions i (l ++ k) =
  set_positions i l ++ set_positions (i + Z.of_nat (length l)) k.
Proof.
  revert i. induction l as [|b l IH]; intros i; simpl; [f_equal; lia |].
  rewrite IH, app_assoc. do 2 f_equal. lia.
Qed.

Lemma Print_spec bm : wf bm -> Print bm = Ok (set_positions 0 (bits bm)).
Proof.
  intros Hwf. unfold Print.
  match goal with |- forN ?f _ _ _ = _ =>
    destruct (fold_bits_spec f (fun l out => out = set_positions 0 l) bm [] Hwf)
      as (c & -> & ->); [done | | done] end.
  intros i c b Hb ->. pose proof (lookup_lt_Some _ _ _ Hb) as Hlen.
  apply lookup_bits_Some in Hb as [Hi Hb].
  rewrite Test_spec, Hb by done. simpl. eexists. split; [done |].
  rewrite set_positions_app, length_take_le by lia. simpl.
  destruct b; [done | by rewrite app_nil_r].
Qed.

(** A loop that stores [b] in every bit. *)
Lemma set_all_spec (op : t -> Z -> res t) b bm :
  (forall bm i, wf bm -> (i < Z.to_nat (numBits bm))%nat ->
     exists bm', op bm (Z.of_nat i) = Ok bm' /\ wf bm' /\
       numBits bm' = numBits bm /\ bits bm' = <[i := b]> (bits bm)) ->
  wf bm ->
  exists bm', forN (fun i bm => op bm (Z.of_nat i)) 0 (Z.to_nat (numBits bm)) bm = Ok bm' /\
    wf bm' /\ numBits bm' = numBits bm /\
    bits bm' = replicate (Z.to_nat (numBits bm)) b.
Proof.
  intros Hop Hwf. set (n := Z.to_nat (numBits bm)).
  destruct (forN_ind (fun i bm' => wf bm' /\ numBits bm' = numBits bm /\
     bits bm' = replicate i b ++ drop i (bits bm))
     (fun i bm => op bm (Z.of_nat i)) 0 n bm) as (bm' & E & Hwf' & Hn & Hb).
  - by rewrite drop_0.
  - intros i bm1 Hi (Hwf1 & Hn1 & Hb1).
    destruct (Hop bm1 i Hwf1) as (bm2 & E2 & Hwf2 & Hn2 & Hb2); [rewrite Hn1; lia |].
    exists bm2. split; [done |]. split; [done |]. split; [congruence |].
    rewrite Hb2, Hb1.
    destruct (lookup_lt_is_Some_2 (bits bm) i) as [c Hc]; [rewrite length_bits; lia |].
    rewrite (drop_S _ _ _ Hc), insert_app_r_alt by (rewrite length_replicate; lia).
    rewrite length_replicate, Nat.sub_diag.
    by rewrite replicate_S_end, <- app_assoc.
  - exists bm'. split; [done |]. split_and!; [done..|]. rewrite Hb.
    simpl. rewrite drop_ge, app_nil_r by (rewrite length_bits; done). done.
Qed.

Lemma create_spec n :
  0 < n ->
  exists bm, create n = Ok bm /\ wf bm /\ numBits bm = n /\
             bits bm = replicate (Z.to_nat n) false.
Proof.
  intros Hn. unfold create. rewrite (ASSERT_true (0 <? n)) by lia. simpl.
  set (bm := mk _ _ _).
  assert (wf bm) as Hwf.
  { pose proof (divRoundUp_spec n BitsInWord ltac:(lia) ltac:(done)) as Hd.
    split; simpl; [done | done | |].
    - rewrite length_replicate. change BitsInWord with 32 in *. lia.
    - apply Forall_replicate. unfold is_u32. lia. }
  exact (set_all_spec Clear false bm Clear_spec Hwf).
Qed.

(** The [SlotMap] interface is discharged by the bitmap. *)
#[global] Instance slot_map : SlotMap t := {|
  slots_wf := wf; slots := bits; slot_test := Test; slot_mark := Mark;
  slot_clear := Clear; slot_find_and_set := FindAndSet; slot_num_clear := NumClear
|}.

Lemma Test_oob bm which :
  ~ (0 <= which < numBits bm) -> Test bm which = Fault AssertFailure.
Proof. intros H. unfold Test, in_range. by rewrite ASSERT_false by lia. Qed.

#[global] Instance slot_map_laws : SlotMapLaws t.
Proof.
  split; simpl; intros bm.
  - intros i b Hwf Hb. apply lookup_bits_Some in Hb as [Hi <-]. by apply Test_spec.
  - intros z Hwf. rewrite length_bits. pose proof (wf_pos bm Hwf).
    intros Hz. apply Test_oob. lia.
  - intros i Hwf. rewrite length_bits. intros Hi.
    destruct (Mark_spec bm i Hwf Hi) as (bm' & ? & ? & ? & ?). eauto.
  - intros i Hwf. rewrite length_bits. intros Hi.
    destruct (Clear_spec bm i Hwf Hi) as (bm' & ? & ? & ? & ?). eauto.
  - intros Hwf. pose proof (FindAndSet_spec bm Hwf) as H.
    destruct (first_clear (bits bm)); [| done].
    destruct H as (bm' & ? & ? & ? & ?). eauto.
  - apply NumClear_spec.
Qed.

Lemma first_clear_None l : first_clear l = None <-> Forall (eq true) l.
Proof.
  induction l as [|[] l IH]; simpl.
  - split; [constructor | done].
  - rewrite fmap_None, IH. split; [by constructor | by inversion 1].
  - split; [done | by inversion 1].
Qed.

Lemma count_clear_insert l i :
  l !! i = Some false -> count_clear (<[i := true]> l) = (count_clear l - 1)%nat /\
                         (0 < count_clear l)%nat.
Proof.
  revert i. induction l as [|b l IH]; intros [|i] H; simplify_eq/=; [lia |].
  destruct (IH i H) as [-> Hp]. lia.
Qed.

Lemma count_clear_full l : Forall (eq true) l -> count_clear l = O.
Proof. induction 1 as [|? ? <- _ IH]; simpl; lia. Qed.

(** The specifications with the index as the [int] it is. *)
Lemma Mark_specZ bm z :
  wf bm -> 0 <= z < numBits bm ->
  exists bm', Mark bm z = Ok bm' /\ wf bm' /\ numBits bm' = numBits bm /\
              bits bm' = <[Z.to_nat z := true]> (bits bm).
Proof.
  intros Hwf Hz. destruct (Mark_spec bm (Z.to_nat z) Hwf) as (bm' & E & H); [lia |].
  rewrite Z2Nat.id in E by lia. eauto.
Qed.

Lemma Clear_specZ bm z :
  wf bm -> 0 <= z < numBits bm ->
  exists bm', Clear bm z = Ok bm' /\ wf bm' /\ numBits bm' = numBits bm /\
              bits bm' = <[Z.to_nat z := false]> (bits bm).
Proof.
  intros Hwf Hz. destruct (Clear_spec bm (Z.to_nat z) Hwf) as (bm' & E & H); [lia |].
  rewrite Z2Nat.id in E by lia. eauto.
Qed.

Lemma Test_specZ bm z b :
  wf bm -> 0 <= z -> bits bm !! Z.to_nat z = Some b -> Test bm z = Ok b.
Proof.
  intros Hwf Hz Hb. apply lookup_bits_Some in Hb as [Hi <-].
  rewrite <- (Test_spec bm (Z.to_nat z)) by done. f_equal. lia.
Qed.

Lemma count_clear_replicate n : count_clear (replicate n false) = n.
Proof. induction n as [|n IH]; simpl; [done | by rewrite IH]. Qed.

(** The first clear bit of the two states [SelfTest] searches. *)
Lemma first_clear_start n :
  (2 <= n)%nat -> first_clear (replicate n false) = Some 0%nat.
Proof. destruct n; [lia | done]. Qed.

Lemma first_clear_second n :
  (2 <= n)%nat -> first_clear (<[31%nat := true]> (<[0%nat := true]> (replicate n false))) = Some 1%nat.
Proof. destruct n as [|[|n]]; [lia..| done]. Qed.

(** ** Properties *)

(** On a well-formed bitmap, [Test], [Mark] and [Clear] of an index in
    range succeed, read or write exactly that bit and keep the bitmap
    well formed; an index out of range fails the [ASSERT] in all three. *)
Theorem bitmap_ops_refine bm which :
  wf bm ->
  if in_range bm which then
    let i := Z.to_nat which in
    exists bm1 bm0,
      Test bm which = Ok (nth i (bits bm) false) /\
      Mark bm which = Ok bm1 /\ wf bm1 /\ bits bm1 = <[i := true]> (bits bm) /\
      Clear bm which = Ok bm0 /\ wf bm0 /\ bits bm0 = <[i := false]> (bits bm)
  else
    Test bm which = Fault AssertFailure /\ Mark bm which = Fault AssertFailure /\
    Clear bm which = Fault AssertFailure.
Proof.
  intros Hwf. destruct (in_range bm which) eqn:Hr; simpl.
  - assert (exists i, which = Z.of_nat i /\ (i < Z.to_nat (numBits bm))%nat)
      as (i & -> & Hi) by (exists (Z.to_nat which); unfold in_range in Hr; lia).
    rewrite Nat2Z.id.
    destruct (Mark_spec bm i Hwf Hi) as (bm1 & ? & ? & ? & ?).
    destruct (Clear_spec bm i Hwf Hi) as (bm0 & ? & ? & ? & ?).
    exists bm1, bm0. rewrite Test_spec by done.
    rewrite (nth_lookup_Some _ _ false _ (lookup_bits bm i Hi)). done.
  - unfold Test, Mark, Clear. by rewrite Hr.
Qed.

Lemma bitmap_ops_refine_witness :
  wf (mk 40 2 [5; 0]) /\
  exists bm1 bm0, Test (mk 40 2 [5; 0]) 31 = Ok false /\
    Mark (mk 40 2 [5; 0]) 31 = Ok bm1 /\ Clear (mk 40 2 [5; 0]) 31 = Ok bm0.
Proof.
  assert (wf (mk 40 2 [5; 0])) as Hwf
    by (split; try done; repeat constructor; done).
  split; [done |].
  destruct (bitmap_ops_refine (mk 40 2 [5; 0]) 31 Hwf) as (b1 & b0 & ? & ? & _ & _ & ? & _).
  exists b1, b0. done.
Defined.

(** [FindAndSet] returns the smallest clear index and sets only that bit,
    lowering [NumClear] by one; when every bit is set it returns -1, changes
    nothing, and [NumClear] is 0. *)
Theorem find_and_set_first bm :
  wf bm ->
  exists r bm' n, FindAndSet bm = Ok (r, bm') /\ wf bm' /\ NumClear bm = Ok n /\
    ((r = -1 /\ bm' = bm /\ n = 0 /\ Forall (eq true) (bits bm)) \/
     (exists i, r = Z.of_nat i /\ bits bm !! i = Some false /\
        (forall j, (j < i)%nat -> bits bm !! j = Some true) /\
        bits bm' = <[i := true]> (bits bm) /\ 0 < n /\ NumClear bm' = Ok (n - 1))).
Proof.
  intros Hwf. pose proof (FindAndSet_spec bm Hwf) as H.
  destruct (first_clear (bits bm)) as [i|] eqn:Hf.
  - destruct H as (bm' & E & Hwf' & _ & Hb).
    apply first_clear_Some in Hf as [Hi Hlow].
    destruct (count_clear_insert _ _ Hi) as [Hc Hpos].
    exists (Z.of_nat i), bm', (Z.of_nat (count_clear (bits bm))).
    rewrite !NumClear_spec by done. split_and!; [done..|]. right. exists i.
    rewrite Hb, Hc. split_and!; [done..| lia | f_equal; lia].
  - apply first_clear_None in Hf.
    exists (-1), bm, 0. rewrite NumClear_spec, count_clear_full by done. eauto 10.
Qed.

Lemma find_and_set_first_witness :
  wf (mk 3 1 [5]) /\ exists r bm' n, FindAndSet (mk 3 1 [5]) = Ok (r, bm') /\
    wf bm' /\ NumClear (mk 3 1 [5]) = Ok n /\ r = 1.
Proof.
  assert (wf (mk 3 1 [5])) as Hwf by (split; try done; repeat constructor; done).
  split; [done |].
  destruct (find_and_set_first (mk 3 1 [5]) Hwf) as (r & bm' & n & E & ? & ? & _).
  exists r, bm', n. split_and!; try done. vm_compute in E. congruence.
Defined.

(** [SelfTest] passes on every freshly created bitmap of at least a word,
    and leaves every bit clear. *)
Theorem self_test_passes n :
  BitsInWord <= n ->
  exists bm bm', create n = Ok bm /\ SelfTest bm = Ok bm' /\ wf bm' /\
                 bits bm' = replicate (Z.to_nat n) false.
Proof.
  intros Hn. change BitsInWord with 32 in Hn.
  destruct (create_spec n) as (bm & E & Hwf & Hnb & Hb); [lia |].
  exists bm. unfold SelfTest. rewrite Hnb.
  rewrite (ASSERT_true (BitsInWord <=? n)) by (change BitsInWord with 32; lia). simpl.
  rewrite NumClear_spec, Hb, count_clear_replicate by done. simpl.
  rewrite (Z2Nat.id n) by lia. rewrite Z.eqb_refl. simpl.
  pose proof (FindAndSet_spec bm Hwf) as H1. rewrite Hb, first_clear_start in H1 by lia.
  destruct H1 as (bm1 & -> & Hwf1 & Hn1 & Hb1). simpl.
  destruct (Mark_specZ bm1 31 Hwf1) as (bm2 & -> & Hwf2 & Hn2 & Hb2); [lia |]. simpl.
  rewrite Hb1 in Hb2. change (Z.to_nat 31) with 31%nat in Hb2.
  rewrite (Test_specZ bm2 0 true), (Test_specZ bm2 31 true); [| try done; try lia; rewrite Hb2..].
  2: { apply list_lookup_insert_eq. rewrite length_insert, length_replicate. lia. }
  2: { rewrite list_lookup_insert_ne by done. apply list_lookup_insert_eq.
       rewrite length_replicate. lia. }
  simpl. pose proof (FindAndSet_spec bm2 Hwf2) as H3.
  rewrite Hb2, first_clear_second in H3 by lia.
  destruct H3 as (bm3 & -> & Hwf3 & Hn3 & _). simpl.
  destruct (Clear_specZ bm3 0 Hwf3) as (bm4 & -> & Hwf4 & Hn4 & _); [lia |]. simpl.
  destruct (Clear_specZ bm4 1 Hwf4) as (bm5 & -> & Hwf5 & Hn5 & _); [lia |]. simpl.
  destruct (Clear_specZ bm5 31 Hwf5) as (bm6 & -> & Hwf6 & Hn6 & _); [lia |]. simpl.
  destruct (set_all_spec Mark true bm6 Mark_spec Hwf6) as (bm7 & -> & Hwf7 & Hn7 & Hb7).
  simpl. pose proof (FindAndSet_spec bm7 Hwf7) as H8.
  rewrite Hb7, (proj2 (first_clear_None _)) in H8 by by apply Forall_replicate.
  rewrite H8. simpl.
  destruct (set_all_spec Clear false bm7 Clear_spec Hwf7) as (bm8 & E8 & Hwf8 & Hn8 & Hb8).
  exists bm8. split_and!; [done..|]. rewrite Hb8. f_equal. lia.
Qed.

Lemma self_test_passes_witness :
  exists bm bm', create 40 = Ok bm /\ SelfTest bm = Ok bm' /\ wf bm' /\
                 bits bm' = replicate 40 false.
Proof. exact (self_test_passes 40 ltac:(by compute)). Defined.

End Bitmap.

(** ** Sets of slots

    What a client that takes or gives back several slots says of the map. *)
Module SlotOps.

(** The slots [ks], set to [b]. *)
Definition set_slots (b : bool) (ks : list nat) (l : list bool) : list bool :=
  foldl (fun l i => <[i := b]> l) l ks.

Lemma length_set_slots b ks l : length (set_slots b ks l) = length l.
Proof. revert l. induction ks as [|i ks IH]; intros l; simpl; [done |]. by rewrite IH, length_insert. Qed.

Lemma lookup_set_slots b ks l j :
  Forall (fun i => i < length l)%nat ks ->
  set_slots b ks l !! j = if decide (j ∈ ks) then Some b else l !! j.
Proof.
  revert l. induction ks as [|i ks IH]; intros l Hall; [done |].
  apply Forall_cons in Hall as [Hi Hall]. simpl. rewrite IH by by rewrite length_insert.
  destruct (decide (j ∈ ks)) as [Hj|Hj].
  - rewrite decide_True by by right. done.
  - destruct (decide (j = i)) as [->|Hne].
    + rewrite list_lookup_insert_eq by done. by rewrite decide_True by by left.
    + rewrite list_lookup_insert_ne by done. rewrite decide_False; [done |].
      by rewrite not_elem_of_cons.
Qed.

(** Setting clear slots and clearing them again. *)
Lemma set_slots_undo ks l :
  Forall (fun i => l !! i = Some false) ks -> set_slots false ks (set_slots true ks l) = l.
Proof.
  intros Hall. assert (Forall (fun i => i < length l)%nat ks) as Hlt.
  { eapply Forall_impl; [exact Hall |]. intros i Hi. exact (lookup_lt_Some _ _ _ Hi). }
  apply list_eq. intros j. rewrite lookup_set_slots.
  - case_decide as Hj; [| rewrite lookup_set_slots by done; by rewrite decide_False].
    rewrite Forall_forall in Hall. symmetry. auto.
  - by rewrite length_set_slots.
Qed.

Section find.
Context `{SlotMapLaws B}.
#[local] Set Default Proof Using "Type*".

(** [ks] are distinct clear slots of [fm]. *)
Definition clear_slots (fm : B) (ks : list nat) : Prop :=
  NoDup ks /\ Forall (fun i => slots fm !! i = Some false) ks.

(** One [FindAndSet] of a map that has a clear slot. *)
Lemma find_clear (fm : B) :
  slots_wf fm -> (0 < count_clear (slots fm))%nat ->
  exists k fm', slot_find_and_set fm = Ok (Z.of_nat k, fm') /\ slots_wf fm' /\
    slots fm !! k = Some false /\ slots fm' = <[k := true]> (slots fm).
Proof.
  intros Hwf Hn. pose proof (slot_find_law fm Hwf) as Hf.
  destruct (first_clear (slots fm)) as [k|] eqn:Hk.
  - destruct Hf as (fm' & E & W & Hs). apply Bitmap.first_clear_Some in Hk as [Hk _].
    by exists k, fm'.
  - apply Bitmap.first_clear_None in Hk. apply Bitmap.count_clear_full in Hk. lia.
Qed.
End find.
End SlotOps.
