(* ===== verification/Lists.v ===== *)
(** * Lists: lib/list.h, lib/list.cc

    [List<T>] is a singly linked list with [first], [last] and a counter.
    The model keeps the cells in a heap, so that the pointer manipulation is
    what is verified; [rep l xs] says that the object represents the sequence
    [xs], and each operation is shown to implement an operation on sequences.
    [ListSpec] holds those abstract operations: the clients of the list
    (scheduler, semaphores, interrupts, hash table) are modelled with them. *)

From Stdlib Require Import Sorted.
From S2P Require Import Prelude.

(** ** Abstract operations on the represented sequence *)
Module ListSpec.
Section spec.
Context {T : Type} `{EqDecision T}.

Definition is_in (x : T) (xs : list T) : bool := bool_decide (x ∈ xs).

Definition Append (x : T) (xs : list T) : res (list T) :=
  _ ← ASSERT (negb (is_in x xs)); Ok (xs ++ [x]).

Definition Prepend (x : T) (xs : list T) : res (list T) :=
  _ ← ASSERT (negb (is_in x xs)); Ok (x :: xs).

Definition RemoveFront (xs : list T) : res (T * list T) :=
  match xs with [] => Fault AssertFailure | x :: xs' => Ok (x, xs') end.

(** The first occurrence of [x], taken out. *)
Fixpoint take_out (x : T) (xs : list T) : list T :=
  match xs with
  | [] => []
  | y :: ys => if decide (x = y) then ys else y :: take_out x ys
  end.

Definition Remove (x : T) (xs : list T) : res (list T) :=
  _ ← ASSERT (is_in x xs);
  let xs' := take_out x xs in
  _ ← ASSERT (negb (is_in x xs')); Ok xs'.

(** Insertion before the first element that [x] precedes. *)
Fixpoint insert_sorted (compare : T -> T -> Z) (x : T) (xs : list T) : list T :=
  match xs with
  | [] => [x]
  | y :: ys => if compare x y <? 0 then x :: y :: ys
               else y :: insert_sorted compare x ys
  end.

Definition Insert (compare : T -> T -> Z) (x : T) (xs : list T) : res (list T) :=
  _ ← ASSERT (negb (is_in x xs)); Ok (insert_sorted compare x xs).
End spec.
End ListSpec.

(** ** The linked implementation *)
Module CList.
Section CList.
Context {T : Type} `{EqDecision T}.

(** [ListElement<T>]; the one-argument constructor leaves [key] unset. *)
Record ListElement := mkElement {
  item : T;
  key : option Z;
  next : option positive;
}.

(** [List<T>]; [heap] holds the cells, [brk] is the next address [new] gives. *)
Record t := mk {
  heap : gmap positive ListElement;
  brk : positive;
  first : option positive;
  last : option positive;
  numInList : Z;
}.

Definition create : t := mk ∅ 1%positive None None 0.

Definition with_heap (l : t) (h : gmap positive ListElement) : t :=
  mk h (brk l) (first l) (last l) (numInList l).
Definition set_ends (l : t) (f b : option positive) : t :=
  mk (heap l) (brk l) f b (numInList l).
Definition add_num (l : t) (d : Z) : t :=
  mk (heap l) (brk l) (first l) (last l) (numInList l + d).

(** [new ListElement<T>(...)] *)
Definition new_element (l : t) (e : ListElement) : positive * t :=
  (brk l, mk (<[brk l := e]> (heap l)) (Pos.succ (brk l)) (first l) (last l) (numInList l)).

(** [p->next = q] *)
Definition set_next (l : t) (p : positive) (q : option positive) : res t :=
  e ← deref (heap l !! p);
  Ok (with_heap l (<[p := mkElement (item e) (key e) q]> (heap l))).

Definition read (l : t) (p : option positive) : res ListElement :=
  p ← deref p; deref (heap l !! p).

Definition IsEmpty (l : t) : bool := numInList l =? 0.
Definition NumInList (l : t) : Z := u32 (numInList l).
Definition Front (l : t) : res T := e ← read l (first l); Ok (item e).

(** The number of steps a walk over the cells may take. *)
Definition fuel (l : t) : nat := S (size (heap l)).

Fixpoint in_loop (n : nat) (l : t) (ptr : option positive) (x : T) : res bool :=
  match ptr, n with
  | None, _ => Ok false
  | Some _, O => Fault OutOfFuel
  | Some _, S n' =>
      e ← read l ptr;
      if decide (x = item e) then Ok true else in_loop n' l (next e) x
  end.

Definition IsInList (l : t) (x : T) : res bool := in_loop (fuel l) l (first l) x.

(** [Apply] calls [func] on every item, in order: the calls are the result. *)
Fixpoint apply_loop (n : nat) (l : t) (ptr : option positive) : res (list T) :=
  match ptr, n with
  | None, _ => Ok []
  | Some _, O => Fault OutOfFuel
  | Some _, S n' =>
      e ← read l ptr;
      rest ← apply_loop n' l (next e);
      Ok (item e :: rest)
  end.

Definition Apply (l : t) : res (list T) := apply_loop (fuel l) l (first l).

Definition Append (l : t) (x : T) : res t :=
  let '(element, l) := new_element l (mkElement x None None) in
  b ← IsInList l x;
  _ ← ASSERT (negb b);
  l ← (if IsEmpty l then Ok (set_ends l (Some element) (Some element))
       else (p ← deref (last l);
             l ← set_next l p (Some element);
             Ok (set_ends l (first l) (Some element))));
  let l := add_num l 1 in
  b ← IsInList l x;
  _ ← ASSERT b;
  Ok l.

Definition Prepend (l : t) (x : T) : res t :=
  let '(element, l) := new_element l (mkElement x None None) in
  b ← IsInList l x;
  _ ← ASSERT (negb b);
  l ← (if IsEmpty l then Ok (set_ends l (Some element) (Some element))
       else (l ← set_next l element (first l);
             Ok (set_ends l (Some element) (last l))));
  let l := add_num l 1 in
  b ← IsInList l x;
  _ ← ASSERT b;
  Ok l.

(** [delete element] *)
Definition delete_element (l : t) (p : option positive) : res t :=
  p ← deref p;
  Ok (with_heap l (delete p (heap l))).

Definition RemoveFront (l : t) : res (T * t) :=
  let element := first l in
  _ ← ASSERT (negb (IsEmpty l));
  e ← read l element;
  let thing := item e in
  let l := if decide (first l = last l) then set_ends l None None
           else set_ends l (next e) (last l) in
  let l := add_num l (-1) in
  l ← delete_element l element;
  Ok (thing, l).

(** The search loop of [Remove]; the result says whether it broke out. *)
Fixpoint remove_loop (n : nat) (l : t) (prev : positive) (ptr : option positive) (x : T)
    : res (bool * t) :=
  match ptr, n with
  | None, _ => Ok (false, l)
  | Some _, O => Fault OutOfFuel
  | Some p, S n' =>
      e ← read l ptr;
      if decide (x = item e) then
        l ← set_next l prev (next e);
        let l := if decide (next e = None) then set_ends l (first l) (Some prev) else l in
        l ← delete_element l ptr;
        Ok (true, add_num l (-1))
      else remove_loop n' l p (next e) x
  end.

Definition Remove (l : t) (x : T) : res t :=
  b ← IsInList l x;
  _ ← ASSERT b;
  e ← read l (first l);
  l ← (if decide (x = item e) then
         '(removed, l) ← RemoveFront l;
         _ ← ASSERT (bool_decide (x = removed));
         Ok l
       else
         prev ← deref (first l);
         '(found, l) ← remove_loop (fuel l) l prev (next e) x;
         _ ← ASSERT found;
         Ok l);
  b ← IsInList l x;
  _ ← ASSERT (negb b);
  Ok l.

(** The walk of [SanityCheck] from [ptr] to [last]. *)
Fixpoint sanity_loop (n : nat) (l : t) (ptr : option positive) (numFound : Z) : res Z :=
  if decide (ptr = last l) then Ok numFound
  else match n with
       | O => Fault OutOfFuel
       | S n' =>
           let numFound := numFound + 1 in
           _ ← ASSERT (numFound <=? numInList l);
           e ← read l ptr;
           sanity_loop n' l (next e) numFound
       end.

Definition SanityCheck (l : t) : res unit :=
  match first l with
  | None => ASSERT ((numInList l =? 0) && bool_decide (last l = None))
  | Some _ =>
      if decide (first l = last l) then
        e ← read l (last l);
        ASSERT ((numInList l =? 1) && bool_decide (next e = None))
      else
        numFound ← sanity_loop (fuel l) l (first l) 1;
        _ ← ASSERT (numFound =? numInList l);
        e ← read l (last l);
        ASSERT (bool_decide (next e = None))
  end.

(** [List::SortedInsert(item, sortKey)], with its search loop. *)
Fixpoint key_loop (n : nat) (l : t) (ptr : positive) (element : positive) (sortKey : Z)
    : res (bool * t) :=
  match n with
  | O => Fault OutOfFuel
  | S n' =>
      e ← read l (Some ptr);
      match next e with
      | None => Ok (false, l)
      | Some q =>
          eq ← read l (Some q);
          k ← deref (key eq);
          if sortKey <? k then
            l ← set_next l element (Some q);
            l ← set_next l ptr (Some element);
            Ok (true, l)
          else key_loop n' l q element sortKey
      end
  end.

Definition SortedInsert (l : t) (x : T) (sortKey : Z) : res t :=
  let '(element, l) := new_element l (mkElement x (Some sortKey) None) in
  if IsEmpty l then Ok (set_ends l (Some element) (Some element))
  else
    e ← read l (first l);
    k ← deref (key e);
    if sortKey <? k then
      l ← set_next l element (first l);
      Ok (set_ends l (Some element) (last l))
    else
      p ← deref (first l);
      '(done, l) ← key_loop (fuel l) l p element sortKey;
      if done : bool then Ok l
      else
        p ← deref (last l);
        l ← set_next l p (Some element);
        Ok (set_ends l (first l) (Some element)).

(** [SortedList<T>::Insert], for a comparison function. *)
Section sorted.
Variable compare : T -> T -> Z.

Fixpoint insert_loop (n : nat) (l : t) (ptr : positive) (element : positive) (x : T)
    : res (bool * t) :=
  match n with
  | O => Fault OutOfFuel
  | S n' =>
      e ← read l (Some ptr);
      match next e with
      | None => Ok (false, l)
      | Some q =>
          eq ← read l (Some q);
          if compare x (item eq) <? 0 then
            l ← set_next l element (Some q);
            l ← set_next l ptr (Some element);
            Ok (true, add_num l 1)
          else insert_loop n' l q element x
      end
  end.

Definition Insert (l : t) (x : T) : res t :=
  let '(element, l) := new_element l (mkElement x None None) in
  b ← IsInList l x;
  _ ← ASSERT (negb b);
  let finish (l : t) : res t :=
    let l := add_num l 1 in
    b ← IsInList l x;
    _ ← ASSERT b;
    Ok l in
  if IsEmpty l then finish (set_ends l (Some element) (Some element))
  else
    e ← read l (first l);
    if compare x (item e) <? 0 then
      l ← set_next l element (first l);
      finish (set_ends l (Some element) (last l))
    else
      p ← deref (first l);
      '(done, l) ← insert_loop (fuel l) l p element x;
      if done : bool then Ok l
      else
        p ← deref (last l);
        l ← set_next l p (Some element);
        finish (set_ends l (first l) (Some element)).

(** The order check of [SortedList::SanityCheck], after the base class's. *)
Fixpoint order_loop (n : nat) (l : t) (prev : T) (ptr : option positive) : res unit :=
  match ptr, n with
  | None, _ => Ok tt
  | Some _, O => Fault OutOfFuel
  | Some _, S n' =>
      e ← read l ptr;
      _ ← ASSERT (compare prev (item e) <=? 0);
      order_loop n' l (item e) (next e)
  end.

Definition SortedSanityCheck (l : t) : res unit :=
  _ ← SanityCheck l;
  if decide (first l = last l) then Ok tt
  else e ← read l (first l); order_loop (fuel l) l (item e) (next e).

(** [List::SelfTest]; [Append] and [SanityCheck] are virtual, so the caller's
    versions are arguments.  The iterator made at the start must be done. *)
Definition SelfTest (append : t -> T -> res t) (sanity : t -> res unit)
    (l : t) (p : list T) : res t :=
  let current := first l in
  _ ← sanity l;
  _ ← ASSERT (IsEmpty l && bool_decide (first l = None));
  _ ← ASSERT (bool_decide (current = None));
  l ← foldl (fun acc x =>
               l ← acc;
               l ← append l x;
               b ← IsInList l x;
               _ ← ASSERT b;
               _ ← ASSERT (negb (IsEmpty l));
               Ok l) (Ok l) p;
  _ ← sanity l;
  l ← foldl (fun acc x =>
               l ← acc;
               l ← Remove l x;
               b ← IsInList l x;
               _ ← ASSERT (negb b);
               Ok l) (Ok l) p;
  _ ← ASSERT (IsEmpty l);
  _ ← sanity l;
  Ok l.

(** [q[i] = RemoveFront()] for every entry. *)
Fixpoint drain (n : nat) (l : t) : res (list T * t) :=
  match n with
  | O => Ok ([], l)
  | S n' =>
      '(x, l) ← RemoveFront l;
      b ← IsInList l x;
      _ ← ASSERT (negb b);
      '(q, l) ← drain n' l;
      Ok (x :: q, l)
  end.

Fixpoint check_order (q : list T) : res unit :=
  match q with
  | x :: ((y :: _) as q') => _ ← ASSERT (compare x y <=? 0); check_order q'
  | _ => Ok tt
  end.

Definition SortedSelfTest (l : t) (p : list T) : res t :=
  l ← SelfTest Insert SortedSanityCheck l p;
  l ← foldl (fun acc x =>
               l ← acc;
               l ← Insert l x;
               b ← IsInList l x;
               _ ← ASSERT b;
               Ok l) (Ok l) p;
  _ ← SortedSanityCheck l;
  '(q, l) ← drain (length p) l;
  _ ← ASSERT (IsEmpty l);
  _ ← check_order q;
  _ ← SortedSanityCheck l;
  Ok l.
End sorted.
End CList.
Arguments ListElement : clear implicits.
Arguments t : clear implicits.

(** ** Representation *)
Section rep.
Context {T : Type} `{EqDecision T}.
Implicit Types (h : gmap positive (ListElement T)) (l : t T) (x : T).

(** A cell: its address and what it holds. *)
#[local] Abbreviation cell := (positive * (T * option Z))%type.
Implicit Types (c : cell) (cs : list cell).

(** [lseg h p q cs]: following [next] from [p] visits the cells [cs] and
    arrives at [q]. *)
Fixpoint lseg h (p q : option positive) cs : Prop :=
  match cs with
  | [] => p = q
  | (a, (x, k)) :: cs' =>
      p = Some a /\ exists n, h !! a = Some (mkElement x k n) /\ lseg h n q cs'
  end.

Definition items cs : list T := cs.*2.*1.

Record cells_of l cs : Prop := {
  co_seg : lseg (heap l) (first l) None cs;
  co_nodup : NoDup cs.*1;
  co_last : last l = fst <$> list.last cs;
  co_num : numInList l = Z.of_nat (length cs);
  co_dom : dom (heap l) = list_to_set cs.*1;
  co_brk : Forall (fun p => p < brk l)%positive cs.*1;
}.

(** The list object represents the sequence [xs]. *)
Definition rep l (xs : list T) : Prop := exists cs, cells_of l cs /\ items cs = xs.

Lemma lseg_app h p q cs1 cs2 :
  lseg h p q (cs1 ++ cs2) <-> exists r, lseg h p r cs1 /\ lseg h r q cs2.
Proof.
  revert p. induction cs1 as [|[a [x k]] cs1 IH]; intros p; simpl.
  - split; [eauto | by intros (r & -> & ?)].
  - split.
    + intros (-> & n & Ha & H). apply IH in H as (r & ? & ?). eauto 10.
    + intros (r & (-> & n & Ha & H1) & H2). split; [done |]. exists n. split; [done |].
      apply IH. eauto.
Qed.

Lemma lseg_insert h p q cs a e :
  a ∉ cs.*1 -> lseg (<[a := e]> h) p q cs <-> lseg h p q cs.
Proof.
  revert p. induction cs as [|[b [x k]] cs IH]; intros p Ha; simpl; [done |].
  simpl in Ha. apply not_elem_of_cons in Ha as [Hne Ha].
  setoid_rewrite IH; [| done]. by rewrite lookup_insert_ne by done.
Qed.

Lemma lseg_delete h p q cs a :
  a ∉ cs.*1 -> lseg h p q cs -> lseg (delete a h) p q cs.
Proof.
  revert p. induction cs as [|[b [x k]] cs IH]; intros p Ha; simpl; [done |].
  simpl in Ha. apply not_elem_of_cons in Ha as [Hne Ha].
  intros (-> & n & Hb & H). split; [done |]. exists n.
  rewrite lookup_delete_ne by done. eauto.
Qed.

Lemma lseg_dom h p q cs : lseg h p q cs -> list_to_set cs.*1 ⊆ dom h.
Proof.
  revert p. induction cs as [|[b [x k]] cs IH]; intros p; simpl; [set_solver |].
  intros (-> & n & Hb & H%IH). apply elem_of_dom_2 in Hb. set_solver.
Qed.

Lemma lseg_length h p q cs : lseg h p q cs -> NoDup cs.*1 -> (length cs <= size h)%nat.
Proof.
  intros H Hnd. apply lseg_dom in H. apply subseteq_size in H.
  rewrite size_list_to_set in H by done. by rewrite length_fmap, size_dom in H.
Qed.

Lemma lseg_last h p q cs c :
  lseg h p q (cs ++ [c]) -> h !! c.1 = Some (mkElement c.2.1 c.2.2 q).
Proof.
  intros (r & _ & H)%lseg_app. destruct c as [a [x k]]. simpl in *.
  by destruct H as (_ & n & ? & ->).
Qed.

Lemma items_cons c cs : items (c :: cs) = c.2.1 :: items cs.
Proof. done. Qed.

Lemma read_Some l a e : heap l !! a = Some e -> read l (Some a) = Ok e.
Proof. unfold read. simpl. by intros ->. Qed.

(** ** Walks over a represented chain *)

Lemma in_loop_spec l x cs n p :
  lseg (heap l) p None cs -> (length cs <= n)%nat ->
  in_loop n l p x = Ok (bool_decide (x ∈ items cs)).
Proof.
  revert p n. induction cs as [|[b [y k]] cs IH]; intros p n; simpl.
  - intros -> _. by destruct n.
  - intros (-> & m & Hb & H) Hn. destruct n as [|n]; [lia |]. simpl.
    rewrite (read_Some _ _ _ Hb). simpl. destruct (decide (x = y)) as [->|Hx].
    + by rewrite bool_decide_true by (by left).
    + rewrite (IH _ n H) by lia. f_equal. apply bool_decide_ext.
      rewrite items_cons, elem_of_cons. simpl. naive_solver.
Qed.

Lemma IsInList_seg l cs x :
  lseg (heap l) (first l) None cs -> NoDup cs.*1 ->
  IsInList l x = Ok (bool_decide (x ∈ items cs)).
Proof.
  intros H Hnd. apply in_loop_spec; [done |]. unfold fuel.
  pose proof (lseg_length _ _ _ _ H Hnd). lia.
Qed.

Lemma apply_loop_spec l cs n p :
  lseg (heap l) p None cs -> (length cs <= n)%nat -> apply_loop n l p = Ok (items cs).
Proof.
  revert p n. induction cs as [|[b [y k]] cs IH]; intros p n; simpl.
  - intros -> _. by destruct n.
  - intros (-> & m & Hb & H) Hn. destruct n as [|n]; [lia |]. simpl.
    rewrite (read_Some _ _ _ Hb). simpl. by rewrite (IH _ n H) by lia.
Qed.

Lemma Apply_spec l cs : cells_of l cs -> Apply l = Ok (items cs).
Proof.
  intros [H Hnd _ _ _ _]. apply apply_loop_spec; [done |]. unfold fuel.
  pose proof (lseg_length _ _ _ _ H Hnd). lia.
Qed.

(** ** Consequences of the representation *)

Lemma co_brk_fresh l cs : cells_of l cs -> brk l ∉ cs.*1.
Proof.
  intros [_ _ _ _ _ Hb] Hin. rewrite Forall_forall in Hb.
  exact (Pos.lt_irrefl _ (Hb _ Hin)).
Qed.

Lemma IsEmpty_spec l cs : cells_of l cs -> IsEmpty l = bool_decide (cs = []).
Proof.
  intros [_ _ _ Hn _ _]. unfold IsEmpty. rewrite Hn.
  by destruct cs.
Qed.

Lemma items_app cs1 cs2 : items (cs1 ++ cs2) = items cs1 ++ items cs2.
Proof. unfold items. by rewrite !fmap_app. Qed.

(** Both ends of a represented list. *)
Lemma first_cell l c cs : cells_of l (c :: cs) ->
  first l = Some c.1 /\ exists n, heap l !! c.1 = Some (mkElement c.2.1 c.2.2 n) /\
                                  lseg (heap l) n None cs.
Proof. intros [H _ _ _ _ _]. by destruct c as [a [x k]]. Qed.

Lemma last_cell l c cs : cells_of l (cs ++ [c]) -> last l = Some c.1.
Proof. intros [_ _ H _ _ _]. by rewrite last_snoc in H. Qed.

(** The two ends coincide exactly for a list of one cell. *)
Lemma ends_eq l c cs : cells_of l (c :: cs) -> first l = last l <-> cs = [].
Proof.
  intros H. pose proof (first_cell _ _ _ H) as [Hf _].
  destruct H as [_ Hnd Hl _ _ _]. rewrite Hf, Hl.
  destruct cs as [|d cs _] using rev_ind; simpl; [done |].
  rewrite app_comm_cons, last_snoc. simpl. split; intros He; [| by destruct cs].
  exfalso. simplify_eq. simpl in Hnd. rewrite fmap_app in Hnd.
  apply NoDup_cons in Hnd as [Hnot _]. apply Hnot. rewrite He. set_solver.
Qed.

(** ** Linking and unlinking a cell *)

Lemma lseg_ext h h' p q cs :
  (forall b, b ∈ cs.*1 -> h' !! b = h !! b) -> lseg h p q cs -> lseg h' p q cs.
Proof.
  revert p. induction cs as [|[b [x k]] cs IH]; intros p Hext; simpl; [done |].
  intros (-> & n & Hb & H). split; [done |]. exists n.
  rewrite Hext by (simpl; left). split; [done |].
  apply IH; [| done]. intros b' Hb'. apply Hext. simpl. by right.
Qed.

(** The cell [a] linked in after [c]. *)
Lemma lseg_link h h' p q cs1 c cs2 a x k r :
  lseg h p (Some c.1) cs1 -> lseg h r q cs2 ->
  h' !! c.1 = Some (mkElement c.2.1 c.2.2 (Some a)) ->
  h' !! a = Some (mkElement x k r) ->
  (forall b, b ∈ cs1.*1 ++ cs2.*1 -> h' !! b = h !! b) ->
  lseg h' p q (cs1 ++ c :: (a, (x, k)) :: cs2).
Proof.
  intros H1 H2 Hc Ha Hext. apply lseg_app. exists (Some c.1). split.
  - eapply lseg_ext; [| done]. intros b Hb. apply Hext. set_solver.
  - destruct c as [b [y j]]. simpl in *. split; [done |]. exists (Some a).
    split; [done |]. split; [done |]. exists r. split; [done |].
    eapply lseg_ext; [| done]. intros b' Hb. apply Hext. set_solver.
Qed.

(** A list object that has gained the freshly allocated cell. *)
Lemma cells_of_grow l l' cs cs' e :
  cells_of l cs -> cs' ≡ₚ (brk l, e) :: cs ->
  lseg (heap l') (first l') None cs' -> last l' = fst <$> list.last cs' ->
  numInList l' = numInList l + 1 ->
  dom (heap l') = {[brk l]} ∪ dom (heap l) -> brk l' = Pos.succ (brk l) ->
  cells_of l' cs'.
Proof.
  intros Hc Hp Hseg Hlast Hnum Hdom Hbrk. pose proof (co_brk_fresh _ _ Hc) as Hfr.
  destruct Hc as [_ Hnd _ Hn Hd Hb]. split; [done | | done | | |].
  - rewrite Hp. simpl. by constructor.
  - rewrite Hnum, Hn, Hp. simpl. lia.
  - rewrite Hdom, Hd, Hp. simpl. done.
  - rewrite Hp, Hbrk. simpl. constructor; [lia |].
    eapply Forall_impl; [done |]. simpl. lia.
Qed.

Lemma IsInList_cells l cs x :
  cells_of l cs -> IsInList l x = Ok (bool_decide (x ∈ items cs)).
Proof. intros [H Hnd _ _ _ _]. by apply IsInList_seg. Qed.

(** [IsInList] just after [new]: the fresh cell is not linked yet. *)
Lemma IsInList_new l cs e x :
  cells_of l cs ->
  IsInList (new_element l e).2 x = Ok (bool_decide (x ∈ items cs)).
Proof.
  intros H. apply IsInList_seg; [simpl | by destruct H].
  apply lseg_insert; [by apply co_brk_fresh | by destruct H].
Qed.

Lemma elem_items_perm cs cs' x : cs ≡ₚ cs' -> x ∈ items cs <-> x ∈ items cs'.
Proof. intros Hp. unfold items. by rewrite Hp. Qed.

Lemma Append_in l cs x :
  cells_of l cs -> x ∈ items cs -> Append l x = Fault AssertFailure.
Proof.
  intros Hc Hx. unfold Append.
  change (new_element l _) with (brk l, (new_element l (mkElement x None None)).2).
  cbv beta iota. by rewrite (IsInList_new _ cs), bool_decide_true by done.
Qed.

(** The three ways the fresh cell is linked in at an end. *)
Lemma link_single l x k :
  cells_of l [] ->
  let l1 := (new_element l (mkElement x k None)).2 in
  cells_of (add_num (set_ends l1 (Some (brk l)) (Some (brk l))) 1) [(brk l, (x, k))].
Proof.
  intros Hc. apply (cells_of_grow l _ [] _ (x, k) Hc); simpl; try done.
  - split; [done |]. exists None. by rewrite lookup_insert_eq.
  - by rewrite dom_insert_L.
Qed.

Lemma link_last l cs x k :
  cells_of l cs -> cs <> [] ->
  let l1 := (new_element l (mkElement x k None)).2 in
  exists l2, (p ← deref (last l1);
              l' ← set_next l1 p (Some (brk l));
              Ok (set_ends l' (first l') (Some (brk l)))) = Ok l2 /\
             cells_of (add_num l2 1) (cs ++ [(brk l, (x, k))]).
Proof.
  intros Hc Hne. destruct cs as [|c cs _] using rev_ind; [done |]. simpl.
  pose proof (last_cell _ _ _ Hc) as Hl. simpl. rewrite Hl. simpl.
  pose proof (co_brk_fresh _ _ Hc) as Hfr. pose proof (co_nodup _ _ Hc) as Hnd.
  rewrite fmap_app in Hfr, Hnd. simpl in Hfr, Hnd.
  pose proof (lseg_last _ _ _ _ _ (co_seg _ _ Hc)) as Hlk.
  assert (brk l <> c.1) as Hne' by set_solver.
  unfold set_next. simpl. rewrite lookup_insert_ne, Hlk by done. simpl.
  eexists. split; [done |].
  apply (cells_of_grow l _ (cs ++ [c]) _ (x, k) Hc); simpl; try done.
  - symmetry. apply Permutation_cons_append.
  - rewrite <- app_assoc. simpl.
    destruct (proj1 (lseg_app _ _ _ _ _) (co_seg _ _ Hc)) as (r & H1 & H2).
    destruct c as [a [y j]]. simpl in *. destruct H2 as (-> & n & _ & ->).
    apply (lseg_link (heap l) _ _ _ cs (a, (y, j)) [] _ _ _ None); simpl; try done.
    + by rewrite lookup_insert_eq.
    + by rewrite lookup_insert_ne, lookup_insert_eq by done.
    + intros b Hb. rewrite app_nil_r in Hb. rewrite !lookup_insert_ne; [done | set_solver |].
      apply NoDup_app in Hnd as (_ & Hnd & _). intros <-. apply (Hnd _ Hb). by left.
  - by rewrite last_snoc.
  - rewrite !dom_insert_L. apply elem_of_dom_2 in Hlk. set_solver.
Qed.

Lemma link_first l cs x k :
  cells_of l cs -> cs <> [] ->
  let l1 := (new_element l (mkElement x k None)).2 in
  exists l2, (l' ← set_next l1 (brk l) (first l1);
              Ok (set_ends l' (Some (brk l)) (last l'))) = Ok l2 /\
             cells_of (add_num l2 1) ((brk l, (x, k)) :: cs).
Proof.
  intros Hc Hne. simpl. unfold set_next. simpl. rewrite lookup_insert_eq. simpl.
  eexists. split; [done |]. pose proof (co_brk_fresh _ _ Hc) as Hfr.
  apply (cells_of_grow l _ cs _ (x, k) Hc); simpl; try done.
  - split; [done |]. exists (first l). rewrite lookup_insert_eq. split; [done |].
    rewrite !lseg_insert by done. by destruct Hc.
  - destruct Hc as [_ _ -> _ _ _]. by destruct cs.
  - rewrite !dom_insert_L. set_solver.
Qed.

Lemma IsEmpty_new l cs e :
  cells_of l cs -> IsEmpty (new_element l e).2 = bool_decide (cs = []).
Proof. exact (IsEmpty_spec l cs). Qed.

(** The closing [ASSERT(IsInList(item))] of the insertions. *)
Lemma finish_insert l cs x :
  cells_of l cs -> x ∈ items cs ->
  (b ← IsInList l x; _ ← ASSERT b; Ok l) = Ok l.
Proof.
  intros Hc Hx. rewrite (IsInList_cells _ _ x Hc). by rewrite bool_decide_true by done.
Qed.

Lemma Append_spec l cs x :
  cells_of l cs -> x ∉ items cs ->
  exists l', Append l x = Ok l' /\ cells_of l' (cs ++ [(brk l, (x, None))]).
Proof.
  intros Hc Hx. unfold Append.
  change (new_element l _) with (brk l, (new_element l (mkElement x None None)).2).
  cbv beta iota. rewrite (IsInList_new _ cs), bool_decide_false by done. cbn [mbind res_bind ASSERT negb].
  rewrite (IsEmpty_new _ cs) by done.
  assert (x ∈ items (cs ++ [(brk l, (x, None))])) as Hin
    by (rewrite items_app; apply elem_of_app; right; by left).
  destruct cs as [|c cs].
  - pose proof (link_single l x None Hc) as H. simpl in H. simpl.
    rewrite (finish_insert _ _ x H) by (by left). eauto.
  - rewrite bool_decide_false by done.
    destruct (link_last l (c :: cs) x None Hc ltac:(done)) as (l2 & -> & Hc2).
    cbn [mbind res_bind]. rewrite (finish_insert _ _ x Hc2) by done. eauto.
Qed.

Lemma Prepend_in l cs x :
  cells_of l cs -> x ∈ items cs -> Prepend l x = Fault AssertFailure.
Proof.
  intros Hc Hx. unfold Prepend.
  change (new_element l _) with (brk l, (new_element l (mkElement x None None)).2).
  cbv beta iota. by rewrite (IsInList_new _ cs), bool_decide_true by done.
Qed.

Lemma Prepend_spec l cs x :
  cells_of l cs -> x ∉ items cs ->
  exists l', Prepend l x = Ok l' /\ cells_of l' ((brk l, (x, None)) :: cs).
Proof.
  intros Hc Hx. unfold Prepend.
  change (new_element l _) with (brk l, (new_element l (mkElement x None None)).2).
  cbv beta iota. rewrite (IsInList_new _ cs), bool_decide_false by done. cbn [mbind res_bind ASSERT negb].
  rewrite (IsEmpty_new _ cs) by done. destruct cs as [|c cs].
  - pose proof (link_single l x None Hc) as H. simpl in H. simpl.
    rewrite (finish_insert _ _ x H) by (by left). eauto.
  - rewrite bool_decide_false by done.
    destruct (link_first l (c :: cs) x None Hc ltac:(done)) as (l2 & -> & Hc2).
    cbn [mbind res_bind]. rewrite (finish_insert _ _ x Hc2) by (by left). eauto.
Qed.

(** ** Removal *)

(** A list object that has lost the cell [c]. *)
Lemma cells_of_shrink l l' cs cs' c :
  cells_of l cs -> cs ≡ₚ c :: cs' ->
  lseg (heap l') (first l') None cs' -> last l' = fst <$> list.last cs' ->
  numInList l' = numInList l - 1 ->
  dom (heap l') = dom (heap l) ∖ {[c.1]} -> brk l' = brk l ->
  cells_of l' cs'.
Proof.
  intros [_ Hnd _ Hn Hd Hb] Hp Hseg Hlast Hnum Hdom Hbrk.
  rewrite Hp in Hnd, Hn, Hd, Hb. simpl in *.
  apply NoDup_cons in Hnd as [Hnot Hnd]. split; [done..| | |].
  - lia.
  - rewrite Hdom, Hd. apply set_eq. intros b.
    rewrite elem_of_difference, elem_of_union, elem_of_singleton, !elem_of_list_to_set.
    split; [naive_solver |]. intros Hin. split; [by right |]. by intros ->.
  - rewrite Hbrk. by inversion Hb.
Qed.

Lemma RemoveFront_empty l : cells_of l [] -> RemoveFront l = Fault AssertFailure.
Proof. intros Hc. unfold RemoveFront. by rewrite (IsEmpty_spec _ _ Hc). Qed.

Lemma RemoveFront_spec l c cs :
  cells_of l (c :: cs) ->
  exists l', RemoveFront l = Ok (c.2.1, l') /\ cells_of l' cs.
Proof.
  intros Hc. unfold RemoveFront. rewrite (IsEmpty_spec _ _ Hc). simpl.
  destruct (first_cell _ _ _ Hc) as (Hf & n & Hlk & Hseg).
  pose proof (ends_eq _ _ _ Hc) as Hends. pose proof (co_nodup _ _ Hc) as Hnd.
  rewrite Hf in *. rewrite (read_Some _ _ _ Hlk). simpl.
  eexists. split; [done |].
  apply NoDup_cons in Hnd as [Hnot _].
  apply (cells_of_shrink l _ (c :: cs) cs c Hc); simpl.
  - done.
  - assert (lseg (delete c.1 (heap l)) n None cs) as Hd by (by apply lseg_delete).
    case_decide as He; simpl; [| done]. by apply Hends in He as ->.
  - case_decide as He; simpl.
    + by apply Hends in He as ->.
    + rewrite (co_last _ _ Hc). destruct cs; [by destruct He; apply Hends | done].
  - case_decide; simpl; lia.
  - case_decide; simpl; by rewrite dom_delete_L.
  - by case_decide.
Qed.

(** The cell [d] taken out after [c]. *)
Lemma unlink_spec l cs1 c d cs2 n :
  cells_of l (cs1 ++ c :: d :: cs2) ->
  heap l !! d.1 = Some (mkElement d.2.1 d.2.2 n) ->
  exists l', (l2 ← set_next l c.1 n;
              let l2 := if decide (n = None) then set_ends l2 (first l2) (Some c.1) else l2 in
              l2 ← delete_element l2 (Some d.1);
              Ok (true, add_num l2 (-1))) = Ok (true, l') /\
             cells_of l' (cs1 ++ c :: cs2).
Proof.
  intros Hc Hd. pose proof (co_seg _ _ Hc) as Hseg. pose proof (co_nodup _ _ Hc) as Hnd.
  apply lseg_app in Hseg as (r & H1 & H2).
  destruct c as [a [x k]], d as [b [y j]]. cbn [lseg fst snd] in *.
  destruct H2 as (-> & m & Ha & -> & m' & Hb & H2). simplify_eq.
  unfold set_next. rewrite Ha. cbn -[decide]. eexists. split; [done |].
  rewrite fmap_app in Hnd. simpl in Hnd. apply NoDup_app in Hnd as (_ & Hdisj & Hnd).
  apply NoDup_cons in Hnd as [Hna Hnd]. apply NoDup_cons in Hnd as [Hnb Hnd].
  assert (a <> b) as Hab by set_solver.
  apply (cells_of_shrink l _ _ _ (b, (y, j)) Hc).
  - rewrite (perm_swap (b, (y, j))). symmetry. apply Permutation_middle.
  - assert (lseg (delete b (<[a := mkElement x k n]> (heap l))) (first l) None
              (cs1 ++ (a, (x, k)) :: cs2)) as Hl.
    { apply lseg_app. exists (Some a). split.
      - apply lseg_delete; [intros Hin; apply (Hdisj _ Hin); set_solver |].
        apply lseg_insert; [intros Hin; apply (Hdisj _ Hin); set_solver | done].
      - simpl. split; [done |]. exists n.
        rewrite lookup_delete_ne, lookup_insert_eq by done. split; [done |].
        apply lseg_delete; [done |]. apply lseg_insert; [set_solver | done]. }
    case_decide; done.
  - pose proof (co_last _ _ Hc) as Hl. destruct cs2 as [|e cs2].
    + simpl in H2. subst. simpl. by rewrite last_snoc.
    + destruct n as [q|]; [| by destruct e as [? [? ?]], H2 as [? _]]. simpl.
      rewrite Hl. change ((a, (x, k)) :: (b, (y, j)) :: e :: cs2)
        with ([(a, (x, k)); (b, (y, j))] ++ e :: cs2).
      change ((a, (x, k)) :: e :: cs2) with ([(a, (x, k))] ++ e :: cs2).
      rewrite !app_assoc, !last_app_cons. done.
  - case_decide; simpl; lia.
  - case_decide; simpl; rewrite dom_delete_L, dom_insert_L;
      apply elem_of_dom_2 in Ha; set_solver.
  - by case_decide.
Qed.

Lemma take_out_cons_eq x (xs : list T) : ListSpec.take_out x (x :: xs) = xs.
Proof. simpl. by rewrite decide_True. Qed.

Lemma take_out_cons_ne x y (xs : list T) :
  x <> y -> ListSpec.take_out x (y :: xs) = y :: ListSpec.take_out x xs.
Proof. intros. simpl. by rewrite decide_False. Qed.

Lemma remove_loop_spec l x cs1 c cs2 n p :
  cells_of l (cs1 ++ c :: cs2) -> lseg (heap l) p None cs2 ->
  x ∈ items cs2 -> (length cs2 <= n)%nat ->
  exists l' cs', remove_loop n l c.1 p x = Ok (true, l') /\
    cells_of l' (cs1 ++ c :: cs') /\ items cs' = ListSpec.take_out x (items cs2).
Proof.
  revert cs1 c n p. induction cs2 as [|d cs2 IH]; intros cs1 c n p Hc Hseg Hx Hn;
    [by apply not_elem_of_nil in Hx |].
  destruct n as [|n]; [simpl in Hn; lia |].
  destruct d as [b [y j]]. cbn [lseg] in Hseg. destruct Hseg as (-> & m & Hb & Hseg).
  cbn [remove_loop]. rewrite (read_Some _ _ _ Hb). cbn [mbind res_bind item next].
  rewrite items_cons in *. cbn [fst snd] in *.
  destruct (decide (x = y)) as [->|Hne].
  - destruct (unlink_spec l cs1 c (b, (y, j)) cs2 m Hc Hb) as (l' & E & Hc').
    exists l', cs2. split_and!; [exact E | done | by rewrite take_out_cons_eq].
  - apply elem_of_cons in Hx as [?|Hx]; [done |].
    destruct (IH (cs1 ++ [c]) (b, (y, j)) n m) as (l' & cs' & E & Hc' & Hi);
      [by rewrite <- app_assoc | done | done | simpl in Hn; lia |].
    exists l', ((b, (y, j)) :: cs'). rewrite items_cons, take_out_cons_ne by done.
    split_and!; [exact E | by rewrite <- app_assoc in Hc' | simpl; by f_equal].
Qed.

(** [refines r a]: the object-level result implements the abstract one. *)
Definition refines (r : res (t T)) (a : res (list T)) : Prop :=
  match a with
  | Ok xs => exists l', r = Ok l' /\ rep l' xs
  | Fault f => r = Fault f
  end.

Lemma rep_cells l cs : cells_of l cs -> rep l (items cs).
Proof. intros. by exists cs. Qed.

Lemma Remove_refines l cs x :
  cells_of l cs -> refines (Remove l x) (ListSpec.Remove x (items cs)).
Proof.
  intros Hc. unfold Remove, ListSpec.Remove, ListSpec.is_in.
  rewrite (IsInList_cells _ _ x Hc).
  destruct (bool_decide_reflect (x ∈ items cs)) as [Hx|Hx]; [| done].
  destruct cs as [|c cs]; [by apply not_elem_of_nil in Hx |].
  destruct (first_cell _ _ _ Hc) as (Hf & n & Hlk & Hseg).
  rewrite Hf. cbn [mbind res_bind ASSERT].
  rewrite (read_Some _ _ _ Hlk). cbn [mbind res_bind item next].
  rewrite items_cons.
  match goal with |- refines (?step ≫= _) _ =>
    assert (exists l' cs', step = Ok l' /\ cells_of l' cs' /\
      items cs' = ListSpec.take_out x (c.2.1 :: items cs)) as (l' & cs' & -> & Hc' & <-) end.
  { destruct (decide (x = c.2.1)) as [->|Hne].
    - destruct (RemoveFront_spec _ _ _ Hc) as (l' & -> & Hc'). simpl.
      rewrite bool_decide_true by done. simpl. exists l', cs.
      by rewrite decide_True by done.
    - rewrite items_cons in Hx. apply elem_of_cons in Hx as [?|Hx]; [done |].
      cbn [deref mbind res_bind].
      destruct (remove_loop_spec l x [] c cs (fuel l) n Hc Hseg Hx) as (l' & cs' & -> & Hc' & Hi).
      { pose proof (lseg_length _ _ _ _ (co_seg _ _ Hc) (co_nodup _ _ Hc)) as Hlen.
        unfold fuel. simpl in Hlen. lia. }
      exists l', (c :: cs'). rewrite items_cons, take_out_cons_ne by done.
      simpl. split_and!; [done | done | by f_equal]. }
  cbn [mbind res_bind]. rewrite (IsInList_cells _ _ x Hc').
  destruct (bool_decide (x ∈ items cs')); simpl; [done |].
  eexists. split; [done |]. by apply rep_cells.
Qed.

(** ** Sanity checks *)

Lemma sanity_loop_spec l cs d n p f :
  lseg (heap l) p None (cs ++ [d]) -> last l = Some d.1 -> d.1 ∉ cs.*1 ->
  f + Z.of_nat (length cs) <= numInList l -> (length cs <= n)%nat ->
  sanity_loop n l p f = Ok (f + Z.of_nat (length cs)).
Proof.
  revert n p f. induction cs as [|[b [y j]] cs IH]; intros n p f Hseg Hl Hd Hf Hn.
  - destruct d as [a [x k]]. destruct Hseg as [-> _].
    destruct n; simpl; rewrite Hl; simpl; rewrite decide_True by done; f_equal; lia.
  - destruct n as [|n]; [simpl in Hn; lia |].
    destruct Hseg as (-> & m & Hb & Hseg). simpl in Hd, Hf, Hn.
    apply not_elem_of_cons in Hd as [Hne Hd]. cbn [sanity_loop].
    rewrite decide_False by (rewrite Hl; congruence).
    rewrite ASSERT_true by lia. cbn [mbind res_bind].
    rewrite (read_Some _ _ _ Hb). cbn [mbind res_bind next].
    rewrite IH; [f_equal; simpl; lia | done | done | done | lia | lia].
Qed.

Lemma SanityCheck_spec l cs : cells_of l cs -> SanityCheck l = Ok tt.
Proof.
  intros Hc. pose proof (co_num _ _ Hc) as Hnum. unfold SanityCheck.
  destruct cs as [|c cs].
  - rewrite (co_seg _ _ Hc : first l = None), (co_last _ _ Hc), Hnum. done.
  - pose proof (ends_eq _ _ _ Hc) as Hends.
    destruct (first_cell _ _ _ Hc) as (Hf & n & Hlk & Hseg). rewrite Hf in *.
    case_decide as He.
    + rewrite <- He. rewrite (read_Some _ _ _ Hlk). apply Hends in He as ->.
      simpl in Hseg. subst. rewrite Hnum. done.
    + destruct cs as [|d cs _] using rev_ind; [by destruct He; apply Hends |].
      rewrite app_comm_cons in Hc. pose proof (last_cell _ _ _ Hc) as Hl.
      pose proof (co_nodup _ _ Hc) as Hnd. rewrite fmap_app in Hnd.
      apply NoDup_app in Hnd as (_ & Hnd & _).
      pose proof (co_seg _ _ Hc) as Hs. rewrite Hf in Hs.
      rewrite (sanity_loop_spec l (c :: cs) d); [| done | done | | |].
      * cbn [mbind res_bind]. rewrite Hnum. cbn [length].
        rewrite ASSERT_eqb by (rewrite ?length_app; cbn [length]; lia).
        cbn [mbind res_bind]. rewrite Hl, (read_Some _ _ _ (lseg_last _ _ _ _ _ Hs)). done.
      * intros Hin. apply (Hnd _ Hin). by left.
      * rewrite Hnum. cbn [length]. rewrite length_app. cbn [length]. lia.
      * pose proof (lseg_length _ _ _ _ Hs (co_nodup _ _ Hc)) as Hlen.
        rewrite length_app in Hlen. unfold fuel. simpl in *. lia.
Qed.

(** ** Sorted insertion *)

(** The fresh cell linked in between [c] and [d]. *)
Lemma link_mid l x k cs1 c d cs2 :
  cells_of l (cs1 ++ c :: d :: cs2) ->
  let l1 := (new_element l (mkElement x k None)).2 in
  exists l', (l2 ← set_next l1 (brk l) (Some d.1);
              l2 ← set_next l2 c.1 (Some (brk l));
              Ok (true, add_num l2 1)) = Ok (true, l') /\
             cells_of l' (cs1 ++ c :: (brk l, (x, k)) :: d :: cs2).
Proof.
  intros Hc. pose proof (co_brk_fresh _ _ Hc) as Hfr. pose proof (co_nodup _ _ Hc) as Hnd.
  rewrite fmap_app in Hfr, Hnd. simpl in Hfr, Hnd.
  apply not_elem_of_app in Hfr as [Hfr1 Hfr]. apply not_elem_of_cons in Hfr as [Hfc Hfr].
  apply NoDup_app in Hnd as (_ & Hdisj & Hnd). apply NoDup_cons in Hnd as [Hcn Hnd].
  pose proof (proj1 (lseg_app _ _ _ _ _) (co_seg _ _ Hc)) as (r & H1 & H2).
  destruct c as [a [y j]]. cbn [lseg fst snd] in *.
  destruct H2 as (-> & m & Ha & H2).
  assert (m = Some d.1) as -> by (destruct d as [? [? ?]]; by destruct H2).
  simpl. unfold set_next. simpl. rewrite lookup_insert_eq. simpl.
  rewrite lookup_insert_ne, lookup_insert_ne, Ha by done. simpl. eexists. split; [done |].
  apply (cells_of_grow l _ _ _ (x, k) Hc); simpl; try done.
  - change ((a, (y, j)) :: (brk l, (x, k)) :: d :: cs2)
      with ([(a, (y, j))] ++ (brk l, (x, k)) :: d :: cs2).
    rewrite app_assoc, <- Permutation_middle, <- app_assoc. done.
  - apply (lseg_link (heap l) _ _ _ cs1 (a, (y, j)) (d :: cs2) _ _ _ (Some d.1)); simpl; try done.
    + by rewrite lookup_insert_eq.
    + by rewrite lookup_insert_ne, lookup_insert_eq by done.
    + intros b Hb. assert (b <> a /\ b <> brk l) as [Hba Hbk].
      { apply elem_of_app in Hb as [Hb|Hb].
        - split; [intros -> | congruence]. apply (Hdisj _ Hb). by left.
        - split; congruence. }
      by rewrite !lookup_insert_ne by done.
  - rewrite (co_last _ _ Hc).
    change ((a, (y, j)) :: (brk l, (x, k)) :: d :: cs2)
      with ([(a, (y, j)); (brk l, (x, k))] ++ d :: cs2).
    change ((a, (y, j)) :: d :: cs2) with ([(a, (y, j))] ++ d :: cs2).
    by rewrite !app_assoc, !last_app_cons.
  - rewrite !dom_insert_L. apply elem_of_dom_2 in Ha. set_solver.
Qed.

Section compare.
Variable compare : T -> T -> Z.

Lemma insert_loop_spec l x cs1 c cs2 n :
  cells_of l (cs1 ++ c :: cs2) -> (length cs2 < n)%nat ->
  let l1 := (new_element l (mkElement x None None)).2 in
  (exists l' cs', insert_loop compare n l1 c.1 (brk l) x = Ok (true, l') /\
     cells_of l' (cs1 ++ c :: cs') /\
     items cs' = ListSpec.insert_sorted compare x (items cs2)) \/
  (insert_loop compare n l1 c.1 (brk l) x = Ok (false, l1) /\
   ListSpec.insert_sorted compare x (items cs2) = items cs2 ++ [x]).
Proof.
  intros Hc Hn l1. revert cs1 c n Hc Hn.
  induction cs2 as [|d cs2 IH]; intros cs1 c n Hc Hn; (destruct n as [|n]; [simpl in Hn; lia |]).
  all: pose proof (co_brk_fresh _ _ Hc) as Hfr.
  all: pose proof (proj1 (lseg_app _ _ _ _ _) (co_seg _ _ Hc)) as (r & H1 & H2).
  all: destruct c as [a [y j]]; cbn [lseg fst snd] in *; destruct H2 as (-> & m & Ha & H2).
  all: rewrite fmap_app in Hfr; apply not_elem_of_app in Hfr as [_ Hfr].
  all: apply not_elem_of_cons in Hfr as [Hfa Hfr].
  all: assert (read l1 (Some a) = Ok (mkElement y j m)) as Hra
    by (apply read_Some; unfold l1; simpl; by rewrite lookup_insert_ne by done).
  all: cbn [insert_loop]; rewrite Hra; cbn [mbind res_bind next].
  - right. by rewrite H2.
  - destruct d as [b [z i]]. destruct H2 as (-> & m' & Hb & H2).
    apply not_elem_of_cons in Hfr as [Hfb _].
    assert (read l1 (Some b) = Ok (mkElement z i m')) as Hrb
      by (apply read_Some; unfold l1; simpl; by rewrite lookup_insert_ne by done).
    rewrite Hrb. cbn [mbind res_bind item]. rewrite items_cons. cbn [fst snd ListSpec.insert_sorted].
    destruct (compare x z <? 0).
    + left. destruct (link_mid l x None cs1 (a, (y, j)) (b, (z, i)) cs2 Hc) as (l' & E & Hc').
      exists l', ((brk l, (x, None)) :: (b, (z, i)) :: cs2).
      split_and!; [exact E | done | done].
    + destruct (IH (cs1 ++ [(a, (y, j))]) (b, (z, i)) n) as [(l' & cs' & E & Hc' & Hi)|[E Hi]].
      * by rewrite <- app_assoc.
      * simpl in Hn. lia.
      * left. exists l', ((b, (z, i)) :: cs'). split_and!; [exact E | |].
        -- by rewrite <- app_assoc in Hc'.
        -- rewrite items_cons, Hi. done.
      * right. split; [exact E |]. by rewrite Hi.
Qed.

Lemma Insert_refines l cs x :
  cells_of l cs -> refines (Insert compare l x) (ListSpec.Insert compare x (items cs)).
Proof.
  intros Hc. unfold Insert, ListSpec.Insert, ListSpec.is_in.
  change (new_element l _) with (brk l, (new_element l (mkElement x None None)).2).
  cbv beta iota zeta. rewrite (IsInList_new _ cs) by done.
  destruct (bool_decide_reflect (x ∈ items cs)) as [Hx|Hx]; [done |].
  cbn [mbind res_bind ASSERT negb]. rewrite (IsEmpty_new _ cs) by done.
  destruct cs as [|c cs].
  - pose proof (link_single l x None Hc) as H. simpl in H. simpl.
    rewrite (finish_insert _ _ x H) by (by left). eexists. split; [done |].
    by apply (rep_cells _ _ H).
  - rewrite bool_decide_false by done. destruct (first_cell _ _ _ Hc) as (Hf & n & Hlk & _).
    pose proof (co_brk_fresh _ _ Hc) as Hfr.
    cbn [first new_element snd]. rewrite Hf. rewrite (read_Some _ _ (mkElement c.2.1 c.2.2 n))
      by (simpl; apply not_elem_of_cons in Hfr as [Hfr _];
          by rewrite lookup_insert_ne by done).
    cbn [mbind res_bind item]. rewrite items_cons. cbn [ListSpec.insert_sorted].
    destruct (compare x c.2.1 <? 0).
    + destruct (link_first l (c :: cs) x None Hc ltac:(done)) as (l2 & E & Hc2).
      cbn [first new_element snd] in E. rewrite Hf in E.
      match type of E with (?m ≫= ?k) = _ => destruct m; [| done] end.
      cbn [mbind res_bind] in E |- *. injection E as <-.
      rewrite (finish_insert _ _ x Hc2) by (by left). eexists. split; [done |].
      by apply (rep_cells _ _ Hc2).
    + cbn [deref mbind res_bind].
      destruct (insert_loop_spec l x [] c cs (fuel (new_element l (mkElement x None None)).2) Hc)
        as [(l' & cs' & E & Hc' & Hi)|[E Hi]].
      * pose proof (lseg_length _ _ _ _ (co_seg _ _ Hc) (co_nodup _ _ Hc)) as Hlen.
        unfold fuel. simpl in *.
        rewrite map_size_insert_None; [lia |].
        apply not_elem_of_dom. by rewrite (co_dom _ _ Hc), elem_of_list_to_set.
      * cbn [snd new_element] in E |- *. rewrite Hf in E. rewrite E. simpl. eexists. split; [done |].
        rewrite <- Hi. by apply (rep_cells _ _ Hc').
      * cbn [snd new_element] in E |- *. rewrite Hf in E. rewrite E. cbn [mbind res_bind].
        destruct (link_last l (c :: cs) x None Hc ltac:(done)) as (l2 & E2 & Hc2).
        cbn [new_element snd] in E2. rewrite Hf in E2.
        match type of E2 with (?m ≫= ?k) = _ => destruct m; [| done] end.
        cbn [mbind res_bind] in E2 |- *.
        match type of E2 with (?m ≫= ?k) = _ => destruct m; [| done] end.
        cbn [mbind res_bind] in E2 |- *. injection E2 as <-.
        rewrite (finish_insert _ _ x Hc2)
          by (rewrite items_app; apply elem_of_app; right; by left).
        eexists. split; [done |]. rewrite Hi.
        pose proof (rep_cells _ _ Hc2) as Hr. by rewrite items_app in Hr.
Qed.
End compare.

(** ** The order of a sorted list

    What list.h asks of [compare]: when [x] is not before [y], [y] does not
    come after [x]. *)
Class Comparator (compare : T -> T -> Z) : Prop :=
  compare_total : forall x y, 0 <= compare x y -> compare y x <= 0.

Definition ordered (compare : T -> T -> Z) : list T -> Prop :=
  Sorted (fun x y => compare x y <= 0).

Section order.
Context (compare : T -> T -> Z).

Lemma insert_sorted_perm x xs : ListSpec.insert_sorted compare x xs ≡ₚ x :: xs.
Proof.
  induction xs as [|y xs IH]; simpl; [done |].
  case_match; [done |]. rewrite IH. constructor.
Qed.

Lemma insert_sorted_ordered `{!Comparator compare} x xs :
  ordered compare xs -> ordered compare (ListSpec.insert_sorted compare x xs).
Proof.
  unfold ordered. induction xs as [|y xs IH]; simpl; intros Hs; [repeat constructor |].
  destruct (Z.ltb_spec (compare x y) 0) as [Hlt|Hge].
  - constructor; [done |]. constructor. lia.
  - apply Sorted_inv in Hs as [Hs Hy]. constructor; [by apply IH |].
    destruct xs as [|z xs]; simpl.
    + constructor. by apply compare_total.
    + case_match; constructor; [by apply compare_total | by inversion Hy].
Qed.

Lemma order_loop_spec l cs n p x :
  lseg (heap l) p None cs -> (length cs <= n)%nat -> ordered compare (x :: items cs) ->
  order_loop compare n l x p = Ok tt.
Proof.
  revert n p x. induction cs as [|[b [y j]] cs IH]; intros n p x Hseg Hn Ho.
  - simpl in Hseg. subst. by destruct n.
  - destruct n as [|n]; [simpl in Hn; lia |]. destruct Hseg as (-> & m & Hb & Hseg).
    cbn [order_loop]. rewrite (read_Some _ _ _ Hb). cbn [mbind res_bind item next].
    apply Sorted_inv in Ho as [Ho Hx]. rewrite items_cons in Hx.
    apply HdRel_inv in Hx. cbn [fst snd] in Hx.
    rewrite ASSERT_true by lia. cbn [mbind res_bind].
    apply (IH n m y Hseg); [simpl in Hn; lia | done].
Qed.

Lemma SortedSanityCheck_spec l cs :
  cells_of l cs -> ordered compare (items cs) -> SortedSanityCheck compare l = Ok tt.
Proof.
  intros Hc Ho. unfold SortedSanityCheck. rewrite (SanityCheck_spec _ _ Hc). cbn [mbind res_bind].
  case_decide as He; [done |]. destruct cs as [|c cs].
  - destruct He. by rewrite (co_seg _ _ Hc : first l = None), (co_last _ _ Hc).
  - destruct (first_cell _ _ _ Hc) as (Hf & n & Hlk & Hseg).
    rewrite Hf, (read_Some _ _ _ Hlk). cbn [mbind res_bind item next]. eapply order_loop_spec; [done | | done].
    pose proof (lseg_length _ _ _ _ (co_seg _ _ Hc) (co_nodup _ _ Hc)) as Hlen.
    unfold fuel. simpl in Hlen. lia.
Qed.

(** ** The self-tests *)

(** The insertion loops: each item goes in by an operation that implements
    [ins], which adds exactly its argument. *)
Lemma fill_spec (app : t T -> T -> res (t T)) (ins : T -> list T -> list T)
    (P : list T -> Prop) l xs p :
  (forall l x xs, rep l xs -> x ∉ xs -> exists l', app l x = Ok l' /\ rep l' (ins x xs)) ->
  (forall x xs, ins x xs ≡ₚ x :: xs) -> (forall x xs, P xs -> P (ins x xs)) ->
  rep l xs -> P xs -> NoDup (p ++ xs) ->
  exists l' xs', foldl (fun acc x => l ← acc; l ← app l x; b ← IsInList l x;
                          _ ← ASSERT b; _ ← ASSERT (negb (IsEmpty l)); Ok l) (Ok l) p = Ok l' /\
    foldl (fun acc x => l ← acc; l ← app l x; b ← IsInList l x;
             _ ← ASSERT b; Ok l) (Ok l) p = Ok l' /\
    rep l' xs' /\ xs' ≡ₚ p ++ xs /\ P xs'.
Proof.
  intros Happ Hperm HP. revert l xs. induction p as [|x p IH]; intros l xs Hr HPx Hnd.
  - exists l, xs. done.
  - simpl in Hnd. apply NoDup_cons in Hnd as [Hx Hnd].
    apply not_elem_of_app in Hx as [Hxp Hxs].
    destruct (Happ l x xs Hr Hxs) as (l1 & E & Hr1). simpl. rewrite E.
    destruct (Hr1) as (cs & Hc & Hi). cbn [mbind res_bind].
    assert (x ∈ items cs) as Hin by (rewrite Hi, Hperm; by left).
    rewrite (IsInList_cells _ _ x Hc), bool_decide_true by done. cbn [mbind res_bind ASSERT].
    rewrite (IsEmpty_spec _ _ Hc), bool_decide_false by (intros ->; by apply not_elem_of_nil in Hin).
    cbn [mbind res_bind ASSERT negb].
    destruct (IH l1 (ins x xs) Hr1 (HP _ _ HPx)) as (l' & xs' & E1 & E2 & Hr' & Hp' & HP').
    { rewrite Hperm. rewrite <- Permutation_middle. constructor; [| done].
      by apply not_elem_of_app. }
    exists l', xs'. split_and!; [done | done | done | | done].
    rewrite Hp', Hperm, <- Permutation_middle. done.
Qed.

Lemma take_out_perm x (xs : list T) : x ∈ xs -> x :: ListSpec.take_out x xs ≡ₚ xs.
Proof.
  induction xs as [|y xs IH]; [by intros ?%not_elem_of_nil |].
  intros Hin. destruct (decide (x = y)) as [->|Hne].
  - by rewrite take_out_cons_eq.
  - rewrite take_out_cons_ne by done. apply elem_of_cons in Hin as [?|Hin]; [done |].
    rewrite Permutation_swap. by rewrite IH.
Qed.

(** A removal of something that is there once. *)
Lemma Remove_in l xs x :
  rep l xs -> x ∈ xs -> NoDup xs ->
  exists l' xs', Remove l x = Ok l' /\ rep l' xs' /\ xs ≡ₚ x :: xs' /\ x ∉ xs'.
Proof.
  intros (cs & Hc & <-) Hin Hnd. pose proof (Remove_refines l cs x Hc) as H.
  pose proof (take_out_perm x _ Hin) as Hp.
  assert (x ∉ ListSpec.take_out x (items cs)) as Hx.
  { rewrite <- Hp in Hnd. by apply NoDup_cons in Hnd as [? _]. }
  unfold ListSpec.Remove, ListSpec.is_in in H.
  rewrite (bool_decide_eq_true_2 _ Hin) in H. simpl in H.
  rewrite (bool_decide_eq_false_2 _ Hx) in H. simpl in H.
  destruct H as (l' & E & Hr). by exists l', (ListSpec.take_out x (items cs)).
Qed.

Lemma remove_all_spec l xs p :
  rep l xs -> xs ≡ₚ p -> NoDup p ->
  exists l', foldl (fun acc x => l ← acc; l ← Remove l x; b ← IsInList l x;
                      _ ← ASSERT (negb b); Ok l) (Ok l) p = Ok l' /\ rep l' [].
Proof.
  revert l xs. induction p as [|x p IH]; intros l xs Hr Hp Hnd.
  - apply Permutation_nil_r in Hp as ->. by exists l.
  - apply NoDup_cons in Hnd as [Hx Hnd].
    destruct (Remove_in l xs x Hr) as (l1 & xs1 & E & Hr1 & Hp1 & Hx1).
    { rewrite Hp. by left. }
    { rewrite Hp. by constructor. }
    simpl. rewrite E. cbn [mbind res_bind].
    destruct Hr1 as (cs & Hc & <-). rewrite (IsInList_cells _ _ x Hc), bool_decide_false by done.
    cbn [mbind res_bind ASSERT negb]. apply (IH l1 (items cs)); [by apply rep_cells | | done].
    apply (Permutation_cons_inv (a := x)). by rewrite <- Hp1.
Qed.

Lemma drain_spec l xs :
  rep l xs -> NoDup xs ->
  exists l', drain (length xs) l = Ok (xs, l') /\ rep l' [].
Proof.
  revert l. induction xs as [|x xs IH]; intros l (cs & Hc & Hi) Hnd; simpl.
  - exists l. split; [done |]. by exists cs.
  - destruct cs as [|c cs]; [done |]. rewrite items_cons in Hi. injection Hi as <- <-.
    apply NoDup_cons in Hnd as [Hx Hnd].
    destruct (RemoveFront_spec _ _ _ Hc) as (l1 & -> & Hc1). cbn [mbind res_bind].
    rewrite (IsInList_cells _ _ _ Hc1), bool_decide_false by done.
    cbn [mbind res_bind ASSERT negb].
    destruct (IH l1 (rep_cells _ _ Hc1) Hnd) as (l2 & -> & Hr). by exists l2.
Qed.

Lemma check_order_spec q : ordered compare q -> check_order compare q = Ok tt.
Proof.
  induction q as [|x [|y q] IH]; intros Ho; [done | done |].
  apply Sorted_inv in Ho as [Ho Hx]. apply HdRel_inv in Hx.
  cbn [check_order]. rewrite ASSERT_true by lia. cbn [mbind res_bind]. by apply IH.
Qed.

Lemma rep_create : rep create [].
Proof. exists []. split; [| done]. split; try done. constructor. Qed.

Lemma rep_IsEmpty l : rep l [] -> IsEmpty l = true /\ first l = None.
Proof.
  intros ([|c cs] & Hc & Hi); [| done]. split; [by rewrite (IsEmpty_spec _ _ Hc) |].
  apply (co_seg _ _ Hc).
Qed.

Lemma SelfTest_spec (app : t T -> T -> res (t T)) (ins : T -> list T -> list T)
    (sanity : t T -> res unit) (P : list T -> Prop) l p :
  (forall l x xs, rep l xs -> x ∉ xs -> exists l', app l x = Ok l' /\ rep l' (ins x xs)) ->
  (forall x xs, ins x xs ≡ₚ x :: xs) -> (forall x xs, P xs -> P (ins x xs)) ->
  (forall l xs, rep l xs -> P xs -> sanity l = Ok tt) ->
  P [] -> rep l [] -> NoDup p ->
  exists l', SelfTest app sanity l p = Ok l' /\ rep l' [].
Proof.
  intros Happ Hperm HP Hsan Hnil Hr Hnd. unfold SelfTest.
  destruct (rep_IsEmpty l Hr) as [He Hf]. rewrite (Hsan l []), He, Hf by done.
  cbn [mbind res_bind ASSERT andb]. rewrite !bool_decide_true by done. cbn [mbind res_bind ASSERT].
  destruct (fill_spec app ins P l [] p Happ Hperm HP Hr Hnil) as (l1 & xs1 & -> & _ & Hr1 & Hp1 & HP1).
  { by rewrite app_nil_r. }
  rewrite app_nil_r in Hp1. cbn [mbind res_bind]. rewrite (Hsan l1 xs1) by done.
  cbn [mbind res_bind]. destruct (remove_all_spec l1 xs1 p Hr1 Hp1 Hnd) as (l2 & -> & Hr2).
  cbn [mbind res_bind]. destruct (rep_IsEmpty l2 Hr2) as [-> _]. cbn [mbind res_bind ASSERT].
  rewrite (Hsan l2 []) by done. by exists l2.
Qed.
End order.

Lemma Append_rep l x xs :
  rep l xs -> x ∉ xs -> exists l', Append l x = Ok l' /\ rep l' (xs ++ [x]).
Proof.
  intros (cs & Hc & <-) Hx. destruct (Append_spec l cs x Hc Hx) as (l' & E & Hc').
  exists l'. split; [done |]. apply rep_cells in Hc'. by rewrite items_app in Hc'.
Qed.

Lemma Insert_rep compare l x xs :
  rep l xs -> x ∉ xs ->
  exists l', Insert compare l x = Ok l' /\ rep l' (ListSpec.insert_sorted compare x xs).
Proof.
  intros (cs & Hc & <-) Hx. pose proof (Insert_refines compare l cs x Hc) as H.
  unfold ListSpec.Insert, ListSpec.is_in in H. by rewrite bool_decide_false in H by done.
Qed.

(** What a client sees of an object that represents a sequence. *)
Lemma RemoveFront_rep l x xs :
  rep l (x :: xs) -> exists l', RemoveFront l = Ok (x, l') /\ rep l' xs.
Proof.
  intros ([|c cs] & Hc & Hi); [done |]. rewrite items_cons in Hi. injection Hi as <- <-.
  destruct (RemoveFront_spec _ _ _ Hc) as (l' & E & Hc'). exists l'. split; [done | by apply rep_cells].
Qed.

Lemma Front_rep l x xs : rep l (x :: xs) -> Front l = Ok x.
Proof.
  intros ([|c cs] & Hc & Hi); [done |]. rewrite items_cons in Hi. injection Hi as <- _.
  destruct (first_cell _ _ _ Hc) as (Hf & n & Hlk & _). unfold Front. by rewrite Hf, (read_Some _ _ _ Hlk).
Qed.

Lemma IsEmpty_rep l xs : rep l xs -> IsEmpty l = bool_decide (xs = []).
Proof. intros (cs & Hc & <-). rewrite (IsEmpty_spec _ _ Hc). by destruct cs. Qed.

Lemma numInList_rep l xs : rep l xs -> numInList l = Z.of_nat (length xs).
Proof. intros (cs & Hc & <-). rewrite (co_num _ _ Hc). unfold items. by rewrite !length_fmap. Qed.

(** ** The contract of the list *)

(** C36: an object that represents [xs] behaves as the sequence: every
    operation succeeds or fails exactly as the abstract one and leaves an
    object that represents its result; the queries answer for [xs], and the
    sanity check passes. *)
Theorem list_ops_refine l xs x :
  rep l xs ->
  refines (Append l x) (ListSpec.Append x xs) /\
  refines (Prepend l x) (ListSpec.Prepend x xs) /\
  refines (Remove l x) (ListSpec.Remove x xs) /\
  match ListSpec.RemoveFront xs with
  | Ok (y, ys) => exists l', RemoveFront l = Ok (y, l') /\ rep l' ys
  | Fault f => RemoveFront l = Fault f
  end /\
  IsInList l x = Ok (ListSpec.is_in x xs) /\
  IsEmpty l = bool_decide (xs = []) /\
  numInList l = Z.of_nat (length xs) /\
  Apply l = Ok xs /\
  SanityCheck l = Ok tt.
Proof.
  intros (cs & Hc & <-). split_and!.
  - unfold ListSpec.Append, ListSpec.is_in.
    destruct (bool_decide_reflect (x ∈ items cs)); [by apply (Append_in l cs) |].
    apply Append_rep; [by apply rep_cells | done].
  - unfold ListSpec.Prepend, ListSpec.is_in.
    destruct (bool_decide_reflect (x ∈ items cs)); [by apply (Prepend_in l cs) |].
    destruct (Prepend_spec l cs x Hc) as (l' & E & Hc'); [done |].
    exists l'. split; [done |]. by apply (rep_cells _ _ Hc').
  - by apply Remove_refines.
  - destruct cs as [|c cs]; [by apply RemoveFront_empty |].
    rewrite items_cons. destruct (RemoveFront_spec _ _ _ Hc) as (l' & E & Hc').
    exists l'. split; [done |]. by apply rep_cells.
  - by apply IsInList_cells.
  - rewrite (IsEmpty_spec _ _ Hc). by destruct cs.
  - rewrite (co_num _ _ Hc). unfold items. by rewrite !length_fmap.
  - by apply Apply_spec.
  - by apply (SanityCheck_spec _ cs).
Qed.

(** Inserting a new item into an ordered list keeps it ordered, adds
    exactly that item, and the result passes the sorted sanity check; an
    item that is already there fails the [ASSERT]. *)
Theorem sorted_insert_keeps_order compare `{!Comparator compare} l xs x :
  rep l xs -> ordered compare xs ->
  if decide (x ∈ xs) then Insert compare l x = Fault AssertFailure
  else exists l' xs', Insert compare l x = Ok l' /\ rep l' xs' /\
         xs' ≡ₚ x :: xs /\ ordered compare xs' /\
         SortedSanityCheck compare l' = Ok tt.
Proof.
  intros Hr Ho. destruct (decide (x ∈ xs)) as [Hin|Hnot].
  - destruct Hr as (cs & Hc & <-). pose proof (Insert_refines compare l cs x Hc) as H.
    unfold ListSpec.Insert, ListSpec.is_in in H. by rewrite bool_decide_true in H by done.
  - destruct (Insert_rep compare l x xs Hr Hnot) as (l' & E & Hr').
    exists l', (ListSpec.insert_sorted compare x xs).
    pose proof (insert_sorted_ordered compare x xs Ho) as Ho'.
    split_and!; [done | done | apply insert_sorted_perm | done |].
    destruct Hr' as (cs' & Hc' & Hi'). rewrite <- Hi' in Ho'.
    by apply (SortedSanityCheck_spec _ _ cs').
Qed.

(** Both self-tests pass, on any array of distinct items and any
    comparison function, and leave the list empty. *)
Theorem list_self_tests_pass compare `{!Comparator compare} (p : list T) :
  NoDup p ->
  (exists l, SelfTest Append SanityCheck create p = Ok l /\ rep l []) /\
  (exists l, SortedSelfTest compare create p = Ok l /\ rep l []).
Proof.
  intros Hnd. split.
  - apply (SelfTest_spec Append (fun x xs => xs ++ [x]) SanityCheck (fun _ => True));
      try done; [intros; by apply Append_rep | | | apply rep_create].
    + intros x xs. by rewrite Permutation_app_comm.
    + intros l xs (cs & Hc & _) _. by apply (SanityCheck_spec _ cs).
  - assert (forall l xs, rep l xs -> ordered compare xs ->
      SortedSanityCheck compare l = Ok tt) as Hsan.
    { intros l xs (cs & Hc & <-). by apply SortedSanityCheck_spec. }
    unfold SortedSelfTest.
    destruct (SelfTest_spec (Insert compare) (ListSpec.insert_sorted compare)
      (SortedSanityCheck compare) (ordered compare) create p) as (l1 & -> & Hr1);
      [by apply Insert_rep | by apply insert_sorted_perm | by apply insert_sorted_ordered
      | done | constructor | apply rep_create | done |].
    cbn [mbind res_bind].
    destruct (fill_spec (Insert compare) (ListSpec.insert_sorted compare) (ordered compare)
      l1 [] p) as (l2 & xs2 & _ & -> & Hr2 & Hp2 & Ho2);
      [by apply Insert_rep | by apply insert_sorted_perm | by apply insert_sorted_ordered
      | done | constructor | by rewrite app_nil_r |].
    rewrite app_nil_r in Hp2. cbn [mbind res_bind]. rewrite (Hsan l2 xs2) by done.
    cbn [mbind res_bind]. rewrite <- (Permutation_length Hp2).
    destruct (drain_spec l2 xs2 Hr2) as (l3 & -> & Hr3); [by rewrite Hp2 |].
    cbn [mbind res_bind]. destruct (rep_IsEmpty l3 Hr3) as [-> _]. cbn [mbind res_bind ASSERT].
    rewrite check_order_spec by done. cbn [mbind res_bind].
    rewrite (Hsan l3 []) by (done || constructor). by exists l3.
Qed.

(** [List::SortedInsert] does not count the item: on a list with no
    items, two insertions leave only the second one reachable, the list
    still calls itself empty, and [RemoveFront] fails its [ASSERT]. *)
Theorem sorted_insert_loses_items (x y : T) (i j : Z) l :
  rep l [] -> x <> y ->
  exists l1 l2, SortedInsert l x i = Ok l1 /\ SortedInsert l1 y j = Ok l2 /\
    IsInList l2 x = Ok false /\ IsEmpty l2 = true /\
    RemoveFront l2 = Fault AssertFailure.
Proof.
  intros Hr Hne. assert (IsEmpty l = true) as He by apply (rep_IsEmpty l Hr).
  eexists _, _. unfold SortedInsert at 1. simpl new_element. cbv beta iota zeta.
  unfold IsEmpty in *. simpl. rewrite He.
  split; [done |]. unfold SortedInsert. simpl. unfold IsEmpty. simpl. rewrite He.
  split; [done |]. unfold IsInList, RemoveFront, IsEmpty. simpl. unfold read. simpl.
  rewrite lookup_insert_eq, He. simpl. rewrite decide_False by congruence.
  by destruct (size _).
Qed.
End rep.

(** ** Instances of the claims *)

Definition zcompare (x y : Z) : Z := match x ?= y with Lt => -1 | Eq => 0 | Gt => 1 end.

#[export] Instance zcompare_comparator : Comparator zcompare.
Proof. intros x y. unfold zcompare. destruct (Z.compare_spec x y), (Z.compare_spec y x); lia. Qed.

Lemma list_ops_refine_witness :
  refines (Append (T := Z) create 5) (Ok [5]) /\
  RemoveFront (T := Z) create = Fault AssertFailure.
Proof.
  destruct (list_ops_refine (T := Z) create [] 5 rep_create) as (H & _ & _ & H' & _).
  exact (conj H H').
Defined.

Lemma sorted_insert_keeps_order_witness :
  exists l' xs', Insert zcompare create 5 = Ok l' /\ rep l' xs' /\
    xs' ≡ₚ [5] /\ ordered zcompare xs' /\ SortedSanityCheck zcompare l' = Ok tt.
Proof. exact (sorted_insert_keeps_order zcompare create [] 5 rep_create (Sorted_nil _)). Defined.

Lemma list_self_tests_pass_witness :
  exists l, SortedSelfTest zcompare create [3; 1; 2] = Ok l /\ rep l [].
Proof.
  refine (proj2 (list_self_tests_pass zcompare [3; 1; 2] _)).
  apply (bool_decide_unpack _). vm_compute. exact I.
Defined.

Lemma sorted_insert_loses_items_witness :
  exists l1 l2, SortedInsert create 7 10 = Ok l1 /\ SortedInsert l1 8 20 = Ok l2 /\
    IsInList l2 7 = Ok false /\ IsEmpty l2 = true /\ RemoveFront l2 = Fault AssertFailure.
Proof.
  apply (sorted_insert_loses_items 7 8 10 20 create rep_create). discriminate.
Defined.

End CList.
