(* ===== verification/Machine.v ===== *)
(** * Machine: machine/machine.h, machine.cc, machine/translate.h, translate.cc

    The simulated machine: forty registers, 16 KB of main memory, a linear page
    table or a TLB, address translation with its exceptions, and memory reads
    and writes through it.  [ExceptionHandler] is kernel code that runs after
    the trap; a trap is therefore a result here ([Trap]), with the machine as
    the handler finds it. *)

From S2P Require Import Prelude.

Module Machine.

Definition PageSize : Z := 128.
Definition NumPhysPages : Z := 128.
Definition MemorySize : Z := NumPhysPages * PageSize.
Definition TLBSize : nat := 4.

Inductive ExceptionType : Set :=
  | NoException
  | SyscallException
  | PageFaultException
  | ReadOnlyException
  | BusErrorException
  | AddressErrorException
  | OverflowException
  | IllegalInstrException.

#[export] Instance ExceptionType_eq_dec : EqDecision ExceptionType.
Proof. solve_decision. Defined.

Definition StackReg : Z := 29.
Definition RetAddrReg : Z := 31.
Definition NumGPRegs : Z := 32.
Definition HiReg : Z := 32.
Definition LoReg : Z := 33.
Definition PCReg : Z := 34.
Definition NextPCReg : Z := 35.
Definition PrevPCReg : Z := 36.
Definition LoadReg : Z := 37.
Definition LoadValueReg : Z := 38.
Definition BadVAddrReg : Z := 39.
Definition NumTotalRegs : Z := 40.

Record TranslationEntry := mkEntry {
  virtualPage : Z;
  physicalPage : Z;
  valid : bool;
  readOnly : bool;
  use : bool;
  dirty : bool;
}.

#[export] Instance TranslationEntry_eq_dec : EqDecision TranslationEntry.
Proof. solve_decision. Defined.

(** [mainMemory] is the list of its bytes, each in 0..255. *)
Record t := mk {
  registers : list Z;
  mainMemory : list Z;
  tlb : option (list TranslationEntry);
  pageTable : option (list TranslationEntry);
  pageTableSize : Z;
}.

Definition with_registers (m : t) rs := mk rs (mainMemory m) (tlb m) (pageTable m) (pageTableSize m).
Definition with_memory (m : t) mem := mk (registers m) mem (tlb m) (pageTable m) (pageTableSize m).
Definition with_tlb (m : t) tb := mk (registers m) (mainMemory m) tb (pageTable m) (pageTableSize m).
Definition with_pageTable (m : t) pt := mk (registers m) (mainMemory m) (tlb m) pt (pageTableSize m).

(** [Machine::Machine], without [USE_TLB]. *)
Definition create : t :=
  mk (replicate 40 0) (replicate (Z.to_nat MemorySize) 0) None None 0.

(** [registers[n]] as an expression and as an assignment. *)
Definition reg (m : t) (n : Z) : res Z :=
  if n <? 0 then Fault MemoryFault else deref (registers m !! Z.to_nat n).
Definition set_reg (m : t) (n v : Z) : res t :=
  if (n <? 0) || (Z.of_nat (length (registers m)) <=? n) then Fault MemoryFault
  else Ok (with_registers m (<[Z.to_nat n := v]> (registers m))).

Definition ReadRegister (m : t) (num : Z) : res Z :=
  _ ← ASSERT ((0 <=? num) && (num <? NumTotalRegs)); reg m num.
Definition WriteRegister (m : t) (num value : Z) : res t :=
  _ ← ASSERT ((0 <=? num) && (num <? NumTotalRegs)); set_reg m num value.

(** [Machine::DelayedLoad], mipssim.cc *)
Definition DelayedLoad (m : t) (nextReg nextValue : Z) : res t :=
  target ← reg m LoadReg;
  v ← reg m LoadValueReg;
  m ← set_reg m target v;
  m ← set_reg m LoadReg nextReg;
  m ← set_reg m LoadValueReg nextValue;
  set_reg m 0 0.

(** [Machine::RaiseException], up to the call of the handler. *)
Definition RaiseException (m : t) (which : ExceptionType) (badVAddr : Z) : res t :=
  m ← set_reg m BadVAddrReg badVAddr;
  DelayedLoad m 0 0.

(** On the little-endian host the conversions do nothing. *)
Definition WordToHost (word : Z) : Z := word.
Definition ShortToHost (shortword : Z) : Z := shortword.
Definition WordToMachine (word : Z) : Z := WordToHost word.
Definition ShortToMachine (shortword : Z) : Z := ShortToHost shortword.

(** The search of the TLB: the index of the first valid entry for [vpn]. *)
Fixpoint tlb_search (n : nat) (i : nat) (tb : list TranslationEntry) (vpn : Z)
    : res (option nat) :=
  match n with
  | O => Ok None
  | S n' =>
      e ← deref (tb !! i);
      if valid e && (virtualPage e =? s32 vpn) then Ok (Some i)
      else tlb_search n' (S i) tb vpn
  end.

(** The two bits a successful translation sets. *)
Definition touch (writing : bool) (e : TranslationEntry) : TranslationEntry :=
  mkEntry (virtualPage e) (physicalPage e) (valid e) (readOnly e) true
    (if writing then true else dirty e).

(** The last part of [Translate]: checks of the entry found, and the address. *)
Definition check_entry (e : TranslationEntry) (offset size : Z) (writing : bool)
    : res (ExceptionType * Z) :=
  if readOnly e && writing then Ok (ReadOnlyException, 0)
  else
    let pageFrame := u32 (physicalPage e) in
    if NumPhysPages <=? pageFrame then Ok (BusErrorException, 0)
    else
      let physAddr := s32 (pageFrame * PageSize + offset) in
      _ ← ASSERT ((0 <=? physAddr) && (physAddr + size <=? MemorySize));
      Ok (NoException, physAddr).

Definition Translate (m : t) (virtAddr size : Z) (writing : bool)
    : res (ExceptionType * Z * t) :=
  if ((size =? 4) && negb (Z.land virtAddr 0x3 =? 0))
     || ((size =? 2) && negb (Z.land virtAddr 0x1 =? 0))
  then Ok (AddressErrorException, 0, m)
  else
    _ ← ASSERT (bool_decide (tlb m = None) || bool_decide (pageTable m = None));
    _ ← ASSERT (negb (bool_decide (tlb m = None)) || negb (bool_decide (pageTable m = None)));
    let vpn := u32 virtAddr / PageSize in
    let offset := u32 virtAddr mod PageSize in
    match tlb m with
    | None =>
        pt ← deref (pageTable m);
        if pageTableSize m <=? vpn then Ok (AddressErrorException, 0, m)
        else
          e ← deref (pt !! Z.to_nat vpn);
          if negb (valid e) then Ok (PageFaultException, 0, m)
          else
            '(ex, pa) ← check_entry e offset size writing;
            if decide (ex = NoException) then
              Ok (ex, pa, with_pageTable m (Some (<[Z.to_nat vpn := touch writing e]> pt)))
            else Ok (ex, pa, m)
    | Some tb =>
        found ← tlb_search TLBSize 0 tb vpn;
        match found with
        | None => Ok (PageFaultException, 0, m)
        | Some i =>
            e ← deref (tb !! i);
            '(ex, pa) ← check_entry e offset size writing;
            if decide (ex = NoException) then
              Ok (ex, pa, with_tlb m (Some (<[i := touch writing e]> tb)))
            else Ok (ex, pa, m)
        end
    end.

(** Bytes [pa, pa+n) of main memory, read or written. *)
Definition load (m : t) (pa : Z) (n : nat) : res (list Z) :=
  if (pa <? 0) || (Z.of_nat (length (mainMemory m)) <? pa + Z.of_nat n)
  then Fault MemoryFault
  else Ok (slice (Z.to_nat pa) n (mainMemory m)).
Definition store (m : t) (pa : Z) (bs : list Z) : res t :=
  if (pa <? 0) || (Z.of_nat (length (mainMemory m)) <? pa + Z.of_nat (length bs))
  then Fault MemoryFault
  else Ok (with_memory m (list_inserts (Z.to_nat pa) bs (mainMemory m))).

(** What an access leads to: it goes through, or the handler takes over. *)
Inductive outcome (A : Type) : Type :=
  | Done (a : A) (m : t)
  | Trap (which : ExceptionType) (m : t).
Arguments Done {A} _ _.
Arguments Trap {A} _ _.

Definition raise {A} (m : t) (which : ExceptionType) (badVAddr : Z) : res (outcome A) :=
  m ← RaiseException m which badVAddr; Ok (Trap which m).

Definition ReadMem (m : t) (addr size : Z) : res (outcome Z) :=
  '(exception, physicalAddress, m) ← Translate m addr size false;
  if negb (bool_decide (exception = NoException)) then raise m exception addr
  else
    match size with
    | 1 =>
        bs ← load m physicalAddress 1;
        Ok (Done (char_to_int (le_combine bs)) m)
    | 2 =>
        bs ← load m physicalAddress 2;
        Ok (Done (ShortToHost (le_combine bs)) m)
    | 4 =>
        bs ← load m physicalAddress 4;
        Ok (Done (s32 (WordToHost (le_combine bs))) m)
    | _ => Fault AssertFailure
    end.

Definition WriteMem (m : t) (addr size value : Z) : res (outcome unit) :=
  '(exception, physicalAddress, m) ← Translate m addr size true;
  if negb (bool_decide (exception = NoException)) then raise m exception addr
  else
    match size with
    | 1 =>
        m ← store m physicalAddress (le_split 1 (Z.land value 0xff));
        Ok (Done tt m)
    | 2 =>
        m ← store m physicalAddress (le_split 2 (ShortToMachine (Z.land value 0xffff)));
        Ok (Done tt m)
    | 4 =>
        m ← store m physicalAddress (le_split 4 (WordToMachine (u32 value)));
        Ok (Done tt m)
    | _ => Fault AssertFailure
    end.

(** ** Well-formed machines *)

Definition table_wf (m : t) : Prop :=
  match tlb m, pageTable m with
  | None, Some pt => pageTableSize m = Z.of_nat (length pt)
  | Some tb, None => length tb = TLBSize
  | _, _ => False
  end.

(** The CPU and memory part, which the tables do not touch. *)
Record wf (m : t) : Prop := {
  wf_regs : length (registers m) = 40%nat;
  wf_s32 : Forall is_s32 (registers m);
  wf_load : exists r, registers m !! 37%nat = Some r /\ 0 <= r < NumGPRegs;
  wf_mem : length (mainMemory m) = Z.to_nat MemorySize;
  wf_bytes : Forall is_byte (mainMemory m);
  wf_table : table_wf m;
}.

Definition RegVal (m : t) (n : Z) : Z := registers m !!! Z.to_nat n.

Lemma reg_eq m n : wf m -> 0 <= n < 40 -> reg m n = Ok (RegVal m n).
Proof.
  intros Hwf Hn. unfold reg, RegVal. destruct (Z.ltb_spec n 0); [lia |].
  destruct (lookup_lt_is_Some_2 (registers m) (Z.to_nat n)) as [v Hv].
  { rewrite (wf_regs _ Hwf). lia. }
  by rewrite Hv, (list_lookup_total_correct _ _ _ Hv).
Qed.

Lemma RegVal_s32 m n : wf m -> 0 <= n < 40 -> is_s32 (RegVal m n).
Proof.
  intros Hwf Hn. unfold RegVal. apply (Forall_lookup_total_1 _ _ _ (wf_s32 _ Hwf)).
  rewrite (wf_regs _ Hwf). lia.
Qed.

Lemma RegVal_load m : wf m -> 0 <= RegVal m LoadReg < NumGPRegs.
Proof.
  intros Hwf. destruct (wf_load _ Hwf) as (r & Hr & ?). unfold RegVal.
  by rewrite (list_lookup_total_correct _ _ _ Hr : registers m !!! Z.to_nat LoadReg = r).
Qed.

Lemma set_reg_eq m n v :
  wf m -> 0 <= n < 40 -> set_reg m n v = Ok (with_registers m (<[Z.to_nat n := v]> (registers m))).
Proof.
  intros Hwf Hn. unfold set_reg. rewrite (wf_regs _ Hwf).
  destruct (Z.ltb_spec n 0), (Z.leb_spec (Z.of_nat 40) n); simpl; done || lia.
Qed.

(** An assignment that may stand in the register file. *)
Definition fits (n v : Z) : Prop :=
  0 <= n < 40 /\ is_s32 v /\ (n = LoadReg -> 0 <= v < NumGPRegs).

Lemma wf_insert m n v :
  wf m -> fits n v -> wf (with_registers m (<[Z.to_nat n := v]> (registers m))).
Proof.
  intros [Hr Hs Hl Hm Hb Ht] (Hn & Hv & Hlv). split; simpl; try done.
  - by rewrite length_insert.
  - by apply Forall_insert.
  - destruct Hl as (r & Hl & Hrr). destruct (decide (n = LoadReg)) as [->|Hne].
    + exists v. split; [| by apply Hlv]. apply list_lookup_insert_eq. rewrite Hr. simpl. lia.
    + exists r. split; [| done]. rewrite list_lookup_insert_ne; [done |].
      unfold LoadReg in Hne. lia.
Qed.

Lemma set_reg_returns m n v :
  wf m -> fits n v ->
  returns (set_reg m n v) (fun m' => wf m' /\ mainMemory m' = mainMemory m).
Proof.
  intros Hwf Hf. rewrite set_reg_eq by (done || apply Hf). simpl. split; [| done].
  by apply wf_insert.
Qed.

Lemma RegVal_insert_eq m n v :
  wf m -> 0 <= n < 40 ->
  RegVal (with_registers m (<[Z.to_nat n := v]> (registers m))) n = v.
Proof.
  intros Hwf Hn. unfold RegVal. simpl. apply list_lookup_total_insert_eq.
  rewrite (wf_regs _ Hwf). lia.
Qed.

Lemma RegVal_insert_ne m n k v :
  0 <= n -> 0 <= k -> n <> k ->
  RegVal (with_registers m (<[Z.to_nat n := v]> (registers m))) k = RegVal m k.
Proof. intros. unfold RegVal. simpl. apply list_lookup_total_insert_ne. lia. Qed.

(** The register file [DelayedLoad] leaves. *)
Lemma DelayedLoad_spec m nextReg nextValue :
  wf m -> 0 <= nextReg < NumGPRegs -> is_s32 nextValue ->
  returns (DelayedLoad m nextReg nextValue) (fun m' =>
    wf m' /\ RegVal m' 0 = 0 /\
    RegVal m' LoadReg = nextReg /\ RegVal m' LoadValueReg = nextValue /\
    (forall n, 0 < n < 40 -> n <> LoadReg -> n <> LoadValueReg ->
       RegVal m' n = if n =? RegVal m LoadReg then RegVal m LoadValueReg else RegVal m n) /\
    mainMemory m' = mainMemory m /\ tlb m' = tlb m /\ pageTable m' = pageTable m /\
    pageTableSize m' = pageTableSize m).
Proof.
  intros Hwf Hn Hv. unfold DelayedLoad, NumGPRegs in *.
  pose proof (RegVal_load m Hwf) as Hl. unfold NumGPRegs in Hl.
  pose proof (RegVal_s32 m LoadValueReg Hwf ltac:(done)) as Hlv.
  rewrite !reg_eq by done. cbn [mbind res_bind].
  rewrite set_reg_eq by (done || lia). cbn [mbind res_bind].
  set (m1 := with_registers m _). assert (wf m1) as W1.
  { apply wf_insert; [done |]. split_and!; [lia | lia | done | unfold LoadReg in *; lia]. }
  rewrite set_reg_eq by done. cbn [mbind res_bind].
  set (m2 := with_registers m1 _). assert (wf m2) as W2.
  { apply wf_insert; [done |]. unfold fits, is_s32, LoadReg, NumGPRegs. lia. }
  rewrite set_reg_eq by done. cbn [mbind res_bind].
  set (m3 := with_registers m2 _). assert (wf m3) as W3 by by apply wf_insert.
  rewrite set_reg_eq by done. cbn [returns].
  set (m4 := with_registers m3 _). assert (wf m4) as W4 by by apply wf_insert.
  split_and!; try done; unfold m4, m3, m2; rewrite ?RegVal_insert_eq by done; try done.
  - rewrite !RegVal_insert_ne by done. by apply RegVal_insert_eq.
  - rewrite RegVal_insert_ne by done. by apply RegVal_insert_eq.
  - intros n Hn0 Hn1 Hn2. rewrite !RegVal_insert_ne by (done || lia).
    unfold m1. destruct (Z.eqb_spec n (RegVal m LoadReg)) as [->|Hne].
    + apply RegVal_insert_eq; [done | lia].
    + apply RegVal_insert_ne; lia.
Qed.

Lemma RaiseException_returns m which badVAddr :
  wf m -> is_s32 badVAddr ->
  returns (RaiseException m which badVAddr) (fun m' =>
    wf m' /\ RegVal m' 0 = 0 /\ RegVal m' BadVAddrReg = badVAddr /\ mainMemory m' = mainMemory m).
Proof.
  intros Hwf Hb. unfold RaiseException. rewrite set_reg_eq by done. cbn [mbind res_bind].
  set (m1 := with_registers m _). assert (wf m1) as W1 by by apply wf_insert.
  eapply returns_mono; [by apply (DelayedLoad_spec m1 0 0) |].
  intros m' (Hw & H0 & _ & _ & Hr & Hm & _). split_and!; try done.
  pose proof (RegVal_load m1 W1) as Hl. unfold NumGPRegs in Hl.
  rewrite Hr by done. destruct (Z.eqb_spec BadVAddrReg (RegVal m1 LoadReg)) as [E|_];
    [unfold BadVAddrReg in E; lia |].
  by apply RegVal_insert_eq.
Qed.

(** ** What a translation means *)

(** The table in use, and the entry it has for a virtual page. *)
Definition table (m : t) : list TranslationEntry :=
  match tlb m with Some tb => tb | None => default [] (pageTable m) end.
Definition page_index (m : t) (vpn : Z) : option nat :=
  match tlb m with
  | Some tb => fst <$> list_find (fun e => valid e = true /\ virtualPage e = vpn) tb
  | None => e ← table m !! Z.to_nat vpn; if valid e then Some (Z.to_nat vpn) else None
  end.
Definition page_entry (m : t) (vpn : Z) : option TranslationEntry :=
  i ← page_index m vpn; table m !! i.

(** The exception the access deserves, alignment first. *)
Definition expected_exception (m : t) (va size : Z) (writing : bool) : ExceptionType :=
  let vpn := u32 va / PageSize in
  if negb (va mod size =? 0) then AddressErrorException
  else match page_entry m vpn with
       | None =>
           match tlb m with
           | None => if pageTableSize m <=? vpn then AddressErrorException
                     else PageFaultException
           | Some _ => PageFaultException
           end
       | Some e =>
           if readOnly e && writing then ReadOnlyException
           else if decide (0 <= s32 (physicalPage e) < NumPhysPages) then NoException
           else BusErrorException
       end.

(** The physical address of [va], where its page has an entry. *)
Definition phys_addr (m : t) (va : Z) : option Z :=
  e ← page_entry m (u32 va / PageSize);
  Some (s32 (physicalPage e) * PageSize + u32 va mod PageSize).

Definition with_table (m : t) (tb : list TranslationEntry) : t :=
  match tlb m with Some _ => with_tlb m (Some tb) | None => with_pageTable m (Some tb) end.

Lemma misaligned_spec va size :
  size = 1 \/ size = 2 \/ size = 4 ->
  (size =? 4) && negb (Z.land va 0x3 =? 0) || (size =? 2) && negb (Z.land va 0x1 =? 0)
  = negb (va mod size =? 0).
Proof.
  pose proof (Z.land_ones va 2 ltac:(lia)) as H2. pose proof (Z.land_ones va 1 ltac:(lia)) as H1.
  change (Z.ones 2) with 3 in H2. change (Z.ones 1) with 1 in H1.
  intros [-> | [-> | ->]]; simpl Z.eqb; cbn [andb orb]; rewrite ?H1, ?H2, ?orb_false_r;
    [by rewrite Z.mod_1_r | done..].
Qed.

Lemma tlb_search_spec vpn tb n i :
  (i + n = length tb)%nat -> s32 vpn = vpn ->
  tlb_search n i tb vpn =
  Ok ((fun r => (i + r.1)%nat) <$>
      list_find (fun e => valid e = true /\ virtualPage e = vpn) (drop i tb)).
Proof.
  intros Hlen Hs. revert i Hlen. induction n as [|n IH]; intros i Hlen; simpl.
  - by rewrite drop_ge by lia.
  - destruct (lookup_lt_is_Some_2 tb i) as [e He]; [lia |].
    rewrite He, (drop_S tb e i He), Hs. cbn [mbind res_bind deref list_find].
    destruct (valid e) eqn:Hv; [destruct (Z.eqb_spec (virtualPage e) vpn) as [Hp|Hp] |];
      cbn [andb].
    + rewrite decide_True by done. simpl. by rewrite Nat.add_0_r.
    + rewrite decide_False by naive_solver. rewrite IH by lia. f_equal.
      destruct (list_find _ (drop (S i) tb)) as [[j ?]|]; simpl; [| done]. f_equal. lia.
    + rewrite decide_False by naive_solver. rewrite IH by lia. f_equal.
      destruct (list_find _ (drop (S i) tb)) as [[j ?]|]; simpl; [| done]. f_equal. lia.
Qed.

(** The code's table search, in terms of [page_entry]. *)
Lemma vpn_range va : 0 <= u32 va / PageSize < 2 ^ 25.
Proof.
  pose proof (u32_range va) as H. unfold is_u32, PageSize in *.
  split; [apply Z.div_pos; lia | apply Z.div_lt_upper_bound; lia].
Qed.

Lemma check_entry_spec e offset size w :
  0 <= offset -> 0 <= size -> offset + size <= PageSize ->
  check_entry e offset size w =
  Ok (if readOnly e && w then (ReadOnlyException, 0)
      else if decide (0 <= s32 (physicalPage e) < NumPhysPages)
           then (NoException, s32 (physicalPage e) * PageSize + offset)
           else (BusErrorException, 0)).
Proof.
  intros Ho Hz Hs. unfold check_entry. destruct (readOnly e && w); [done |].
  unfold NumPhysPages, PageSize, MemorySize in *.
  pose proof (u32_range (physicalPage e)) as Hu. unfold is_u32 in Hu.
  pose proof (s32_range (physicalPage e)) as Hr. unfold is_s32 in Hr.
  destruct (s32_cases (physicalPage e)) as [E|E], (Z.leb_spec 128 (u32 (physicalPage e)));
    case_decide; try lia; try done.
  rewrite E, s32_id by (unfold is_s32; lia).
  rewrite ASSERT_true; [done |]. unfold NumPhysPages, PageSize. lia.
Qed.

Lemma offset_fits va size :
  size = 1 \/ size = 2 \/ size = 4 -> va mod size = 0 ->
  0 <= u32 va mod PageSize /\ u32 va mod PageSize + size <= PageSize.
Proof.
  unfold u32, PageSize. intros Hs Ha.
  assert ((va mod 2 ^ 32) mod 128 = va mod 128) as ->.
  { symmetry. apply Znumtheory.Zmod_div_mod; [lia | lia |]. by exists (2 ^ 25). }
  destruct Hs as [-> | [-> | ->]]; Z.div_mod_to_equations; lia.
Qed.

(** [Translate], in closed form: it never faults, and changes the machine only
    by marking the entry it used. *)
Lemma Translate_spec m va size w :
  wf m -> size = 1 \/ size = 2 \/ size = 4 ->
  let ex := expected_exception m va size w in
  Translate m va size w = Ok
    (ex, (if decide (ex = NoException) then default 0 (phys_addr m va) else 0),
     if decide (ex = NoException) then
       match page_index m (u32 va / PageSize) with
       | Some i => with_table m (alter (touch w) i (table m))
       | None => m
       end
     else m).
Proof.
  intros Hwf Hsize. cbv zeta. unfold Translate. rewrite misaligned_spec by done.
  unfold expected_exception. cbv zeta. destruct (Z.eqb_spec (va mod size) 0) as [Ha|Ha]; [| done].
  cbn [negb]. pose proof (vpn_range va) as Hvpn.
  destruct (offset_fits va size Hsize Ha) as [Ho1 Ho2].
  set (vpn := u32 va / PageSize) in *.
  pose proof (wf_table _ Hwf) as Ht. unfold table_wf in Ht.
  unfold phys_addr, page_entry, page_index, table, with_table. fold vpn.
  destruct (tlb m) as [tb|], (pageTable m) as [pt|]; try done; cbn [mbind res_bind deref ASSERT];
    cbv iota in Ht.
  - rewrite !bool_decide_false by done. rewrite bool_decide_true by done.
    cbn [mbind res_bind ASSERT orb negb].
    rewrite tlb_search_spec by (done || (apply s32_id; unfold is_s32; lia)).
    rewrite drop_0. cbn [mbind res_bind].
    destruct (list_find _ tb) as [[i e]|] eqn:Hf; simpl; [| done].
    apply list_find_Some in Hf as (He & _ & _). rewrite He. simpl.
    rewrite check_entry_spec by (done || lia). cbn [mbind res_bind].
    destruct (readOnly e && w); [done |]. case_decide; simpl; [| done].
    rewrite ?decide_True by done. by rewrite (alter_lookup _ _ _ _ He).
  - rewrite !bool_decide_true by done. rewrite bool_decide_false by done.
    cbn [mbind res_bind ASSERT orb negb default].
    destruct (Z.leb_spec (pageTableSize m) vpn) as [Hle|Hgt].
    + simpl. by rewrite (lookup_ge_None_2 pt) by lia.
    + destruct (lookup_lt_is_Some_2 pt (Z.to_nat vpn)) as [e He]; [lia |].
      simpl. rewrite !He. simpl. destruct (valid e); simpl; [| done]. rewrite !He. simpl.
      rewrite check_entry_spec by (done || lia). cbn [mbind res_bind].
      destruct (readOnly e && w); [done |]. case_decide; simpl; [| done].
      rewrite ?decide_True by done. by rewrite (alter_lookup _ _ _ _ He).
Qed.

(** ** Marking an entry changes no translation *)

Record same_view (m m' : t) : Prop := {
  sv_exception va size w : expected_exception m' va size w = expected_exception m va size w;
  sv_phys va : phys_addr m' va = phys_addr m va;
}.

Definition mark (w : bool) (i : nat) (m : t) : t := with_table m (alter (touch w) i (table m)).

Lemma list_find_alter {A} (P : A -> Prop) `{!forall x, Decision (P x)} (f : A -> A) i (l : list A) :
  (forall x, P (f x) <-> P x) ->
  fst <$> list_find P (alter f i l) = fst <$> list_find P l.
Proof.
  intros Hf. revert i. induction l as [|x l IH]; intros [|i]; [done.. | |].
  - simpl. rewrite (decide_ext _ _ _ _ (Hf x)). by case_decide.
  - simpl. case_decide; [done |]. specialize (IH i).
    unfold alter in *. destruct (list_find P (list_alter f i l)) as [[j y]|], (list_find P l) as [[k z]|];
      simpl in *; congruence.
Qed.

Lemma table_mark w i m : table (mark w i m) = alter (touch w) i (table m).
Proof. unfold mark, with_table, table. by destruct (tlb m) eqn:E; simpl; rewrite ?E. Qed.

Lemma tlb_mark w i m : bool_decide (tlb (mark w i m) = None) = bool_decide (tlb m = None).
Proof. unfold mark, with_table. by destruct (tlb m) eqn:E; simpl; rewrite ?E. Qed.

Lemma page_index_mark w i m vpn : page_index (mark w i m) vpn = page_index m vpn.
Proof.
  unfold page_index. rewrite table_mark. unfold mark, with_table, table.
  destruct (tlb m) as [tb|] eqn:E; simpl; rewrite ?E.
  - apply list_find_alter. by intros [].
  - destruct (decide (i = Z.to_nat vpn)) as [->|Hne].
    + rewrite list_lookup_alter_eq. by destruct (default [] (pageTable m) !! Z.to_nat vpn).
    + by rewrite list_lookup_alter_ne.
Qed.

Lemma page_entry_mark w i m vpn :
  page_entry (mark w i m) vpn =
  (if decide (page_index m vpn = Some i) then touch w else id) <$> page_entry m vpn.
Proof.
  unfold page_entry. rewrite page_index_mark, table_mark.
  destruct (page_index m vpn) as [j|]; simpl; [| done].
  case_decide as Hj.
  - injection Hj as ->. apply list_lookup_alter_eq.
  - rewrite list_lookup_alter_ne by congruence. by destruct (table m !! j).
Qed.

Lemma same_view_mark w i m : same_view m (mark w i m).
Proof.
  assert (pageTableSize (mark w i m) = pageTableSize m) as Hs.
  { unfold mark, with_table. by destruct (tlb m). }
  pose proof (tlb_mark w i m) as Ht.
  split; intros; unfold expected_exception, phys_addr; cbv zeta; rewrite page_entry_mark.
  - case_match; [done |]. rewrite Hs. destruct (page_entry m _) as [e|]; simpl.
    + by case_decide.
    + by destruct (tlb m), (tlb (mark w i m)).
  - destruct (page_entry m _) as [e|]; simpl; [| done]. by case_decide.
Qed.

Lemma wf_mark w i m : wf m -> wf (mark w i m).
Proof.
  intros [H1 H2 H3 H4 H5 H6]. unfold mark, with_table, table, table_wf in *.
  split; destruct (tlb m) as [tb|] eqn:E; simpl; try done;
    unfold table_wf; simpl; rewrite ?E; destruct (pageTable m); simpl in *; try done;
    by rewrite length_alter.
Qed.

Lemma mark_mem w i m : mainMemory (mark w i m) = mainMemory m /\ registers (mark w i m) = registers m.
Proof. unfold mark, with_table. by destruct (tlb m). Qed.

Lemma expected_phys m va size w :
  size = 1 \/ size = 2 \/ size = 4 ->
  expected_exception m va size w = NoException ->
  exists pa i, phys_addr m va = Some pa /\ page_index m (u32 va / PageSize) = Some i /\
    0 <= pa /\ pa + size <= MemorySize.
Proof.
  intros Hs He. unfold expected_exception, phys_addr in *. cbv zeta in He.
  destruct (Z.eqb_spec (va mod size) 0) as [Ha|]; [| done]. simpl in He.
  destruct (offset_fits va size Hs Ha) as [Ho1 Ho2].
  destruct (page_entry m _) as [e|] eqn:Hp.
  - destruct (readOnly e && w); [done |]. case_decide as Hf; [| done]. simpl.
    unfold page_entry in Hp. destruct (page_index m _) as [i|]; [| done].
    eexists _, i. split_and!; [done | done | |]; unfold MemorySize, NumPhysPages, PageSize in *; lia.
  - destruct (tlb m); [done |]. by destruct (_ <=? _).
Qed.

(** ** Memory accesses *)

(** What an access of [size] bytes makes of them, and what it keeps of a value. *)
Definition value_of (size : Z) (bs : list Z) : Z :=
  match size with
  | 1 => char_to_int (le_combine bs)
  | 2 => le_combine bs
  | _ => s32 (le_combine bs)
  end.
Definition read_back (size v : Z) : Z :=
  match size with 1 => char_to_int (v mod 2 ^ 8) | 2 => v mod 2 ^ 16 | _ => s32 v end.

Definition bytes_at (m : t) (pa size : Z) : list Z :=
  slice (Z.to_nat pa) (Z.to_nat size) (mainMemory m).
Definition write_bytes (m : t) (pa : Z) (bs : list Z) : t :=
  with_memory m (list_inserts (Z.to_nat pa) bs (mainMemory m)).

Lemma load_eq m pa n :
  wf m -> 0 <= pa -> pa + Z.of_nat n <= MemorySize -> load m pa n = Ok (bytes_at m pa (Z.of_nat n)).
Proof.
  intros Hwf H0 H1. unfold load, bytes_at. rewrite (wf_mem _ Hwf), Nat2Z.id.
  destruct (Z.ltb_spec pa 0), (Z.ltb_spec (Z.of_nat (Z.to_nat MemorySize)) (pa + Z.of_nat n));
    simpl; done || lia.
Qed.

Lemma store_eq m pa bs :
  wf m -> 0 <= pa -> pa + Z.of_nat (length bs) <= MemorySize -> store m pa bs = Ok (write_bytes m pa bs).
Proof.
  intros Hwf H0 H1. unfold store. rewrite (wf_mem _ Hwf).
  destruct (Z.ltb_spec pa 0), (Z.ltb_spec (Z.of_nat (Z.to_nat MemorySize)) (pa + Z.of_nat (length bs)));
    simpl; done || lia.
Qed.

Lemma ReadMem_ok m va size :
  wf m -> size = 1 \/ size = 2 \/ size = 4 -> expected_exception m va size false = NoException ->
  exists pa i, phys_addr m va = Some pa /\ 0 <= pa /\ pa + size <= MemorySize /\
    page_index m (u32 va / PageSize) = Some i /\
    ReadMem m va size = Ok (Done (value_of size (bytes_at m pa size)) (mark false i m)).
Proof.
  intros Hwf Hs He. destruct (expected_phys m va size false Hs He) as (pa & i & Hp & Hi & H0 & H1).
  exists pa, i. split_and!; [done.. |]. unfold ReadMem.
  rewrite (Translate_spec m va size false Hwf Hs), He, Hp, Hi. cbn [mbind res_bind].
  rewrite !decide_True by done. rewrite bool_decide_true by done. simpl.
  fold (mark false i m). pose proof (wf_mark false i m Hwf) as Hw.
  assert (forall n, bytes_at (mark false i m) pa n = bytes_at m pa n) as Hb.
  { intros n. unfold bytes_at. by rewrite (proj1 (mark_mem false i m)). }
  destruct Hs as [-> | [-> | ->]]; rewrite load_eq by (done || lia); simpl; by rewrite Hb.
Qed.

Lemma raise_returns {A} m which bad :
  wf m -> is_s32 bad ->
  exists m', raise (A := A) m which bad = Ok (Trap which m') /\ wf m' /\ RegVal m' 0 = 0 /\
    RegVal m' BadVAddrReg = bad /\ mainMemory m' = mainMemory m.
Proof.
  intros Hwf Hb. pose proof (RaiseException_returns m which bad Hwf Hb) as H.
  apply returns_Ok in H as (m' & E & H). exists m'. unfold raise. by rewrite E.
Qed.

Lemma ReadMem_trap m va size :
  wf m -> size = 1 \/ size = 2 \/ size = 4 -> is_s32 va ->
  expected_exception m va size false <> NoException ->
  exists m', ReadMem m va size = Ok (Trap (expected_exception m va size false) m') /\ wf m' /\
    RegVal m' 0 = 0 /\ RegVal m' BadVAddrReg = va /\ mainMemory m' = mainMemory m.
Proof.
  intros Hwf Hs Hva He. unfold ReadMem. rewrite (Translate_spec m va size false Hwf Hs).
  cbn [mbind res_bind]. rewrite !decide_False by done. rewrite bool_decide_false by done.
  by apply raise_returns.
Qed.

Lemma WriteMem_ok m va size v :
  wf m -> size = 1 \/ size = 2 \/ size = 4 -> expected_exception m va size true = NoException ->
  exists pa i, phys_addr m va = Some pa /\ 0 <= pa /\ pa + size <= MemorySize /\
    WriteMem m va size v = Ok (Done tt (write_bytes (mark true i m) pa (le_split (Z.to_nat size) v))).
Proof.
  intros Hwf Hs He. destruct (expected_phys m va size true Hs He) as (pa & i & Hp & Hi & H0 & H1).
  exists pa, i. split_and!; [done.. |]. unfold WriteMem.
  rewrite (Translate_spec m va size true Hwf Hs), He, Hp, Hi. cbn [mbind res_bind].
  rewrite !decide_True by done. rewrite bool_decide_true by done. simpl negb. cbv iota.
  fold (mark true i m). pose proof (wf_mark true i m Hwf) as Hw. cbn [from_option id].
  destruct Hs as [-> | [-> | ->]]; rewrite store_eq by (done || rewrite length_le_split; lia);
    cbn [mbind res_bind]; do 3 f_equal.
  - change 0xff with (Z.ones 8). rewrite Z.land_ones by lia. apply (le_split_mod 1).
  - change 0xffff with (Z.ones 16). rewrite Z.land_ones by lia. apply (le_split_mod 2).
  - apply (le_split_mod 4).
Qed.

Lemma WriteMem_trap m va size v :
  wf m -> size = 1 \/ size = 2 \/ size = 4 -> is_s32 va ->
  expected_exception m va size true <> NoException ->
  exists m', WriteMem m va size v = Ok (Trap (expected_exception m va size true) m') /\ wf m' /\
    RegVal m' 0 = 0 /\ RegVal m' BadVAddrReg = va /\ mainMemory m' = mainMemory m.
Proof.
  intros Hwf Hs Hva He. unfold WriteMem. rewrite (Translate_spec m va size true Hwf Hs).
  cbn [mbind res_bind]. rewrite !decide_False by done. rewrite bool_decide_false by done.
  by apply raise_returns.
Qed.

Lemma wf_write_bytes m pa bs :
  wf m -> Forall is_byte bs -> wf (write_bytes m pa bs).
Proof.
  intros [H1 H2 H3 H4 H5 H6] Hb. split; simpl; try done.
  - by rewrite length_inserts.
  - by apply Forall_list_inserts.
Qed.

(** An access that goes through deserved no exception. *)
Lemma WriteMem_done m va size v m' :
  wf m -> size = 1 \/ size = 2 \/ size = 4 -> WriteMem m va size v = Ok (Done tt m') ->
  expected_exception m va size true = NoException.
Proof.
  intros Hwf Hs Hw. destruct (decide (expected_exception m va size true = NoException)) as [|Hne]; [done |].
  unfold WriteMem in Hw. rewrite (Translate_spec m va size true Hwf Hs) in Hw.
  cbn [mbind res_bind] in Hw. rewrite bool_decide_false in Hw by done. simpl in Hw.
  unfold raise in Hw. by inv_ok.
Qed.

Lemma ReadMem_done m va size x m' :
  wf m -> size = 1 \/ size = 2 \/ size = 4 -> ReadMem m va size = Ok (Done x m') ->
  expected_exception m va size false = NoException.
Proof.
  intros Hwf Hs Hw. destruct (decide (expected_exception m va size false = NoException)) as [|Hne]; [done |].
  unfold ReadMem in Hw. rewrite (Translate_spec m va size false Hwf Hs) in Hw.
  cbn [mbind res_bind] in Hw. rewrite bool_decide_false in Hw by done. simpl in Hw.
  unfold raise in Hw. by inv_ok.
Qed.

(** ** The contract of the memory system *)

(** C22: on a well-formed machine, [Translate] of an access of 1, 2 or 4 bytes
    never fails an [ASSERT] or leaves an array.  It reports exactly the expected
    exception, changes nothing but use and dirty bits, and on success the
    physical bytes lie inside main memory and the entry is marked. *)
Theorem translate_total m va size w :
  wf m -> size = 1 \/ size = 2 \/ size = 4 ->
  exists pa m', Translate m va size w = Ok (expected_exception m va size w, pa, m') /\
    wf m' /\ same_view m m' /\ mainMemory m' = mainMemory m /\ registers m' = registers m /\
    (expected_exception m va size w <> NoException -> m' = m) /\
    (expected_exception m va size w = NoException ->
       phys_addr m va = Some pa /\ 0 <= pa /\ pa + size <= MemorySize /\
       exists e, page_entry m' (u32 va / PageSize) = Some e /\ use e = true /\
         (w = true -> dirty e = true)).
Proof.
  intros Hwf Hs. pose proof (Translate_spec m va size w Hwf Hs) as E. cbv zeta in E.
  destruct (decide (expected_exception m va size w = NoException)) as [He|He].
  - destruct (expected_phys m va size w Hs He) as (pa & i & Hp & Hi & H0 & H1).
    rewrite Hi, Hp in E. fold (mark w i m) in E. exists pa, (mark w i m).
    destruct (mark_mem w i m) as [Hm Hr].
    split_and!; [done | by apply wf_mark | apply same_view_mark | done | done | done |].
    intros _. split_and!; [done.. |]. rewrite page_entry_mark, decide_True by done.
    unfold phys_addr in Hp. destruct (page_entry m _) as [e|]; [| done].
    exists (touch w e). split_and!; [done | done |]. by intros ->.
  - exists 0, m. split_and!; done.
Qed.

(** A write that goes through can be read back at the same address, in the
    width of the access, and leaves the bytes of every other physical address,
    the registers and the translations as they were. *)
Theorem write_then_read m m' va size v :
  wf m -> size = 1 \/ size = 2 \/ size = 4 ->
  WriteMem m va size v = Ok (Done tt m') ->
  wf m' /\ same_view m m' /\ registers m' = registers m /\
  (exists m'', ReadMem m' va size = Ok (Done (read_back size v) m'')) /\
  (exists pa, phys_addr m va = Some pa /\
     forall a n, 0 <= a -> 0 <= n -> a + n <= pa \/ pa + size <= a ->
       bytes_at m' a n = bytes_at m a n).
Proof.
  intros Hwf Hs Hw. pose proof (WriteMem_done m va size v m' Hwf Hs Hw) as He.
  destruct (WriteMem_ok m va size v Hwf Hs He) as (pa & i & Hp & H0 & H1 & E).
  rewrite E in Hw. injection Hw as <-. set (bs := le_split (Z.to_nat size) v).
  assert (length bs = Z.to_nat size) as Hlen by apply length_le_split.
  set (m1 := mark true i m) in *. pose proof (wf_mark true i m Hwf) as W1. fold m1 in W1.
  pose proof (mark_mem true i m) as [Hm Hr]. fold m1 in Hm, Hr.
  assert (wf (write_bytes m1 pa bs)) as W2 by (apply wf_write_bytes; [done | apply le_split_bytes]).
  assert (same_view m (write_bytes m1 pa bs)) as Hv.
  { destruct (same_view_mark true i m) as [Hv1 Hv2]. by split. }
  pose proof (wf_mem _ W1) as Hl.
  assert ((Z.to_nat pa + length bs <= length (mainMemory m1))%nat) as Hfit by (rewrite Hl; lia).
  split_and!; [done.. | |].
  - assert (expected_exception m va size false = NoException) as Hf.
    { unfold expected_exception in *. cbv zeta in *. case_match; [done |].
      destruct (page_entry m _) as [e|]; [| done]. rewrite andb_false_r.
      by destruct (readOnly e && true). }
    destruct (ReadMem_ok (write_bytes m1 pa bs) va size W2 Hs) as (pa' & j & Hp' & _ & _ & _ & E').
    { by rewrite (sv_exception _ _ Hv). }
    rewrite (sv_phys _ _ Hv), Hp in Hp'. injection Hp' as <-. rewrite E'. eexists. do 3 f_equal.
    unfold bytes_at. rewrite <- Hlen. cbn [write_bytes with_memory mainMemory].
    rewrite slice_inserts_eq by done. unfold bs.
    destruct Hs as [-> | [-> | ->]]; unfold value_of, read_back; rewrite le_combine_split;
      [done.. | apply s32_u32].
  - exists pa. split; [done |]. intros a n Ha Hn Hd. unfold bytes_at.
    cbn [write_bytes with_memory mainMemory]. rewrite slice_inserts_ne by (done || lia).
    by rewrite Hm.
Qed.

(** A small machine: page 0 in frame 3, page 1 read-only in frame 5. *)
Definition demo : t :=
  mk (replicate 40 0) (replicate (Z.to_nat MemorySize) 0) None
    (Some [mkEntry 0 3 true false false false; mkEntry 1 5 true true false false]) 2.

Lemma wf_demo : wf demo.
Proof.
  split.
  - reflexivity.
  - by apply Forall_replicate.
  - by exists 0.
  - apply length_replicate.
  - by apply Forall_replicate.
  - reflexivity.
Qed.

Lemma translate_total_witness :
  exists pa m', Translate demo 4 4 true = Ok (NoException, pa, m') /\ phys_addr demo 4 = Some pa.
Proof.
  destruct (translate_total demo 4 4 true wf_demo ltac:(auto))
    as (pa & m' & E & _ & _ & _ & _ & _ & H).
  exists pa, m'. split; [exact E | apply H; reflexivity].
Defined.

Lemma write_then_read_witness :
  exists m' m'', WriteMem demo 6 2 (-2) = Ok (Done tt m') /\
    ReadMem m' 6 2 = Ok (Done 65534 m'').
Proof.
  eexists. destruct (write_then_read demo _ 6 2 (-2) wf_demo ltac:(auto) eq_refl)
    as (_ & _ & _ & (m'' & E) & _).
  exists m''. split; [reflexivity | exact E].
Defined.
End Machine.
