(* ===== verification/Mips.v ===== *)
(** * Mips: machine/mipssim.h, machine/mipssim.cc

    The MIPS R2000 interpreter: the decoder with its two tables, the
    shift-and-add multiplication, and [OneInstruction], with the delayed load
    and the branch delay slot.  The build defines [SIM_FIX].  [int] arithmetic
    that overflows wraps, as the compiled code does on the x86 host; the
    division the host traps on is [ArithFault]. *)

From S2P Require Import Prelude Machine.
Import Machine.

Module Mips.

Inductive OpCode : Set :=
  | OP_ADD | OP_ADDI | OP_ADDIU | OP_ADDU | OP_AND | OP_ANDI
  | OP_BEQ | OP_BGEZ | OP_BGEZAL | OP_BGTZ | OP_BLEZ | OP_BLTZ | OP_BLTZAL | OP_BNE
  | OP_DIV | OP_DIVU | OP_J | OP_JAL | OP_JALR | OP_JR
  | OP_LB | OP_LBU | OP_LH | OP_LHU | OP_LUI | OP_LW | OP_LWL | OP_LWR
  | OP_MFHI | OP_MFLO | OP_MTHI | OP_MTLO | OP_MULT | OP_MULTU
  | OP_NOR | OP_OR | OP_ORI | OP_RFE | OP_SB | OP_SH
  | OP_SLL | OP_SLLV | OP_SLT | OP_SLTI | OP_SLTIU | OP_SLTU
  | OP_SRA | OP_SRAV | OP_SRL | OP_SRLV | OP_SUB | OP_SUBU
  | OP_SW | OP_SWL | OP_SWR | OP_XOR | OP_XORI
  | OP_SYSCALL | OP_UNIMP | OP_RES
  | SPECIAL | BCOND.

Inductive Format : Set := IFMT | JFMT | RFMT.

Definition IndexToAddr (x : Z) : Z := s32 (Z.shiftl x 2).
Definition SIGN_BIT : Z := 0x80000000.
Definition R31 : Z := 31.

Definition opTable : list (OpCode * Format) := [
  (SPECIAL, RFMT); (BCOND, IFMT); (OP_J, JFMT); (OP_JAL, JFMT);
  (OP_BEQ, IFMT); (OP_BNE, IFMT); (OP_BLEZ, IFMT); (OP_BGTZ, IFMT);
  (OP_ADDI, IFMT); (OP_ADDIU, IFMT); (OP_SLTI, IFMT); (OP_SLTIU, IFMT);
  (OP_ANDI, IFMT); (OP_ORI, IFMT); (OP_XORI, IFMT); (OP_LUI, IFMT);
  (OP_UNIMP, IFMT); (OP_UNIMP, IFMT); (OP_UNIMP, IFMT); (OP_UNIMP, IFMT);
  (OP_RES, IFMT); (OP_RES, IFMT); (OP_RES, IFMT); (OP_RES, IFMT);
  (OP_RES, IFMT); (OP_RES, IFMT); (OP_RES, IFMT); (OP_RES, IFMT);
  (OP_RES, IFMT); (OP_RES, IFMT); (OP_RES, IFMT); (OP_RES, IFMT);
  (OP_LB, IFMT); (OP_LH, IFMT); (OP_LWL, IFMT); (OP_LW, IFMT);
  (OP_LBU, IFMT); (OP_LHU, IFMT); (OP_LWR, IFMT); (OP_RES, IFMT);
  (OP_SB, IFMT); (OP_SH, IFMT); (OP_SWL, IFMT); (OP_SW, IFMT);
  (OP_RES, IFMT); (OP_RES, IFMT); (OP_SWR, IFMT); (OP_RES, IFMT);
  (OP_UNIMP, IFMT); (OP_UNIMP, IFMT); (OP_UNIMP, IFMT); (OP_UNIMP, IFMT);
  (OP_RES, IFMT); (OP_RES, IFMT); (OP_RES, IFMT); (OP_RES, IFMT);
  (OP_UNIMP, IFMT); (OP_UNIMP, IFMT); (OP_UNIMP, IFMT); (OP_UNIMP, IFMT);
  (OP_RES, IFMT); (OP_RES, IFMT); (OP_RES, IFMT); (OP_RES, IFMT)
].

Definition specialTable : list OpCode := [
  OP_SLL; OP_RES; OP_SRL; OP_SRA; OP_SLLV; OP_RES; OP_SRLV; OP_SRAV;
  OP_JR; OP_JALR; OP_RES; OP_RES; OP_SYSCALL; OP_UNIMP; OP_RES; OP_RES;
  OP_MFHI; OP_MTHI; OP_MFLO; OP_MTLO; OP_RES; OP_RES; OP_RES; OP_RES;
  OP_MULT; OP_MULTU; OP_DIV; OP_DIVU; OP_RES; OP_RES; OP_RES; OP_RES;
  OP_ADD; OP_ADDU; OP_SUB; OP_SUBU; OP_AND; OP_OR; OP_XOR; OP_NOR;
  OP_RES; OP_RES; OP_SLT; OP_SLTU; OP_RES; OP_RES; OP_RES; OP_RES;
  OP_RES; OP_RES; OP_RES; OP_RES; OP_RES; OP_RES; OP_RES; OP_RES;
  OP_RES; OP_RES; OP_RES; OP_RES; OP_RES; OP_RES; OP_RES; OP_RES
].

(** [class Instruction] *)
Record Instruction := mkInstr {
  value : Z;
  opCode : OpCode;
  rs : Z;
  rt : Z;
  rd : Z;
  extra : Z;
}.

(** The three formats of [extra]; [v] is the [unsigned] instruction word. *)
Definition decode_extra (format : Format) (v : Z) : Z :=
  match format with
  | IFMT =>
      let extra := Z.land v 0xffff in
      if negb (Z.land extra 0x8000 =? 0) then s32 (Z.lor extra 0xffff0000) else extra
  | RFMT => Z.land (Z.shiftr v 6) 0x1f
  | JFMT => Z.land v 0x3ffffff
  end.

(** The further decoding of [SPECIAL] and [BCOND]. *)
Definition decode_op (op : OpCode) (v : Z) : res OpCode :=
  match op with
  | SPECIAL => deref (specialTable !! Z.to_nat (Z.land v 0x3f))
  | BCOND =>
      let i := Z.land v 0x1f0000 in
      Ok (if i =? 0 then OP_BLTZ
          else if i =? 0x10000 then OP_BGEZ
          else if i =? 0x100000 then OP_BLTZAL
          else if i =? 0x110000 then OP_BGEZAL
          else OP_UNIMP)
  | op => Ok op
  end.

(** [Instruction::Decode] *)
Definition Decode (v : Z) : res Instruction :=
  let rs := Z.land (Z.shiftr v 21) 0x1f in
  let rt := Z.land (Z.shiftr v 16) 0x1f in
  let rd := Z.land (Z.shiftr v 11) 0x1f in
  '(op, format) ← deref (opTable !! Z.to_nat (Z.land (Z.shiftr v 26) 0x3f));
  let extra := decode_extra format v in
  op ← decode_op op v;
  Ok (mkInstr v op rs rt rd extra).

(** ** Multiplication *)

(** The main loop of [Mult]: [a] is an [int], the other four are [unsigned]. *)
Fixpoint mult_loop (n : nat) (a bLo bHi lo hi : Z) : Z * Z :=
  match n with
  | O => (hi, lo)
  | S n' =>
      let next lo hi :=
        let bHi := u32 (Z.shiftl bHi 1) in
        let bHi := if negb (Z.land bLo 0x80000000 =? 0) then Z.lor bHi 1 else bHi in
        mult_loop n' (Z.shiftr a 1) (u32 (Z.shiftl bLo 1)) bHi lo hi in
      if negb (Z.land a 1 =? 0) then
        let lo := u32 (lo + bLo) in
        let hi := if lo <? bLo then u32 (hi + 1) else hi in
        let hi := u32 (hi + bHi) in
        if Z.land (u32 a) 0xfffffffe =? 0 then (hi, lo) else next lo hi
      else next lo hi
  end.

(** [Mult]: the two words it stores, high first. *)
Definition Mult (a b : Z) (signedArith : bool) : Z * Z :=
  if (a =? 0) || (b =? 0) then (0, 0)
  else
    let negative := false in
    let '(negative, a) :=
      if signedArith && (a <? 0) then (negb negative, s32 (- a)) else (negative, a) in
    let '(negative, b) :=
      if signedArith && (b <? 0) then (negb negative, s32 (- b)) else (negative, b) in
    let '(hi, lo) := mult_loop 32 a (u32 b) 0 0 0 in
    let '(hi, lo) :=
      if negative : bool then
        let hi := u32 (Z.lnot hi) in
        let lo := u32 (Z.lnot lo) in
        let lo := u32 (lo + 1) in
        (if lo =? 0 then u32 (hi + 1) else hi, lo)
      else (hi, lo) in
    (s32 hi, s32 lo).

(** ** Execution

    An executed instruction leaves [pcAfter], [nextLoadReg] and
    [nextLoadValue] for the end of [OneInstruction]. *)
Definition exec : Type := res (outcome (Z * Z * Z)).

Definition finish (m : t) (pcAfter : Z) : exec := Ok (Done (pcAfter, 0, 0) m).

(** A memory access that must go through for the instruction to continue. *)
Definition on_done {A B} (r : res (outcome A)) (k : A -> t -> res (outcome B)) : res (outcome B) :=
  o ← r; match o with Done a m => k a m | Trap w m => Ok (Trap w m) end.

Definition sign_bit (x : Z) : bool := negb (Z.land x SIGN_BIT =? 0).

(** [registers[n] = v;] and the end of the case *)
Definition assign (m : t) (n v pcAfter : Z) : exec := m ← set_reg m n v; finish m pcAfter.

Definition exec_ADD (m : t) (i : Instruction) (pcAfter : Z) : exec :=
  a ← reg m (rs i);
  b ← reg m (rt i);
  let sum := s32 (a + b) in
  if negb (sign_bit (Z.lxor a b)) && sign_bit (Z.lxor a sum)
  then raise m OverflowException 0
  else assign m (rd i) sum pcAfter.

Definition exec_ADDI (m : t) (i : Instruction) (pcAfter : Z) : exec :=
  a ← reg m (rs i);
  let sum := s32 (a + extra i) in
  if negb (sign_bit (Z.lxor a (extra i))) && sign_bit (Z.lxor (extra i) sum)
  then raise m OverflowException 0
  else assign m (rt i) sum pcAfter.

Definition exec_SUB (m : t) (i : Instruction) (pcAfter : Z) : exec :=
  a ← reg m (rs i);
  b ← reg m (rt i);
  let diff := s32 (a - b) in
  if sign_bit (Z.lxor a b) && sign_bit (Z.lxor a diff)
  then raise m OverflowException 0
  else assign m (rd i) diff pcAfter.

(** [pcAfter = registers[NextPCReg] + IndexToAddr(instr->extra)] when [taken] *)
Definition branch (m : t) (i : Instruction) (pcAfter : Z) (taken : bool) : exec :=
  npc ← reg m NextPCReg;
  finish m (if taken then s32 (npc + IndexToAddr (extra i)) else pcAfter).

(** [registers[r] = registers[NextPCReg] + 4] *)
Definition link (m : t) (r : Z) : res t :=
  npc ← reg m NextPCReg; set_reg m r (s32 (npc + 4)).

Definition exec_BEQ (m : t) (i : Instruction) (pcAfter : Z) : exec :=
  a ← reg m (rs i); b ← reg m (rt i); branch m i pcAfter (a =? b).
Definition exec_BNE (m : t) (i : Instruction) (pcAfter : Z) : exec :=
  a ← reg m (rs i); b ← reg m (rt i); branch m i pcAfter (negb (a =? b)).
Definition exec_BGEZ (m : t) (i : Instruction) (pcAfter : Z) : exec :=
  a ← reg m (rs i); branch m i pcAfter (negb (sign_bit a)).
Definition exec_BGTZ (m : t) (i : Instruction) (pcAfter : Z) : exec :=
  a ← reg m (rs i); branch m i pcAfter (0 <? a).
Definition exec_BLEZ (m : t) (i : Instruction) (pcAfter : Z) : exec :=
  a ← reg m (rs i); branch m i pcAfter (a <=? 0).
Definition exec_BLTZ (m : t) (i : Instruction) (pcAfter : Z) : exec :=
  a ← reg m (rs i); branch m i pcAfter (sign_bit a).

Definition set_hi_lo (m : t) (hi lo pcAfter : Z) : exec :=
  m ← set_reg m LoReg lo; m ← set_reg m HiReg hi; finish m pcAfter.

(** [INT_MIN / -1] overflows: the x86 [idiv] raises a trap. *)
Definition exec_DIV (m : t) (i : Instruction) (pcAfter : Z) : exec :=
  a ← reg m (rs i);
  b ← reg m (rt i);
  if b =? 0 then set_hi_lo m 0 0 pcAfter
  else if (a =? - 2 ^ 31) && (b =? -1) then Fault ArithFault
  else
    m ← set_reg m LoReg (Z.quot a b);
    a ← reg m (rs i);
    b ← reg m (rt i);
    m ← set_reg m HiReg (Z.rem a b);
    finish m pcAfter.

Definition exec_DIVU (m : t) (i : Instruction) (pcAfter : Z) : exec :=
  a ← reg m (rs i);
  b ← reg m (rt i);
  let rs := u32 a in
  let rt := u32 b in
  if rt =? 0 then set_hi_lo m 0 0 pcAfter
  else set_hi_lo m (s32 (rs mod rt)) (s32 (rs / rt)) pcAfter.

Definition exec_J (m : t) (i : Instruction) (pcAfter : Z) : exec :=
  finish m (s32 (Z.lor (Z.land pcAfter 0xf0000000) (IndexToAddr (extra i)))).
Definition exec_JR (m : t) (i : Instruction) (pcAfter : Z) : exec :=
  a ← reg m (rs i); finish m a.

(** ** Loads *)

Definition address (m : t) (i : Instruction) : res Z :=
  a ← reg m (rs i); Ok (s32 (a + extra i)).

Definition exec_LB (signed : bool) (m : t) (i : Instruction) (pcAfter : Z) : exec :=
  tmp ← address m i;
  on_done (ReadMem m tmp 1) (fun value m =>
    let value :=
      if negb (Z.land value 0x80 =? 0) && signed
      then s32 (Z.lor value 0xffffff00) else Z.land value 0xff in
    Ok (Done (pcAfter, rt i, value) m)).

Definition exec_LH (signed : bool) (m : t) (i : Instruction) (pcAfter : Z) : exec :=
  tmp ← address m i;
  if negb (Z.land tmp 0x1 =? 0) then raise m AddressErrorException tmp
  else
    on_done (ReadMem m tmp 2) (fun value m =>
      let value :=
        if negb (Z.land value 0x8000 =? 0) && signed
        then s32 (Z.lor value 0xffff0000) else Z.land value 0xffff in
      Ok (Done (pcAfter, rt i, value) m)).

Definition exec_LW (m : t) (i : Instruction) (pcAfter : Z) : exec :=
  tmp ← address m i;
  if negb (Z.land tmp 0x3 =? 0) then raise m AddressErrorException tmp
  else on_done (ReadMem m tmp 4) (fun value m => Ok (Done (pcAfter, rt i, value) m)).

(** The value [instr->rt] will have, counting a load still in its delay slot. *)
Definition pending (m : t) (r : Z) : res Z :=
  l ← reg m LoadReg;
  if l =? r then reg m LoadValueReg else reg m r.

(** The switch on [3 - byte] of [OP_LWL] and of [OP_LWR]. *)
Definition lwl_merge (byte old value : Z) : Z :=
  match 3 - byte with
  | 0 => value
  | 1 => s32 (Z.lor (Z.land old 0xff) (Z.shiftl value 8))
  | 2 => s32 (Z.lor (Z.land old 0xffff) (Z.shiftl value 16))
  | 3 => s32 (Z.lor (Z.land old 0xffffff) (Z.shiftl value 24))
  | _ => old
  end.
Definition lwr_merge (byte old value : Z) : Z :=
  match 3 - byte with
  | 0 => s32 (Z.lor (Z.land old 0xffffff00) (Z.land (Z.shiftr value 24) 0xff))
  | 1 => s32 (Z.lor (Z.land old 0xffff0000) (Z.land (Z.shiftr value 16) 0xffff))
  | 2 => s32 (Z.lor (Z.land old 0xff000000) (Z.land (Z.shiftr value 8) 0xffffff))
  | 3 => value
  | _ => old
  end.

Definition exec_LWL (m : t) (i : Instruction) (pcAfter : Z) : exec :=
  tmp ← address m i;
  let byte := Z.land tmp 0x3 in
  on_done (ReadMem m (tmp - byte) 4) (fun value m =>
    nextLoadValue ← pending m (rt i);
    Ok (Done (pcAfter, rt i, lwl_merge byte nextLoadValue value) m)).

Definition exec_LWR (m : t) (i : Instruction) (pcAfter : Z) : exec :=
  tmp ← address m i;
  let byte := Z.land tmp 0x3 in
  on_done (ReadMem m (tmp - byte) 4) (fun value m =>
    nextLoadValue ← pending m (rt i);
    Ok (Done (pcAfter, rt i, lwr_merge byte nextLoadValue value) m)).

(** ** Stores *)

Definition exec_store (size : Z) (m : t) (i : Instruction) (pcAfter : Z) : exec :=
  addr ← address m i;
  v ← reg m (rt i);
  on_done (WriteMem m addr size v) (fun _ m => finish m pcAfter).

Definition swl_merge (byte r value : Z) : Z :=
  match 3 - byte with
  | 0 => r
  | 1 => s32 (Z.lor (Z.land value 0xff000000) (Z.land (Z.shiftr r 8) 0xffffff))
  | 2 => s32 (Z.lor (Z.land value 0xffff0000) (Z.land (Z.shiftr r 16) 0xffff))
  | 3 => s32 (Z.lor (Z.land value 0xffffff00) (Z.land (Z.shiftr r 24) 0xff))
  | _ => value
  end.
Definition swr_merge (byte r value : Z) : Z :=
  match 3 - byte with
  | 0 => s32 (Z.lor (Z.land value 0xffffff) (Z.shiftl r 24))
  | 1 => s32 (Z.lor (Z.land value 0xffff) (Z.shiftl r 16))
  | 2 => s32 (Z.lor (Z.land value 0xff) (Z.shiftl r 8))
  | 3 => r
  | _ => value
  end.

Definition exec_SWL (m : t) (i : Instruction) (pcAfter : Z) : exec :=
  tmp ← address m i;
  let byte := Z.land tmp 0x3 in
  on_done (ReadMem m (tmp - byte) 4) (fun value m =>
    r ← reg m (rt i);
    on_done (WriteMem m (tmp - byte) 4 (swl_merge byte r value)) (fun _ m => finish m pcAfter)).

Definition exec_SWR (m : t) (i : Instruction) (pcAfter : Z) : exec :=
  tmp ← address m i;
  let byte := Z.land tmp 0x3 in
  on_done (ReadMem m (tmp - byte) 4) (fun value m =>
    r ← reg m (rt i);
    on_done (WriteMem m (tmp - byte) 4 (swr_merge byte r value)) (fun _ m => finish m pcAfter)).

Definition exec_MULT (signedArith : bool) (m : t) (i : Instruction) (pcAfter : Z) : exec :=
  a ← reg m (rs i);
  b ← reg m (rt i);
  let '(hi, lo) := Mult a b signedArith in
  m ← set_reg m HiReg hi;
  m ← set_reg m LoReg lo;
  finish m pcAfter.

(** [registers[rd] = op(registers[rs], registers[rt])] and
    [registers[rt] = op(registers[rs])] *)
Definition op_rd (f : Z -> Z -> Z) (m : t) (i : Instruction) (pcAfter : Z) : exec :=
  a ← reg m (rs i); b ← reg m (rt i); assign m (rd i) (f a b) pcAfter.
Definition op_rt (f : Z -> Z) (m : t) (i : Instruction) (pcAfter : Z) : exec :=
  a ← reg m (rs i); assign m (rt i) (f a) pcAfter.
Definition move (src dst : Z) (m : t) (pcAfter : Z) : exec :=
  v ← reg m src; assign m dst v pcAfter.

Definition c_bool (b : bool) : Z := if b then 1 else 0.

(** The register-to-register cases from [OP_MFHI] to [OP_SUBU], and the last
    part of the switch. *)
Definition Execute_late (m : t) (i : Instruction) (pcAfter : Z) : exec :=
  match opCode i with
  | OP_MFHI => move HiReg (rd i) m pcAfter
  | OP_MFLO => move LoReg (rd i) m pcAfter
  | OP_MTHI => move (rs i) HiReg m pcAfter
  | OP_MTLO => move (rs i) LoReg m pcAfter
  | OP_MULT => exec_MULT true m i pcAfter
  | OP_MULTU => exec_MULT false m i pcAfter
  | OP_NOR => op_rd (fun a b => Z.lnot (Z.lor a b)) m i pcAfter
  | OP_OR => op_rd Z.lor m i pcAfter
  | OP_ORI => op_rt (fun a => Z.lor a (Z.land (extra i) 0xffff)) m i pcAfter
  | OP_SB => exec_store 1 m i pcAfter
  | OP_SH => exec_store 2 m i pcAfter
  | OP_SLL => v ← reg m (rt i); assign m (rd i) (s32 (Z.shiftl v (extra i))) pcAfter
  | OP_SLLV => op_rd (fun a b => s32 (Z.shiftl b (Z.land a 0x1f))) m i pcAfter
  | OP_SLT => op_rd (fun a b => c_bool (a <? b)) m i pcAfter
  | OP_SLTI => op_rt (fun a => c_bool (a <? extra i)) m i pcAfter
  | OP_SLTIU => op_rt (fun a => c_bool (u32 a <? u32 (extra i))) m i pcAfter
  | OP_SLTU => op_rd (fun a b => c_bool (u32 a <? u32 b)) m i pcAfter
  | OP_SRA => v ← reg m (rt i); assign m (rd i) (Z.shiftr v (extra i)) pcAfter
  | OP_SRAV => op_rd (fun a b => Z.shiftr b (Z.land a 0x1f)) m i pcAfter
  | OP_SRL =>
      tmp ← reg m (rt i);
      let tmp := Z.shiftr tmp (extra i) in
      assign m (rd i) tmp pcAfter
  | OP_SRLV =>
      tmp ← reg m (rt i);
      a ← reg m (rs i);
      let tmp := Z.shiftr tmp (Z.land a 0x1f) in
      assign m (rd i) tmp pcAfter
  | OP_SUB => exec_SUB m i pcAfter
  | OP_SUBU => op_rd (fun a b => s32 (a - b)) m i pcAfter
  | OP_SW => exec_store 4 m i pcAfter
  | OP_SWL => exec_SWL m i pcAfter
  | OP_SWR => exec_SWR m i pcAfter
  | OP_SYSCALL => raise m SyscallException 0
  | OP_XOR => op_rd Z.lxor m i pcAfter
  | OP_XORI => op_rt (fun a => Z.lxor a (Z.land (extra i) 0xffff)) m i pcAfter
  | OP_RES | OP_UNIMP => raise m IllegalInstrException 0
  | _ => Fault AssertFailure
  end.

(** The switch of [OneInstruction]. *)
Definition Execute (m : t) (i : Instruction) (pcAfter : Z) : exec :=
  match opCode i with
  | OP_ADD => exec_ADD m i pcAfter
  | OP_ADDI => exec_ADDI m i pcAfter
  | OP_ADDIU => op_rt (fun a => s32 (a + extra i)) m i pcAfter
  | OP_ADDU => op_rd (fun a b => s32 (a + b)) m i pcAfter
  | OP_AND => op_rd Z.land m i pcAfter
  | OP_ANDI => op_rt (fun a => Z.land a (Z.land (extra i) 0xffff)) m i pcAfter
  | OP_BEQ => exec_BEQ m i pcAfter
  | OP_BGEZAL => m ← link m R31; exec_BGEZ m i pcAfter
  | OP_BGEZ => exec_BGEZ m i pcAfter
  | OP_BGTZ => exec_BGTZ m i pcAfter
  | OP_BLEZ => exec_BLEZ m i pcAfter
  | OP_BLTZAL => m ← link m R31; exec_BLTZ m i pcAfter
  | OP_BLTZ => exec_BLTZ m i pcAfter
  | OP_BNE => exec_BNE m i pcAfter
  | OP_DIV => exec_DIV m i pcAfter
  | OP_DIVU => exec_DIVU m i pcAfter
  | OP_JAL => m ← link m R31; exec_J m i pcAfter
  | OP_J => exec_J m i pcAfter
  | OP_JALR => m ← link m (rd i); exec_JR m i pcAfter
  | OP_JR => exec_JR m i pcAfter
  | OP_LB => exec_LB true m i pcAfter
  | OP_LBU => exec_LB false m i pcAfter
  | OP_LH => exec_LH true m i pcAfter
  | OP_LHU => exec_LH false m i pcAfter
  | OP_LUI => assign m (rt i) (s32 (Z.shiftl (extra i) 16)) pcAfter
  | OP_LW => exec_LW m i pcAfter
  | OP_LWL => exec_LWL m i pcAfter
  | OP_LWR => exec_LWR m i pcAfter
  | _ => Execute_late m i pcAfter
  end.

(** The end of [OneInstruction]: the pending load, then the counters. *)
Definition advance (m : t) (pcAfter nextLoadReg nextLoadValue : Z) : res t :=
  m ← DelayedLoad m nextLoadReg nextLoadValue;
  pc ← reg m PCReg;
  m ← set_reg m PrevPCReg pc;
  npc ← reg m NextPCReg;
  m ← set_reg m PCReg npc;
  set_reg m NextPCReg pcAfter.

(** [Machine::OneInstruction] *)
Definition OneInstruction (m : t) : res (outcome unit) :=
  pc ← reg m PCReg;
  on_done (ReadMem m pc 4) (fun raw m =>
    i ← Decode (u32 raw);
    npc ← reg m NextPCReg;
    on_done (Execute m i (s32 (npc + 4))) (fun '(pcAfter, nextLoadReg, nextLoadValue) m =>
      m ← advance m pcAfter nextLoadReg nextLoadValue;
      Ok (Done tt m))).

(** ** The decoder *)

Definition runnable (op : OpCode) : bool :=
  match op with SPECIAL | BCOND | OP_RFE => false | _ => true end.
Definition shift_by_extra (op : OpCode) : bool :=
  match op with OP_SLL | OP_SRA | OP_SRL => true | _ => false end.

(** What [Execute] relies on. *)
Record instr_wf (i : Instruction) : Prop := {
  iw_rs : 0 <= rs i < NumGPRegs;
  iw_rt : 0 <= rt i < NumGPRegs;
  iw_rd : 0 <= rd i < NumGPRegs;
  iw_extra : is_s32 (extra i);
  iw_shift : shift_by_extra (opCode i) = true -> 0 <= extra i < 32;
  iw_op : runnable (opCode i) = true;
}.

Lemma opTable_wf :
  Forall (fun e => match e with
    | (SPECIAL, f) => f = RFMT
    | (BCOND, _) => True
    | (op, _) => runnable op = true /\ shift_by_extra op = false end) opTable.
Proof. repeat (constructor; [done |]). constructor. Qed.

Lemma specialTable_wf : Forall (fun op => runnable op = true) specialTable.
Proof. repeat (constructor; [done |]). constructor. Qed.

Lemma table_lookup {A} (tbl : list A) z k :
  0 <= k -> length tbl = Z.to_nat (2 ^ k) ->
  exists x, tbl !! Z.to_nat (Z.land z (2 ^ k - 1)) = Some x.
Proof.
  intros Hk Hl. apply lookup_lt_is_Some_2. rewrite Hl.
  pose proof (land_mask_range z k Hk). lia.
Qed.

Lemma decode_extra_wf f v : is_s32 (decode_extra f v) /\ (f = RFMT -> 0 <= decode_extra f v < 32).
Proof.
  destruct f; simpl; split; try done.
  - destruct (negb _); [apply s32_range | apply (is_s32_mask v 16); lia].
  - apply (is_s32_mask v 26). lia.
  - apply (is_s32_mask _ 5). lia.
  - intros _. apply (land_mask_range _ 5). lia.
Qed.

Lemma decode_op_wf op f v :
  (op, f) ∈ opTable ->
  returns (decode_op op v) (fun op' => runnable op' = true /\ (shift_by_extra op' = true -> f = RFMT)).
Proof.
  intros Hin. pose proof (proj1 (Forall_forall _ _) opTable_wf _ Hin) as Ho. clear Hin.
  destruct op; try (destruct Ho as [Ho1 Ho2]; split; [exact Ho1 | intros Hs; simpl in *; congruence]).
  - simpl. destruct (table_lookup specialTable v 6) as [x Hx]; [lia | done |].
    change (2 ^ 6 - 1) with 0x3f in Hx. rewrite Hx.
    split; [exact (Forall_lookup_1 _ _ _ _ specialTable_wf Hx) | done].
  - simpl. set (i := Z.land v 0x1f0000).
    by destruct (i =? 0), (i =? 0x10000), (i =? 0x100000), (i =? 0x110000).
Qed.

(** Every word decodes, to an instruction that [Execute] has a case for. *)
Lemma Decode_wf v : returns (Decode v) (fun i => instr_wf i /\ value i = v).
Proof.
  unfold Decode. destruct (table_lookup opTable (Z.shiftr v 26) 6) as [[op f] Hop]; [lia | done |].
  change (2 ^ 6 - 1) with 0x3f in Hop. rewrite Hop. cbn [mbind res_bind deref].
  apply returns_bind. eapply returns_mono;
    [apply (decode_op_wf op f v); by apply list_elem_of_lookup_2 in Hop |].
  intros op' [Hrun Hsh]. destruct (decode_extra_wf f v) as [He Hr]. simpl. split; [| done].
  split; simpl; auto; apply (land_mask_range _ 5); lia.
Qed.

(** ** Safety of execution *)

Definition exec_post (o : outcome (Z * Z * Z)) : Prop :=
  match o with
  | Done (pcAfter, nextLoadReg, nextLoadValue) m =>
      wf m /\ is_s32 pcAfter /\ 0 <= nextLoadReg < NumGPRegs /\ is_s32 nextLoadValue
  | Trap _ m => wf m /\ RegVal m 0 = 0
  end.

Section rules.
Context {A : Type}.

Lemma returns_reg m n (k : Z -> res A) (Q : A -> Prop) :
  wf m -> 0 <= n < 40 ->
  (forall v, v = RegVal m n -> is_s32 v -> returns (k v) Q) -> returns (reg m n ≫= k) Q.
Proof. intros Hwf Hn Hk. rewrite reg_eq by done. apply Hk; [done | by apply RegVal_s32]. Qed.

Lemma returns_set m n v (k : t -> res A) (Q : A -> Prop) :
  wf m -> fits n v -> (forall m', wf m' -> returns (k m') Q) -> returns (set_reg m n v ≫= k) Q.
Proof.
  intros Hwf Hf Hk. apply returns_bind. eapply returns_mono; [by apply set_reg_returns |].
  intros m' [? _]. by apply Hk.
Qed.

Lemma returns_read m va size (k : Z -> t -> res (outcome A)) (Q : outcome A -> Prop) :
  wf m -> size = 1 \/ size = 2 \/ size = 4 -> is_s32 va ->
  (forall v m', wf m' -> is_s32 v -> returns (k v m') Q) ->
  (forall w m', wf m' -> RegVal m' 0 = 0 -> Q (Trap w m')) ->
  returns (on_done (ReadMem m va size) k) Q.
Proof.
  intros Hwf Hs Hva Hk Ht. unfold on_done.
  destruct (decide (expected_exception m va size false = NoException)) as [He|He].
  - destruct (ReadMem_ok m va size Hwf Hs He) as (pa & i & _ & _ & _ & _ & ->). simpl.
    apply Hk; [by apply wf_mark |]. unfold value_of, bytes_at.
    pose proof (le_combine_range (slice (Z.to_nat pa) (Z.to_nat size) (mainMemory m))
      (Forall_slice _ _ _ _ (wf_bytes _ Hwf))) as Hr.
    assert (length (slice (Z.to_nat pa) (Z.to_nat size) (mainMemory m)) <= Z.to_nat size)%nat as Hl
      by (unfold slice; rewrite length_take; lia).
    assert (256 ^ Z.of_nat (length (slice (Z.to_nat pa) (Z.to_nat size) (mainMemory m))) <= 256 ^ size)
      by (apply Z.pow_le_mono_r; lia).
    destruct Hs as [-> | [-> | ->]]; [| | apply s32_range]; unfold is_s32, char_to_int;
      try case_match; lia.
  - destruct (ReadMem_trap m va size Hwf Hs Hva He) as (m' & -> & W & H0 & _). simpl. by apply Ht.
Qed.

Lemma returns_write m va size v (k : unit -> t -> res (outcome A)) (Q : outcome A -> Prop) :
  wf m -> size = 1 \/ size = 2 \/ size = 4 -> is_s32 va ->
  (forall m', wf m' -> returns (k tt m') Q) ->
  (forall w m', wf m' -> RegVal m' 0 = 0 -> Q (Trap w m')) ->
  returns (on_done (WriteMem m va size v) k) Q.
Proof.
  intros Hwf Hs Hva Hk Ht. unfold on_done.
  destruct (decide (expected_exception m va size true = NoException)) as [He|He].
  - destruct (WriteMem_ok m va size v Hwf Hs He) as (pa & i & _ & _ & _ & ->). simpl.
    apply Hk. apply wf_write_bytes; [by apply wf_mark | apply le_split_bytes].
  - destruct (WriteMem_trap m va size v Hwf Hs Hva He) as (m' & -> & W & H0 & _). simpl. by apply Ht.
Qed.
End rules.

Lemma returns_raise m w v : wf m -> is_s32 v -> returns (raise m w v) exec_post.
Proof.
  intros Hwf Hv. destruct (raise_returns (A := Z * Z * Z) m w v Hwf Hv) as (m' & -> & W & H0 & _).
  by split.
Qed.

Lemma returns_finish m pc : wf m -> is_s32 pc -> returns (finish m pc) exec_post.
Proof. intros. simpl. split_and!; [done.. | by split]. Qed.

Lemma returns_assign m n v pc :
  wf m -> 0 <= n < NumGPRegs -> is_s32 v -> is_s32 pc -> returns (assign m n v pc) exec_post.
Proof.
  intros. unfold NumGPRegs in *. apply returns_set; [done | | intros; by apply returns_finish].
  split_and!; try done; unfold LoadReg; lia.
Qed.

Lemma c_bool_s32 b : is_s32 (c_bool b).
Proof. by destruct b. Qed.

Lemma is_s32_byte_aligned v : is_s32 v -> is_s32 (v - Z.land v 0x3).
Proof.
  pose proof (land_mask v 2 ltac:(lia)) as E. change (2 ^ 2 - 1) with 3 in E.
  rewrite E. unfold is_s32. Z.div_mod_to_equations. lia.
Qed.

Lemma quot_s32 a b :
  is_s32 a -> is_s32 b -> b <> 0 -> ~ (a = - 2 ^ 31 /\ b = -1) ->
  is_s32 (Z.quot a b) /\ is_s32 (Z.rem a b).
Proof.
  unfold is_s32. intros Ha Hb H0 Hov.
  assert (Z.abs (Z.rem a b) < Z.abs b) by by apply Z.rem_bound_abs.
  split; [| lia].
  destruct (decide (b = -1)) as [->|]; [change (-1) with (- (1)); rewrite Z.quot_opp_r, Z.quot_1_r by lia; lia |].
  destruct (decide (b = 1)) as [->|]; [rewrite Z.quot_1_r; lia |].
  assert (Z.abs (Z.quot a b) <= 2 ^ 30); [| lia].
  rewrite <- Z.quot_abs by lia. transitivity (Z.quot (Z.abs a) 2).
  - rewrite !Z.quot_div_nonneg by lia. apply Z.div_le_compat_l; lia.
  - rewrite Z.quot_div_nonneg by lia. apply Z.div_le_upper_bound; lia.
Qed.

Lemma Mult_s32 a b sg : is_s32 (Mult a b sg).1 /\ is_s32 (Mult a b sg).2.
Proof.
  unfold Mult. destruct (_ || _); [by split |].
  destruct (if _ && _ then _ else _) as [n1 a1], (if _ && _ then _ else _) as [n2 b1].
  destruct (mult_loop 32 a1 (u32 b1) 0 0 0) as [hi lo].
  destruct n2; simpl; split; apply s32_range.
Qed.

Lemma merge_s32 byte x y :
  is_s32 x -> is_s32 y ->
  is_s32 (lwl_merge byte x y) /\ is_s32 (lwr_merge byte x y) /\
  is_s32 (swl_merge byte x y) /\ is_s32 (swr_merge byte x y).
Proof.
  intros. unfold lwl_merge, lwr_merge, swl_merge, swr_merge.
  split_and!; destruct (3 - byte) as [|[[]|[]|]|]; done || apply s32_range.
Qed.

Definition div_overflow (m : t) (i : Instruction) : Prop :=
  opCode i = OP_DIV /\ RegVal m (rs i) = - 2 ^ 31 /\ RegVal m (rt i) = -1.

#[export] Instance div_overflow_dec m i : Decision (div_overflow m i).
Proof. apply and_dec; [| apply _]. destruct (opCode i); (by left) || (by right). Defined.

(** Discharges the arithmetic side conditions of the rules above. *)
Ltac side :=
  first
    [ done
    | apply s32_range
    | apply c_bool_s32
    | by auto with nachos
    | split_and!; first [done | apply s32_range | unfold LoadReg, HiReg, LoReg, NumGPRegs in *; lia]
    | unfold HiReg, LoReg, PCReg, NextPCReg, LoadReg, LoadValueReg, NumGPRegs in *; lia ].

(** One step of symbolic execution. *)
Ltac exec_step :=
  lazymatch goal with
  | |- returns (reg _ _ ≫= _) _ => apply returns_reg; [done | side | intros ? ? ?; cbv beta]
  | |- returns (set_reg _ _ _ ≫= _) _ => apply returns_set; [done | side | intros ? ?; cbv beta]
  | |- returns (on_done (ReadMem _ _ _) _) _ =>
      apply returns_read; [done | by auto | side | intros ? ? ? ?; cbv beta | by intros; split]
  | |- returns (on_done (WriteMem _ _ _ _) _) _ =>
      apply returns_write; [done | by auto | side | intros ? ?; cbv beta | by intros; split]
  | |- returns (raise _ _ _) _ => apply returns_raise; [done | side]
  | |- returns (finish _ _) _ => apply returns_finish; [done | side]
  | |- returns (assign _ _ _ _) _ => apply returns_assign; [done | side..]
  | |- returns ((_ ≫= _) ≫= _) _ => apply returns_bind
  | |- returns (if ?b then _ else _) _ => destruct b eqn:?
  end.

Section execute.
Context (m : t) (i : Instruction) (pc : Z).
Context (Hwf : wf m) (Hi : instr_wf i) (Hpc : is_s32 pc).

Let Hrs := iw_rs i Hi.
Let Hrt := iw_rt i Hi.
Let Hrd := iw_rd i Hi.
Let Hex := iw_extra i Hi.

Lemma op_rd_returns f :
  (forall a b, is_s32 a -> is_s32 b -> is_s32 (f a b)) -> returns (op_rd f m i pc) exec_post.
Proof using All. intros Hf. unfold op_rd. repeat exec_step. Qed.

Lemma op_rt_returns f :
  (forall a, is_s32 a -> is_s32 (f a)) -> returns (op_rt f m i pc) exec_post.
Proof using All. intros Hf. unfold op_rt. repeat exec_step. Qed.

Lemma branch_returns b : returns (branch m i pc b) exec_post.
Proof using All. unfold branch. exec_step. destruct b; exec_step. Qed.

Lemma conditional_returns :
  returns (exec_BEQ m i pc) exec_post /\ returns (exec_BNE m i pc) exec_post /\
  returns (exec_BGEZ m i pc) exec_post /\ returns (exec_BGTZ m i pc) exec_post /\
  returns (exec_BLEZ m i pc) exec_post /\ returns (exec_BLTZ m i pc) exec_post.
Proof using All.
  unfold exec_BEQ, exec_BNE, exec_BGEZ, exec_BGTZ, exec_BLEZ, exec_BLTZ.
  split_and!; repeat exec_step; apply branch_returns.
Qed.

Lemma jump_returns : returns (exec_J m i pc) exec_post /\ returns (exec_JR m i pc) exec_post.
Proof using All. unfold exec_J, exec_JR. split; repeat exec_step. Qed.

Lemma overflow_returns :
  returns (exec_ADD m i pc) exec_post /\ returns (exec_ADDI m i pc) exec_post /\
  returns (exec_SUB m i pc) exec_post.
Proof using All. unfold exec_ADD, exec_ADDI, exec_SUB. split_and!; repeat exec_step. Qed.

Lemma DIV_returns :
  ~ (RegVal m (rs i) = - 2 ^ 31 /\ RegVal m (rt i) = -1) -> returns (exec_DIV m i pc) exec_post.
Proof using All.
  intros Hov. unfold exec_DIV, set_hi_lo, NumGPRegs in *.
  rewrite !reg_eq by (done || lia). cbn [mbind res_bind].
  destruct (Z.eqb_spec (RegVal m (rt i)) 0) as [E|Hne]; [repeat exec_step |].
  destruct ((RegVal m (rs i) =? - 2 ^ 31) && (RegVal m (rt i) =? -1)) eqn:Ho; [destruct Hov; lia |].
  destruct (quot_s32 (RegVal m (rs i)) (RegVal m (rt i))) as [Hq Hr];
    [apply RegVal_s32; done || lia | apply RegVal_s32; done || lia | done | done |].
  rewrite set_reg_eq by done. cbn [mbind res_bind].
  set (m1 := with_registers m _). assert (wf m1) as W by by apply wf_insert.
  assert (forall r, 0 <= r < 32 -> reg m1 r = Ok (RegVal m r)) as Hreg.
  { intros r Hr32. rewrite reg_eq by (done || lia). f_equal.
    apply RegVal_insert_ne; unfold LoReg; lia. }
  rewrite !Hreg by done. cbn [mbind res_bind]. repeat exec_step.
Qed.

Lemma address_eq : address m i = Ok (s32 (RegVal m (rs i) + extra i)).
Proof using All. unfold address, NumGPRegs in *. by rewrite reg_eq by (done || lia). Qed.

Lemma LB_LH_LW_returns sg :
  returns (exec_LB sg m i pc) exec_post /\ returns (exec_LH sg m i pc) exec_post /\
  returns (exec_LW m i pc) exec_post.
Proof using All.
  unfold exec_LB, exec_LH, exec_LW. rewrite address_eq. cbn [mbind res_bind].
  split_and!; repeat exec_step; simpl; split_and!; try (done || apply Hrt);
    destruct (_ && _); try apply s32_range; [apply (is_s32_mask _ 8) | apply (is_s32_mask _ 16)]; lia.
Qed.

Lemma pending_s32 m' r : wf m' -> 0 <= r < NumGPRegs -> exists v, pending m' r = Ok v /\ is_s32 v.
Proof.
  intros W Hr. unfold pending, NumGPRegs in *. rewrite !reg_eq by (done || lia). cbn [mbind res_bind].
  case_match; eexists; (split; [done |]); apply RegVal_s32; done || lia.
Qed.

Lemma LWL_LWR_returns :
  returns (exec_LWL m i pc) exec_post /\ returns (exec_LWR m i pc) exec_post.
Proof using All.
  unfold exec_LWL, exec_LWR. rewrite address_eq. cbn [mbind res_bind]. split.
  all: apply returns_read; [done | by auto | apply is_s32_byte_aligned, s32_range | | by intros; split].
  all: intros v m' W Hv; destruct (pending_s32 m' (rt i) W Hrt) as (old & -> & Hold); simpl.
  all: split_and!; try (done || apply Hrt); by apply merge_s32.
Qed.

Lemma store_returns size :
  size = 1 \/ size = 2 \/ size = 4 -> returns (exec_store size m i pc) exec_post.
Proof using All.
  intros Hs. unfold exec_store. rewrite address_eq. cbn [mbind res_bind]. repeat exec_step.
Qed.

Lemma SWL_SWR_returns :
  returns (exec_SWL m i pc) exec_post /\ returns (exec_SWR m i pc) exec_post.
Proof using All.
  unfold exec_SWL, exec_SWR. rewrite address_eq. cbn [mbind res_bind]. split.
  all: apply returns_read; [done | by auto | apply is_s32_byte_aligned, s32_range | | by intros; split].
  all: intros v m' W Hv; exec_step.
  all: apply returns_write; [done | by auto | apply is_s32_byte_aligned, s32_range | | by intros; split].
  all: intros; exec_step.
Qed.

Lemma MULT_returns sg : returns (exec_MULT sg m i pc) exec_post.
Proof using All.
  unfold exec_MULT. do 2 exec_step.
  match goal with |- context [Mult ?a ?b sg] => destruct (Mult_s32 a b sg); destruct (Mult a b sg) end.
  cbn [fst snd] in *. repeat exec_step.
Qed.

Lemma DIVU_returns : returns (exec_DIVU m i pc) exec_post.
Proof using All. unfold exec_DIVU, set_hi_lo. repeat exec_step. Qed.

End execute.

Lemma move_returns m pc src dst :
  wf m -> is_s32 pc -> 0 <= src < 40 -> fits dst (RegVal m src) -> returns (move src dst m pc) exec_post.
Proof. intros W Hpc Hs Hd. unfold move, assign. exec_step. subst. repeat exec_step. Qed.


Lemma link_returns {A} m r (k : t -> res A) (Q : A -> Prop) :
  wf m -> 0 <= r < NumGPRegs -> (forall m', wf m' -> returns (k m') Q) ->
  returns (link m r ≫= k) Q.
Proof.
  intros W Hr Hk. unfold link, NumGPRegs in *. rewrite reg_eq by done. cbn [mbind res_bind].
  apply returns_set; [done | side | done].
Qed.

(** The lemma for the case at hand. *)
Ltac exec_case :=
  lazymatch goal with
  | |- returns (exec_BEQ _ _ _) _ => apply conditional_returns; auto
  | |- returns (exec_BNE _ _ _) _ => apply conditional_returns; auto
  | |- returns (exec_BGEZ _ _ _) _ => apply conditional_returns; auto
  | |- returns (exec_BGTZ _ _ _) _ => apply conditional_returns; auto
  | |- returns (exec_BLEZ _ _ _) _ => apply conditional_returns; auto
  | |- returns (exec_BLTZ _ _ _) _ => apply conditional_returns; auto
  | |- returns (exec_J _ _ _) _ => apply jump_returns; auto
  | |- returns (exec_JR _ _ _) _ => apply jump_returns; auto
  | |- returns (exec_ADD _ _ _) _ => apply overflow_returns; auto
  | |- returns (exec_ADDI _ _ _) _ => apply overflow_returns; auto
  | |- returns (exec_SUB _ _ _) _ => apply overflow_returns; auto
  | |- returns (exec_LB ?b ?m ?i ?p) _ =>
      apply (LB_LH_LW_returns m i p ltac:(done) ltac:(done) ltac:(done) b); auto
  | |- returns (exec_LH ?b ?m ?i ?p) _ =>
      apply (LB_LH_LW_returns m i p ltac:(done) ltac:(done) ltac:(done) b); auto
  | |- returns (exec_LW ?m ?i ?p) _ =>
      apply (LB_LH_LW_returns m i p ltac:(done) ltac:(done) ltac:(done) true); auto
  | |- returns (exec_LWL _ _ _) _ => apply LWL_LWR_returns; auto
  | |- returns (exec_LWR _ _ _) _ => apply LWL_LWR_returns; auto
  | |- returns (exec_SWL ?m ?i ?p) _ =>
      exact (proj1 (SWL_SWR_returns m i p ltac:(done) ltac:(done) ltac:(done)))
  | |- returns (exec_SWR ?m ?i ?p) _ =>
      exact (proj2 (SWL_SWR_returns m i p ltac:(done) ltac:(done) ltac:(done)))
  | |- returns (exec_MULT _ _ _ _) _ => apply MULT_returns; auto
  | |- returns (exec_DIV _ _ _) _ => apply DIV_returns; [done.. | tauto]
  | |- returns (exec_DIVU _ _ _) _ => apply DIVU_returns; auto
  | |- returns (exec_store _ _ _ _) _ => apply store_returns; auto
  | |- returns (op_rd _ _ _ _) _ => apply op_rd_returns; [done.. | intros; side]
  | |- returns (op_rt _ _ _ _) _ => apply op_rt_returns; [done.. | intros; side]
  | |- returns (move _ _ _ _) _ =>
      apply move_returns; [done.. | side | split_and!; [side.. | apply RegVal_s32; [done | side] | side]]
  | |- returns (link _ _ ≫= _) _ => apply link_returns; [done | side | intros ? ?; exec_case]
  | _ => try (repeat exec_step; fail)
  end.

(** Every decoded instruction executes without a fault, the overflowing
    division excepted. *)
Lemma Execute_returns m i pc :
  wf m -> instr_wf i -> is_s32 pc -> ~ div_overflow m i -> returns (Execute m i pc) exec_post.
Proof.
  intros Hwf Hi Hpc Hov. pose proof Hi as [Hrs Hrt Hrd Hex Hsh Hrun].
  assert (is_s32 (Z.land (extra i) 0xffff)) by (apply (is_s32_mask _ 16); lia).
  assert (forall x, 0 <= Z.land x 0x1f) by (intros; apply (land_mask_range x 5); lia).
  unfold Execute, Execute_late, div_overflow, NumGPRegs in *.
  destruct (opCode i) eqn:Hop; try discriminate Hrun; exec_case.
  all: exec_step; apply returns_assign; [done.. | | done]; apply is_s32_shiftr; [done | by apply Hsh].
Qed.

Lemma advance_returns m pcAfter lr lv :
  wf m -> is_s32 pcAfter -> 0 <= lr < NumGPRegs -> is_s32 lv ->
  returns (advance m pcAfter lr lv) (fun m' =>
    wf m' /\ RegVal m' 0 = 0 /\ RegVal m' PrevPCReg = RegVal m PCReg /\
    RegVal m' PCReg = RegVal m NextPCReg /\ RegVal m' NextPCReg = pcAfter /\
    (forall n, 0 < n < PCReg ->
       RegVal m' n = if n =? RegVal m LoadReg then RegVal m LoadValueReg else RegVal m n) /\
    RegVal m' LoadReg = lr /\ RegVal m' LoadValueReg = lv).
Proof.
  intros Hwf Hpc Hlr Hlv. unfold advance. apply returns_bind.
  eapply returns_mono; [by apply DelayedLoad_spec |].
  intros m1 (W & H0 & Hl & Hv & Hr & _). pose proof (RegVal_load m Hwf) as Hm.
  assert (forall n, NumGPRegs <= n < 40 -> n <> LoadReg -> n <> LoadValueReg ->
    RegVal m1 n = RegVal m n) as Hhi.
  { intros n Hn Hn1 Hn2. unfold NumGPRegs in *. rewrite Hr by (done || lia).
    destruct (Z.eqb_spec n (RegVal m LoadReg)); [lia | done]. }
  rewrite reg_eq by done. cbn [mbind res_bind]. rewrite set_reg_eq by done. cbn [mbind res_bind].
  set (m2 := with_registers m1 _). assert (wf m2) as W2.
  { apply wf_insert; [done |]. split_and!; try done. by apply RegVal_s32. }
  rewrite reg_eq by done. cbn [mbind res_bind]. rewrite set_reg_eq by done. cbn [mbind res_bind].
  set (m3 := with_registers m2 _). assert (wf m3) as W3.
  { apply wf_insert; [done |]. split_and!; try done. by apply RegVal_s32. }
  rewrite set_reg_eq by done. cbn [returns].
  set (m4 := with_registers m3 _). assert (wf m4) as W4 by by apply wf_insert.
  assert (forall n, 0 <= n < 40 -> n <> PCReg -> n <> NextPCReg -> n <> PrevPCReg ->
    RegVal m4 n = RegVal m1 n) as Hother.
  { intros n Hn N1 N2 N3. unfold m4, m3, m2. by rewrite !RegVal_insert_ne by (done || lia). }
  split_and!; try done; try (by rewrite Hother).
  - unfold m4, m3. rewrite !RegVal_insert_ne by done. unfold m2.
    rewrite RegVal_insert_eq by done. by apply Hhi.
  - unfold m4. rewrite RegVal_insert_ne by done. unfold m3. rewrite RegVal_insert_eq by done.
    unfold m2. rewrite RegVal_insert_ne by done. by apply Hhi.
  - by apply RegVal_insert_eq.
  - intros n Hn. unfold PCReg in Hn.
    rewrite Hother by (unfold PCReg, NextPCReg, PrevPCReg; lia).
    apply Hr; unfold LoadReg, LoadValueReg; lia.
Qed.

(** The instruction at the program counter, when it can be fetched. *)
Definition fetched (m : t) : option Instruction :=
  match ReadMem m (RegVal m PCReg) 4 with
  | Ok (Done raw _) => match Decode (u32 raw) with Ok i => Some i | Fault _ => None end
  | _ => None
  end.

Lemma ReadMem_regs m va size v m' :
  wf m -> size = 1 \/ size = 2 \/ size = 4 ->
  ReadMem m va size = Ok (Done v m') -> wf m' /\ forall n, RegVal m' n = RegVal m n.
Proof.
  intros Hwf Hs E. destruct (decide (expected_exception m va size false = NoException)) as [He|He].
  - destruct (ReadMem_ok m va size Hwf Hs He) as (pa & i & _ & _ & _ & _ & E2).
    rewrite E2 in E. injection E as _ <-. split; [by apply wf_mark |].
    intros n. unfold RegVal. by rewrite (proj2 (mark_mem false i m)).
  - unfold ReadMem in E. rewrite (Translate_spec m va size false Hwf Hs) in E.
    cbn [mbind res_bind] in E. rewrite bool_decide_false in E by done. simpl in E.
    unfold raise in E. by inv_ok.
Qed.

(** A fetched instruction, and the rest of [OneInstruction]. *)
Lemma OneInstruction_fetched m i :
  wf m -> fetched m = Some i ->
  exists m1, wf m1 /\ (forall n, RegVal m1 n = RegVal m n) /\ instr_wf i /\
    OneInstruction m =
      on_done (Execute m1 i (s32 (RegVal m NextPCReg + 4))) (fun '(pcAfter, lr, lv) m =>
        m ← advance m pcAfter lr lv; Ok (Done tt m)).
Proof.
  intros Hwf Hf. unfold fetched in Hf. unfold OneInstruction. rewrite reg_eq by done.
  cbn [mbind res_bind]. destruct (ReadMem m (RegVal m PCReg) 4) as [[raw m1|]|] eqn:E; try done.
  destruct (ReadMem_regs m (RegVal m PCReg) 4 raw m1 Hwf ltac:(auto) E) as [W Hr].
  exists m1. split_and!; [done | done | |].
  - pose proof (Decode_wf (u32 raw)) as Hd. destruct (Decode (u32 raw)); [| done].
    injection Hf as ->. apply Hd.
  - unfold on_done at 1. cbn [mbind res_bind].
    destruct (Decode (u32 raw)); [| done]. injection Hf as ->. cbn [mbind res_bind].
    rewrite reg_eq by done. cbn [mbind res_bind]. by rewrite Hr.
Qed.

Lemma OneInstruction_unfetched m :
  wf m -> fetched m = None ->
  exists w m', OneInstruction m = Ok (Trap w m') /\ wf m' /\ RegVal m' 0 = 0.
Proof.
  intros Hwf Hf. unfold fetched in Hf. unfold OneInstruction. rewrite reg_eq by done.
  cbn [mbind res_bind]. pose proof (RegVal_s32 m PCReg Hwf ltac:(done)) as Hpc.
  destruct (decide (expected_exception m (RegVal m PCReg) 4 false = NoException)) as [He|He].
  - destruct (ReadMem_ok m _ 4 Hwf ltac:(auto) He) as (pa & i & _ & _ & _ & _ & E2). rewrite E2 in Hf.
    pose proof (Decode_wf (u32 (value_of 4 (bytes_at m pa 4)))) as Hd.
    by destruct (Decode _).
  - destruct (ReadMem_trap m _ 4 Hwf ltac:(auto) Hpc He) as (m' & -> & W & H0 & _). simpl. eauto.
Qed.

Lemma OneInstruction_wf m :
  wf m ->
  match OneInstruction m with
  | Ok (Done _ m') | Ok (Trap _ m') => wf m' /\ RegVal m' 0 = 0
  | Fault f => f = ArithFault /\ exists i, fetched m = Some i /\ div_overflow m i
  end.
Proof.
  intros Hwf. destruct (fetched m) as [i|] eqn:Hf.
  - destruct (OneInstruction_fetched m i Hwf Hf) as (m1 & W & Hr & Hi & ->).
    assert (is_s32 (s32 (RegVal m NextPCReg + 4))) as Hpc by apply s32_range.
    destruct (decide (div_overflow m i)) as [Hov|Hov].
    + pose proof Hov as (Hop & Ha & Hb). unfold Execute. rewrite Hop. unfold exec_DIV.
      pose proof Hi as [Hrs Hrt _ _ _ _]. unfold NumGPRegs in *.
      rewrite !reg_eq by (done || lia). cbn [mbind res_bind]. rewrite !Hr, Ha, Hb.
      cbn. split; [done |]. by exists i.
    + assert (~ div_overflow m1 i) as Hn by (unfold div_overflow; by rewrite !Hr).
      pose proof (Execute_returns m1 i _ W Hi Hpc Hn) as He.
      destruct (Execute m1 i _) as [[[[pa lr] lv] m2|w m2]|]; cbn [returns exec_post] in He; [| done..].
      destruct He as (W2 & H1 & H2 & H3). pose proof (advance_returns m2 pa lr lv W2 H1 H2 H3) as Ha.
      unfold on_done. cbn [mbind res_bind].
      destruct (advance m2 pa lr lv); [by destruct Ha as (? & ? & _) | done].
  - destruct (OneInstruction_unfetched m Hwf Hf) as (w & m' & -> & W & H0). by split.
Qed.

(** C21: on a well-formed machine an instruction either completes or traps to
    the kernel: the interpreter never leaves an array, never reaches its
    [default: ASSERT(FALSE)], and keeps the machine well formed with register 0
    zero.  The one exception is the host trap on [INT_MIN / -1]. *)
Theorem one_instruction_total m :
  wf m ->
  match OneInstruction m with
  | Ok (Done _ m') | Ok (Trap _ m') => wf m' /\ RegVal m' 0 = 0
  | Fault f => f = ArithFault /\ exists i, fetched m = Some i /\ div_overflow m i
  end.
Proof. apply OneInstruction_wf. Qed.

(** ** Multiplication is multiplication *)

(** The double word with halves [hi] and [lo]. *)
Definition double (hi lo : Z) : Z := hi * 2 ^ 32 + lo.

Lemma u32_sub z : exists k, u32 z = z - k * 2 ^ 32.
Proof. exists (z / 2 ^ 32). unfold u32. pose proof (Z.div_mod z (2 ^ 32)). lia. Qed.

(** The addition with carry. *)
Lemma add_carry lo bLo hi bHi :
  is_u32 lo -> is_u32 bLo ->
  exists k, double (u32 ((if u32 (lo + bLo) <? bLo then u32 (hi + 1) else hi) + bHi)) (u32 (lo + bLo))
    = double hi lo + double bHi bLo + k * 2 ^ 64.
Proof.
  unfold is_u32, double. intros Hlo Hb.
  unfold u32. destruct (Z.ltb_spec (lo + bLo) (2 ^ 32)).
  - rewrite (Z.mod_small (lo + bLo)) by lia. destruct (Z.ltb_spec (lo + bLo) bLo); [lia |].
    exists (- ((hi + bHi) / 2 ^ 32)). pose proof (Z.div_mod (hi + bHi) (2 ^ 32)). lia.
  - replace ((lo + bLo) mod 2 ^ 32) with (lo + bLo - 2 ^ 32) by (apply (Z.mod_unique _ _ 1); lia).
    destruct (Z.ltb_spec (lo + bLo - 2 ^ 32) bLo); [| lia].
    rewrite Zplus_mod_idemp_l. exists (- ((hi + 1 + bHi) / 2 ^ 32)).
    pose proof (Z.div_mod (hi + 1 + bHi) (2 ^ 32)). lia.
Qed.

(** The shift of the two-word multiplicand. *)
Definition shift_hi (bHi bLo : Z) : Z :=
  let bHi := u32 (Z.shiftl bHi 1) in
  if negb (Z.land bLo 0x80000000 =? 0) then Z.lor bHi 1 else bHi.

Lemma sign_bit_testbit x : sign_bit x = Z.testbit x 31.
Proof.
  unfold sign_bit. change SIGN_BIT with (2 ^ 31).
  assert (Z.land x (2 ^ 31) = Z.b2z (Z.testbit x 31) * 2 ^ 31) as ->.
  { apply Z.bits_inj'. intros n Hn.
    rewrite Z.land_spec, Z.pow2_bits_eqb, <- Z.shiftl_mul_pow2, Z.shiftl_spec by lia.
    destruct (Z.eqb_spec 31 n) as [<-|Hne].
    - rewrite Z.sub_diag, Z.b2z_bit0. apply andb_true_r.
    - rewrite andb_false_r. destruct (decide (n < 31)); [by rewrite Z.testbit_neg_r by lia |].
      symmetry. apply Z.bits_above_log2; [destruct (Z.testbit x 31); simpl; lia |].
      destruct (Z.testbit x 31); simpl; lia. }
  by destruct (Z.testbit x 31).
Qed.

Lemma sign_bit_u32 x : is_u32 x -> sign_bit x = (2 ^ 31 <=? x).
Proof.
  unfold is_u32. intros Hx. rewrite sign_bit_testbit, Z.testbit_odd, Z.shiftr_div_pow2 by lia.
  destruct (Z.leb_spec (2 ^ 31) x).
  - replace (x / 2 ^ 31) with 1; [done |]. apply (Z.div_unique _ _ _ (x - 2 ^ 31)); lia.
  - by rewrite Z.div_small by lia.
Qed.

Lemma sign_bit_s32 x : is_s32 x -> sign_bit x = (x <? 0).
Proof.
  unfold is_s32. intros Hx. rewrite sign_bit_testbit, Z.testbit_odd, Z.shiftr_div_pow2 by lia.
  destruct (Z.ltb_spec x 0).
  - replace (x / 2 ^ 31) with (-1); [done |]. apply (Z.div_unique _ _ _ (x + 2 ^ 31)); lia.
  - by rewrite Z.div_small by lia.
Qed.

Lemma sign_bit_lxor a b : sign_bit (Z.lxor a b) = xorb (sign_bit a) (sign_bit b).
Proof. by rewrite !sign_bit_testbit, Z.lxor_spec. Qed.

Lemma shift_double bHi bLo :
  is_u32 bHi -> is_u32 bLo ->
  is_u32 (shift_hi bHi bLo) /\
  exists k, double (shift_hi bHi bLo) (u32 (Z.shiftl bLo 1)) = 2 * double bHi bLo + k * 2 ^ 64.
Proof.
  intros Hh Hl. unfold shift_hi, double. cbv zeta. fold (sign_bit bLo).
  change 0x80000000 with SIGN_BIT. fold (sign_bit bLo). rewrite sign_bit_u32 by done.
  rewrite !Z.shiftl_mul_pow2 by lia. change (2 ^ 1) with 2. unfold is_u32, u32 in *.
  assert ((bHi * 2) mod 2 ^ 32 = 2 * (bHi mod 2 ^ 31)) as Hev.
  { rewrite (Z.mul_comm bHi). change (2 ^ 32) with (2 * 2 ^ 31).
    by rewrite Z.mul_mod_distr_l by lia. }
  pose proof (Z.mod_pos_bound bHi (2 ^ 31) ltac:(lia)) as Hm.
  pose proof (Z.div_mod (bHi * 2) (2 ^ 32) ltac:(lia)) as Hd.
  assert (Z.lor ((bHi * 2) mod 2 ^ 32) 1 = (bHi * 2) mod 2 ^ 32 + 1) as Hor.
  { rewrite Hev. destruct (bHi mod 2 ^ 31) as [|[q|q|]|q]; reflexivity || lia. }
  destruct (Z.leb_spec (2 ^ 31) bLo) as [Hb|Hb]; rewrite ?Hor.
  - split; [lia |]. exists (- ((bHi * 2) / 2 ^ 32)).
    replace ((bLo * 2) mod 2 ^ 32) with (bLo * 2 - 2 ^ 32) by (apply (Z.mod_unique _ _ 1); lia). lia.
  - split; [lia |]. exists (- ((bHi * 2) / 2 ^ 32)). rewrite (Z.mod_small (bLo * 2)) by lia. lia.
Qed.

(** The loop's early exit: no bit of [a] is left but the lowest. *)
Lemma last_bit a n :
  Z.land (u32 a) 0xfffffffe = 0 -> a mod 2 = 1 -> (1 <= n <= 32)%nat -> a mod 2 ^ Z.of_nat n = 1.
Proof.
  intros Hl H1 Hn. pose proof (u32_range a) as Hu. unfold is_u32 in Hu.
  assert (u32 a / 2 = 0) as Hhalf.
  { assert (Z.shiftr (Z.land (u32 a) 0xfffffffe) 1 = Z.land (u32 a / 2) (2 ^ 31 - 1)) as E
      by by rewrite Z.shiftr_land, Z.shiftr_div_pow2 by lia.
    rewrite Hl, land_mask in E by lia. change (Z.shiftr 0 1) with 0 in E.
    rewrite Z.mod_small in E by (Z.div_mod_to_equations; lia). lia. }
  assert (u32 a mod 2 = 1) as Hodd.
  { unfold u32. rewrite <- Znumtheory.Zmod_div_mod; [done | lia | lia | by exists (2 ^ 31)]. }
  assert (u32 a = 1) as Hone by (Z.div_mod_to_equations; lia).
  rewrite (Znumtheory.Zmod_div_mod _ (2 ^ 32)).
  - fold (u32 a). rewrite Hone. apply Z.mod_small.
    assert (2 ^ 1 <= 2 ^ Z.of_nat n) by (apply Z.pow_le_mono_r; lia). lia.
  - lia.
  - lia.
  - exists (2 ^ (32 - Z.of_nat n)). rewrite <- Z.pow_add_r by lia. f_equal. lia.
Qed.

(** The loop adds [a * b], reading [n] more bits of [a]. *)
Lemma mult_loop_spec n a bLo bHi lo hi :
  (n <= 32)%nat -> is_u32 bLo -> is_u32 bHi -> is_u32 lo -> is_u32 hi ->
  let '(hi', lo') := mult_loop n a bLo bHi lo hi in
  is_u32 hi' /\ is_u32 lo' /\
  exists k, double hi' lo' = double hi lo + (a mod 2 ^ Z.of_nat n) * double bHi bLo + k * 2 ^ 64.
Proof.
  revert a bLo bHi lo hi. induction n as [|n IH]; intros a bLo bHi lo hi Hn HbL HbH Hlo Hhi.
  - cbn [mult_loop]. split_and!; [done.. |]. exists 0. change (2 ^ Z.of_nat 0) with 1.
    rewrite Z.mod_1_r. lia.
  - cbn [mult_loop]. cbv zeta. fold (shift_hi bHi bLo).
    assert (a mod 2 ^ Z.of_nat (S n) = a mod 2 + 2 * (Z.shiftr a 1 mod 2 ^ Z.of_nat n)) as Ha.
    { rewrite Nat2Z.inj_succ, Z.pow_succ_r by lia. rewrite Z.rem_mul_r by lia.
      by rewrite Z.shiftr_div_pow2 by lia. }
    destruct (shift_double bHi bLo HbH HbL) as (Hsh & k1 & E1).
    assert (forall lo1 hi1 k0, is_u32 lo1 -> is_u32 hi1 ->
      double hi1 lo1 = double hi lo + a mod 2 * double bHi bLo + k0 * 2 ^ 64 ->
      let '(hi', lo') := mult_loop n (Z.shiftr a 1) (u32 (Z.shiftl bLo 1)) (shift_hi bHi bLo) lo1 hi1 in
      is_u32 hi' /\ is_u32 lo' /\
      exists k, double hi' lo' = double hi lo + (a mod 2 ^ Z.of_nat (S n)) * double bHi bLo + k * 2 ^ 64)
      as Hnext.
    { intros lo1 hi1 k0 L1 L2 E0.
      specialize (IH (Z.shiftr a 1) (u32 (Z.shiftl bLo 1)) (shift_hi bHi bLo) lo1 hi1
        ltac:(lia) (u32_range _) Hsh L1 L2).
      destruct (mult_loop n _ _ _ _ _) as [hi' lo']. destruct IH as (U1 & U2 & k2 & E2).
      split_and!; [done.. |]. exists (k0 + k2 + (Z.shiftr a 1 mod 2 ^ Z.of_nat n) * k1).
      rewrite E2, E0, E1, Ha. ring. }
    change (Z.land a 1) with (Z.land a (2 ^ 1 - 1)). rewrite land_mask by lia.
    destruct (Z.eqb_spec (a mod 2 ^ 1) 0) as [Hz|Hz]; cbn [negb].
    + apply (Hnext lo hi 0); [done.. |]. change (2 ^ 1) with 2 in Hz. rewrite Hz. ring.
    + assert (a mod 2 = 1) as H1 by (change (2 ^ 1) with 2 in Hz; Z.div_mod_to_equations; lia).
      destruct (add_carry lo bLo hi bHi Hlo HbL) as (k0 & E0).
      destruct (Z.eqb_spec (Z.land (u32 a) 0xfffffffe) 0) as [Hbrk|Hbrk].
      * split_and!; [apply u32_range.. |]. exists k0. rewrite E0.
        rewrite (last_bit a (S n) Hbrk H1) by lia. ring.
      * apply (Hnext _ _ k0); [apply u32_range.. |]. rewrite E0, H1. ring.
Qed.

Lemma mult_loop_full a b :
  is_u32 b ->
  let '(hi, lo) := mult_loop 32 a b 0 0 0 in
  is_u32 hi /\ is_u32 lo /\ double hi lo = u32 a * b.
Proof.
  intros Hb. pose proof (mult_loop_spec 32 a b 0 0 0 ltac:(lia) Hb) as H.
  destruct (mult_loop 32 a b 0 0 0) as [hi lo].
  destruct H as (H1 & H2 & k & E); [by split.. |]. split_and!; [done.. |].
  change (a mod 2 ^ Z.of_nat 32) with (u32 a) in E.
  pose proof (u32_range a). unfold is_u32, double in *. nia.
Qed.

Lemma u32_lnot x : is_u32 x -> u32 (Z.lnot x) = 2 ^ 32 - 1 - x.
Proof.
  unfold is_u32, u32, Z.lnot. intros Hx. symmetry. apply (Z.mod_unique _ _ (-1)); lia.
Qed.

(** The two's complement of a double word that is not too big. *)
Lemma negate_double hi lo :
  is_u32 hi -> is_u32 lo -> 0 < double hi lo <= 2 ^ 62 ->
  let lo' := u32 (u32 (Z.lnot lo) + 1) in
  let hi' := if lo' =? 0 then u32 (u32 (Z.lnot hi) + 1) else u32 (Z.lnot hi) in
  double (s32 hi') (u32 (s32 lo')) = - double hi lo.
Proof.
  intros Hh Hl Hd. cbv zeta. rewrite !u32_lnot, u32_s32 by done. unfold is_u32, double in *.
  destruct (decide (lo = 0)) as [->|Hne].
  - change (u32 (u32 (2 ^ 32 - 1 - 0 + 1))) with 0. cbn [Z.eqb].
    change (u32 (2 ^ 32 - 1 - 0 + 1) =? 0) with true. cbv iota.
    rewrite (u32_id (2 ^ 32 - 1 - hi + 1)) by (unfold is_u32; lia).
    destruct (s32_cases (2 ^ 32 - 1 - hi + 1)) as [E|E];
      pose proof (s32_range (2 ^ 32 - 1 - hi + 1)) as Hr; unfold is_s32 in Hr;
      rewrite (u32_id (2 ^ 32 - 1 - hi + 1)) in E by (unfold is_u32; lia); lia.
  - rewrite !(u32_id (2 ^ 32 - 1 - lo + 1)) by (unfold is_u32; lia).
    destruct (Z.eqb_spec (2 ^ 32 - 1 - lo + 1) 0); [lia |].
    destruct (s32_cases (2 ^ 32 - 1 - hi)) as [E|E];
      pose proof (s32_range (2 ^ 32 - 1 - hi)) as Hr; unfold is_s32 in Hr;
      rewrite (u32_id (2 ^ 32 - 1 - hi)) in E by (unfold is_u32; lia); lia.
Qed.

Lemma keep_double hi lo :
  is_u32 hi -> is_u32 lo -> double hi lo <= 2 ^ 62 -> double (s32 hi) (u32 (s32 lo)) = double hi lo.
Proof.
  intros Hh Hl Hd. rewrite u32_s32, (u32_id lo) by done. unfold is_u32, double in *.
  by rewrite s32_id by (unfold is_s32; lia).
Qed.

Lemma u32_abs a : is_s32 a -> u32 (if a <? 0 then s32 (- a) else a) = Z.abs a.
Proof.
  unfold is_s32. intros Ha. destruct (Z.ltb_spec a 0); rewrite ?u32_s32, u32_id;
    unfold is_u32; lia.
Qed.

(** C37: [Mult] leaves the exact double-word product in its two results: as
    signed integers for [MULT], as unsigned ones for [MULTU]. *)
Theorem mult_correct a b (signedArith : bool) :
  is_s32 a -> is_s32 b ->
  let '(hi, lo) := Mult a b signedArith in
  is_s32 hi /\ is_s32 lo /\
  if signedArith then double hi (u32 lo) = a * b
  else double (u32 hi) (u32 lo) = u32 a * u32 b.
Proof.
  intros Ha Hb. pose proof (Mult_s32 a b signedArith) as [H1 H2].
  destruct (Mult a b signedArith) as [hi lo] eqn:E. split_and!; [done.. |]. clear H1 H2.
  revert E. unfold Mult. destruct (Z.eqb_spec a 0) as [->|Ha0].
  { intros [= <- <-]. by destruct signedArith. }
  destruct (Z.eqb_spec b 0) as [->|Hb0]; cbn [orb].
  { intros [= <- <-]. change (u32 0) with 0. destruct signedArith; unfold double; lia. }
  destruct signedArith; cbn [andb negb].
  - pose proof (u32_abs a Ha) as Ua. pose proof (u32_abs b Hb) as Ub. unfold is_s32 in Ha, Hb.
    assert (0 < Z.abs a * Z.abs b <= 2 ^ 62) as Hp by nia.
    destruct (Z.ltb_spec a 0), (Z.ltb_spec b 0);
      match goal with |- context [mult_loop 32 ?x (u32 ?y)] =>
        pose proof (mult_loop_full x (u32 y) (u32_range _)) as Hl;
        destruct (mult_loop 32 x (u32 y) 0 0 0) as [h l] end;
      destruct Hl as (Hh & Hl & Hd); rewrite Ua, Ub in Hd; rewrite <- Hd in Hp;
      intros [= <- <-]; first [rewrite keep_double by (done || lia) | rewrite negate_double by done]; lia.
  - pose proof (mult_loop_full a (u32 b) (u32_range _)) as Hl.
    destruct (mult_loop 32 a (u32 b) 0 0 0) as [h l]. destruct Hl as (Hh & Hl & Hd).
    intros [= <- <-]. by rewrite !u32_s32, (u32_id h), (u32_id l) by done.
Qed.

(** ** Overflow *)

(** C38: the sign-bit tests of [ADD], [ADDI] and [SUB] detect exactly the
    results that do not fit: the overflow exception is raised for those and the
    destination register gets the mathematical result otherwise. *)
Theorem overflow_exact m i pc :
  wf m -> instr_wf i ->
  let a := RegVal m (rs i) in
  let b := RegVal m (rt i) in
  let checked (dst r : Z) : exec :=
    if decide (is_s32 r) then assign m dst r pc else raise m OverflowException 0 in
  (opCode i = OP_ADD -> Execute m i pc = checked (rd i) (a + b)) /\
  (opCode i = OP_ADDI -> Execute m i pc = checked (rt i) (a + extra i)) /\
  (opCode i = OP_SUB -> Execute m i pc = checked (rd i) (a - b)).
Proof.
  intros Hwf [Hrs Hrt Hrd Hex _ _]. unfold NumGPRegs in *. cbv zeta.
  pose proof (RegVal_s32 m (rs i) Hwf ltac:(lia)) as Ha.
  pose proof (RegVal_s32 m (rt i) Hwf ltac:(lia)) as Hb.
  split_and!; intros Hop; unfold Execute, Execute_late; rewrite Hop;
    unfold exec_ADD, exec_ADDI, exec_SUB; rewrite !reg_eq by (done || lia); cbn [mbind res_bind];
    rewrite !sign_bit_lxor, !sign_bit_s32 by (done || apply s32_range).
  all: match goal with |- context [s32 ?r] => destruct (decide (is_s32 r)) as [Hr|Hr];
    [rewrite (s32_id r) by done |
     pose proof (s32_range r) as Hsr; destruct (s32_cases r) as [E|E];
     pose proof (u32_sub r) as [k Hk]; pose proof (u32_range r) as Hur] end.
  all: unfold is_s32, is_u32 in *.
  all: match goal with |- (if ?c then _ else _) = _ => destruct c eqn:Hc end; try done; exfalso.
  all: repeat match type of Hc with context [?x <? 0] => destruct (Z.ltb_spec x 0) end;
    simpl in Hc; try discriminate Hc; lia.
Qed.

(** [SRL] and [SRLV] shift a copy of the register in an [int], so that they
    compute what [SRA] and [SRAV] do; a negative register shifted by a positive
    amount stays negative, where the logical shift the instruction stands for
    gives a positive word. *)
Theorem srl_is_arithmetic m i pc :
  wf m -> instr_wf i -> opCode i = OP_SRL ->
  let sra := mkInstr (value i) OP_SRA (rs i) (rt i) (rd i) (extra i) in
  Execute m i pc = Execute m sra pc /\
  (0 < extra i -> RegVal m (rt i) < 0 ->
   exists v, Execute m i pc = assign m (rd i) v pc /\ v < 0 /\
     0 <= Z.shiftr (u32 (RegVal m (rt i))) (extra i) < 2 ^ 31).
Proof.
  intros Hwf [Hrs Hrt Hrd Hex Hsh _] Hop. rewrite Hop in Hsh. specialize (Hsh eq_refl).
  unfold NumGPRegs in *. cbv zeta. unfold Execute, Execute_late. rewrite Hop. cbn [opCode].
  split; [done |]. intros Hpos Hneg. exists (Z.shiftr (RegVal m (rt i)) (extra i)).
  rewrite reg_eq by (done || lia). cbn [mbind res_bind]. split_and!; [done | | |].
  - by apply Z.shiftr_neg.
  - apply Z.shiftr_nonneg. apply u32_range.
  - rewrite Z.shiftr_div_pow2 by lia. pose proof (u32_range (RegVal m (rt i))) as Hu.
    unfold is_u32 in Hu. assert (2 ^ 1 <= 2 ^ extra i) by (apply Z.pow_le_mono_r; lia).
    apply Z.div_lt_upper_bound; nia.
Qed.

(** The division the code does not guard: [DIV] of the least integer by -1
    traps on the host, which ends the simulator. *)
Theorem div_int_min_traps m i :
  wf m -> fetched m = Some i -> div_overflow m i -> OneInstruction m = Fault ArithFault.
Proof.
  intros Hwf Hf (Hop & Ha & Hb).
  destruct (OneInstruction_fetched m i Hwf Hf) as (m1 & W & Hr & [Hrs Hrt _ _ _ _] & ->).
  unfold Execute. rewrite Hop. unfold exec_DIV, NumGPRegs in *.
  rewrite !reg_eq by (done || lia). cbn [mbind res_bind]. by rewrite !Hr, Ha, Hb.
Qed.

(** ** Unaligned accesses *)

(** Two adjacent memory words as one 64-bit value. *)
Definition word_pair (w0 w1 : Z) : Z := Z.lor (u32 w0) (Z.shiftl (u32 w1) 32).

Lemma s32_ext x y :
  (forall j, 0 <= j < 32 -> Z.testbit x j = Z.testbit y j) -> s32 x = s32 y.
Proof.
  intros H. rewrite <- (s32_u32 x), <- (s32_u32 y). f_equal. apply Z.bits_inj'. intros n Hn.
  rewrite !testbit_u32 by done. destruct (Z.ltb_spec n 32); [| done]. simpl. apply H. lia.
Qed.

(** A fact on bit positions, from every instance of the position. *)
Lemma bits_upto (P : Z -> Prop) n :
  Forall P (Z.of_nat <$> seq 0 n) -> forall j, 0 <= j < Z.of_nat n -> P j.
Proof.
  intros H j Hj. rewrite Forall_forall in H. apply H. apply list_elem_of_fmap.
  exists (Z.to_nat j). split; [lia |]. apply elem_of_seq. lia.
Qed.

Ltac bit_norm :=
  repeat match goal with
  | |- context [Z.testbit (Z.lor _ _) _] => rewrite Z.lor_spec
  | |- context [Z.testbit (Z.land _ _) _] => rewrite Z.land_spec
  | |- context [Z.testbit (Z.shiftl ?z ?n) ?i] => rewrite (Z.shiftl_spec z n i) by lia
  | |- context [Z.testbit (Z.shiftr ?z ?n) ?i] => rewrite (Z.shiftr_spec z n i) by lia
  | |- context [Z.testbit ?z ?i] => rewrite (Z.testbit_neg_r z i) by lia
  | |- context [Z.testbit (s32 ?z) ?i] => rewrite (testbit_s32_low z i) by lia
  | |- context [Z.testbit (u32 ?z) ?i] => rewrite (testbit_u32 z i) by lia
  end.

(** Compares two bit expressions at every listed position. *)
Ltac bit_pairs :=
  unfold word_pair;
  repeat (apply Forall_cons_2;
    [bit_norm; simpl; rewrite ?andb_true_r, ?andb_false_r, ?orb_false_r; reflexivity |]);
  apply Forall_nil_2.

(** [LWR] at an address followed by [LWL] three bytes further assembles the
    unaligned word: with [w0] and [w1] the aligned words that hold its ends, the
    result is the 32 bits from byte [k] of the pair on, whatever the register
    held; and [SWR] with [SWL] replaces exactly those 32 bits. *)
Theorem unaligned_pair k old r w0 w1 :
  0 <= k < 4 -> is_s32 w0 -> is_s32 w1 -> is_s32 r -> (k = 0 -> w1 = w0) ->
  lwl_merge (Z.land (k + 3) 3) (lwr_merge k old w0) w1 = s32 (Z.shiftr (word_pair w0 w1) (8 * k)) /\
  (k = 0 -> swl_merge 3 r (swr_merge 0 r w0) = r) /\
  (0 < k -> forall j, 0 <= j < 64 ->
     Z.testbit (word_pair (swr_merge k r w0) (swl_merge (Z.land (k + 3) 3) r w1)) j =
     if decide (8 * k <= j < 8 * k + 32) then Z.testbit r (j - 8 * k)
     else Z.testbit (word_pair w0 w1) j).
Proof.
  intros Hk H0 H1 Hr Hz.
  assert (k = 0 \/ k = 1 \/ k = 2 \/ k = 3) as [-> | [-> | [-> | ->]]] by lia.
  - rewrite Hz by done. split_and!; [| done | lia]. transitivity w0; [reflexivity |].
    transitivity (s32 w0); [by rewrite s32_id |]. apply s32_ext, (bits_upto _ 32). cbn [seq fmap list_fmap].
    bit_pairs.
  - unfold lwl_merge, lwr_merge, swl_merge, swr_merge. change (3 - Z.land (1 + 3) 3) with 3.
    change (3 - 1) with 2. cbv iota. split_and!; [apply s32_ext, (bits_upto _ 32) | lia |
      intros _; apply (bits_upto _ 64)]; cbn [seq fmap list_fmap]; bit_pairs.
  - unfold lwl_merge, lwr_merge, swl_merge, swr_merge. change (3 - Z.land (2 + 3) 3) with 2.
    change (3 - 2) with 1. cbv iota. split_and!; [apply s32_ext, (bits_upto _ 32) | lia |
      intros _; apply (bits_upto _ 64)]; cbn [seq fmap list_fmap]; bit_pairs.
  - unfold lwl_merge, lwr_merge, swl_merge, swr_merge. change (3 - Z.land (3 + 3) 3) with 1.
    change (3 - 3) with 0. cbv iota. split_and!; [apply s32_ext, (bits_upto _ 32) | lia |
      intros _; apply (bits_upto _ 64)]; cbn [seq fmap list_fmap]; bit_pairs.
Qed.

(** ** Instances of the claims *)

(** The machine of [Machine.demo] with two registers and one word of code. *)
Definition load_regs (r1 r2 : Z) (m : t) : t :=
  let m := with_registers m (<[Z.to_nat 1 := r1]> (registers m)) in
  with_registers m (<[Z.to_nat 2 := r2]> (registers m)).
Definition demo_code (r1 r2 code : Z) : t :=
  write_bytes (load_regs r1 r2 demo) 384 (le_split 4 code).

Lemma wf_load_regs r1 r2 m : wf m -> is_s32 r1 -> is_s32 r2 -> wf (load_regs r1 r2 m).
Proof. intros. unfold load_regs. do 2 (apply wf_insert; [| by split_and!]). done. Qed.

Lemma wf_demo_code r1 r2 code : is_s32 r1 -> is_s32 r2 -> wf (demo_code r1 r2 code).
Proof.
  intros. apply wf_write_bytes; [| apply le_split_bytes]. apply wf_load_regs; [apply wf_demo | done..].
Qed.

(** [ADD r3,r1,r2], fetched and executed. *)
Example add_runs :
  match OneInstruction (demo_code 40 2 0x00221820) with
  | Ok (Done _ m) => RegVal m 3 = 42 /\ RegVal m NextPCReg = 4
  | _ => False
  end.
Proof. vm_compute. by split. Qed.

Lemma one_instruction_total_witness :
  match OneInstruction (demo_code 40 2 0x00221820) with
  | Ok (Done _ m') | Ok (Trap _ m') => wf m' /\ RegVal m' 0 = 0
  | Fault f => f = ArithFault /\ exists i, fetched (demo_code 40 2 0x00221820) = Some i /\
      div_overflow (demo_code 40 2 0x00221820) i
  end.
Proof. exact (one_instruction_total _ (wf_demo_code 40 2 0x00221820 (s32_range 40) (s32_range 2))). Defined.

Lemma mult_correct_witness :
  Mult (-3) 5 true = (-1, -15) /\ double (-1) (u32 (-15)) = -3 * 5.
Proof.
  split; [reflexivity |].
  exact (proj2 (proj2 (mult_correct (-3) 5 true (s32_range (-3)) (s32_range 5)))).
Defined.

(** [ADD r3,r1,r2] and [SRL r3,r2,4] as decoded instructions. *)
Definition add_instr : Instruction := mkInstr 0x00221820 OP_ADD 1 2 3 0.
Definition srl_instr : Instruction := mkInstr 0x00021902 OP_SRL 0 2 3 4.

Lemma add_instr_wf : instr_wf add_instr.
Proof. split; simpl; unfold NumGPRegs, is_s32; lia || done. Qed.
Lemma srl_instr_wf : instr_wf srl_instr.
Proof. split; simpl; unfold NumGPRegs, is_s32; lia || done. Qed.

Lemma overflow_exact_witness :
  Execute (load_regs (2 ^ 31 - 1) 1 demo) add_instr 8 =
  raise (load_regs (2 ^ 31 - 1) 1 demo) OverflowException 0.
Proof.
  refine (proj1 (overflow_exact (load_regs (2 ^ 31 - 1) 1 demo) add_instr 8 _ add_instr_wf) eq_refl).
  apply wf_load_regs; [apply wf_demo | by split | by split].
Defined.

Lemma srl_is_arithmetic_witness :
  exists v, Execute (load_regs 0 (-16) demo) srl_instr 8 =
    assign (load_regs 0 (-16) demo) 3 v 8 /\ v < 0.
Proof.
  destruct (srl_is_arithmetic (load_regs 0 (-16) demo) srl_instr 8
    (wf_load_regs 0 (-16) demo wf_demo (s32_range 0) (s32_range (-16))) srl_instr_wf eq_refl)
    as [_ H].
  destruct (H eq_refl eq_refl) as (v & E & Hv & _). exists v. split; [exact E | exact Hv].
Defined.

Lemma div_int_min_traps_witness :
  OneInstruction (demo_code (- 2 ^ 31) (-1) 0x0022001a) = Fault ArithFault.
Proof.
  apply (div_int_min_traps _ (mkInstr 0x0022001a OP_DIV 1 2 0 0)).
  - apply wf_demo_code; [exact (s32_range (- 2 ^ 31)) | exact (s32_range (-1))].
  - vm_compute. reflexivity.
  - split; [reflexivity | split; reflexivity].
Defined.

Lemma unaligned_pair_witness :
  lwl_merge 0 (lwr_merge 1 0x7f 0x44332211) 0x00776655 = 0x55443322.
Proof.
  exact (proj1 (unaligned_pair 1 0x7f 0 0x44332211 0x00776655
    (conj (Z.le_0_1) eq_refl) (s32_range 0x44332211) (s32_range 0x00776655) (s32_range 0)
    (fun H => match Z.neq_succ_diag_r 0 (eq_sym H) with end))).
Defined.
End Mips.
