(* ===== verification/Stats.v ===== *)
(** * Stats: machine/stats.h, machine/stats.cc

    The counters of the simulation and the cost constants of the devices.
    [totalTicks] is the simulated clock: every device reads it, only the
    interrupt code advances it.  The counters are [int]s of the host that only
    grow; the model does not bound them. *)

From S2P Require Import Prelude.

Module Stats.
Record t := mk {
  totalTicks : Z;
  idleTicks : Z;
  systemTicks : Z;
  userTicks : Z;
  numDiskReads : Z;
  numDiskWrites : Z;
  numConsoleCharsRead : Z;
  numConsoleCharsWritten : Z;
  numPageFaults : Z;
  numPacketsSent : Z;
  numPacketsRecvd : Z;
}.

Definition create : t := mk 0 0 0 0 0 0 0 0 0 0 0.

Definition UserTick : Z := 1.
Definition SystemTick : Z := 10.
Definition RotationTime : Z := 500.
Definition SeekTime : Z := 500.
Definition ConsoleTime : Z := 100.
Definition NetworkTime : Z := 100.
Definition TimerTicks : Z := 100.

(** The updates the kernel makes: a read, a write, user, system and idle time. *)
Definition count_read (s : t) : t :=
  mk (totalTicks s) (idleTicks s) (systemTicks s) (userTicks s) (numDiskReads s + 1)
    (numDiskWrites s) (numConsoleCharsRead s) (numConsoleCharsWritten s) (numPageFaults s)
    (numPacketsSent s) (numPacketsRecvd s).
Definition count_write (s : t) : t :=
  mk (totalTicks s) (idleTicks s) (systemTicks s) (userTicks s) (numDiskReads s)
    (numDiskWrites s + 1) (numConsoleCharsRead s) (numConsoleCharsWritten s) (numPageFaults s)
    (numPacketsSent s) (numPacketsRecvd s).
Definition add_user (d : Z) (s : t) : t :=
  mk (totalTicks s + d) (idleTicks s) (systemTicks s) (userTicks s + d) (numDiskReads s)
    (numDiskWrites s) (numConsoleCharsRead s) (numConsoleCharsWritten s) (numPageFaults s)
    (numPacketsSent s) (numPacketsRecvd s).
Definition add_system (d : Z) (s : t) : t :=
  mk (totalTicks s + d) (idleTicks s) (systemTicks s + d) (userTicks s) (numDiskReads s)
    (numDiskWrites s) (numConsoleCharsRead s) (numConsoleCharsWritten s) (numPageFaults s)
    (numPacketsSent s) (numPacketsRecvd s).
(** [idleTicks += when - totalTicks; totalTicks = when] *)
Definition idle_until (when : Z) (s : t) : t :=
  mk when (idleTicks s + (when - totalTicks s)) (systemTicks s) (userTicks s) (numDiskReads s)
    (numDiskWrites s) (numConsoleCharsRead s) (numConsoleCharsWritten s) (numPageFaults s)
    (numPacketsSent s) (numPacketsRecvd s).

Definition count_console_read (s : t) : t :=
  mk (totalTicks s) (idleTicks s) (systemTicks s) (userTicks s) (numDiskReads s)
    (numDiskWrites s) (numConsoleCharsRead s + 1) (numConsoleCharsWritten s) (numPageFaults s)
    (numPacketsSent s) (numPacketsRecvd s).
Definition count_console_written (s : t) : t :=
  mk (totalTicks s) (idleTicks s) (systemTicks s) (userTicks s) (numDiskReads s)
    (numDiskWrites s) (numConsoleCharsRead s) (numConsoleCharsWritten s + 1) (numPageFaults s)
    (numPacketsSent s) (numPacketsRecvd s).
Definition count_sent (s : t) : t :=
  mk (totalTicks s) (idleTicks s) (systemTicks s) (userTicks s) (numDiskReads s)
    (numDiskWrites s) (numConsoleCharsRead s) (numConsoleCharsWritten s) (numPageFaults s)
    (numPacketsSent s + 1) (numPacketsRecvd s).
Definition count_recvd (s : t) : t :=
  mk (totalTicks s) (idleTicks s) (systemTicks s) (userTicks s) (numDiskReads s)
    (numDiskWrites s) (numConsoleCharsRead s) (numConsoleCharsWritten s) (numPageFaults s)
    (numPacketsSent s) (numPacketsRecvd s + 1).
(** The clock is at [now]. *)
Definition at_time (now : Z) (s : t) : t :=
  mk now (idleTicks s) (systemTicks s) (userTicks s) (numDiskReads s)
    (numDiskWrites s) (numConsoleCharsRead s) (numConsoleCharsWritten s) (numPageFaults s)
    (numPacketsSent s) (numPacketsRecvd s).

(** Every tick is accounted for once. *)
Definition balanced (s : t) : Prop :=
  totalTicks s = idleTicks s + systemTicks s + userTicks s.
End Stats.
