(* ===== verification/Disk.v ===== *)
(** * Disk: machine/disk.h, machine/disk.cc, filesys/synchdisk.h, synchdisk.cc

    The simulated disk is a UNIX file: a magic number, then 1024 sectors of 128
    bytes.  A request transfers the sector at once and schedules the interrupt
    that reports it after the latency the head position gives.  [SynchDisk]
    turns this into blocking calls, one at a time.

    The file system uses the disk through [BlockStore]; [SynchDisk] discharges
    its laws.  [Protocol] is the interleaved view of [SynchDisk]: any number of
    threads, with the lock and the semaphore. *)

From S2P Require Import Prelude Stats.

Definition SectorSize : Z := 128.
Definition SectorsPerTrack : Z := 32.
Definition NumTracks : Z := 32.
Definition NumSectors : Z := SectorsPerTrack * NumTracks.

Definition sector_in_range (s : Z) : Prop := 0 <= s < NumSectors.

(** ** The interface: a store of sectors *)

Class BlockStore (D : Type) := {
  ReadSector : D -> Z -> res (list Z * D);
  WriteSector : D -> Z -> list Z -> res D;
  contents : D -> Z -> list Z;
  store_ok : D -> Prop;
}.

(** A whole sector of bytes. *)
Definition is_sector (bs : list Z) : Prop :=
  length bs = Z.to_nat SectorSize /\ Forall is_byte bs.

Class BlockStoreLaws (D : Type) `{BlockStore D} : Prop := {
  contents_sector d s : store_ok d -> sector_in_range s -> is_sector (contents d s);
  read_sector d s : store_ok d -> sector_in_range s ->
    exists d', ReadSector d s = Ok (contents d s, d') /\ store_ok d' /\
      forall s', contents d' s' = contents d s';
  write_sector d s bs : store_ok d -> sector_in_range s -> is_sector bs ->
    exists d', WriteSector d s bs = Ok d' /\ store_ok d' /\ contents d' s = bs /\
      forall s', sector_in_range s' -> s' <> s -> contents d' s' = contents d s';
  read_out_of_range d s : store_ok d -> ~ sector_in_range s -> ReadSector d s = Fault AssertFailure;
  write_out_of_range d s bs : store_ok d -> ~ sector_in_range s ->
    WriteSector d s bs = Fault AssertFailure;
}.

Module Disk.
Import Stats.

Definition MagicNumber : Z := 0x456789ab.
Definition MagicSize : Z := 4.
Definition DiskSize : Z := MagicSize + NumSectors * SectorSize.

(** [class Disk]; [file] is the content of the UNIX file it keeps open. *)
Record t := mk {
  file : list Z;
  active : bool;
  lastSector : Z;
  bufferInit : Z;
}.

(** [Disk::Disk]: an existing file must start with the magic number; a new one
    is created at full size, with zeros between the two writes. *)
Definition create (existing : option (list Z)) : res t :=
  match existing with
  | Some f =>
      _ ← ASSERT (Z.of_nat (length f) >=? MagicSize);
      _ ← ASSERT (le_combine (slice 0 (Z.to_nat MagicSize) f) =? MagicNumber);
      Ok (mk f false 0 0)
  | None =>
      Ok (mk (le_split 4 MagicNumber ++ replicate (Z.to_nat (NumSectors * SectorSize)) 0) false 0 0)
  end.

(** [TimeToSeek]: the seek time, and the rotation to the next boundary. *)
Definition TimeToSeek (d : t) (totalTicks newSector : Z) : Z * Z :=
  let newTrack := Z.quot newSector SectorsPerTrack in
  let oldTrack := Z.quot (lastSector d) SectorsPerTrack in
  let seek := Z.abs (newTrack - oldTrack) * SeekTime in
  let over := Z.rem (totalTicks + seek) RotationTime in
  let rotation := if 0 <? over then RotationTime - over else 0 in
  (seek, rotation).

Definition ModuloDiff (to from : Z) : Z :=
  let toOffset := Z.rem to SectorsPerTrack in
  let fromOffset := Z.rem from SectorsPerTrack in
  Z.rem (toOffset - fromOffset + SectorsPerTrack) SectorsPerTrack.

Definition ComputeLatency (d : t) (totalTicks newSector : Z) (writing : bool) : Z :=
  let '(seek, rotation) := TimeToSeek d totalTicks newSector in
  let timeAfter := totalTicks + seek + rotation in
  if negb writing && (seek =? 0)
     && (ModuloDiff newSector (Z.quot (bufferInit d) RotationTime)
         <? Z.quot (timeAfter - bufferInit d) RotationTime)
  then RotationTime
  else
    let rotation := rotation + ModuloDiff newSector (Z.quot timeAfter RotationTime) * RotationTime in
    seek + rotation + RotationTime.

Definition UpdateLast (d : t) (totalTicks newSector : Z) : t :=
  let '(seek, rotate) := TimeToSeek d totalTicks newSector in
  mk (file d) (active d) newSector
    (if negb (seek =? 0) then totalTicks + seek + rotate else bufferInit d).

Definition set_active (d : t) (a : bool) : t := mk (file d) a (lastSector d) (bufferInit d).

(** [Lseek] then [Read] or [WriteFile] of one sector (sysdep.cc): a short
    transfer fails the [ASSERT] there. *)
Definition offset (sectorNumber : Z) : Z := SectorSize * sectorNumber + MagicSize.
Definition read_file (f : list Z) (sectorNumber : Z) : res (list Z) :=
  let bs := slice (Z.to_nat (offset sectorNumber)) (Z.to_nat SectorSize) f in
  _ ← ASSERT (bool_decide (length bs = Z.to_nat SectorSize));
  Ok bs.
Definition write_file (f : list Z) (sectorNumber : Z) (data : list Z) : list Z :=
  list_inserts (Z.to_nat (offset sectorNumber)) data f.

(** [ReadRequest]: the data, the disk, the statistics and the delay after which
    the interrupt is scheduled. *)
Definition ReadRequest (d : t) (st : Stats.t) (sectorNumber : Z)
    : res (list Z * t * Stats.t * Z) :=
  let ticks := ComputeLatency d (totalTicks st) sectorNumber false in
  _ ← ASSERT (negb (active d));
  _ ← ASSERT ((0 <=? sectorNumber) && (sectorNumber <? NumSectors));
  data ← read_file (file d) sectorNumber;
  let d := set_active d true in
  let d := UpdateLast d (totalTicks st) sectorNumber in
  Ok (data, d, count_read st, ticks).

Definition WriteRequest (d : t) (st : Stats.t) (sectorNumber : Z) (data : list Z)
    : res (t * Stats.t * Z) :=
  let ticks := ComputeLatency d (totalTicks st) sectorNumber true in
  _ ← ASSERT (negb (active d));
  _ ← ASSERT ((0 <=? sectorNumber) && (sectorNumber <? NumSectors));
  let d := mk (write_file (file d) sectorNumber data) (active d) (lastSector d) (bufferInit d) in
  let d := set_active d true in
  let d := UpdateLast d (totalTicks st) sectorNumber in
  Ok (d, count_write st, ticks).

(** [Disk::CallBack], before it calls the callback of its user. *)
Definition CallBack (d : t) : t := set_active d false.

(** ** Latency *)

Record head_ok (d : t) : Prop := {
  ho_last : sector_in_range (lastSector d);
  ho_buffer : 0 <= bufferInit d;
}.

Lemma TimeToSeek_spec d now s :
  head_ok d -> sector_in_range s -> 0 <= now ->
  let '(seek, rotation) := TimeToSeek d now s in
  0 <= seek <= 31 * SeekTime /\ 0 <= rotation < RotationTime /\
  (now + seek + rotation) mod RotationTime = 0.
Proof.
  intros [Hl _] Hs Hn. unfold TimeToSeek, sector_in_range in *.
  unfold NumSectors, SectorsPerTrack, NumTracks, SeekTime, RotationTime in *.
  rewrite !Z.quot_div_nonneg by lia.
  set (seek := Z.abs (s / 32 - lastSector d / 32) * 500).
  assert (0 <= seek <= 31 * 500) as Hseek.
  { unfold seek. Z.div_mod_to_equations. lia. }
  rewrite Z.rem_mod_nonneg by lia.
  destruct (Z.ltb_spec 0 ((now + seek) mod 500)); split_and!; Z.div_mod_to_equations; lia.
Qed.

Lemma ModuloDiff_spec a b :
  0 <= a -> 0 <= b -> ModuloDiff a b = (a - b) mod SectorsPerTrack.
Proof.
  intros Ha Hb. unfold ModuloDiff, SectorsPerTrack. rewrite !Z.rem_mod_nonneg; try lia.
  - Z.div_mod_to_equations. lia.
  - rewrite ?Z.rem_mod_nonneg by lia. Z.div_mod_to_equations. lia.
Qed.

Lemma UpdateLast_head d now s :
  head_ok d -> sector_in_range s -> 0 <= now -> head_ok (UpdateLast d now s).
Proof.
  intros Hd Hs Hn. pose proof (TimeToSeek_spec d now s Hd Hs Hn) as H. unfold UpdateLast.
  destruct (TimeToSeek d now s) as [seek rot]. destruct H as (H1 & H2 & _).
  destruct Hd as [Hl Hb]. split; simpl; [done |]. case_match; lia.
Qed.

Lemma ComputeLatency_spec d now s (writing : bool) :
  head_ok d -> sector_in_range s -> 0 <= now ->
  let l := ComputeLatency d now s writing in
  RotationTime <= l < 31 * SeekTime + 33 * RotationTime /\
  (l = RotationTime /\ writing = false \/
   (now + l) mod RotationTime = 0 /\
   ((now + l) / RotationTime) mod SectorsPerTrack = (s + 1) mod SectorsPerTrack).
Proof.
  intros Hd Hs Hn. cbv zeta. unfold ComputeLatency.
  pose proof (TimeToSeek_spec d now s Hd Hs Hn) as H.
  destruct (TimeToSeek d now s) as [seek rot]. destruct H as (H1 & H2 & H3).
  pose proof Hd as [_ Hb]. unfold sector_in_range in Hs.
  destruct (negb writing && (seek =? 0) && _) eqn:Hc.
  { assert (writing = false) as -> by by destruct writing.
    split; [unfold RotationTime, SeekTime; lia | by left]. }
  clear Hc. unfold RotationTime, SeekTime in *. rewrite Z.quot_div_nonneg by lia.
  rewrite ModuloDiff_spec by (lia || (apply Z.div_pos; lia)).
  set (k := (now + seek + rot) / 500) in *. unfold SectorsPerTrack in *.
  assert (now + seek + rot = 500 * k) as Hk
    by (pose proof (Z.div_mod (now + seek + rot) 500 ltac:(lia)); unfold k; lia).
  pose proof (Z.mod_pos_bound (s - k) 32 ltac:(lia)) as Hm.
  split; [lia |]. right.
  replace (now + (seek + (rot + (s - k) mod 32 * 500) + 500))
    with ((k + (s - k) mod 32 + 1) * 500) by lia.
  rewrite Z.mod_mul, Z.div_mul by lia. split; [done |].
  replace (k + (s - k) mod 32 + 1) with (k + 1 + (s - k) mod 32) by lia.
  rewrite Zplus_mod_idemp_r. f_equal. lia.
Qed.

(** The latency of a request is at least one sector time and less than a
    full seek plus a full rotation plus the alignment.  Unless the sector comes
    from the track buffer, the transfer ends exactly on a sector boundary, when
    the head has just passed the requested sector. *)
Theorem latency_exact d now s (writing : bool) :
  head_ok d -> sector_in_range s -> 0 <= now ->
  let l := ComputeLatency d now s writing in
  RotationTime <= l < 31 * SeekTime + 33 * RotationTime /\
  (l = RotationTime /\ writing = false \/
   (now + l) mod RotationTime = 0 /\
   ((now + l) / RotationTime) mod SectorsPerTrack = (s + 1) mod SectorsPerTrack).
Proof. apply ComputeLatency_spec. Qed.

Definition parked : t := mk [] false 40 1000.

Lemma latency_exact_witness :
  let l := ComputeLatency parked 1234 77 true in
  RotationTime <= l < 31 * SeekTime + 33 * RotationTime.
Proof.
  refine (proj1 (latency_exact parked 1234 77 true _ _ _)).
  - split; [by split | done].
  - by split.
  - done.
Defined.
End Disk.

(** ** The synchronous disk *)
Module SynchDisk.
Import Stats.

(** [class SynchDisk], with the kernel's statistics; [lock] is whether the lock
    is held. *)
Record t := mk {
  disk : Disk.t;
  semaphore : Z;
  lock : bool;
  stats : Stats.t;
}.

(** [SynchDisk::SynchDisk] *)
Definition create (existing : option (list Z)) (st : Stats.t) : res t :=
  d ← Disk.create existing; Ok (mk d 0 false st).

Definition Acquire (sd : t) : res t :=
  if lock sd then Fault Blocked else Ok (mk (disk sd) (semaphore sd) true (stats sd)).
Definition Release (sd : t) : res t := Ok (mk (disk sd) (semaphore sd) false (stats sd)).

(** [semaphore->P()] when nothing else can run. *)
Definition P (sd : t) : res t :=
  if semaphore sd =? 0 then Fault Blocked
  else Ok (mk (disk sd) (semaphore sd - 1) (lock sd) (stats sd)).

(** [SynchDisk::CallBack], [semaphore->V()] *)
Definition CallBack (sd : t) : t := mk (disk sd) (semaphore sd + 1) (lock sd) (stats sd).

(** The disk interrupt, [ticks] after the request: [Disk::CallBack]. *)
Definition interrupt (sd : t) (ticks : Z) : t :=
  let st := idle_until (totalTicks (stats sd) + ticks) (stats sd) in
  CallBack (mk (Disk.CallBack (disk sd)) (semaphore sd) (lock sd) st).

(** [SynchDisk::ReadSector] and [WriteSector], with the interrupt that ends the
    request in place of the wait. *)
Definition ReadSector (sd : t) (sectorNumber : Z) : res (list Z * t) :=
  sd ← Acquire sd;
  '(data, d, st, ticks) ← Disk.ReadRequest (disk sd) (stats sd) sectorNumber;
  let sd := mk d (semaphore sd) (lock sd) st in
  let sd := interrupt sd ticks in
  sd ← P sd;
  sd ← Release sd;
  Ok (data, sd).

Definition WriteSector (sd : t) (sectorNumber : Z) (data : list Z) : res t :=
  sd ← Acquire sd;
  '(d, st, ticks) ← Disk.WriteRequest (disk sd) (stats sd) sectorNumber data;
  let sd := mk d (semaphore sd) (lock sd) st in
  let sd := interrupt sd ticks in
  sd ← P sd;
  Release sd.

(** The idle state, between requests. *)
Record ok (sd : t) : Prop := {
  ok_size : length (Disk.file (disk sd)) = Z.to_nat Disk.DiskSize;
  ok_bytes : Forall is_byte (Disk.file (disk sd));
  ok_idle : Disk.active (disk sd) = false;
  ok_head : Disk.head_ok (disk sd);
  ok_sem : semaphore sd = 0;
  ok_lock : lock sd = false;
  ok_clock : 0 <= totalTicks (stats sd);
}.

Definition sector (sd : t) (s : Z) : list Z :=
  slice (Z.to_nat (Disk.offset s)) (Z.to_nat SectorSize) (Disk.file (disk sd)).

#[global] Instance block_store : BlockStore t := {|
  Disk.ReadSector := ReadSector;
  Disk.WriteSector := WriteSector;
  contents := sector;
  store_ok := ok;
|}.

Lemma sector_offset_fits s :
  sector_in_range s ->
  (Z.to_nat (Disk.offset s) + Z.to_nat SectorSize <= Z.to_nat Disk.DiskSize)%nat.
Proof.
  unfold sector_in_range, Disk.offset, Disk.DiskSize, NumSectors, SectorsPerTrack, NumTracks,
    SectorSize, Disk.MagicSize. lia.
Qed.

Lemma sector_length sd s : ok sd -> sector_in_range s -> length (sector sd s) = Z.to_nat SectorSize.
Proof.
  intros Hok Hs. unfold sector. rewrite length_slice; [done |].
  rewrite (ok_size _ Hok). by apply sector_offset_fits.
Qed.

(** The disk after a request and its interrupt. *)
Definition settled (d : Disk.t) (f : list Z) (st : Stats.t) (now ticks s : Z) : t :=
  mk (Disk.CallBack (Disk.UpdateLast (Disk.mk f true (Disk.lastSector d) (Disk.bufferInit d)) now s))
    0 false (idle_until (now + ticks) st).

Lemma ok_settled sd f st s ticks :
  ok sd -> sector_in_range s -> length f = Z.to_nat Disk.DiskSize -> Forall is_byte f -> 0 <= ticks ->
  ok (settled (disk sd) f st (totalTicks (stats sd)) ticks s).
Proof.
  intros [H1 H2 H3 [Hl Hb] H5 H6 H7] Hs Hf1 Hf2 Ht.
  pose proof (Disk.UpdateLast_head (Disk.mk f true (Disk.lastSector (disk sd)) (Disk.bufferInit (disk sd)))
    (totalTicks (stats sd)) s) as Hh.
  unfold settled, Disk.UpdateLast in *. destruct (Disk.TimeToSeek _ _ _) as [seek rot].
  destruct Hh as [Hh1 Hh2]; [by split | done | done |].
  split; [done | done | done | by split | done | done | cbn; lia].
Qed.

Lemma settled_file d f st now ticks s :
  Disk.file (disk (settled d f st now ticks s)) = f.
Proof. unfold settled, Disk.UpdateLast. by destruct (Disk.TimeToSeek _ _ _). Qed.

Lemma latency_nonneg sd s w :
  ok sd -> sector_in_range s -> 0 <= Disk.ComputeLatency (disk sd) (totalTicks (stats sd)) s w.
Proof.
  intros Hok Hs. destruct (Disk.ComputeLatency_spec (disk sd) (totalTicks (stats sd)) s w) as [H _];
    [apply (ok_head _ Hok) | done | apply (ok_clock _ Hok) |].
  unfold RotationTime in H. lia.
Qed.

Lemma ReadSector_spec sd s :
  ok sd -> sector_in_range s ->
  exists sd', ReadSector sd s = Ok (sector sd s, sd') /\ ok sd' /\
    Disk.file (disk sd') = Disk.file (disk sd).
Proof.
  intros Hok Hs. pose proof Hok as [H1 H2 H3 H4 H5 H6 H7].
  unfold ReadSector, Acquire. rewrite H6. cbn [mbind res_bind disk stats].
  unfold Disk.ReadRequest. rewrite H3. cbn [negb ASSERT mbind res_bind].
  rewrite ASSERT_true by (unfold sector_in_range in Hs; lia). cbn [mbind res_bind].
  unfold Disk.read_file. cbv zeta. fold (sector sd s).
  rewrite bool_decide_true by by apply sector_length. cbn [mbind res_bind ASSERT].
  unfold P, interrupt, CallBack, Release. cbn [semaphore]. rewrite H5.
  cbn [Z.add Z.eqb mbind res_bind].
  exists (settled (disk sd) (Disk.file (disk sd)) (count_read (stats sd)) (totalTicks (stats sd))
    (Disk.ComputeLatency (disk sd) (totalTicks (stats sd)) s false) s).
  split; [reflexivity |]. split; [| apply settled_file].
  apply ok_settled; try done. by apply latency_nonneg.
Qed.

Lemma WriteSector_spec sd s bs :
  ok sd -> sector_in_range s -> is_sector bs ->
  exists sd', WriteSector sd s bs = Ok sd' /\ ok sd' /\
    Disk.file (disk sd') = Disk.write_file (Disk.file (disk sd)) s bs.
Proof.
  intros Hok Hs [Hb1 Hb2]. pose proof Hok as [H1 H2 H3 H4 H5 H6 H7].
  unfold WriteSector, Acquire. rewrite H6. cbn [mbind res_bind disk stats].
  unfold Disk.WriteRequest. rewrite H3. cbn [negb ASSERT mbind res_bind].
  rewrite ASSERT_true by (unfold sector_in_range in Hs; lia). cbn [mbind res_bind].
  unfold P, interrupt, CallBack, Release. cbn [semaphore]. rewrite H5.
  cbn [Z.add Z.eqb mbind res_bind].
  exists (settled (disk sd) (Disk.write_file (Disk.file (disk sd)) s bs) (count_write (stats sd))
    (totalTicks (stats sd)) (Disk.ComputeLatency (disk sd) (totalTicks (stats sd)) s true) s).
  split; [reflexivity |]. split; [| apply settled_file].
  apply ok_settled; try done.
  - unfold Disk.write_file. by rewrite length_inserts.
  - by apply Forall_list_inserts.
  - by apply latency_nonneg.
Qed.

#[global] Instance block_store_laws : BlockStoreLaws t.
Proof.
  split; cbn [contents store_ok block_store Disk.ReadSector Disk.WriteSector].
  - intros sd s Hok Hs. split; [by apply sector_length |]. apply Forall_slice. apply (ok_bytes _ Hok).
  - intros sd s Hok Hs. destruct (ReadSector_spec sd s Hok Hs) as (sd' & E & Hok' & Hf).
    exists sd'. split_and!; [done | done |]. intros s'. unfold sector. by rewrite Hf.
  - intros sd s bs Hok Hs Hb. destruct (WriteSector_spec sd s bs Hok Hs Hb) as (sd' & E & Hok' & Hf).
    exists sd'. destruct Hb as [Hl _].
    assert (forall s, sector_in_range s ->
      (Z.to_nat (Disk.offset s) + length bs <= length (Disk.file (disk sd)))%nat) as Hfit.
    { intros s0 Hs0. rewrite (ok_size _ Hok), Hl. by apply sector_offset_fits. }
    split_and!; [done | done | |].
    + unfold sector. rewrite Hf, <- Hl. unfold Disk.write_file. apply slice_inserts_eq. by apply Hfit.
    + intros s' Hs' Hne. unfold sector. rewrite Hf. unfold Disk.write_file.
      apply slice_inserts_ne; [by apply Hfit |]. rewrite Hl.
      unfold sector_in_range, Disk.offset, SectorSize, Disk.MagicSize in *. lia.
  - intros sd s Hok Hs. unfold ReadSector, Acquire. rewrite (ok_lock _ Hok). cbn [mbind res_bind disk].
    unfold Disk.ReadRequest. rewrite (ok_idle _ Hok). cbn [negb ASSERT mbind res_bind].
    by rewrite ASSERT_false by (unfold sector_in_range in Hs; lia).
  - intros sd s bs Hok Hs. unfold WriteSector, Acquire. rewrite (ok_lock _ Hok). cbn [mbind res_bind disk].
    unfold Disk.WriteRequest. rewrite (ok_idle _ Hok). cbn [negb ASSERT mbind res_bind].
    by rewrite ASSERT_false by (unfold sector_in_range in Hs; lia).
Qed.

Lemma create_ok st :
  0 <= totalTicks st -> exists sd, create None st = Ok sd /\ ok sd.
Proof.
  intros Ht. eexists. split; [reflexivity |]. split; cbn [disk stats semaphore lock Disk.file].
  - rewrite length_app, length_replicate, length_le_split.
    unfold Disk.DiskSize, Disk.MagicSize, NumSectors, SectorsPerTrack, NumTracks, SectorSize. lia.
  - apply Forall_app. split; [apply le_split_bytes | by apply Forall_replicate].
  - done.
  - split; [by split | done].
  - done.
  - done.
  - done.
Qed.

(** A new disk holds zeros. *)
Lemma create_blank st :
  0 <= totalTicks st -> exists sd, create None st = Ok sd /\ ok sd /\
    forall s, sector_in_range s -> sector sd s = replicate (Z.to_nat SectorSize) 0.
Proof.
  intros Ht. destruct (create_ok st Ht) as (sd & E & Hok). exists sd. split_and!; [done | done |].
  intros s Hs. pose proof (sector_offset_fits s Hs) as Hfit. destruct Hs as [Hs _].
  assert (Disk.file (disk sd)
    = le_split 4 Disk.MagicNumber ++ replicate (Z.to_nat (NumSectors * SectorSize)) 0) as Hf.
  { change (match Ok sd with Ok x => Disk.file (disk x) | Fault _ => [] end
      = le_split 4 Disk.MagicNumber ++ replicate (Z.to_nat (NumSectors * SectorSize)) 0).
    rewrite <- E. reflexivity. }
  unfold sector, slice. rewrite Hf.
  rewrite drop_app_ge by (rewrite length_le_split; unfold Disk.offset, Disk.MagicSize, SectorSize; lia).
  rewrite length_le_split, drop_replicate, take_replicate. f_equal.
  change (Z.to_nat Disk.DiskSize) with (Z.to_nat (4 + NumSectors * SectorSize)) in Hfit.
  assert (4 <= Disk.offset s) by (unfold Disk.offset, Disk.MagicSize, SectorSize; lia).
  assert (0 <= NumSectors * SectorSize) by done. lia.
Qed.

(** What is written to a sector is what the next read of it returns, and
    no other sector changes; both calls return to the idle state, so that the
    disk is never left busy, locked or with a stale wake-up. *)
Theorem sector_write_read sd s bs :
  ok sd -> sector_in_range s -> is_sector bs ->
  exists sd' sd'', WriteSector sd s bs = Ok sd' /\ ReadSector sd' s = Ok (bs, sd'') /\
    ok sd' /\ ok sd'' /\
    forall s' data, sector_in_range s' -> s' <> s ->
      (exists x, ReadSector sd s' = Ok (data, x)) -> exists y, ReadSector sd' s' = Ok (data, y).
Proof.
  intros Hok Hs Hb.
  destruct (write_sector (H := block_store) sd s bs Hok Hs Hb) as (sd' & E & Hok' & Hc & Hne).
  destruct (read_sector (H := block_store) sd' s Hok' Hs) as (sd'' & E2 & Hok'' & _). rewrite Hc in E2.
  exists sd', sd''. split_and!; [done.. |]. intros s' data Hs' Hd (x & Ex).
  destruct (read_sector (H := block_store) sd s' Hok Hs') as (z & Ez & _ & _).
  destruct (read_sector (H := block_store) sd' s' Hok' Hs') as (y & Ey & _ & _).
  rewrite (Hne s' Hs' Hd) in Ey. cbn in Ez, Ey. rewrite Ex in Ez. injection Ez as -> _. by exists y.
Qed.

Lemma sector_write_read_witness :
  exists sd sd' sd'', create None Stats.create = Ok sd /\
    WriteSector sd 7 (replicate 128 42) = Ok sd' /\ ReadSector sd' 7 = Ok (replicate 128 42, sd'').
Proof.
  destruct (create_ok Stats.create ltac:(done)) as (sd & E & Hok). exists sd.
  destruct (sector_write_read sd 7 (replicate 128 42) Hok) as (sd' & sd'' & H1 & H2 & _).
  - by split.
  - split; [reflexivity | by apply Forall_replicate].
  - exists sd', sd''. exact (conj E (conj H1 H2)).
Defined.
End SynchDisk.

(** ** The synchronous disk under interleaving

    Threads call [ReadSector] or [WriteSector] in any order; a step is one line
    of those functions, or the disk interrupt.  The transfer itself does not
    matter here: what does is that [Disk] allows one request at a time. *)
Module Protocol.

(** Where a thread is in [ReadSector]/[WriteSector]. *)
Inductive point : Set :=
  | Outside      (** before [lock->Acquire()] *)
  | Locked       (** before the request *)
  | Requested    (** at [semaphore->P()] *)
  | Served.      (** before [lock->Release()] *)

Record state := mk {
  threads : list point;
  owner : option nat;
  semaphore : Z;
  active : bool;
}.

Inductive event : Set := Step (i : nat) | DiskInterrupt.

(** One event: [None] when it cannot happen (the thread is blocked). *)
Definition step (s : state) (e : event) : option (res state) :=
  match e with
  | Step i =>
      match threads s !! i with
      | Some Outside =>
          match owner s with
          | None => Some (Ok (mk (<[i := Locked]> (threads s)) (Some i) (semaphore s) (active s)))
          | Some _ => None
          end
      | Some Locked =>
          Some (_ ← ASSERT (negb (active s));
                Ok (mk (<[i := Requested]> (threads s)) (owner s) (semaphore s) true))
      | Some Requested =>
          if semaphore s =? 0 then None
          else Some (Ok (mk (<[i := Served]> (threads s)) (owner s) (semaphore s - 1) (active s)))
      | Some Served =>
          Some (_ ← ASSERT (bool_decide (owner s = Some i));
                Ok (mk (<[i := Outside]> (threads s)) None (semaphore s) (active s)))
      | None => None
      end
  | DiskInterrupt =>
      if active s then Some (Ok (mk (threads s) (owner s) (semaphore s + 1) false)) else None
  end.

Definition init (n : nat) : state := mk (replicate n Outside) None 0 false.

Inductive reachable (n : nat) : state -> Prop :=
  | reach_init : reachable n (init n)
  | reach_step s e s' : reachable n s -> step s e = Some (Ok s') -> reachable n s'.

(** The lock owner is the one thread inside, and the request, the interrupt and
    the wake-up are in step with it. *)
Definition inv (s : state) : Prop :=
  match owner s with
  | None => Forall (eq Outside) (threads s) /\ active s = false /\ semaphore s = 0
  | Some i =>
      (forall j p, threads s !! j = Some p -> j <> i -> p = Outside) /\
      match threads s !! i with
      | Some Locked | Some Served => active s = false /\ semaphore s = 0
      | Some Requested => semaphore s = if active s then 0 else 1
      | _ => False
      end
  end.

Lemma inv_init n : inv (init n).
Proof. unfold inv, init. simpl. split; [by apply Forall_replicate | done]. Qed.

(** Moving the owner [i] from one point to another keeps the others outside. *)
Lemma others_insert (ths : list point) i q :
  (forall j p, ths !! j = Some p -> j <> i -> p = Outside) ->
  forall j p, <[i := q]> ths !! j = Some p -> j <> i -> p = Outside.
Proof. intros H j p Hj Hne. rewrite list_lookup_insert_ne in Hj by done. eauto. Qed.

Lemma inv_step s e r : inv s -> step s e = Some r -> returns r inv.
Proof.
  intros Hinv Hs. destruct s as [ths own sem act]. unfold inv, step in *. simpl in *.
  destruct e as [i|].
  - revert Hs. destruct (ths !! i) as [p|] eqn:Hi; intros Hs; [| done].
    pose proof (lookup_lt_Some _ _ _ Hi) as Hlt.
    assert (own = None -> p = Outside /\ act = false /\ sem = 0) as Hnone.
    { intros ->. destruct Hinv as (Hall & -> & ->).
      by rewrite (Forall_lookup_1 _ _ _ _ Hall Hi). }
    assert (p <> Outside -> own = Some i) as Hown.
    { intros Hp. destruct own as [j|]; [| by destruct (Hnone eq_refl)].
      destruct Hinv as [Ho _]. destruct (decide (i = j)) as [->|Hne]; [done |].
      by rewrite (Ho i p Hi Hne) in Hp. }
    destruct p.
    + destruct own; [done |]. injection Hs as <-. simpl. destruct Hinv as (Hall & -> & ->).
      rewrite list_lookup_insert_eq by done. split; [| done]. apply others_insert.
      intros j p Hj _. by rewrite (Forall_lookup_1 _ _ _ _ Hall Hj).
    + rewrite (Hown ltac:(done)) in *. destruct Hinv as [Ho Hpt]. rewrite Hi in Hpt.
      destruct Hpt as [-> ->]. injection Hs as <-. simpl.
      rewrite list_lookup_insert_eq by done. split; [by apply others_insert | done].
    + rewrite (Hown ltac:(done)) in *. destruct Hinv as [Ho Hpt]. rewrite Hi in Hpt.
      destruct act; [by subst |]. subst sem. injection Hs as <-. simpl.
      rewrite list_lookup_insert_eq by done. split; [by apply others_insert | done].
    + rewrite (Hown ltac:(done)) in *. destruct Hinv as [Ho Hpt]. rewrite Hi in Hpt.
      rewrite bool_decide_true in Hs by done. injection Hs as <-. simpl. split; [| done].
      apply Forall_lookup. intros j p Hj. destruct (decide (j = i)) as [->|Hne].
      * rewrite list_lookup_insert_eq in Hj by done. congruence.
      * by rewrite (others_insert ths i Outside Ho j p Hj Hne).
  - destruct act; [| done]. injection Hs as <-. simpl. destruct own as [i|].
    + destruct Hinv as [Ho Hpt]. split; [done |]. destruct (ths !! i) as [[]|]; try done; try by destruct Hpt.
      lia.
    + by destruct Hinv as (_ & ? & _).
Qed.

(** C34: however the threads and the disk interrupt interleave, no thread ever
    issues a request while another is in progress (the [ASSERT(!active)] of
    [Disk]), only the owner releases the lock, and at most one thread is inside. *)
Theorem one_request_at_a_time n s :
  reachable n s ->
  (forall e r, step s e = Some r -> exists s', r = Ok s') /\
  (forall i j p q, threads s !! i = Some p -> threads s !! j = Some q ->
     p <> Outside -> q <> Outside -> i = j) /\
  (active s = true -> semaphore s = 0).
Proof.
  intros Hr. assert (inv s) as Hinv.
  { induction Hr as [|s e s' _ IH E]; [apply inv_init |]. exact (inv_step s e _ IH E). }
  split_and!.
  - intros e r E. pose proof (inv_step s e r Hinv E) as H.
    apply returns_Ok in H as (s' & -> & _). by exists s'.
  - intros i j p q Hi Hj Hp Hq. unfold inv in Hinv. destruct (owner s) as [k|].
    + destruct Hinv as [Ho _]. destruct (decide (i = k)) as [->|]; [| by rewrite (Ho i p Hi) in Hp].
      destruct (decide (j = k)) as [->|]; [done | by rewrite (Ho j q Hj) in Hq].
    + destruct Hinv as (Hall & _ & _). by rewrite (Forall_lookup_1 _ _ _ _ Hall Hi) in Hp.
  - intros Ha. unfold inv in Hinv. rewrite Ha in Hinv. destruct (owner s) as [k|].
    + destruct Hinv as [_ Hpt]. destruct (threads s !! k) as [[]|]; by destruct Hpt || done.
    + by destruct Hinv as (_ & ? & _).
Qed.

(** Two threads, the first of which has its request in progress. *)
Definition busy : state := mk [Requested; Outside] (Some 0%nat) 0 true.

Lemma busy_reachable : reachable 2 busy.
Proof.
  apply (reach_step 2 (mk [Locked; Outside] (Some 0%nat) 0 false) (Step 0)); [| reflexivity].
  apply (reach_step 2 (init 2) (Step 0)); [apply reach_init | reflexivity].
Qed.

Lemma one_request_at_a_time_witness : step busy (Step 1) = None /\ semaphore busy = 0.
Proof.
  split; [reflexivity |].
  exact (proj2 (proj2 (one_request_at_a_time 2 busy busy_reachable)) eq_refl).
Defined.
End Protocol.
