(* ===== verification/Files.v ===== *)
(** * Files: filesys/filehdr.h, filehdr.cc, filesys/openfile.h, openfile.cc

    File headers (which sectors hold a file) and open files (reads and writes
    at a position) of the on-disk file system.  Both are written against the
    interfaces of the disk ([BlockStore]) and of the free map ([SlotMap]), and
    their theorems need only the laws of those. *)

From S2P Require Import Prelude Bitmap Disk.

Definition NumDirect : Z := (SectorSize - 2 * 4) / 4.
Definition MaxFileSize : Z := NumDirect * SectorSize.

(** ** File headers *)
Module FileHeader.
Import SlotOps.

Record t := mk {
  numBytes : Z;
  numSectors : Z;
  dataSectors : list Z;
}.

(** A header in memory is three [int] fields of one sector. *)
Definition wf (h : t) : Prop :=
  is_s32 (numBytes h) /\ is_s32 (numSectors h) /\
  length (dataSectors h) = Z.to_nat NumDirect /\ Forall is_s32 (dataSectors h).

(** [(char * )this]: the bytes of the fields, in order, and back. *)
Definition encode (h : t) : list Z :=
  le_split 4 (numBytes h) ++ le_split 4 (numSectors h)
  ++ concat (le_split 4 <$> dataSectors h).

Definition int_at (bs : list Z) (i : nat) : Z := s32 (le_combine (slice (4 * i) 4 bs)).

Definition decode (bs : list Z) : t :=
  mk (int_at bs 0) (int_at bs 1) ((fun i => int_at bs (2 + i)) <$> seq 0 (Z.to_nat NumDirect)).

Section slots.
Context `{SlotMap B}.

(** The loop of [Allocate]: [n] more sectors, from index [i]. *)
Fixpoint allocate_loop (n i : nat) (ds : list Z) (freeMap : B) : res (list Z * B) :=
  match n with
  | O => Ok (ds, freeMap)
  | S n' =>
      '(s, freeMap) ← slot_find_and_set freeMap;
      _ ← (if decide (i < length ds)%nat then Ok tt else Fault MemoryFault);
      let ds := <[i := s]> ds in
      _ ← ASSERT (0 <=? s);
      allocate_loop n' (S i) ds freeMap
  end.

(** [FileHeader::Allocate]; [h] is the header object before the call, whose
    unused entries keep what they held. *)
Definition Allocate (h : t) (freeMap : B) (fileSize : Z) : res (bool * t * B) :=
  let numSectors := divRoundUp fileSize SectorSize in
  clear ← slot_num_clear freeMap;
  if clear <? numSectors then Ok (false, mk fileSize numSectors (dataSectors h), freeMap)
  else
    '(ds, freeMap) ← allocate_loop (Z.to_nat numSectors) 0 (dataSectors h) freeMap;
    Ok (true, mk fileSize numSectors ds, freeMap).

(** The loop of [Deallocate]. *)
Fixpoint deallocate_loop (n i : nat) (ds : list Z) (freeMap : B) : res B :=
  match n with
  | O => Ok freeMap
  | S n' =>
      s ← deref (ds !! i);
      b ← slot_test freeMap s;
      _ ← ASSERT b;
      freeMap ← slot_clear freeMap s;
      deallocate_loop n' (S i) ds freeMap
  end.

Definition Deallocate (h : t) (freeMap : B) : res B :=
  deallocate_loop (Z.to_nat (numSectors h)) 0 (dataSectors h) freeMap.
End slots.

Section disk.
Context `{BlockStore D}.

Definition FetchFrom (d : D) (sector : Z) : res (t * D) :=
  '(bs, d) ← ReadSector d sector; Ok (decode bs, d).

Definition WriteBack (h : t) (d : D) (sector : Z) : res D := WriteSector d sector (encode h).
End disk.

Definition ByteToSector (h : t) (offset : Z) : res Z :=
  let i := Z.quot offset SectorSize in
  if i <? 0 then Fault MemoryFault else deref (dataSectors h !! Z.to_nat i).

Definition FileLength (h : t) : Z := numBytes h.

(** *** The header on disk *)

Lemma sized_ints (xs : list Z) : Forall (fun b => length b = 4%nat) (le_split 4 <$> xs).
Proof. apply Forall_fmap, Forall_true. intros x. apply length_le_split. Qed.

Lemma encode_ints h : encode h = concat (le_split 4 <$> (numBytes h :: numSectors h :: dataSectors h)).
Proof. done. Qed.

Lemma int_at_concat xs i x :
  Forall is_s32 xs -> xs !! i = Some x -> int_at (concat (le_split 4 <$> xs)) i = x.
Proof.
  intros Hs Hi. unfold int_at.
  rewrite (slice_concat 4 _ i (le_split 4 x)); [| apply sized_ints | by rewrite list_lookup_fmap, Hi].
  rewrite le_combine_split. change (256 ^ Z.of_nat 4) with (2 ^ 32). fold (u32 x).
  rewrite s32_u32. apply s32_id. exact (Forall_lookup_1 _ _ _ _ Hs Hi).
Qed.

Lemma decode_encode h : wf h -> decode (encode h) = h.
Proof.
  intros (H1 & H2 & H3 & H4). rewrite encode_ints. unfold decode.
  assert (Forall is_s32 (numBytes h :: numSectors h :: dataSectors h)) as Hall by auto.
  rewrite (int_at_concat _ 0 _ Hall eq_refl), (int_at_concat _ 1 _ Hall eq_refl). destruct h as [nb ns ds].
  cbn [numBytes numSectors dataSectors] in *. f_equal.
  apply list_eq. intros i. rewrite list_lookup_fmap.
  destruct (decide (i < length ds)%nat) as [Hi|Hi].
  - rewrite lookup_seq_lt by lia. simpl. destruct (lookup_lt_is_Some_2 ds i Hi) as [x Hx].
    rewrite Hx. f_equal. by apply (int_at_concat _ (S (S i)) x Hall).
  - rewrite lookup_seq_ge by lia. symmetry. apply lookup_ge_None_2. lia.
Qed.

Lemma encode_sector h : length (dataSectors h) = Z.to_nat NumDirect -> is_sector (encode h).
Proof.
  intros Hl. rewrite encode_ints. split.
  - rewrite (length_concat_blocks 4) by apply sized_ints. rewrite length_fmap. simpl.
    rewrite Hl. reflexivity.
  - apply Forall_concat, Forall_fmap, Forall_true. intros x. apply le_split_bytes.
Qed.

Lemma decode_wf bs : wf (decode bs).
Proof.
  split_and!; [apply s32_range.. | |]; unfold decode; cbn [dataSectors].
  - by rewrite length_fmap, length_seq.
  - apply Forall_fmap, Forall_true. intros i. apply s32_range.
Qed.

(** A header written back to a sector is the header a later fetch reads,
    whatever its contents, and no other sector is touched. *)
Theorem header_round_trip `{BlockStoreLaws D} (d : D) h s :
  wf h -> store_ok d -> sector_in_range s ->
  exists d' d'', WriteBack h d s = Ok d' /\ FetchFrom d' s = Ok (h, d'') /\ store_ok d'' /\
    forall s', sector_in_range s' -> s' <> s -> contents d'' s' = contents d s'.
Proof.
  intros Hwf Hok Hs. unfold WriteBack, FetchFrom.
  destruct (write_sector d s (encode h) Hok Hs) as (d1 & -> & Hok1 & Hc & Ho).
  { apply encode_sector, Hwf. }
  destruct (read_sector d1 s Hok1 Hs) as (d2 & E & Hok2 & Hsame).
  exists d1, d2. split; [done |]. rewrite E, Hc. cbn [mbind res_bind].
  rewrite decode_encode by done. split_and!; [done | done |]. intros s' Hs' Hne. rewrite Hsame. auto.
Qed.

(** *** Allocation *)

Section alloc.
Context `{SlotMapLaws B}.
#[local] Set Default Proof Using "Type*".

Lemma allocate_loop_spec n i ds (fm : B) :
  slots_wf fm -> (n <= count_clear (slots fm))%nat -> (i + n <= length ds)%nat ->
  exists ks fm', allocate_loop n i ds fm = Ok (list_inserts i (Z.of_nat <$> ks) ds, fm') /\
    length ks = n /\ clear_slots fm ks /\ slots_wf fm' /\ slots fm' = set_slots true ks (slots fm).
Proof.
  revert i ds fm. induction n as [|n IH]; intros i ds fm Hwf Hn Hi.
  - exists [], fm. split_and!; try done. split; constructor.
  - destruct (find_clear fm Hwf ltac:(lia)) as (k & fm1 & E & W & Hk & Hs).
    destruct (Bitmap.count_clear_insert _ _ Hk) as [Hc _].
    destruct (IH (S i) (<[i := Z.of_nat k]> ds) fm1 W) as (ks & fm' & E2 & Hl & [Hnd Hcl] & W' & Hs').
    { rewrite Hs, Hc. lia. }
    { rewrite length_insert. lia. }
    exists (k :: ks), fm'. cbn [allocate_loop]. rewrite E. cbn [mbind res_bind].
    rewrite decide_True by lia. cbn [mbind res_bind].
    rewrite ASSERT_true by (apply Z.leb_le; lia). cbn [mbind res_bind]. rewrite E2.
    assert (k ∉ ks) as Hnot.
    { intros Hin. rewrite Forall_forall in Hcl. pose proof (Hcl k Hin) as Hx. rewrite Hs in Hx.
      rewrite list_lookup_insert_eq in Hx by (exact (lookup_lt_Some _ _ _ Hk)). done. }
    split_and!; [| simpl; lia | | done | simpl; by rewrite <- Hs].
    + do 2 f_equal. simpl. by rewrite list_insert_inserts_lt by lia.
    + split; [by constructor |]. constructor; [done |]. apply Forall_forall. intros x Hx.
      rewrite Forall_forall in Hcl. pose proof (Hcl x Hx) as Hy. rewrite Hs in Hy.
      rewrite list_lookup_insert_ne in Hy by (intros ->; done). done.
Qed.

Lemma allocate_loop_overrun n i ds (fm : B) :
  slots_wf fm -> (n <= count_clear (slots fm))%nat -> (i <= length ds < i + n)%nat ->
  allocate_loop n i ds fm = Fault MemoryFault.
Proof.
  revert i ds fm. induction n as [|n IH]; intros i ds fm Hwf Hn Hi; [lia |].
  destruct (find_clear fm Hwf ltac:(lia)) as (k & fm1 & E & W & Hk & Hs).
  destruct (Bitmap.count_clear_insert _ _ Hk) as [Hc _].
  simpl. rewrite E. cbn [mbind res_bind]. case_decide; [| done]. cbn [mbind res_bind].
  rewrite ASSERT_true by (apply Z.leb_le; lia). cbn [mbind res_bind]. apply IH; [done | |].
  - rewrite Hs, Hc. lia.
  - rewrite length_insert. lia.
Qed.

Lemma deallocate_loop_spec ks i ds (fm : B) :
  slots_wf fm -> NoDup ks -> Forall (fun k => slots fm !! k = Some true) ks ->
  (forall j k, ks !! j = Some k -> ds !! (i + j)%nat = Some (Z.of_nat k)) ->
  exists fm', deallocate_loop (length ks) i ds fm = Ok fm' /\ slots_wf fm' /\
    slots fm' = set_slots false ks (slots fm).
Proof.
  revert i fm. induction ks as [|k ks IH]; intros i fm Hwf Hnd Hset Hds; [by exists fm |].
  apply NoDup_cons in Hnd as [Hk Hnd]. apply Forall_cons in Hset as [Hks Hset].
  pose proof (Hds 0%nat k eq_refl) as Hd0. rewrite Nat.add_0_r in Hd0.
  cbn [length deallocate_loop]. rewrite Hd0. cbn [mbind res_bind deref].
  rewrite (slot_test_law fm k true Hwf Hks). cbn [mbind res_bind ASSERT].
  destruct (slot_clear_law fm k Hwf (lookup_lt_Some _ _ _ Hks)) as (fm1 & -> & W & Hs).
  cbn [mbind res_bind]. cbn [set_slots foldl]. fold (set_slots false ks (<[k := false]> (slots fm))).
  rewrite <- Hs. apply IH; [done | done | |].
  - apply Forall_forall. intros x Hx. rewrite Hs, list_lookup_insert_ne by (intros ->; done).
    rewrite Forall_forall in Hset. auto.
  - intros j x Hj. replace (S i + j)%nat with (i + S j)%nat by lia. by apply Hds.
Qed.

Lemma sectors_needed size :
  0 <= size <= MaxFileSize -> 0 <= divRoundUp size SectorSize <= NumDirect.
Proof.
  intros Hs. pose proof (divRoundUp_spec size SectorSize ltac:(lia) ltac:(done)) as Hd.
  change MaxFileSize with 3840 in Hs. change NumDirect with 30. change SectorSize with 128 in *. lia.
Qed.

Lemma Allocate_refuses h (fm : B) size :
  slots_wf fm -> Z.of_nat (count_clear (slots fm)) < divRoundUp size SectorSize ->
  exists h', Allocate h fm size = Ok (false, h', fm).
Proof.
  intros Hwf Hlt. unfold Allocate. rewrite (slot_num_law fm Hwf). cbn [mbind res_bind].
  eexists. by destruct (Z.ltb_spec (Z.of_nat (count_clear (slots fm))) (divRoundUp size SectorSize)); [| lia].
Qed.

Lemma Allocate_spec h (fm : B) size :
  slots_wf fm -> length (dataSectors h) = Z.to_nat NumDirect -> 0 <= size <= MaxFileSize ->
  let n := divRoundUp size SectorSize in
  if decide (Z.of_nat (count_clear (slots fm)) < n) then
    Allocate h fm size = Ok (false, mk size n (dataSectors h), fm)
  else exists ks fm', let ds := list_inserts 0 (Z.of_nat <$> ks) (dataSectors h) in
    Allocate h fm size = Ok (true, mk size n ds, fm') /\
    length ks = Z.to_nat n /\ clear_slots fm ks /\ slots_wf fm' /\
    take (Z.to_nat n) ds = Z.of_nat <$> ks /\ slots fm' = set_slots true ks (slots fm).
Proof.
  intros Hwf Hl Hsize. cbv zeta. pose proof (sectors_needed size Hsize) as Hn.
  unfold Allocate. set (n := divRoundUp size SectorSize) in *.
  rewrite (slot_num_law fm Hwf). cbn [mbind res_bind].
  destruct (Z.ltb_spec (Z.of_nat (count_clear (slots fm))) n) as [Hlt|Hge].
  { by rewrite decide_True by done. }
  rewrite decide_False by lia.
  destruct (allocate_loop_spec (Z.to_nat n) 0 (dataSectors h) fm Hwf) as
    (ks & fm' & E & Hlen & Hcl & W & Hs); [lia | lia |].
  rewrite E. cbn [mbind res_bind]. exists ks, fm'. split_and!; try done.
  rewrite take_slice, <- Hlen, <- (length_fmap Z.of_nat ks). apply slice_inserts_eq.
  rewrite length_fmap. lia.
Qed.

(** [Allocate] refuses exactly when there are not enough free sectors and
    then leaves the map alone; otherwise the header names distinct sectors that
    were free and are now the only new ones in use, and [Deallocate] gives back
    exactly those. *)
Theorem allocate_then_deallocate h (fm : B) size :
  slots_wf fm -> length (dataSectors h) = Z.to_nat NumDirect -> 0 <= size <= MaxFileSize ->
  let n := divRoundUp size SectorSize in
  if decide (Z.of_nat (count_clear (slots fm)) < n) then
    Allocate h fm size = Ok (false, mk size n (dataSectors h), fm)
  else exists ks h' fm' fm'', Allocate h fm size = Ok (true, h', fm') /\
    numBytes h' = size /\ numSectors h' = n /\ length ks = Z.to_nat n /\ clear_slots fm ks /\
    take (Z.to_nat n) (dataSectors h') = Z.of_nat <$> ks /\
    slots fm' = set_slots true ks (slots fm) /\
    Deallocate h' fm' = Ok fm'' /\ slots fm'' = slots fm.
Proof.
  intros Hwf Hl Hsize. cbv zeta. pose proof (Allocate_spec h fm size Hwf Hl Hsize) as Ha.
  cbv zeta in Ha. set (n := divRoundUp size SectorSize) in *.
  case_decide; [done |]. destruct Ha as (ks & fm' & E & Hlen & [Hnd Hcl] & W & Htake & Hs).
  set (ds := list_inserts 0 _ _) in *.
  assert (Forall (fun i => i < length (slots fm))%nat ks) as Hin.
  { eapply Forall_impl; [exact Hcl |]. intros i Hi. exact (lookup_lt_Some _ _ _ Hi). }
  destruct (deallocate_loop_spec ks 0 ds fm' W Hnd) as (fm'' & E2 & W2 & Hs2).
  - rewrite Hs. apply Forall_forall. intros i Hi. rewrite lookup_set_slots by done.
    by rewrite decide_True.
  - intros j k Hj. simpl. pose proof (lookup_lt_Some _ _ _ Hj).
    rewrite <- (lookup_take_lt ds (Z.to_nat n) j) by lia. by rewrite Htake, list_lookup_fmap, Hj.
  - exists ks, (mk size n ds), fm', fm''. split_and!; try done.
    + unfold Deallocate. cbn [numSectors dataSectors]. by rewrite <- Hlen.
    + rewrite Hs2, Hs. by apply set_slots_undo.
Qed.

(** [Allocate] does not check the size against the header: a file larger
    than [MaxFileSize], when the disk has room for it, is written past the end
    of [dataSectors]. *)
Lemma allocate_overruns_header h (fm : B) size :
  slots_wf fm -> length (dataSectors h) = Z.to_nat NumDirect -> MaxFileSize < size ->
  divRoundUp size SectorSize <= Z.of_nat (count_clear (slots fm)) ->
  Allocate h fm size = Fault MemoryFault.
Proof.
  intros Hwf Hl Hsize Hfree. unfold Allocate. rewrite (slot_num_law fm Hwf). cbn [mbind res_bind].
  destruct (Z.ltb_spec (Z.of_nat (count_clear (slots fm))) (divRoundUp size SectorSize)); [lia |].
  assert (0 <= size) as Hpos by (change MaxFileSize with 3840 in Hsize; lia).
  pose proof (divRoundUp_spec size SectorSize Hpos ltac:(done)) as Hd.
  change MaxFileSize with 3840 in Hsize. change (Z.to_nat NumDirect) with 30%nat in Hl.
  change SectorSize with 128 in *.
  rewrite allocate_loop_overrun; [done | done | lia | lia].
Qed.
End alloc.
End FileHeader.

(** ** Open files *)
Module OpenFile.
Import FileHeader.

(** [class OpenFile] (the on-disk one) *)
Record t := mk {
  hdr : FileHeader.t;
  seekPosition : Z;
}.

Section ops.
Context `{BlockStore D}.

(** What [new char[n]] holds. *)
Context (fresh : nat -> list Z).

Definition create (d : D) (sector : Z) : res (t * D) :=
  '(h, d) ← FetchFrom d sector; Ok (mk h 0, d).

Definition Seek (f : t) (position : Z) : t := mk (hdr f) position.
Definition Length (f : t) : Z := FileLength (hdr f).

(** Sectors [i], [i+1], ... ([n] of them), one after the other. *)
Fixpoint read_loop (d : D) (h : FileHeader.t) (i : Z) (n : nat) : res (list Z * D) :=
  match n with
  | O => Ok ([], d)
  | S n' =>
      s ← ByteToSector h (i * SectorSize);
      '(bs, d) ← ReadSector d s;
      '(rest, d) ← read_loop d h (i + 1) n';
      Ok (bs ++ rest, d)
  end.

Fixpoint write_loop (d : D) (h : FileHeader.t) (i : Z) (n : nat) (buf : list Z) : res D :=
  match n with
  | O => Ok d
  | S n' =>
      s ← ByteToSector h (i * SectorSize);
      d ← WriteSector d s (take (Z.to_nat SectorSize) buf);
      write_loop d h (i + 1) n' (drop (Z.to_nat SectorSize) buf)
  end.

(** The request after the checks: nothing, or the bytes to transfer. *)
Definition clip (fileLength numBytes position : Z) : Z :=
  if (numBytes <=? 0) || (fileLength <=? position) then 0
  else if fileLength <? position + numBytes then fileLength - position
  else numBytes.

(** [&buf[at]], for a copy of [n] bytes *)
Definition buffer_slice (buf : list Z) (at_ n : Z) : res (list Z) :=
  if (at_ <? 0) || (Z.of_nat (length buf) <? at_ + n) then Fault MemoryFault
  else Ok (slice (Z.to_nat at_) (Z.to_nat n) buf).
Definition buffer_copy (buf : list Z) (at_ : Z) (bs : list Z) : res (list Z) :=
  if (at_ <? 0) || (Z.of_nat (length buf) <? at_ + Z.of_nat (length bs)) then Fault MemoryFault
  else Ok (list_inserts (Z.to_nat at_) bs buf).

(** [OpenFile::ReadAt]: the bytes copied to the caller's buffer. *)
Definition ReadAt (f : t) (d : D) (numBytes position : Z) : res (list Z * D) :=
  let fileLength := FileLength (hdr f) in
  if (numBytes <=? 0) || (fileLength <=? position) then Ok ([], d)
  else
    let numBytes := if fileLength <? position + numBytes then fileLength - position else numBytes in
    let firstSector := divRoundDown position SectorSize in
    let lastSector := divRoundDown (position + numBytes - 1) SectorSize in
    let numSectors := 1 + lastSector - firstSector in
    '(buf, d) ← read_loop d (hdr f) firstSector (Z.to_nat numSectors);
    bs ← buffer_slice buf (position - firstSector * SectorSize) numBytes;
    Ok (bs, d).

(** [OpenFile::WriteAt]: the number of bytes written; [from] is the caller's
    buffer. *)
Definition WriteAt (f : t) (d : D) (from : list Z) (numBytes position : Z) : res (Z * D) :=
  let fileLength := FileLength (hdr f) in
  if (numBytes <=? 0) || (fileLength <=? position) then Ok (0, d)
  else
    let numBytes := if fileLength <? position + numBytes then fileLength - position else numBytes in
    let firstSector := divRoundDown position SectorSize in
    let lastSector := divRoundDown (position + numBytes - 1) SectorSize in
    let numSectors := 1 + lastSector - firstSector in
    let buf := fresh (Z.to_nat (numSectors * SectorSize)) in
    let firstAligned := position =? firstSector * SectorSize in
    let lastAligned := position + numBytes =? (lastSector + 1) * SectorSize in
    '(buf, d) ← (if negb firstAligned then
                   '(bs, d) ← ReadAt f d SectorSize (firstSector * SectorSize);
                   buf ← buffer_copy buf 0 bs;
                   Ok (buf, d)
                 else Ok (buf, d));
    '(buf, d) ← (if negb lastAligned && (negb (firstSector =? lastSector) || firstAligned) then
                   '(bs, d) ← ReadAt f d SectorSize (lastSector * SectorSize);
                   buf ← buffer_copy buf ((lastSector - firstSector) * SectorSize) bs;
                   Ok (buf, d)
                 else Ok (buf, d));
    bs ← buffer_slice from 0 numBytes;
    buf ← buffer_copy buf (position - firstSector * SectorSize) bs;
    d ← write_loop d (hdr f) firstSector (Z.to_nat numSectors) buf;
    Ok (numBytes, d).

(** [OpenFile::Read] and [Write], at the current position. *)
Definition Read (f : t) (d : D) (numBytes : Z) : res (list Z * t * D) :=
  '(bs, d) ← ReadAt f d numBytes (seekPosition f);
  Ok (bs, mk (hdr f) (seekPosition f + Z.of_nat (length bs)), d).
Definition Write (f : t) (d : D) (from : list Z) (numBytes : Z) : res (Z * t * D) :=
  '(result, d) ← WriteAt f d from numBytes (seekPosition f);
  Ok (result, mk (hdr f) (seekPosition f + result), d).
End ops.

(** A request from the start that the file can serve in full. *)
Lemma clip_whole len n : 0 < n <= len -> clip len n 0 = n.
Proof.
  intros Hn. unfold clip.
  destruct (Z.leb_spec n 0), (Z.leb_spec len 0), (Z.ltb_spec len (0 + n)); simpl; lia.
Qed.

(** *** What an open file holds *)

(** A header that describes a file: the sectors it needs, all different. *)
Record hdr_ok (h : FileHeader.t) : Prop := {
  ho_size : 0 <= numBytes h;
  ho_num : numSectors h = divRoundUp (numBytes h) SectorSize;
  ho_direct : numSectors h <= NumDirect;
  ho_len : length (dataSectors h) = Z.to_nat NumDirect;
  ho_range : Forall sector_in_range (take (Z.to_nat (numSectors h)) (dataSectors h));
  ho_nodup : NoDup (take (Z.to_nat (numSectors h)) (dataSectors h));
}.

Section spec.
Context `{BlockStoreLaws D}.
#[local] Set Default Proof Using "Type*".
Implicit Types (d : D) (h : FileHeader.t) (f : t).

#[local] Abbreviation K := (Z.to_nat SectorSize).

Definition data_sectors h : list Z := take (Z.to_nat (numSectors h)) (dataSectors h).
(** All bytes of its sectors, and those within its length. *)
Definition blocks h d : list (list Z) := contents d <$> data_sectors h.
Definition raw_bytes h d : list Z := concat (blocks h d).
Definition file_bytes h d : list Z := take (Z.to_nat (numBytes h)) (raw_bytes h d).

Lemma length_data_sectors h : hdr_ok h -> length (data_sectors h) = Z.to_nat (numSectors h).
Proof.
  intros Ho. unfold data_sectors. rewrite length_take, (ho_len _ Ho).
  pose proof (ho_direct _ Ho). lia.
Qed.

Lemma sized_blocks h d : hdr_ok h -> store_ok d -> Forall (fun b => length b = K) (blocks h d).
Proof.
  intros Ho Hd. apply Forall_fmap. eapply Forall_impl; [apply (ho_range _ Ho) |].
  intros s Hs. apply contents_sector; done.
Qed.

Lemma length_raw h d :
  hdr_ok h -> store_ok d -> length (raw_bytes h d) = (K * Z.to_nat (numSectors h))%nat.
Proof.
  intros Ho Hd. unfold raw_bytes. rewrite (length_concat_blocks K) by by apply sized_blocks.
  unfold blocks. by rewrite length_fmap, length_data_sectors.
Qed.

Lemma size_fits h : hdr_ok h -> (Z.to_nat (numBytes h) <= K * Z.to_nat (numSectors h))%nat.
Proof.
  intros Ho. pose proof (divRoundUp_spec (numBytes h) SectorSize (ho_size _ Ho) ltac:(done)) as Hd.
  rewrite <- (ho_num _ Ho) in Hd. unfold SectorSize in *. pose proof (ho_size _ Ho). lia.
Qed.

Lemma length_file h d : hdr_ok h -> store_ok d -> length (file_bytes h d) = Z.to_nat (numBytes h).
Proof.
  intros Ho Hd. unfold file_bytes. rewrite length_take, length_raw by done.
  pose proof (size_fits h Ho). lia.
Qed.

(** The [i]th sector of the file. *)
Lemma ByteToSector_ok h i :
  hdr_ok h -> 0 <= i < numSectors h ->
  exists s, ByteToSector h (i * SectorSize) = Ok s /\ data_sectors h !! Z.to_nat i = Some s /\
    sector_in_range s.
Proof.
  intros Ho Hi. unfold ByteToSector. rewrite Z.quot_mul by done.
  destruct (Z.ltb_spec i 0); [lia |].
  destruct (lookup_lt_is_Some_2 (data_sectors h) (Z.to_nat i)) as [s Hs].
  { rewrite length_data_sectors by done. lia. }
  exists s. pose proof (Forall_lookup_1 _ _ _ _ (ho_range _ Ho) Hs) as Hr.
  split_and!; [| done | done]. unfold data_sectors in Hs.
  rewrite lookup_take_lt in Hs by lia. by rewrite Hs.
Qed.

Lemma blocks_lookup h d i s :
  data_sectors h !! i = Some s -> blocks h d !! i = Some (contents d s).
Proof. intros Hs. unfold blocks. by rewrite list_lookup_fmap, Hs. Qed.

Lemma blocks_same h d d' : (forall s, contents d' s = contents d s) -> blocks h d' = blocks h d.
Proof. intros Hs. unfold blocks. apply list_fmap_ext. intros i x _. apply Hs. Qed.

Lemma read_loop_spec h d i n :
  hdr_ok h -> store_ok d -> 0 <= i -> i + Z.of_nat n <= numSectors h ->
  exists d', read_loop d h i n = Ok (slice (K * Z.to_nat i) (K * n) (raw_bytes h d), d') /\
    store_ok d' /\ forall s, contents d' s = contents d s.
Proof.
  intros Ho. revert d i. induction n as [|n IH]; intros d i Hd Hi Hn.
  - exists d. split_and!; [| done | done]. cbn [read_loop]. by rewrite Nat.mul_0_r.
  - cbn [read_loop]. destruct (ByteToSector_ok h i Ho ltac:(lia)) as (s & -> & Hs & Hr).
    cbn [mbind res_bind]. destruct (read_sector d s Hd Hr) as (d1 & -> & Hd1 & Hc1).
    cbn [mbind res_bind].
    destruct (IH d1 (i + 1) Hd1 ltac:(lia) ltac:(lia)) as (d2 & -> & Hd2 & Hc2).
    cbn [mbind res_bind]. exists d2. split_and!; [| done | intros; by rewrite Hc2, Hc1].
    do 2 f_equal. replace (K * S n)%nat with (K + K * n)%nat by lia. rewrite slice_add.
    replace (K * Z.to_nat i + K)%nat with (K * Z.to_nat (i + 1))%nat by lia.
    unfold raw_bytes at 2 3. rewrite (slice_concat K _ _ (contents d s));
      [| by apply sized_blocks | by apply blocks_lookup].
    unfold raw_bytes. by rewrite (blocks_same h d d1 Hc1).
Qed.

(** The sector arithmetic of a clipped request. *)
Lemma request_sectors h n pos :
  hdr_ok h -> 0 <= pos -> 0 < n -> pos + n <= numBytes h ->
  let first := pos / SectorSize in
  let last_ := (pos + n - 1) / SectorSize in
  0 <= first <= last_ /\ last_ < numSectors h /\
  first * SectorSize <= pos /\ pos < (first + 1) * SectorSize /\
  last_ * SectorSize < pos + n /\ pos + n <= (last_ + 1) * SectorSize.
Proof.
  intros Ho Hp Hn Hl. cbv zeta.
  pose proof (divRoundUp_spec (numBytes h) SectorSize (ho_size _ Ho) ltac:(done)) as Hd.
  rewrite <- (ho_num _ Ho) in Hd. unfold SectorSize in *. Z.div_mod_to_equations. lia.
Qed.

Lemma slice_file h d pos n :
  (pos + n <= Z.to_nat (numBytes h))%nat -> slice pos n (raw_bytes h d) = slice pos n (file_bytes h d).
Proof.
  intros Hn. apply list_eq. intros j. rewrite !lookup_slice. case_decide; [| done].
  unfold file_bytes. rewrite lookup_take_lt by lia. done.
Qed.

Lemma buffer_slice_ok (buf : list Z) a n :
  0 <= a -> 0 <= n -> a + n <= Z.of_nat (length buf) ->
  buffer_slice buf a n = Ok (slice (Z.to_nat a) (Z.to_nat n) buf).
Proof.
  intros. unfold buffer_slice. destruct (Z.ltb_spec a 0), (Z.ltb_spec (Z.of_nat (length buf)) (a + n));
    simpl; done || lia.
Qed.

Lemma buffer_copy_ok (buf : list Z) a bs :
  0 <= a -> a + Z.of_nat (length bs) <= Z.of_nat (length buf) ->
  buffer_copy buf a bs = Ok (list_inserts (Z.to_nat a) bs buf).
Proof.
  intros. unfold buffer_copy.
  destruct (Z.ltb_spec a 0), (Z.ltb_spec (Z.of_nat (length buf)) (a + Z.of_nat (length bs)));
    simpl; done || lia.
Qed.

Lemma ReadAt_spec f d n pos :
  hdr_ok (hdr f) -> store_ok d -> 0 <= pos ->
  exists d', ReadAt f d n pos =
      Ok (slice (Z.to_nat pos) (Z.to_nat (clip (numBytes (hdr f)) n pos)) (file_bytes (hdr f) d), d') /\
    store_ok d' /\ forall s, contents d' s = contents d s.
Proof.
  intros Ho Hd Hp. set (h := hdr f) in *. unfold ReadAt, clip, FileLength. fold h.
  destruct ((n <=? 0) || (numBytes h <=? pos)) eqn:Hc; [by exists d |].
  set (n' := if numBytes h <? pos + n then numBytes h - pos else n).
  assert (0 < n' /\ pos + n' <= numBytes h) as [Hn1 Hn2].
  { unfold n'. destruct (Z.ltb_spec (numBytes h) (pos + n)); lia. }
  destruct (request_sectors h n' pos Ho Hp Hn1 Hn2) as (H1 & H2 & H3 & H4 & H5 & H6).
  unfold divRoundDown. rewrite !Z.quot_div_nonneg by (unfold SectorSize; lia).
  set (first := pos / SectorSize) in *. set (last_ := (pos + n' - 1) / SectorSize) in *.
  destruct (read_loop_spec h d first (Z.to_nat (1 + last_ - first)) Ho Hd) as (d' & -> & Hd' & Hc');
    [lia | lia |].
  cbn [mbind res_bind]. unfold SectorSize in *. rewrite buffer_slice_ok.
  - exists d'. split_and!; [| done | done]. cbn [mbind res_bind]. do 2 f_equal.
    rewrite slice_slice by lia. rewrite <- slice_file by lia. f_equal. lia.
  - lia.
  - lia.
  - rewrite length_slice; [lia |]. rewrite length_raw by done. unfold SectorSize. lia.
Qed.

(** *** Writing *)

(** Replacing the [i]th sector of the file. *)
Lemma blocks_write h d d' i s bs :
  hdr_ok h -> store_ok d -> data_sectors h !! i = Some s -> length bs = K ->
  contents d' s = bs ->
  (forall s', sector_in_range s' -> s' <> s -> contents d' s' = contents d s') ->
  raw_bytes h d' = list_inserts (K * i) bs (raw_bytes h d).
Proof.
  intros Ho Hd Hi Hl Hs Hne. unfold raw_bytes.
  rewrite <- concat_insert; [| by apply sized_blocks | done |].
  - f_equal. apply list_eq. intros j. destruct (decide (j = i)) as [->|Hj].
    + rewrite list_lookup_insert_eq
        by (unfold blocks; rewrite length_fmap; exact (lookup_lt_Some _ _ _ Hi)).
      rewrite (blocks_lookup _ _ _ _ Hi). by f_equal.
    + rewrite list_lookup_insert_ne by done. unfold blocks. rewrite !list_lookup_fmap.
      destruct (data_sectors h !! j) as [s'|] eqn:Hj'; [| done]. simpl. f_equal. apply Hne.
      * exact (Forall_lookup_1 _ _ _ _ (ho_range _ Ho) Hj').
      * intros ->. apply Hj. exact (NoDup_lookup _ _ _ _ (ho_nodup _ Ho) Hj' Hi).
  - unfold blocks. rewrite length_fmap. exact (lookup_lt_Some _ _ _ Hi).
Qed.

Lemma write_loop_spec h d i n buf :
  hdr_ok h -> store_ok d -> 0 <= i -> i + Z.of_nat n <= numSectors h ->
  length buf = (K * n)%nat -> Forall is_byte buf ->
  exists d', write_loop d h i n buf = Ok d' /\ store_ok d' /\
    raw_bytes h d' = list_inserts (K * Z.to_nat i) buf (raw_bytes h d) /\
    forall s, sector_in_range s -> s ∉ data_sectors h -> contents d' s = contents d s.
Proof.
  intros Ho. revert d i buf. induction n as [|n IH]; intros d i buf Hd Hi Hn Hl Hb.
  - exists d. rewrite Nat.mul_0_r in Hl. apply nil_length_inv in Hl as ->. done.
  - cbn [write_loop]. destruct (ByteToSector_ok h i Ho ltac:(lia)) as (s & -> & Hs & Hr).
    cbn [mbind res_bind].
    assert (length (take K buf) = K) as Hlt by (rewrite length_take; lia).
    assert (is_sector (take K buf)) as Hsec by (split; [done | by apply Forall_take]).
    destruct (write_sector d s (take K buf) Hd Hr Hsec) as (d1 & -> & Hd1 & Hc1 & Hne1).
    cbn [mbind res_bind].
    destruct (IH d1 (i + 1) (drop K buf)) as (d2 & -> & Hd2 & Hraw & Hne2);
      [done | lia | lia | rewrite length_drop; lia | by apply Forall_drop |].
    exists d2. split_and!; [done | done | |].
    + rewrite Hraw, (blocks_write h d d1 (Z.to_nat i) s (take K buf)) by done.
      replace (K * Z.to_nat (i + 1))%nat with (K * Z.to_nat i + length (take K buf))%nat by lia.
      rewrite inserts_app; [by rewrite take_drop |].
      rewrite length_raw, length_drop by done. nia.
    + intros s' Hr' Hnot. rewrite Hne2 by done. apply Hne1; [done |].
      intros ->. apply Hnot. exact (list_elem_of_lookup_2 _ _ _ Hs).
Qed.

(** [buf], the sectors from [first] on, agrees with the file at file offset [g]. *)
Definition agrees h d (first : Z) (buf : list Z) (g : nat) : Prop :=
  buf !! (g - K * Z.to_nat first)%nat = file_bytes h d !! g.

(** Reading a whole sector of the file into its place in the buffer. *)
Lemma fill_sector f d first k buf :
  hdr_ok (hdr f) -> store_ok d -> 0 <= first <= k -> Forall is_byte buf ->
  Forall is_byte (file_bytes (hdr f) d) ->
  k * SectorSize < numBytes (hdr f) ->
  Z.of_nat (length buf) >= (k + 1 - first) * SectorSize ->
  exists buf' d', ('(bs, d) ← ReadAt f d SectorSize (k * SectorSize);
                   buf ← buffer_copy buf ((k - first) * SectorSize) bs; Ok (buf, d)) = Ok (buf', d') /\
    store_ok d' /\ (forall s, contents d' s = contents d s) /\
    length buf' = length buf /\ Forall is_byte buf' /\
    (forall g, Z.of_nat g < numBytes (hdr f) -> k * SectorSize <= Z.of_nat g < (k + 1) * SectorSize ->
       agrees (hdr f) d first buf' g) /\
    (forall g, first * SectorSize <= Z.of_nat g ->
       agrees (hdr f) d first buf g -> agrees (hdr f) d first buf' g).
Proof.
  intros Ho Hd Hk Hb Hfb Hlen Hl. set (h := hdr f) in *.
  destruct (ReadAt_spec f d SectorSize (k * SectorSize) Ho Hd) as (d' & -> & Hd' & Hc');
    [unfold SectorSize; lia |]. fold h. cbn [mbind res_bind].
  set (c := clip (numBytes h) SectorSize (k * SectorSize)).
  assert (c = Z.min SectorSize (numBytes h - k * SectorSize)) as Hc.
  { unfold c, clip. destruct (Z.leb_spec SectorSize 0); [by unfold SectorSize in * |].
    destruct (Z.leb_spec (numBytes h) (k * SectorSize)); [lia |]. simpl.
    destruct (Z.ltb_spec (numBytes h) (k * SectorSize + SectorSize)); lia. }
  set (bs := slice _ _ _). assert (length bs = Z.to_nat c) as Hbs.
  { apply length_slice. rewrite length_file by done. unfold SectorSize in *. lia. }
  unfold SectorSize in *. rewrite buffer_copy_ok by lia. cbn [mbind res_bind].
  assert ((Z.to_nat ((k - first) * 128) + length bs <= length buf)%nat) as Hfit by lia.
  assert (forall g, first * 128 <= Z.of_nat g ->
    list_inserts (Z.to_nat ((k - first) * 128)) bs buf !! (g - 128 * Z.to_nat first)%nat =
    if decide (k * 128 <= Z.of_nat g < k * 128 + c) then file_bytes h d !! g
    else buf !! (g - 128 * Z.to_nat first)%nat) as Hlook.
  { intros g Hg. rewrite lookup_inserts by done.
    destruct (decide (k * 128 <= Z.of_nat g < k * 128 + c)).
    - rewrite decide_True by lia. unfold bs. rewrite lookup_slice, decide_True by lia. f_equal. lia.
    - by rewrite decide_False by lia. }
  eexists _, d'. split_and!; [done | done | done | by rewrite length_inserts | | |].
  - apply Forall_list_inserts; [by apply Forall_slice | done].
  - intros g Hg1 Hg2. unfold agrees. change K with 128%nat. rewrite Hlook by lia.
    by rewrite decide_True by lia.
  - intros g Hg Ha. unfold agrees in *. change K with 128%nat in *. rewrite Hlook by lia.
    by case_decide.
Qed.

Lemma bytes_file h d : hdr_ok h -> store_ok d -> Forall is_byte (file_bytes h d).
Proof.
  intros Ho Hd. apply Forall_take, Forall_concat, Forall_fmap.
  eapply Forall_impl; [apply (ho_range _ Ho) |]. intros s Hs. by apply contents_sector.
Qed.

Lemma agrees_same h d d' first buf g :
  (forall s, contents d' s = contents d s) -> agrees h d' first buf g <-> agrees h d first buf g.
Proof.
  intros Hc. unfold agrees, file_bytes, raw_bytes. by rewrite (blocks_same h d d' Hc).
Qed.

(** The two conditional reads of [WriteAt]: every byte of the file that shares a
    sector with the request but is not part of it ends up in the buffer. *)
Lemma prefill_spec f d buf n pos :
  hdr_ok (hdr f) -> store_ok d -> 0 <= pos -> 0 < n -> pos + n <= numBytes (hdr f) ->
  Forall is_byte buf ->
  let first := pos / SectorSize in
  let last_ := (pos + n - 1) / SectorSize in
  Z.of_nat (length buf) = (1 + last_ - first) * SectorSize ->
  exists buf' d',
    ('(buf, d) ← (if negb (pos =? first * SectorSize) then
                    '(bs, d) ← ReadAt f d SectorSize (first * SectorSize);
                    buf ← buffer_copy buf 0 bs;
                    Ok (buf, d)
                  else Ok (buf, d));
     if negb (pos + n =? (last_ + 1) * SectorSize) && (negb (first =? last_) || (pos =? first * SectorSize)) then
       '(bs, d) ← ReadAt f d SectorSize (last_ * SectorSize);
       buf ← buffer_copy buf ((last_ - first) * SectorSize) bs;
       Ok (buf, d)
     else Ok (buf, d)) = Ok (buf', d') /\
    store_ok d' /\ (forall s, contents d' s = contents d s) /\
    length buf' = length buf /\ Forall is_byte buf' /\
    (forall g, first * SectorSize <= Z.of_nat g < (last_ + 1) * SectorSize ->
       Z.of_nat g < numBytes (hdr f) -> Z.of_nat g < pos \/ pos + n <= Z.of_nat g ->
       agrees (hdr f) d first buf' g).
Proof.
  intros Ho Hd Hp Hn Hfit Hb. cbv zeta. set (h := hdr f) in *.
  destruct (request_sectors h n pos Ho Hp Hn Hfit) as (H1 & H2 & H3 & H4 & H5 & H6).
  set (first := pos / SectorSize) in *. set (last_ := (pos + n - 1) / SectorSize) in *. intros Hl.
  pose proof (bytes_file h d Ho Hd) as Hfb.
  (* the first read *)
  match goal with |- context [?m ≫= _] =>
    assert (exists buf1 d1, m = Ok (buf1, d1) /\ store_ok d1 /\ (forall s, contents d1 s = contents d s) /\
      length buf1 = length buf /\ Forall is_byte buf1 /\
      (pos <> first * SectorSize -> forall g, Z.of_nat g < numBytes h ->
         first * SectorSize <= Z.of_nat g < (first + 1) * SectorSize -> agrees h d first buf1 g))
      as (buf1 & d1 & -> & Hd1 & Hc1 & Hl1 & Hb1 & Ha1) end.
  { destruct (Z.eqb_spec pos (first * SectorSize)); cbn [negb].
    - exists buf, d. split_and!; done.
    - destruct (fill_sector f d first first buf Ho Hd) as (buf1 & d1 & E & Hd1 & Hc1 & Hl1 & Hb1 & Ha & _);
        fold h; try done; [lia | lia | unfold SectorSize in *; lia |].
      rewrite Z.sub_diag, Z.mul_0_l in E. exists buf1, d1. split_and!; done. }
  cbn [mbind res_bind].
  destruct (negb (pos + n =? (last_ + 1) * SectorSize) && _) eqn:Hcond.
  - assert (Forall is_byte (file_bytes h d1)) as Hfb1 by by apply bytes_file.
    destruct (fill_sector f d1 first last_ buf1 Ho Hd1) as (buf2 & d2 & E & Hd2 & Hc2 & Hl2 & Hb2 & Ha2 & Hk2);
      fold h; try done; [lia | lia |]. rewrite E.
    exists buf2, d2. split_and!; [done | done | intros; by rewrite Hc2, Hc1 | lia | done |].
    intros g Hg1 Hg2 Hg3.
    destruct (decide (last_ * SectorSize <= Z.of_nat g)) as [Hin|Hout].
    + apply (agrees_same h d d1); [done |]. apply Ha2; [done | lia].
    + apply (agrees_same h d d1); [done |]. apply Hk2; [lia |]. apply (agrees_same h d d1); [done |].
      apply Ha1; [| done |]; unfold SectorSize in *; lia.
  - exists buf1, d1. split_and!; [done | done | done | done | done |].
    intros g Hg1 Hg2 Hg3. apply Ha1; [| done |]; unfold SectorSize in *; lia.
Qed.

(** The bytes of the file after the buffer is written back. *)
Lemma written_bytes h d d' first n pos bs buf :
  hdr_ok h -> store_ok d -> 0 <= first -> 0 <= pos -> 0 <= n -> pos + n <= numBytes h ->
  length bs = Z.to_nat n -> first * SectorSize <= pos ->
  pos + n <= first * SectorSize + Z.of_nat (length buf) ->
  first * SectorSize + Z.of_nat (length buf) <= numSectors h * SectorSize ->
  (forall g, first * SectorSize <= Z.of_nat g < first * SectorSize + Z.of_nat (length buf) ->
     Z.of_nat g < numBytes h -> Z.of_nat g < pos \/ pos + n <= Z.of_nat g -> agrees h d first buf g) ->
  raw_bytes h d' = list_inserts (K * Z.to_nat first)
    (list_inserts (Z.to_nat (pos - first * SectorSize)) bs buf) (raw_bytes h d) ->
  file_bytes h d' = list_inserts (Z.to_nat pos) bs (file_bytes h d).
Proof.
  intros Ho Hd Hf0 Hp Hn0 Hn Hbs Hfirst Hend Hsec Hagree Hraw.
  pose proof (length_raw h d Ho Hd) as Hlr. pose proof (length_file h d Ho Hd) as Hlf.
  change K with 128%nat in *. unfold SectorSize in *.
  apply list_eq. intros g. unfold file_bytes at 1. rewrite Hraw.
  destruct (decide (Z.of_nat g < numBytes h)) as [Hg|Hg].
  - rewrite lookup_take_lt by lia.
    rewrite lookup_inserts by (rewrite length_inserts; lia). rewrite length_inserts.
    rewrite (lookup_inserts (Z.to_nat pos)) by lia.
    destruct (decide (128 * Z.to_nat first <= g < 128 * Z.to_nat first + length buf)%nat) as [Hin|Hout].
    + rewrite lookup_inserts by lia.
      destruct (decide (Z.to_nat pos <= g < Z.to_nat pos + length bs)%nat).
      * rewrite decide_True by lia. f_equal. lia.
      * rewrite decide_False by lia. apply Hagree; lia.
    + rewrite decide_False by lia. unfold file_bytes. by rewrite lookup_take_lt by lia.
  - rewrite lookup_take_ge by lia. symmetry. apply lookup_ge_None_2. rewrite length_inserts. lia.
Qed.

Context (fresh : nat -> list Z).
Hypothesis fresh_length : forall n, length (fresh n) = n.
Hypothesis fresh_bytes : forall n, Forall is_byte (fresh n).

Lemma WriteAt_spec f d from n pos :
  hdr_ok (hdr f) -> store_ok d -> 0 <= pos -> n <= Z.of_nat (length from) -> Forall is_byte from ->
  let m := clip (numBytes (hdr f)) n pos in
  exists d', WriteAt fresh f d from n pos = Ok (m, d') /\ store_ok d' /\
    file_bytes (hdr f) d' = list_inserts (Z.to_nat pos) (take (Z.to_nat m) from) (file_bytes (hdr f) d) /\
    forall s, sector_in_range s -> s ∉ data_sectors (hdr f) -> contents d' s = contents d s.
Proof.
  intros Ho Hd Hp Hn Hb. cbv zeta. set (h := hdr f) in *. unfold WriteAt, clip, FileLength. fold h.
  destruct ((n <=? 0) || (numBytes h <=? pos)) eqn:Hc; [by exists d |].
  set (n' := if numBytes h <? pos + n then numBytes h - pos else n).
  assert (0 < n' <= n /\ pos + n' <= numBytes h) as [Hn1 Hn2].
  { unfold n'. destruct (Z.ltb_spec (numBytes h) (pos + n)); lia. }
  destruct (request_sectors h n' pos Ho Hp ltac:(lia) Hn2) as (H1 & H2 & H3 & H4 & H5 & H6).
  unfold divRoundDown. rewrite !Z.quot_div_nonneg by (unfold SectorSize; lia).
  set (buf := fresh _).
  destruct (prefill_spec f d buf n' pos Ho Hd Hp ltac:(lia) Hn2 (fresh_bytes _))
    as (buf' & d' & E & Hd' & Hc' & Hl' & Hb' & Ha').
  { unfold buf. rewrite fresh_length. unfold SectorSize in *. lia. }
  fold h in Ha'. set (first := pos / SectorSize) in *. set (last_ := (pos + n' - 1) / SectorSize) in *.
  apply bind_Ok_inv in E as ([b1 d1] & E1 & E2). rewrite E1. cbn [mbind res_bind].
  cbn [mbind res_bind] in E2. rewrite E2. cbn [mbind res_bind].
  assert (Z.of_nat (length buf') = (1 + last_ - first) * SectorSize) as Hlb.
  { rewrite Hl'. unfold buf. rewrite fresh_length. unfold SectorSize in *. lia. }
  rewrite buffer_slice_ok by lia. cbn [mbind res_bind]. rewrite <- take_slice.
  assert (length (take (Z.to_nat n') from) = Z.to_nat n') as Hlt by (rewrite length_take; lia).
  rewrite buffer_copy_ok by (rewrite ?Hlt; unfold SectorSize in *; lia). cbn [mbind res_bind].
  match goal with |- context [write_loop d' h first _ ?b] => set (out := b) end.
  assert (length out = length buf') as Hlo by apply length_inserts.
  destruct (write_loop_spec h d' first (Z.to_nat (1 + last_ - first)) out)
    as (d2 & -> & Hd2 & Hraw & Hne); [done | done | lia | lia | unfold SectorSize in *; lia | |].
  { apply Forall_list_inserts; [by apply Forall_take | done]. }
  cbn [mbind res_bind]. exists d2. split_and!; [done | done | |].
  - assert (raw_bytes h d' = raw_bytes h d) as Hrd by (unfold raw_bytes; by rewrite (blocks_same h d d' Hc')).
    rewrite Hrd in Hraw.
    apply (written_bytes h d d2 first n' pos _ buf'); try done; rewrite ?Hlb; unfold SectorSize in *; try lia.
    intros g Hg1 Hg2 Hg3. apply Ha'; [| done | done]. lia.
  - intros s Hs Hnot. rewrite Hne by done. apply Hc'.
Qed.

(** [ReadAt] returns exactly the requested bytes of the file, clipped to its
    length; [WriteAt] replaces exactly those, whatever the alignment of the
    request and the contents of the fresh buffer, so that a later [ReadAt] sees
    the new bytes in place and the old ones elsewhere, and no sector outside the
    file changes. *)
Theorem write_at_read_at f d from n pos n2 pos2 :
  hdr_ok (hdr f) -> store_ok d -> 0 <= pos -> 0 <= pos2 ->
  n <= Z.of_nat (length from) -> Forall is_byte from ->
  exists d1 d2, let m := clip (numBytes (hdr f)) n pos in
    WriteAt fresh f d from n pos = Ok (m, d1) /\
    ReadAt f d1 n2 pos2 =
      Ok (slice (Z.to_nat pos2) (Z.to_nat (clip (numBytes (hdr f)) n2 pos2))
            (list_inserts (Z.to_nat pos) (take (Z.to_nat m) from) (file_bytes (hdr f) d)), d2) /\
    (forall s, sector_in_range s -> s ∉ data_sectors (hdr f) -> contents d2 s = contents d s).
Proof.
  intros Ho Hd Hp Hp2 Hn Hb.
  destruct (WriteAt_spec f d from n pos Ho Hd Hp Hn Hb) as (d1 & E & Hd1 & Hf & Hne).
  destruct (ReadAt_spec f d1 n2 pos2 Ho Hd1 Hp2) as (d2 & E2 & _ & Hc2). rewrite Hf in E2.
  exists d1, d2. cbv zeta. split_and!; [done | done |]. intros s Hs Hnot. rewrite Hc2. auto.
Qed.
End spec.
End OpenFile.

(** ** Instances of the claims, on a new disk *)
Module Demo.
Import FileHeader OpenFile.

(** A header of 200 bytes in sectors 5 and 9. *)
Definition header : FileHeader.t := FileHeader.mk 200 2 ([5; 9] ++ replicate 28 0).

Lemma header_wf : FileHeader.wf header.
Proof.
  unfold FileHeader.wf. split_and!; [by split.. | reflexivity |].
  apply (bool_decide_unpack _). vm_compute. exact I.
Qed.

Lemma header_ok : hdr_ok header.
Proof.
  split; try done.
  - apply Forall_cons. split; [by split |]. apply Forall_cons. split; [by split | constructor].
  - apply (bool_decide_unpack _). vm_compute. exact I.
Qed.

Lemma header_round_trip_witness :
  exists (d d' d'' : SynchDisk.t), FileHeader.WriteBack header d 3 = Ok d' /\
    FileHeader.FetchFrom d' 3 = Ok (header, d'').
Proof.
  destruct (SynchDisk.create_ok Stats.Stats.create ltac:(done)) as (d & _ & Hok).
  destruct (header_round_trip (H := SynchDisk.block_store) d header 3 header_wf Hok ltac:(by split)) as (d' & d'' & H1 & H2 & _).
  exists d, d', d''. exact (conj H1 H2).
Defined.

(** Forty free sectors. *)
Definition map40 : Bitmap.t := Bitmap.mk 40 2 [0; 0].

Lemma map40_wf : slots_wf map40.
Proof.
  split; cbn; try done. apply (bool_decide_unpack _). vm_compute. exact I.
Qed.

Lemma allocate_then_deallocate_witness :
  exists (ks : list nat) h' fm' fm'', FileHeader.Allocate header map40 200 = Ok (true, h', fm') /\
    length ks = 2%nat /\ FileHeader.Deallocate h' fm' = Ok fm'' /\ slots fm'' = slots map40.
Proof.
  destruct (allocate_then_deallocate header map40 200 map40_wf eq_refl) as
    (ks & h' & fm' & fm'' & E & _ & _ & Hl & _ & _ & _ & E2 & Hs).
  - split; discriminate.
  - exists ks, h', fm', fm''. exact (conj E (conj Hl (conj E2 Hs))).
Defined.

Lemma allocate_overruns_header_witness :
  FileHeader.Allocate header map40 4000 = Fault MemoryFault.
Proof.
  apply (allocate_overruns_header header map40 4000 map40_wf eq_refl);
    [reflexivity | vm_compute; discriminate].
Defined.

Lemma write_at_read_at_witness :
  exists (d d1 d2 : SynchDisk.t),
    WriteAt (fun n => replicate n 7) (OpenFile.mk header 0) d [1; 2; 3] 3 126 = Ok (3, d1) /\
    ReadAt (OpenFile.mk header 0) d1 2 127 = Ok ([2; 3], d2).
Proof.
  destruct (SynchDisk.create_ok Stats.Stats.create ltac:(done)) as (d & _ & Hok). exists d.
  destruct (write_at_read_at (H := SynchDisk.block_store) (fun n => replicate n 7) (fun n => length_replicate n 7)
    (fun n => Forall_replicate is_byte n 7 (conj (Zle_bool_imp_le 0 7 eq_refl) eq_refl)) (OpenFile.mk header 0) d [1; 2; 3]
    3 126 2 127 header_ok Hok ltac:(done) ltac:(done) ltac:(done) ltac:(repeat constructor; done))
    as (d1 & d2 & H1 & H2 & _).
  exists d1, d2. split; [exact H1 |]. rewrite H2. do 2 f_equal.
  change (clip (numBytes (hdr (OpenFile.mk header 0))) 2 127) with 2.
  change (clip (numBytes (hdr (OpenFile.mk header 0))) 3 126) with 3.
  apply list_eq. intros j. rewrite lookup_slice.
  rewrite lookup_inserts by (rewrite length_file by (apply header_ok || exact Hok); apply Nat.leb_le; reflexivity).
  destruct j as [|[|j]]; [reflexivity | reflexivity |].
  rewrite decide_False by lia. reflexivity.
Defined.
End Demo.
