(* ===== verification/FileSys.v ===== *)
(** * FileSys: filesys/directory.h, directory.cc, filesys/pbitmap.h, pbitmap.cc,
    filesys/filesys.h, filesys.cc

    The directory, the free map kept in a file, and the file system built on
    them (the classes compiled without [FILESYS_STUB]).  Names are C strings;
    the directory compares and stores at most [FileNameMaxLen] characters. *)

From S2P Require Import Prelude Bitmap Disk Files.

Definition FileNameMaxLen : nat := 9.

(** ** C strings

    The bytes of a string up to its end, and the buffer that holds it. *)
Module CString.

Definition is_name (nm : list Z) : Prop := Forall (fun c => is_byte c /\ c <> 0) nm.
Definition buffer (nm : list Z) : list Z := nm ++ [0].

(** [!strncmp(a, b, n)] *)
Fixpoint strncmp_eq (n : nat) (a b : list Z) : res bool :=
  match n with
  | O => Ok true
  | S n' =>
      x ← deref (head a);
      y ← deref (head b);
      if x =? y then if x =? 0 then Ok true else strncmp_eq n' (tail a) (tail b)
      else Ok false
  end.

(** The [n] bytes [strncpy(dst, src, n)] stores. *)
Fixpoint strncpy (n : nat) (src : list Z) : res (list Z) :=
  match n with
  | O => Ok []
  | S n' =>
      c ← deref (head src);
      if c =? 0 then Ok (replicate n 0)
      else rest ← strncpy n' (tail src); Ok (c :: rest)
  end.

(** The string in a buffer, cut at [n] characters. *)
Fixpoint cstr (n : nat) (b : list Z) : list Z :=
  match n, b with
  | S n', c :: b' => if c =? 0 then [] else c :: cstr n' b'
  | _, _ => []
  end.

Lemma strncmp_spec n a nm :
  (n <= length a)%nat -> is_name nm ->
  strncmp_eq n a (buffer nm) = Ok (bool_decide (cstr n a = take n nm)).
Proof.
  revert a nm. induction n as [|n IH]; intros a nm Ha Hn; [done |].
  destruct a as [|x a]; [simpl in Ha; lia |]. destruct nm as [|y nm].
  - cbn. destruct (Z.eqb_spec x 0) as [->|Hx]; [done |]. by rewrite bool_decide_false.
  - apply Forall_cons in Hn as [[_ Hy] Hn]. cbn.
    destruct (Z.eqb_spec x y) as [->|Hxy].
    + destruct (Z.eqb_spec y 0); [done |]. fold (buffer nm). rewrite IH by (done || (simpl in Ha; lia)).
      f_equal. apply bool_decide_ext. split; [by intros -> | by intros [= ->]].
    + destruct (x =? 0); by rewrite bool_decide_false by congruence.
Qed.

Lemma strncpy_spec n nm :
  is_name nm ->
  strncpy n (buffer nm) = Ok (take n nm ++ replicate (n - length nm) 0).
Proof.
  revert nm. induction n as [|n IH]; intros nm Hn; [done |]. destruct nm as [|y nm]; [done |].
  apply Forall_cons in Hn as [[_ Hy] Hn]. cbn. destruct (Z.eqb_spec y 0); [done |].
  fold (buffer nm). by rewrite IH by done.
Qed.

(** What was copied is what is compared. *)
Lemma cstr_copied n nm rest :
  is_name nm -> cstr n (take n nm ++ replicate (n - length nm) 0 ++ rest) = take n nm.
Proof.
  revert nm. induction n as [|n IH]; intros nm Hn; [done |]. destruct nm as [|y nm]; [done |].
  apply Forall_cons in Hn as [[_ Hy] Hn]. cbn. destruct (Z.eqb_spec y 0); [done |]. by rewrite IH.
Qed.
End CString.

(** ** The directory *)
Module Directory.
Import CString.

(** [class DirectoryEntry]; [pad1] and [pad2] are the bytes the compiler leaves
    between the fields and after them. *)
Record DirectoryEntry := mkEntry {
  inUse : bool;
  pad1 : list Z;
  sector : Z;
  name : list Z;
  pad2 : list Z;
}.

Definition entry_wf (e : DirectoryEntry) : Prop :=
  length (pad1 e) = 3%nat /\ length (name e) = S FileNameMaxLen /\ length (pad2 e) = 2%nat /\
  Forall is_byte (pad1 e) /\ Forall is_byte (name e) /\ Forall is_byte (pad2 e) /\ is_s32 (sector e).

(** [sizeof(DirectoryEntry)], and the entry in memory. *)
Definition EntrySize : nat := 20.
Definition encode (e : DirectoryEntry) : list Z :=
  (if inUse e then 1 else 0) :: pad1 e ++ le_split 4 (sector e) ++ name e ++ pad2 e.
Definition decode (bs : list Z) : DirectoryEntry :=
  mkEntry (negb (hd 0 bs =? 0)) (slice 1 3 bs) (s32 (le_combine (slice 4 4 bs)))
    (slice 8 10 bs) (slice 18 2 bs).

(** [Directory]: the table; [tableSize] is its length. *)
Abbreviation t := (list DirectoryEntry).

(** [Directory::Directory]; [fresh] is what [new DirectoryEntry[size]] holds. *)
Definition create (fresh : t) : t :=
  (fun e => mkEntry false (pad1 e) (sector e) (name e) (pad2 e)) <$> fresh.

Fixpoint find_loop (dir : t) (nm : list Z) (i : Z) : res Z :=
  match dir with
  | [] => Ok (-1)
  | e :: dir' =>
      b ← (if inUse e then strncmp_eq FileNameMaxLen (name e) (buffer nm) else Ok false);
      if b : bool then Ok i else find_loop dir' nm (i + 1)
  end.

Definition FindIndex (dir : t) (nm : list Z) : res Z := find_loop dir nm 0.

Definition Find (dir : t) (nm : list Z) : res Z :=
  i ← FindIndex dir nm;
  if negb (i =? -1) then e ← deref (dir !! Z.to_nat i); Ok (sector e) else Ok (-1).

Fixpoint add_loop (dir : t) (nm : list Z) (newSector : Z) : res (bool * t) :=
  match dir with
  | [] => Ok (false, [])
  | e :: dir' =>
      if negb (inUse e) then
        copied ← strncpy FileNameMaxLen (buffer nm);
        Ok (true, mkEntry true (pad1 e) newSector (list_inserts 0 copied (name e)) (pad2 e) :: dir')
      else
        '(b, dir') ← add_loop dir' nm newSector;
        Ok (b, e :: dir')
  end.

Definition Add (dir : t) (nm : list Z) (newSector : Z) : res (bool * t) :=
  i ← FindIndex dir nm;
  if negb (i =? -1) then Ok (false, dir) else add_loop dir nm newSector.

Definition Remove (dir : t) (nm : list Z) : res (bool * t) :=
  i ← FindIndex dir nm;
  if i =? -1 then Ok (false, dir)
  else
    e ← deref (dir !! Z.to_nat i);
    Ok (true, <[Z.to_nat i := mkEntry false (pad1 e) (sector e) (name e) (pad2 e)]> dir).

(** [List] prints the names in use. *)
Definition List (dir : t) : list (list Z) :=
  name <$> filter (fun e => inUse e = true) dir.

Section file.
Context `{BlockStore D} (fresh : nat -> list Z).

Definition image (dir : t) : list Z := concat (encode <$> dir).

(** The entries in an image of [n] of them. *)
Definition of_image (n : nat) (bs : list Z) : t :=
  (fun i => decode (slice (EntrySize * i) EntrySize bs)) <$> seq 0 n.

(** [FetchFrom]: as many bytes as the file has replace the start of the table. *)
Definition FetchFrom (dir : t) (file : OpenFile.t) (d : D) : res (t * D) :=
  '(bs, d) ← OpenFile.ReadAt file d (Z.of_nat (length dir * EntrySize)) 0;
  Ok (of_image (length dir) (list_inserts 0 bs (image dir)), d).

Definition WriteBack (dir : t) (file : OpenFile.t) (d : D) : res D :=
  '(_, d) ← OpenFile.WriteAt fresh file d (image dir) (Z.of_nat (length dir * EntrySize)) 0;
  Ok d.
End file.

(** *** The directory as a finite map *)

Definition key (nm : list Z) : list Z := take FileNameMaxLen nm.
Definition entry_key (e : DirectoryEntry) : list Z := cstr FileNameMaxLen (name e).

(** The sector of the entry for [k]. *)
Fixpoint lookup_key (dir : t) (k : list Z) : option Z :=
  match dir with
  | [] => None
  | e :: dir' =>
      if inUse e && bool_decide (entry_key e = k) then Some (sector e) else lookup_key dir' k
  end.

Definition used_keys (dir : t) : list (list Z) := entry_key <$> filter (fun e => inUse e = true) dir.

(** Names are stored once, and sectors are valid. *)
Record wf (dir : t) : Prop := {
  wf_entries : Forall entry_wf dir;
  wf_nodup : NoDup (used_keys dir);
  wf_sectors : Forall (fun e => inUse e = true -> 0 <= sector e) dir;
}.

Lemma entry_matches e nm :
  entry_wf e -> is_name nm ->
  strncmp_eq FileNameMaxLen (name e) (buffer nm) = Ok (bool_decide (entry_key e = key nm)).
Proof. intros (_ & Hl & _) Hn. apply strncmp_spec; [| done]. rewrite Hl. unfold FileNameMaxLen. lia. Qed.

Lemma FindIndex_loop_spec dir nm i :
  Forall entry_wf dir -> is_name nm ->
  match list_find (fun e => inUse e = true /\ entry_key e = key nm) dir with
  | Some (j, e) => find_loop dir nm i = Ok (i + Z.of_nat j) /\ lookup_key dir (key nm) = Some (sector e)
  | None => find_loop dir nm i = Ok (-1) /\ lookup_key dir (key nm) = None
  end.
Proof.
  intros Hwf Hn. revert i. induction Hwf as [|e dir He Hwf IH]; intros i; [done |].
  cbn [find_loop lookup_key list_find].
  destruct (inUse e) eqn:Hu; cbn [mbind res_bind andb].
  - rewrite entry_matches by done. cbn [mbind res_bind].
    destruct (bool_decide_reflect (entry_key e = key nm)) as [Hk|Hk].
    + rewrite decide_True by done. split; [f_equal; lia | done].
    + rewrite decide_False by naive_solver. specialize (IH (i + 1)).
      destruct (list_find _ dir) as [[j e']|]; simpl; [| done].
      destruct IH as [-> ->]. split; [f_equal; lia | done].
  - rewrite decide_False by naive_solver. specialize (IH (i + 1)).
    destruct (list_find _ dir) as [[j e']|]; simpl; [| done].
    destruct IH as [-> ->]. split; [f_equal; lia | done].
Qed.

Lemma lookup_key_app dir1 dir2 k :
  lookup_key (dir1 ++ dir2) k =
  match lookup_key dir1 k with Some s => Some s | None => lookup_key dir2 k end.
Proof. induction dir1 as [|e dir1 IH]; simpl; [done |]. by destruct (_ && _). Qed.

Lemma lookup_key_None dir k : lookup_key dir k = None <-> k ∉ used_keys dir.
Proof.
  unfold used_keys. induction dir as [|e dir IH]; [split; [by intros _ ?%not_elem_of_nil | done] |].
  cbn [lookup_key]. destruct (inUse e) eqn:Hu; cbn [andb].
  - rewrite filter_cons_True by done. rewrite fmap_cons, not_elem_of_cons.
    destruct (bool_decide_reflect (entry_key e = k)) as [<-|Hne].
    + split; [done | by intros [? _]].
    + rewrite IH. split; [intros ?; split; [congruence | done] | by intros [_ ?]].
  - rewrite filter_cons_False by congruence. done.
Qed.

Lemma Find_spec dir nm :
  wf dir -> is_name nm -> Find dir nm = Ok (default (-1) (lookup_key dir (key nm))).
Proof.
  intros Hwf Hn. unfold Find, FindIndex.
  pose proof (FindIndex_loop_spec dir nm 0 (wf_entries _ Hwf) Hn) as H.
  destruct (list_find _ dir) as [[j e]|] eqn:Hf; destruct H as [-> ->]; [| done].
  apply list_find_Some in Hf as (Hj & _). cbn [mbind res_bind].
  destruct (Z.eqb_spec (0 + Z.of_nat j) (-1)); [lia |]. cbn [negb].
  replace (Z.to_nat (0 + Z.of_nat j)) with j by lia. by rewrite Hj.
Qed.

(** The entry [Add] makes of a free one. *)
Lemma added_entry e nm s :
  entry_wf e -> is_name nm -> is_s32 s ->
  exists copied, strncpy FileNameMaxLen (buffer nm) = Ok copied /\
    let e' := mkEntry true (pad1 e) s (list_inserts 0 copied (name e)) (pad2 e) in
    entry_wf e' /\ entry_key e' = key nm.
Proof.
  intros (H1 & H2 & H3 & H4 & H5 & H6 & H7) Hn Hs. eexists. split; [by apply strncpy_spec |].
  set (copied := take FileNameMaxLen nm ++ replicate (FileNameMaxLen - length nm) 0).
  assert (length copied = FileNameMaxLen) as Hlc.
  { unfold copied. rewrite length_app, length_take, length_replicate. lia. }
  assert (list_inserts 0 copied (name e) = copied ++ drop FileNameMaxLen (name e)) as Hins.
  { apply list_eq. intros j. rewrite lookup_inserts by (rewrite H2, Hlc; unfold FileNameMaxLen; lia).
    case_decide.
    - rewrite lookup_app_l by lia. f_equal. lia.
    - rewrite lookup_app_r by lia. rewrite lookup_drop. f_equal. lia. }
  cbv zeta. unfold entry_wf, entry_key. cbn [pad1 pad2 name sector]. split.
  - split_and!; try done; [by rewrite length_inserts |]. apply Forall_list_inserts; [| done].
    apply Forall_app. split; [| by apply Forall_replicate]. apply Forall_take.
    eapply Forall_impl; [exact Hn |]. by intros c [? _].
  - rewrite Hins. unfold copied. rewrite <- app_assoc. by apply cstr_copied.
Qed.

Lemma add_loop_spec dir nm s :
  Forall entry_wf dir -> is_name nm -> is_s32 s -> lookup_key dir (key nm) = None ->
  (Forall (fun e => inUse e = true) dir /\ add_loop dir nm s = Ok (false, dir)) \/
  exists dir', add_loop dir nm s = Ok (true, dir') /\ Forall entry_wf dir' /\
    length dir' = length dir /\ used_keys dir' ≡ₚ key nm :: used_keys dir /\
    (forall k, lookup_key dir' k = if decide (k = key nm) then Some s else lookup_key dir k) /\
    (forall e', e' ∈ dir' -> inUse e' = true -> sector e' = s \/ e' ∈ dir) /\
    ~ Forall (fun e => inUse e = true) dir.
Proof.
  intros Hwf Hn Hs. induction Hwf as [|e dir He Hwf IH]; intros Hk; [left; by split; [constructor |] |].
  cbn [add_loop lookup_key] in *. destruct (inUse e) eqn:Hu; cbn [negb andb] in *.
  - destruct (bool_decide_reflect (entry_key e = key nm)) as [|Hek]; [done |].
    destruct (IH Hk) as [[Hall ->] | (dir' & -> & Hw' & Hl' & Hp' & Hlk & Hsec & Hfree)]; cbn [mbind res_bind].
    + left. split; [by constructor | done].
    + right. exists (e :: dir'). split_and!; [done | by constructor | simpl; lia | | | | by intros [_ ?]%Forall_cons].
      * unfold used_keys in *. rewrite !filter_cons_True by done. rewrite !fmap_cons, Hp'. constructor.
      * intros k. cbn [lookup_key]. rewrite Hu. cbn [andb].
        destruct (bool_decide_reflect (entry_key e = k)) as [<-|]; [by rewrite decide_False | apply Hlk].
      * intros e' Hin Hu'. apply elem_of_cons in Hin as [->|Hin]; [right; by left |].
        destruct (Hsec e' Hin Hu'); [by left | right; by right].
  - right. destruct (added_entry e nm s He Hn Hs) as (copied & -> & Hw' & Hk'). cbn [mbind res_bind].
    eexists. split; [done |]. cbv zeta in Hw', Hk'. set (e' := mkEntry true _ _ _ _) in *.
    split_and!; [by constructor | done | | | | intros [? _]%Forall_cons; congruence].
    + unfold used_keys. rewrite filter_cons_True, filter_cons_False by (done || congruence).
      by rewrite fmap_cons, Hk'.
    + intros k. cbn [lookup_key]. rewrite Hk'. cbn [inUse e' andb].
      destruct (bool_decide_reflect (key nm = k)) as [<-|]; [by rewrite decide_True |].
      by rewrite decide_False by congruence.
    + intros e'' Hin Hu''. apply elem_of_cons in Hin as [->|Hin]; [by left | right; by right].
Qed.

Lemma lookup_key_sector dir k s : wf dir -> lookup_key dir k = Some s -> 0 <= s.
Proof.
  intros Hwf. pose proof (wf_sectors _ Hwf) as Hs. clear Hwf.
  induction Hs as [|e dir He Hs IH]; [done |]. cbn [lookup_key].
  destruct (inUse e); cbn [andb]; [| done]. case_bool_decide; [| done]. intros [= <-]. auto.
Qed.

(** A used entry, unmarked. *)
Definition unmark (e : DirectoryEntry) : DirectoryEntry :=
  mkEntry false (pad1 e) (sector e) (name e) (pad2 e).

Lemma Remove_spec dir nm :
  wf dir -> is_name nm ->
  match lookup_key dir (key nm) with
  | None => Remove dir nm = Ok (false, dir)
  | Some _ => exists dir', Remove dir nm = Ok (true, dir') /\ wf dir' /\ length dir' = length dir /\
      forall k, lookup_key dir' k = if decide (k = key nm) then None else lookup_key dir k
  end.
Proof.
  intros Hwf Hn. unfold Remove, FindIndex.
  pose proof (FindIndex_loop_spec dir nm 0 (wf_entries _ Hwf) Hn) as H.
  destruct (list_find _ dir) as [[j e]|] eqn:Hf; destruct H as [-> ->]; [| done].
  apply list_find_Some in Hf as (Hj & [Hu Hk] & _). cbn [mbind res_bind].
  destruct (Z.eqb_spec (0 + Z.of_nat j) (-1)); [lia |].
  replace (Z.to_nat (0 + Z.of_nat j)) with j by lia. rewrite Hj. cbn [mbind res_bind deref].
  fold (unmark e). eexists. split; [done |].
  apply list_elem_of_split_length in Hj as (l1 & l2 & -> & ->).
  rewrite insert_app_r_alt by done. rewrite Nat.sub_diag. cbn [insert list_insert].
  destruct Hwf as [Hw1 Hw2 Hw3]. apply Forall_app in Hw1 as [Hw1 Hw1'].
  apply Forall_cons in Hw1' as [Hwe Hw1']. apply Forall_app in Hw3 as [Hw3 Hw3'].
  apply Forall_cons in Hw3' as [_ Hw3'].
  assert (used_keys (l1 ++ e :: l2) ≡ₚ key nm :: used_keys (l1 ++ l2)) as Hp.
  { unfold used_keys. rewrite !filter_app, filter_cons_True by done.
    rewrite !fmap_app, fmap_cons, Hk. by rewrite <- Permutation_middle. }
  assert (used_keys (l1 ++ unmark e :: l2) = used_keys (l1 ++ l2)) as He.
  { unfold used_keys. by rewrite !filter_app, filter_cons_False. }
  rewrite Hp in Hw2. apply NoDup_cons in Hw2 as [Hnot Hnd].
  split_and!.
  - split; [| by rewrite He |].
    + apply Forall_app. split; [done |]. by constructor.
    + apply Forall_app. split; [done |]. by constructor.
  - by rewrite !length_app.
  - intros k. apply lookup_key_None in Hnot. rewrite !lookup_key_app in *. cbn [lookup_key].
    change (inUse (unmark e)) with false. cbn [andb]. rewrite Hu. cbn [andb].
    destruct (decide (k = key nm)) as [->|Hne].
    + by destruct (lookup_key l1 (key nm)).
    + rewrite (bool_decide_false (entry_key e = k)) by congruence. done.
Qed.

Lemma Add_spec dir nm s :
  wf dir -> is_name nm -> is_s32 s -> 0 <= s ->
  match lookup_key dir (key nm) with
  | Some _ => Add dir nm s = Ok (false, dir)
  | None =>
      Forall (fun e => inUse e = true) dir /\ Add dir nm s = Ok (false, dir) \/
      exists dir', Add dir nm s = Ok (true, dir') /\ wf dir' /\ length dir' = length dir /\
        ~ Forall (fun e => inUse e = true) dir /\
        forall k, lookup_key dir' k = if decide (k = key nm) then Some s else lookup_key dir k
  end.
Proof.
  intros Hwf Hn Hs Hpos.
  unfold Add, FindIndex. pose proof (FindIndex_loop_spec dir nm 0 (wf_entries _ Hwf) Hn) as H.
  destruct (list_find _ dir) as [[j e]|] eqn:Hf; destruct H as [-> Hlk]; rewrite Hlk;
    cbn [mbind res_bind].
  - by destruct (Z.eqb_spec (0 + Z.of_nat j) (-1)); [lia |].
  - cbn. destruct (add_loop_spec dir nm s (wf_entries _ Hwf) Hn Hs Hlk)
      as [?|(dir' & E & Hw' & Hl & Hp & Hk & Hsec & Hfree)]; [by left | right].
    exists dir'. split_and!; [done | | done | done | done]. split; [done | |].
    + rewrite Hp. constructor; [| apply (wf_nodup _ Hwf)]. by apply lookup_key_None.
    + apply Forall_forall. intros e' Hin Hu'. destruct (Hsec e' Hin Hu') as [->|Hold]; [done |].
      pose proof (wf_sectors _ Hwf) as Hws. rewrite Forall_forall in Hws. auto.
Qed.

(** With names cut at nine characters, the directory is a finite map from
    names to header sectors: [Find] looks up, [Add] inserts a new name (and
    refuses a present one, or a full table, without changing anything), [Remove]
    deletes, and all three keep the names unique. *)
Theorem directory_is_map dir nm s :
  wf dir -> is_name nm -> is_s32 s -> 0 <= s ->
  Find dir nm = Ok (default (-1) (lookup_key dir (key nm))) /\
  (match lookup_key dir (key nm) with
   | Some _ => Add dir nm s = Ok (false, dir)
   | None =>
       Forall (fun e => inUse e = true) dir /\ Add dir nm s = Ok (false, dir) \/
       exists dir', Add dir nm s = Ok (true, dir') /\ wf dir' /\ length dir' = length dir /\
         forall k, lookup_key dir' k = if decide (k = key nm) then Some s else lookup_key dir k
   end) /\
  match lookup_key dir (key nm) with
  | None => Remove dir nm = Ok (false, dir)
  | Some _ => exists dir', Remove dir nm = Ok (true, dir') /\ wf dir' /\ length dir' = length dir /\
      forall k, lookup_key dir' k = if decide (k = key nm) then None else lookup_key dir k
  end.
Proof.
  intros Hwf Hn Hs Hpos. pose proof (Add_spec dir nm s Hwf Hn Hs Hpos) as Ha.
  split_and!; [by apply Find_spec | | by apply Remove_spec].
  destruct (lookup_key dir (key nm)); [done |].
  destruct Ha as [?|(dir' & ? & ? & ? & _ & ?)]; [by left | right; by exists dir'].
Qed.

(** *** The directory on disk *)

Lemma length_encode e : entry_wf e -> length (encode e) = EntrySize.
Proof.
  intros (H1 & H2 & H3 & _). unfold encode. cbn [length].
  rewrite !length_app, length_le_split, H1, H2, H3. reflexivity.
Qed.

Lemma slice_app_at {A} (a b c : list A) : slice (length a) (length b) (a ++ b ++ c) = b.
Proof. unfold slice. rewrite drop_app_length. apply take_app_length. Qed.

Lemma entry_decode_encode e : entry_wf e -> decode (encode e) = e.
Proof.
  intros (H1 & H2 & H3 & H4 & H5 & H6 & H7). destruct e as [u p1 sec nm p2].
  cbn [pad1 pad2 name sector] in *. unfold decode, encode. cbn [pad1 pad2 name sector inUse].
  set (b := if u then 1 else 0). pose proof (length_le_split 4 sec) as Hs.
  assert (slice 1 3 (b :: p1 ++ le_split 4 sec ++ nm ++ p2) = p1) as ->.
  { change (b :: ?l) with ([b] ++ l). rewrite <- H1. apply (slice_app_at [b] p1). }
  assert (slice 4 4 (b :: p1 ++ le_split 4 sec ++ nm ++ p2) = le_split 4 sec) as ->.
  { change (b :: p1 ++ ?l) with ((b :: p1) ++ l).
    pose proof (slice_app_at (b :: p1) (le_split 4 sec) (nm ++ p2)) as E.
    simpl length in E. by rewrite H1 in E. }
  assert (slice 8 10 (b :: p1 ++ le_split 4 sec ++ nm ++ p2) = nm) as ->.
  { pose proof (slice_app_at (b :: p1 ++ le_split 4 sec) nm p2) as E.
    rewrite H2 in E. cbn [length] in E. rewrite length_app, H1, Hs in E.
    rewrite <- app_comm_cons, <- app_assoc in E. exact E. }
  assert (slice 18 2 (b :: p1 ++ le_split 4 sec ++ nm ++ p2) = p2) as ->.
  { pose proof (slice_app_at (b :: p1 ++ le_split 4 sec ++ nm) p2 []) as E.
    rewrite H3 in E. cbn [length] in E. rewrite !length_app, H1, H2, Hs, app_nil_r in E.
    rewrite <- app_comm_cons, <- !app_assoc in E. exact E. }
  f_equal; [by destruct u |]. rewrite le_combine_split. change (256 ^ Z.of_nat 4) with (2 ^ 32).
  fold (u32 sec). rewrite s32_u32. by apply s32_id.
Qed.

Lemma entry_decode_wf bs : length bs = EntrySize -> Forall is_byte bs -> entry_wf (decode bs).
Proof.
  intros Hl Hb. unfold entry_wf, decode, EntrySize in *. cbn [pad1 pad2 name sector].
  split_and!; try (by apply Forall_slice); try (rewrite length_slice; [done | lia]). apply s32_range.
Qed.

Lemma sized_encodes dir :
  Forall entry_wf dir -> Forall (fun b => length b = EntrySize) (encode <$> dir).
Proof. intros Hwf. apply Forall_fmap. eapply Forall_impl; [exact Hwf |]. apply length_encode. Qed.

Lemma length_dir_image dir : Forall entry_wf dir -> length (image dir) = (EntrySize * length dir)%nat.
Proof.
  intros Hwf. unfold image. rewrite (length_concat_blocks EntrySize) by by apply sized_encodes.
  by rewrite length_fmap.
Qed.

Lemma bytes_dir_image dir : Forall entry_wf dir -> Forall is_byte (image dir).
Proof.
  intros Hwf. apply Forall_concat, Forall_fmap. eapply Forall_impl; [exact Hwf |].
  intros e (_ & _ & _ & H4 & H5 & H6 & _). unfold encode. constructor; [by destruct (inUse e) |].
  apply Forall_app. split; [done |]. apply Forall_app. split; [apply le_split_bytes |].
  by apply Forall_app.
Qed.

(** Only the bytes of the table matter. *)
Lemma of_image_ext n a b :
  slice 0 (EntrySize * n) a = slice 0 (EntrySize * n) b -> of_image n a = of_image n b.
Proof.
  intros Heq. unfold of_image. apply list_fmap_ext. intros i x Hi.
  apply lookup_seq in Hi as [-> Hi]. f_equal.
  rewrite Nat.add_0_l. transitivity (slice (EntrySize * i) EntrySize (slice 0 (EntrySize * n) a)).
  - symmetry. apply (slice_slice 0). unfold EntrySize. lia.
  - rewrite Heq. apply (slice_slice 0). unfold EntrySize. lia.
Qed.

Lemma of_image_image dir : Forall entry_wf dir -> of_image (length dir) (image dir) = dir.
Proof.
  intros Hwf. apply list_eq. intros i. unfold of_image. rewrite list_lookup_fmap.
  destruct (dir !! i) as [e|] eqn:He.
  - pose proof (lookup_lt_Some _ _ _ He). rewrite lookup_seq_lt by done. simpl. f_equal.
    unfold image. rewrite (slice_concat EntrySize _ i (encode e)).
    + apply entry_decode_encode. exact (Forall_lookup_1 _ _ _ _ Hwf He).
    + by apply sized_encodes.
    + by rewrite list_lookup_fmap, He.
  - apply lookup_ge_None in He. by rewrite lookup_seq_ge.
Qed.

Lemma length_of_image n bs : length (of_image n bs) = n.
Proof. unfold of_image. by rewrite length_fmap, length_seq. Qed.

Lemma of_image_wf n bs :
  (EntrySize * n <= length bs)%nat -> Forall is_byte bs -> Forall entry_wf (of_image n bs).
Proof.
  intros Hl Hb. unfold of_image. apply Forall_fmap, Forall_forall. intros i Hi.
  apply elem_of_seq in Hi. apply entry_decode_wf; [| by apply Forall_slice].
  apply length_slice. unfold EntrySize in *. lia.
Qed.

Section stored.
Context `{BlockStoreLaws D} (fresh : nat -> list Z).
Hypothesis fresh_length : forall n, length (fresh n) = n.
Hypothesis fresh_bytes : forall n, Forall is_byte (fresh n).
#[local] Set Default Proof Using "Type*".

(** The directory of [n] entries that a file holds. *)
Definition stored (n : nat) (file : OpenFile.t) (d : D) : t :=
  of_image n (OpenFile.file_bytes (OpenFile.hdr file) d).

Definition file_fits (n : nat) (file : OpenFile.t) : Prop :=
  OpenFile.hdr_ok (OpenFile.hdr file) /\
  Z.of_nat (EntrySize * n) <= FileHeader.numBytes (OpenFile.hdr file).

Lemma FetchFrom_spec dir file d :
  store_ok d -> Forall entry_wf dir -> file_fits (length dir) file ->
  exists d', FetchFrom dir file d = Ok (stored (length dir) file d, d') /\ store_ok d' /\
    forall s, contents d' s = contents d s.
Proof.
  intros Hd Hwf [Ho Hsz]. unfold FetchFrom. replace (length dir * EntrySize)%nat with (EntrySize * length dir)%nat by lia.
  destruct (OpenFile.ReadAt_spec file d (Z.of_nat (EntrySize * length dir)) 0 Ho Hd ltac:(lia))
    as (d' & -> & Hd' & Hc). cbn [mbind res_bind]. exists d'. split_and!; [| done | done].
  do 2 f_equal. unfold stored. set (bytes := OpenFile.file_bytes _ d).
  assert (length bytes = Z.to_nat (FileHeader.numBytes (OpenFile.hdr file))) as Hlb
    by by apply OpenFile.length_file.
  destruct dir as [|e dir]; [done |]. set (es := e :: dir) in *.
  assert (OpenFile.clip (FileHeader.numBytes (OpenFile.hdr file)) (Z.of_nat (EntrySize * length es)) 0
    = Z.of_nat (EntrySize * length es)) as ->
    by (apply OpenFile.clip_whole; unfold EntrySize, es in *; cbn [length] in *; lia).
  rewrite Nat2Z.id. apply of_image_ext. change (Z.to_nat 0) with 0%nat.
  pose proof (length_dir_image es Hwf) as Hli.
  assert (length (slice 0 (EntrySize * length es) bytes) = EntrySize * length es)%nat as Hls
    by (apply length_slice; lia).
  rewrite <- Hls at 1. rewrite slice_inserts_eq by lia. done.
Qed.

Lemma dir_WriteBack_spec dir file d :
  store_ok d -> Forall entry_wf dir -> file_fits (length dir) file ->
  exists d', WriteBack fresh dir file d = Ok d' /\ store_ok d' /\
    stored (length dir) file d' = dir /\
    forall s, sector_in_range s -> s ∉ OpenFile.data_sectors (OpenFile.hdr file) ->
      contents d' s = contents d s.
Proof.
  intros Hd Hwf [Ho Hsz]. unfold WriteBack. replace (length dir * EntrySize)%nat with (EntrySize * length dir)%nat by lia.
  pose proof (length_dir_image dir Hwf) as Hli.
  destruct (OpenFile.WriteAt_spec fresh fresh_length fresh_bytes file d (image dir)
    (Z.of_nat (EntrySize * length dir)) 0 Ho Hd) as (d' & -> & Hd' & Hf & Hne);
    [lia | lia | by apply bytes_dir_image |].
  cbn [mbind res_bind]. exists d'. split_and!; [done | done | | done].
  rewrite <- (of_image_image dir Hwf) at 2. unfold stored. apply of_image_ext. rewrite Hf.
  destruct dir as [|e dir]; [done |]. set (es := e :: dir) in *.
  assert (OpenFile.clip (FileHeader.numBytes (OpenFile.hdr file)) (Z.of_nat (EntrySize * length es)) 0
    = Z.of_nat (EntrySize * length es)) as ->
    by (apply OpenFile.clip_whole; unfold EntrySize, es in *; cbn [length] in *; lia).
  rewrite Nat2Z.id, take_ge by lia. change (Z.to_nat 0) with 0%nat.
  rewrite <- Hli. rewrite slice_inserts_eq.
  - rewrite <- take_slice. by rewrite take_ge.
  - rewrite OpenFile.length_file by done. lia.
Qed.
End stored.
End Directory.

(** ** The free map in a file *)
Module PersistentBitmap.
Import Bitmap.

(** The words of the map in memory, and back. *)
Definition image (ws : list Z) : list Z := concat (le_split 4 <$> ws).
Definition words_of (n : nat) (bs : list Z) : list Z :=
  (fun i => le_combine (slice (4 * i) 4 bs)) <$> seq 0 n.

Section file.
Context `{BlockStore D} (fresh : nat -> list Z).

(** [PersistentBitmap::FetchFrom] and the body of the constructor from a file. *)
Definition FetchFrom (bm : Bitmap.t) (file : OpenFile.t) (d : D) : res (Bitmap.t * D) :=
  '(bs, d) ← OpenFile.ReadAt file d (numWords bm * 4) 0;
  Ok (Bitmap.mk (numBits bm) (numWords bm)
        (words_of (length (map bm)) (list_inserts 0 bs (image (map bm)))), d).

Definition create_from (file : OpenFile.t) (numItems : Z) (d : D) : res (Bitmap.t * D) :=
  bm ← Bitmap.create numItems; FetchFrom bm file d.

Definition WriteBack (bm : Bitmap.t) (file : OpenFile.t) (d : D) : res D :=
  '(_, d) ← OpenFile.WriteAt fresh file d (image (map bm)) (numWords bm * 4) 0;
  Ok d.
End file.

Lemma sized_words (ws : list Z) : Forall (fun b => length b = 4%nat) (le_split 4 <$> ws).
Proof. apply FileHeader.sized_ints. Qed.

Lemma length_map_image ws : length (image ws) = (4 * length ws)%nat.
Proof. unfold image. rewrite (length_concat_blocks 4) by apply sized_words. by rewrite length_fmap. Qed.

Lemma bytes_map_image ws : Forall is_byte (image ws).
Proof. apply Forall_concat, Forall_fmap, Forall_true. intros w. apply le_split_bytes. Qed.

Lemma words_of_ext n a b : slice 0 (4 * n) a = slice 0 (4 * n) b -> words_of n a = words_of n b.
Proof.
  intros Heq. unfold words_of. apply list_fmap_ext. intros i x Hi.
  apply lookup_seq in Hi as [-> Hi]. f_equal. rewrite Nat.add_0_l.
  transitivity (slice (4 * i) 4 (slice 0 (4 * n) a)).
  - symmetry. apply (slice_slice 0). lia.
  - rewrite Heq. apply (slice_slice 0). lia.
Qed.

Lemma words_of_image ws : Forall is_u32 ws -> words_of (length ws) (image ws) = ws.
Proof.
  intros Hws. apply list_eq. intros i. unfold words_of. rewrite list_lookup_fmap.
  destruct (ws !! i) as [w|] eqn:Hw.
  - pose proof (lookup_lt_Some _ _ _ Hw). rewrite lookup_seq_lt by done. simpl. f_equal.
    unfold image. rewrite (slice_concat 4 _ i (le_split 4 w));
      [| apply sized_words | by rewrite list_lookup_fmap, Hw].
    rewrite le_combine_split. apply u32_id. exact (Forall_lookup_1 _ _ _ _ Hws Hw).
  - apply lookup_ge_None in Hw. by rewrite lookup_seq_ge.
Qed.

Lemma words_of_u32 n bs : Forall is_byte bs -> Forall is_u32 (words_of n bs).
Proof.
  intros Hb. apply Forall_fmap, Forall_true. intros i. unfold compose.
  pose proof (le_combine_range (slice (4 * i) 4 bs) (Forall_slice _ _ _ _ Hb)) as Hr.
  assert (256 ^ Z.of_nat (length (slice (4 * i) 4 bs)) <= 256 ^ 4)
    by (apply Z.pow_le_mono_r; [lia |]; unfold slice; rewrite length_take; lia).
  unfold is_u32. lia.
Qed.

(** The map of [n] words that a file holds. *)
Section stored.
Context `{BlockStoreLaws D} (fresh : nat -> list Z).
Hypothesis fresh_length : forall n, length (fresh n) = n.
Hypothesis fresh_bytes : forall n, Forall is_byte (fresh n).
#[local] Set Default Proof Using "Type*".

Definition stored (bits_ : Z) (file : OpenFile.t) (d : D) : Bitmap.t :=
  let nw := divRoundUp bits_ BitsInWord in
  Bitmap.mk bits_ nw (words_of (Z.to_nat nw) (OpenFile.file_bytes (OpenFile.hdr file) d)).

Definition file_fits (bits_ : Z) (file : OpenFile.t) : Prop :=
  OpenFile.hdr_ok (OpenFile.hdr file) /\
  4 * divRoundUp bits_ BitsInWord <= FileHeader.numBytes (OpenFile.hdr file).

Lemma words_pos n : 0 < n -> 0 < divRoundUp n BitsInWord.
Proof.
  intros Hn. pose proof (divRoundUp_spec n BitsInWord ltac:(lia) ltac:(done)). unfold BitsInWord, BitsInByte in *. lia.
Qed.

Lemma stored_wf n file d : 0 < n -> store_ok d -> file_fits n file -> Bitmap.wf (stored n file d).
Proof.
  intros Hn Hd [Ho _]. pose proof (words_pos n Hn). unfold stored.
  split; cbn [numBits numWords map]; [done | done | |].
  - unfold words_of. rewrite length_fmap, length_seq. lia.
  - apply words_of_u32. by apply OpenFile.bytes_file.
Qed.

Lemma create_from_spec n file d :
  0 < n -> store_ok d -> file_fits n file ->
  exists d', create_from file n d = Ok (stored n file d, d') /\ store_ok d' /\
    forall s, contents d' s = contents d s.
Proof.
  intros Hn Hd [Ho Hsz]. unfold create_from.
  destruct (Bitmap.create_spec n Hn) as (bm & -> & Hwf & Hbits & _). cbn [mbind res_bind].
  unfold FetchFrom. pose proof (words_pos n Hn) as Hp.
  assert (numWords bm = divRoundUp n BitsInWord) as Hw by (by rewrite (Bitmap.wf_words _ Hwf), Hbits).
  assert (length (map bm) = Z.to_nat (numWords bm)) as Hlm
    by (pose proof (Bitmap.wf_len _ Hwf); lia).
  destruct (OpenFile.ReadAt_spec file d (numWords bm * 4) 0 Ho Hd ltac:(lia)) as (d' & -> & Hd' & Hc).
  cbn [mbind res_bind]. exists d'. split_and!; [| done | done]. unfold stored.
  rewrite OpenFile.clip_whole by lia. rewrite Hbits, Hw. do 3 f_equal.
  rewrite Hlm, Hw. apply words_of_ext. change (Z.to_nat 0) with 0%nat.
  set (bytes := OpenFile.file_bytes _ d).
  assert (length bytes = Z.to_nat (FileHeader.numBytes (OpenFile.hdr file))) as Hlb
    by by apply OpenFile.length_file.
  replace (Z.to_nat (divRoundUp n BitsInWord * 4)) with (4 * Z.to_nat (divRoundUp n BitsInWord))%nat by lia.
  assert (length (slice 0 (4 * Z.to_nat (divRoundUp n BitsInWord)) bytes)
    = 4 * Z.to_nat (divRoundUp n BitsInWord))%nat as Hls by (apply length_slice; lia).
  rewrite <- Hls at 1. apply slice_inserts_eq. rewrite length_map_image, Hlm, Hw. lia.
Qed.

Lemma map_WriteBack_spec bm file d :
  store_ok d -> Bitmap.wf bm -> file_fits (numBits bm) file ->
  exists d', WriteBack fresh bm file d = Ok d' /\ store_ok d' /\
    stored (numBits bm) file d' = bm /\
    forall s, sector_in_range s -> s ∉ OpenFile.data_sectors (OpenFile.hdr file) ->
      contents d' s = contents d s.
Proof.
  intros Hd Hwf [Ho Hsz]. pose proof Hwf as [Hp Hw Hl Hu]. pose proof (words_pos _ Hp) as Hwp.
  unfold WriteBack. pose proof (length_map_image (map bm)) as Hli.
  destruct (OpenFile.WriteAt_spec fresh fresh_length fresh_bytes file d (image (map bm))
    (numWords bm * 4) 0 Ho Hd) as (d' & -> & Hd' & Hf & Hne); [lia | lia | apply bytes_map_image |].
  cbn [mbind res_bind]. exists d'. split_and!; [done | done | | done].
  rewrite OpenFile.clip_whole in Hf by lia.
  rewrite take_ge in Hf by lia. unfold stored. rewrite Hf, <- Hw. destruct bm as [nb nw ws].
  cbn [numBits numWords map] in *. f_equal.
  transitivity (words_of (length ws) (image ws)); [| by apply words_of_image].
  replace (Z.to_nat nw) with (length ws) by lia. apply words_of_ext. change (Z.to_nat 0) with 0%nat.
  rewrite <- Hli. rewrite slice_inserts_eq.
  - rewrite <- take_slice. by rewrite take_ge.
  - rewrite OpenFile.length_file by done. lia.
Qed.
End stored.
End PersistentBitmap.

(** ** The file system *)
Module FileSystem.

Definition FreeMapSector : Z := 0.
Definition DirectorySector : Z := 1.
Definition FreeMapFileSize : Z := NumSectors / Bitmap.BitsInByte.
Definition NumDirEntries : nat := 10.
Definition DirectoryFileSize : Z := Z.of_nat (Directory.EntrySize * NumDirEntries).

(** The two files the file system keeps open. *)
Record t := mk {
  freeMapFile : OpenFile.t;
  directoryFile : OpenFile.t;
}.

Section ops.
Context `{BlockStore D}.
(** What [new] hands out: bytes, directory entries, a file header. *)
Context (fresh : nat -> list Z) (fresh_dir : list Directory.DirectoryEntry)
  (fresh_hdr : FileHeader.t).

Definition fetch_directory (fs : t) (d : D) : res (list Directory.DirectoryEntry * D) :=
  Directory.FetchFrom (Directory.create fresh_dir) (directoryFile fs) d.

(** [FileSystem::Create] *)
Definition Create (fs : t) (d : D) (nm : list Z) (initialSize : Z) : res (bool * D) :=
  '(directory, d) ← fetch_directory fs d;
  found ← Directory.Find directory nm;
  if negb (found =? -1) then Ok (false, d)
  else
    '(freeMap, d) ← PersistentBitmap.create_from (freeMapFile fs) NumSectors d;
    '(sector, freeMap) ← Bitmap.FindAndSet freeMap;
    if sector =? -1 then Ok (false, d)
    else
      '(added, directory) ← Directory.Add directory nm sector;
      if negb added then Ok (false, d)
      else
        '(success, hdr, freeMap) ← FileHeader.Allocate fresh_hdr freeMap initialSize;
        if negb success then Ok (false, d)
        else
          d ← FileHeader.WriteBack hdr d sector;
          d ← Directory.WriteBack fresh directory (directoryFile fs) d;
          d ← PersistentBitmap.WriteBack fresh freeMap (freeMapFile fs) d;
          Ok (true, d).

(** [FileSystem::Open(name)], filesys.h *)
Definition Open (fs : t) (d : D) (nm : list Z) : res (option OpenFile.t * D) :=
  '(directory, d) ← fetch_directory fs d;
  sector ← Directory.Find directory nm;
  if 0 <=? sector then '(f, d) ← OpenFile.create d sector; Ok (Some f, d)
  else Ok (None, d).

(** [FileSystem::Remove] *)
Definition Remove (fs : t) (d : D) (nm : list Z) : res (bool * D) :=
  '(directory, d) ← fetch_directory fs d;
  sector ← Directory.Find directory nm;
  if sector =? -1 then Ok (false, d)
  else
    '(fileHdr, d) ← FileHeader.FetchFrom d sector;
    '(freeMap, d) ← PersistentBitmap.create_from (freeMapFile fs) NumSectors d;
    freeMap ← FileHeader.Deallocate fileHdr freeMap;
    freeMap ← Bitmap.Clear freeMap sector;
    '(_, directory) ← Directory.Remove directory nm;
    d ← PersistentBitmap.WriteBack fresh freeMap (freeMapFile fs) d;
    d ← Directory.WriteBack fresh directory (directoryFile fs) d;
    Ok (true, d).

(** [FileSystem::List] *)
Definition List (fs : t) (d : D) : res (list (list Z) * D) :=
  '(directory, d) ← fetch_directory fs d;
  Ok (Directory.List directory, d).
End ops.

(** The free map after [Create] took slot [k] and then the slots [ks]. *)
Lemma map_after_create (l : list bool) k ks (bm1 bm2 : Bitmap.t) s :
  l !! k = Some false -> slots bm1 = <[k := true]> l -> SlotOps.clear_slots bm1 ks ->
  slots bm2 = SlotOps.set_slots true ks (slots bm1) ->
  slots bm2 !! s = Some true <-> l !! s = Some true \/ s = k \/ s ∈ ks.
Proof.
  intros Hk H1 [_ Hcl] H2. pose proof (lookup_lt_Some _ _ _ Hk) as Hlt.
  rewrite H2, SlotOps.lookup_set_slots.
  - case_decide as Hin; [naive_solver |]. rewrite H1. destruct (decide (s = k)) as [->|Hne].
    + rewrite list_lookup_insert_eq by done. naive_solver.
    + rewrite list_lookup_insert_ne by done. naive_solver.
  - eapply Forall_impl; [exact Hcl |]. intros i Hi. exact (lookup_lt_Some _ _ _ Hi).
Qed.

(** [FindAndSet] of a full map. *)
Lemma find_none (bm : Bitmap.t) :
  Bitmap.wf bm -> count_clear (slots bm) = 0%nat -> Bitmap.FindAndSet bm = Ok (-1, bm).
Proof.
  intros Hwf Hz. pose proof (slot_find_law bm Hwf) as Hf.
  destruct (first_clear (slots bm)) as [k|] eqn:Hk; [| done].
  apply Bitmap.first_clear_Some in Hk as [Hk _]. apply Bitmap.count_clear_insert in Hk. lia.
Qed.

(** *** Consistency

    The directory and the free map on disk make sense, and the sectors of
    their own files are in use and apart. *)
Section spec.
Context `{BlockStoreLaws D} (fresh : nat -> list Z) (fresh_dir : list Directory.DirectoryEntry)
  (fresh_hdr : FileHeader.t).
Hypothesis fresh_length : forall n, length (fresh n) = n.
Hypothesis fresh_bytes : forall n, Forall is_byte (fresh n).
Hypothesis fresh_dir_wf : Forall Directory.entry_wf fresh_dir /\ length fresh_dir = NumDirEntries.
Hypothesis fresh_hdr_wf : FileHeader.wf fresh_hdr.
#[local] Set Default Proof Using "Type*".
Implicit Types (fs : t) (d : D).

Definition directory_of fs d : list Directory.DirectoryEntry :=
  Directory.stored NumDirEntries (directoryFile fs) d.
Definition free_map fs d : Bitmap.t := PersistentBitmap.stored NumSectors (freeMapFile fs) d.
Definition in_use fs d (s : Z) : Prop := slots (free_map fs d) !! Z.to_nat s = Some true.

Definition dir_sectors fs : list Z := OpenFile.data_sectors (OpenFile.hdr (directoryFile fs)).
Definition map_sectors fs : list Z := OpenFile.data_sectors (OpenFile.hdr (freeMapFile fs)).

Record consistent fs d : Prop := {
  c_store : store_ok d;
  c_dir_fits : Directory.file_fits NumDirEntries (directoryFile fs);
  c_map_fits : PersistentBitmap.file_fits NumSectors (freeMapFile fs);
  c_dir : Directory.wf (directory_of fs d);
  c_used : Forall (in_use fs d) (dir_sectors fs ++ map_sectors fs);
  c_apart : forall s, s ∈ dir_sectors fs -> s ∉ map_sectors fs;
}.

Lemma create_entries : Forall Directory.entry_wf (Directory.create fresh_dir) /\
  length (Directory.create fresh_dir) = NumDirEntries.
Proof.
  destruct fresh_dir_wf as [Hw Hl]. unfold Directory.create. rewrite length_fmap. split; [| done].
  apply Forall_fmap. eapply Forall_impl; [exact Hw |]. by intros e.
Qed.

Lemma fetch_directory_spec fs d :
  consistent fs d ->
  exists d', fetch_directory fresh_dir fs d = Ok (directory_of fs d, d') /\ store_ok d' /\
    forall s, contents d' s = contents d s.
Proof.
  intros Hc. destruct create_entries as [Hw Hl]. unfold fetch_directory, directory_of.
  rewrite <- Hl. apply Directory.FetchFrom_spec; [apply (c_store _ _ Hc) | done |].
  rewrite Hl. apply (c_dir_fits _ _ Hc).
Qed.

(** Everything the consistency speaks of depends on the contents alone. *)
Lemma file_bytes_same (h : FileHeader.t) d d' :
  (forall s, s ∈ OpenFile.data_sectors h -> contents d' s = contents d s) ->
  OpenFile.file_bytes h d' = OpenFile.file_bytes h d.
Proof.
  intros Hs. unfold OpenFile.file_bytes, OpenFile.raw_bytes, OpenFile.blocks. do 2 f_equal.
  apply list_fmap_ext. intros i x Hx. apply Hs. exact (list_elem_of_lookup_2 _ _ _ Hx).
Qed.

Lemma directory_same fs d d' :
  (forall s, s ∈ dir_sectors fs -> contents d' s = contents d s) ->
  directory_of fs d' = directory_of fs d.
Proof. intros Hs. unfold directory_of, Directory.stored. by rewrite (file_bytes_same _ d d'). Qed.

Lemma free_map_same fs d d' :
  (forall s, s ∈ map_sectors fs -> contents d' s = contents d s) -> free_map fs d' = free_map fs d.
Proof. intros Hs. unfold free_map, PersistentBitmap.stored. by rewrite (file_bytes_same _ d d'). Qed.

Lemma consistent_same fs d d' :
  consistent fs d -> store_ok d' -> (forall s, contents d' s = contents d s) -> consistent fs d'.
Proof.
  intros [H1 H2 H3 H4 H5 H6] Hd Hc. split; [done | done | done | | | done].
  - by rewrite (directory_same fs d d').
  - unfold in_use. by rewrite (free_map_same fs d d').
Qed.

Lemma map_wf fs d : consistent fs d -> Bitmap.wf (free_map fs d).
Proof.
  intros Hc. apply PersistentBitmap.stored_wf; [done | apply (c_store _ _ Hc) | apply (c_map_fits _ _ Hc)].
Qed.

Lemma length_map fs d : length (slots (free_map fs d)) = Z.to_nat NumSectors.
Proof. cbn [slots Bitmap.slot_map]. rewrite Bitmap.length_bits. done. Qed.

Lemma length_directory fs d : length (directory_of fs d) = NumDirEntries.
Proof. unfold directory_of, Directory.stored, Directory.of_image. by rewrite length_fmap, length_seq. Qed.

Lemma in_use_range fs d s : in_use fs d s -> (Z.to_nat s < Z.to_nat NumSectors)%nat.
Proof. intros Hs. pose proof (lookup_lt_Some _ _ _ Hs) as Hl. by rewrite length_map in Hl. Qed.

Lemma own_sectors_range fs d s :
  consistent fs d -> s ∈ dir_sectors fs ++ map_sectors fs -> sector_in_range s.
Proof.
  intros Hc Hin. apply elem_of_app in Hin as [Hin|Hin].
  - pose proof (OpenFile.ho_range _ (proj1 (c_dir_fits _ _ Hc))) as Hr. rewrite Forall_forall in Hr. auto.
  - pose proof (OpenFile.ho_range _ (proj1 (c_map_fits _ _ Hc))) as Hr. rewrite Forall_forall in Hr. auto.
Qed.

(** A clear sector belongs to neither file. *)
Lemma clear_not_own fs d k :
  consistent fs d -> slots (free_map fs d) !! k = Some false ->
  Z.of_nat k ∉ dir_sectors fs ++ map_sectors fs.
Proof.
  intros Hc Hk Hin. pose proof (c_used _ _ Hc) as Hu. rewrite Forall_forall in Hu.
  specialize (Hu _ Hin). unfold in_use in Hu. rewrite Nat2Z.id in Hu. congruence.
Qed.

(** The three writes at the end of [Create]. *)
Lemma flush_spec fs d hdr k dir' bm' :
  consistent fs d -> sector_in_range k -> k ∉ dir_sectors fs ++ map_sectors fs ->
  length (FileHeader.dataSectors hdr) = Z.to_nat NumDirect ->
  Forall Directory.entry_wf dir' -> length dir' = NumDirEntries ->
  Bitmap.wf bm' -> Bitmap.numBits bm' = NumSectors ->
  exists d', (d ← FileHeader.WriteBack hdr d k;
              d ← Directory.WriteBack fresh dir' (directoryFile fs) d;
              d ← PersistentBitmap.WriteBack fresh bm' (freeMapFile fs) d;
              Ok (true, d)) = Ok (true, d') /\
    store_ok d' /\ directory_of fs d' = dir' /\ free_map fs d' = bm' /\
    contents d' k = FileHeader.encode hdr /\
    forall s, sector_in_range s -> s <> k -> s ∉ dir_sectors fs ++ map_sectors fs ->
      contents d' s = contents d s.
Proof.
  intros Hc Hk Hnot Hhdr Hdir Hlen Hbm Hbits. apply not_elem_of_app in Hnot as [Hn1 Hn2].
  unfold FileHeader.WriteBack.
  destruct (write_sector d k (FileHeader.encode hdr) (c_store _ _ Hc) Hk) as (d1 & -> & Hd1 & Hc1 & Ho1).
  { by apply FileHeader.encode_sector. }
  cbn [mbind res_bind]. pose proof (c_dir_fits _ _ Hc) as Hdf. rewrite <- Hlen in Hdf.
  destruct (Directory.dir_WriteBack_spec fresh fresh_length fresh_bytes dir' (directoryFile fs) d1
    Hd1 Hdir Hdf) as (d2 & -> & Hd2 & Hs2 & Ho2).
  cbn [mbind res_bind]. pose proof (c_map_fits _ _ Hc) as Hmf. rewrite <- Hbits in Hmf.
  destruct (PersistentBitmap.map_WriteBack_spec fresh fresh_length fresh_bytes bm' (freeMapFile fs) d2
    Hd2 Hbm Hmf) as (d3 & -> & Hd3 & Hs3 & Ho3).
  cbn [mbind res_bind]. exists d3. split_and!; [done | done | | | |].
  - rewrite (directory_same fs d2 d3).
    + unfold directory_of. by rewrite <- Hlen.
    + intros s Hs. apply Ho3; [apply (own_sectors_range fs d); [done |]; apply elem_of_app; by left |].
      by apply (c_apart _ _ Hc).
  - unfold free_map. by rewrite <- Hbits.
  - by rewrite Ho3, Ho2.
  - intros s Hs Hne Hout. apply not_elem_of_app in Hout as [Hs1 Hs2'].
    rewrite Ho3, Ho2, Ho1 by done. done.
Qed.

(** The header [Allocate] leaves describes a file of the size asked for. *)
Lemma allocated_header size ks :
  0 <= size <= MaxFileSize -> length ks = Z.to_nat (divRoundUp size SectorSize) -> NoDup ks ->
  Forall (fun k => k < Z.to_nat NumSectors)%nat ks ->
  let ds := list_inserts 0 (Z.of_nat <$> ks) (FileHeader.dataSectors fresh_hdr) in
  let h := FileHeader.mk size (divRoundUp size SectorSize) ds in
  FileHeader.wf h /\ OpenFile.hdr_ok h /\ OpenFile.data_sectors h = Z.of_nat <$> ks.
Proof.
  clear fresh_dir_wf fresh_length. intros Hs Hl Hnd Hk. cbv zeta. destruct fresh_hdr_wf as (_ & _ & Hfl & Hf32).
  pose proof (FileHeader.sectors_needed size Hs) as Hn.
  assert (Forall (fun k => sector_in_range (Z.of_nat k)) ks) as Hr.
  { eapply Forall_impl; [exact Hk |]. intros k Hkk. unfold sector_in_range. simpl in Hkk. lia. }
  set (ds := list_inserts 0 (Z.of_nat <$> ks) (FileHeader.dataSectors fresh_hdr)).
  assert (length ds = Z.to_nat NumDirect) as Hld by (unfold ds; by rewrite length_inserts).
  assert (take (Z.to_nat (divRoundUp size SectorSize)) ds = Z.of_nat <$> ks) as Ht.
  { rewrite take_slice, <- Hl, <- (length_fmap Z.of_nat ks). apply slice_inserts_eq.
    rewrite length_fmap, Hfl. lia. }
  split_and!.
  - change MaxFileSize with 3840 in Hs. change NumDirect with 30 in Hn.
    unfold FileHeader.wf. cbn. split_and!; [unfold is_s32; lia | unfold is_s32; lia | done |].
    apply Forall_list_inserts; [| done]. apply Forall_fmap. eapply Forall_impl; [exact Hr |].
    intros k [? Hkk]. change NumSectors with 1024 in Hkk. unfold is_s32, compose. lia.
  - split; cbn; try done; try lia; rewrite Ht; [by apply Forall_fmap |].
    apply NoDup_fmap_2; [| done]. intros x y. lia.
  - exact Ht.
Qed.

(** Whether [Create] can succeed. *)
Definition can_create fs d nm size : Prop :=
  Directory.lookup_key (directory_of fs d) (Directory.key nm) = None /\
  ~ Forall (fun e => Directory.inUse e = true) (directory_of fs d) /\
  1 + divRoundUp size SectorSize <= Z.of_nat (count_clear (slots (free_map fs d))).

(** The state after [Create] made [nm] with its header in sector [k]. *)
Record created fs d d' nm size (k : nat) (h : FileHeader.t) : Prop := {
  cr_consistent : consistent fs d';
  cr_clear : slots (free_map fs d) !! k = Some false;
  cr_directory q : Directory.lookup_key (directory_of fs d') q =
    if decide (q = Directory.key nm) then Some (Z.of_nat k)
    else Directory.lookup_key (directory_of fs d) q;
  cr_header : FileHeader.decode (contents d' (Z.of_nat k)) = h;
  cr_size : FileHeader.numBytes h = size;
  cr_file : OpenFile.hdr_ok h;
  cr_fresh : Forall (fun s => slots (free_map fs d) !! Z.to_nat s = Some false /\ s <> Z.of_nat k)
    (OpenFile.data_sectors h);
  cr_map s : 0 <= s -> in_use fs d' s <->
    in_use fs d s \/ s = Z.of_nat k \/ s ∈ OpenFile.data_sectors h;
  cr_others s : sector_in_range s -> s <> Z.of_nat k -> s ∉ dir_sectors fs ++ map_sectors fs ->
    contents d' s = contents d s;
}.

(** The branch of [Create] that makes the file. *)
Lemma Create_succeeds fs d nm size k bm1 ks bm2 dir' :
  consistent fs d -> CString.is_name nm -> 0 <= size <= MaxFileSize ->
  slots (free_map fs d) !! k = Some false ->
  slots bm1 = <[k := true]> (slots (free_map fs d)) ->
  length ks = Z.to_nat (divRoundUp size SectorSize) -> SlotOps.clear_slots bm1 ks ->
  Bitmap.wf bm2 -> slots bm2 = SlotOps.set_slots true ks (slots bm1) ->
  Directory.wf dir' -> length dir' = NumDirEntries ->
  (forall q, Directory.lookup_key dir' q = if decide (q = Directory.key nm) then Some (Z.of_nat k)
             else Directory.lookup_key (directory_of fs d) q) ->
  let h := FileHeader.mk size (divRoundUp size SectorSize)
             (list_inserts 0 (Z.of_nat <$> ks) (FileHeader.dataSectors fresh_hdr)) in
  exists d', (d ← FileHeader.WriteBack h d (Z.of_nat k);
              d ← Directory.WriteBack fresh dir' (directoryFile fs) d;
              d ← PersistentBitmap.WriteBack fresh bm2 (freeMapFile fs) d;
              Ok (true, d)) = Ok (true, d') /\ created fs d d' nm size k h.
Proof.
  clear fresh_dir_wf. intros Hc Hn Hsize Hk H1 Hl [Hnd Hcl] Hw2 H2 Hwd Hld Hlook. cbv zeta.
  pose proof (lookup_lt_Some _ _ _ Hk) as Hlt. pose proof (length_map fs d) as Hlm. rewrite Hlm in Hlt.
  assert (Forall (fun i => i < Z.to_nat NumSectors)%nat ks) as Hkr.
  { eapply Forall_impl; [exact Hcl |]. intros i Hi. pose proof (lookup_lt_Some _ _ _ Hi) as Hil.
    rewrite H1, length_insert in Hil. lia. }
  destruct (allocated_header size ks Hsize Hl Hnd Hkr) as (Hwh & Hoh & Hds). cbv zeta in Hwh, Hoh, Hds.
  set (h := FileHeader.mk _ _ _) in *.
  assert (sector_in_range (Z.of_nat k)) as Hkin by (unfold sector_in_range; lia).
  assert (Bitmap.numBits bm2 = NumSectors) as Hb2.
  { assert (length (slots bm2) = Z.to_nat NumSectors) as Hlb.
    { rewrite H2, SlotOps.length_set_slots, H1, length_insert. done. }
    cbn [slots Bitmap.slot_map] in Hlb. rewrite Bitmap.length_bits in Hlb.
    pose proof (Bitmap.wf_pos _ Hw2). change NumSectors with 1024 in *. lia. }
  destruct (flush_spec fs d h (Z.of_nat k) dir' bm2 Hc Hkin (clear_not_own fs d k Hc Hk))
    as (d' & E & Hd' & Hdir & Hmap & Hkc & Ho); try done; [apply Hwh | apply (Directory.wf_entries _ Hwd) |].
  exists d'. split; [exact E |].
  assert (forall s, slots bm2 !! s = Some true <->
    slots (free_map fs d) !! s = Some true \/ s = k \/ s ∈ ks) as Hslots
    by (intros s; by apply (map_after_create _ k ks bm1 bm2 s)).
  split; try done.
  - split; try apply Hc; [done | by rewrite Hdir |].
    eapply Forall_impl; [apply (c_used _ _ Hc) |]. intros s Hs. unfold in_use in *. rewrite Hmap.
    apply Hslots. by left.
  - intros q. by rewrite Hdir.
  - rewrite Hkc. by apply FileHeader.decode_encode.
  - rewrite Hds. apply Forall_fmap, Forall_forall. intros x Hx. unfold compose. rewrite Nat2Z.id.
    rewrite Forall_forall in Hcl. pose proof (Hcl x Hx) as Hxc. rewrite H1 in Hxc.
    destruct (decide (x = k)) as [->|Hne].
    + rewrite list_lookup_insert_eq in Hxc by lia. done.
    + rewrite list_lookup_insert_ne in Hxc by done. split; [done | lia].
  - intros s Hs. unfold in_use. rewrite Hmap, Hslots, Hds.
    rewrite list_elem_of_fmap. split.
    + intros [?|[Heq|Hin]]; [by left | right; left; lia |]. right; right. exists (Z.to_nat s). split; [lia | done].
    + intros [?|[->|(x & -> & Hin)]]; [by left | right; left; lia |]. right; right. by rewrite Nat2Z.id.
Qed.

(** How [Create] ends: outside its header, for a file that is too large for it when nothing
    else is in the way; otherwise with [b] telling whether it made the file. *)
Definition create_ends fs d nm size (r : res (bool * D)) : Prop :=
  (can_create fs d nm size -> MaxFileSize < size -> r = Fault MemoryFault) /\
  (~ (can_create fs d nm size /\ MaxFileSize < size) -> exists b d', r = Ok (b, d') /\
    (b = true <-> can_create fs d nm size) /\
    (b = false -> consistent fs d' /\ forall s, contents d' s = contents d s) /\
    (b = true -> exists k h, created fs d d' nm size k h)).

Lemma create_refuses fs d d' nm size :
  ~ can_create fs d nm size -> consistent fs d' -> (forall s, contents d' s = contents d s) ->
  create_ends fs d nm size (Ok (false, d')).
Proof.
  intros Hn Hc Hs. split; [done |]. intros _. exists false, d'. split; [done |]. split; [| done]. by split.
Qed.

(** [Create] from the point where the name is known to be new. *)
Lemma Create_new fs d nm size :
  consistent fs d -> CString.is_name nm -> 0 <= size ->
  Directory.lookup_key (directory_of fs d) (Directory.key nm) = None ->
  create_ends fs d nm size
    ('(sector, freeMap) ← Bitmap.FindAndSet (free_map fs d);
     if sector =? -1 then Ok (false, d)
     else
       '(added, directory) ← Directory.Add (directory_of fs d) nm sector;
       if negb added then Ok (false, d)
       else
         '(success, hdr, freeMap) ← FileHeader.Allocate fresh_hdr freeMap size;
         if negb success then Ok (false, d)
         else
           d ← FileHeader.WriteBack hdr d sector;
           d ← Directory.WriteBack fresh directory (directoryFile fs) d;
           d ← PersistentBitmap.WriteBack fresh freeMap (freeMapFile fs) d;
           Ok (true, d)).
Proof.
  clear fresh_dir_wf. intros Hc Hn Hsize Hlk. pose proof (map_wf fs d Hc : slots_wf (free_map fs d)) as Hwm.
  assert (0 <= divRoundUp size SectorSize) as Hneed
    by (pose proof (divRoundUp_spec size SectorSize Hsize ltac:(done)); change SectorSize with 128 in *; lia).
  destruct (decide (0 < count_clear (slots (free_map fs d)))%nat) as [Hpos|Hzero].
  2: { rewrite (find_none (free_map fs d)) by (done || lia). apply create_refuses; [| done | done]. intros (_ & _ & ?). lia. }
  destruct (SlotOps.find_clear (free_map fs d) Hwm Hpos) as (k & bm1 & E & Hw1 & Hk & H1).
  change slot_find_and_set with Bitmap.FindAndSet in E. rewrite E. cbn [mbind res_bind].
  destruct (Z.eqb_spec (Z.of_nat k) (-1)); [lia |].
  pose proof (lookup_lt_Some _ _ _ Hk) as Hlt. rewrite length_map in Hlt. change NumSectors with 1024 in Hlt.
  pose proof (Directory.Add_spec (directory_of fs d) nm (Z.of_nat k) (c_dir _ _ Hc) Hn
    ltac:(unfold is_s32; lia) ltac:(lia)) as Ha. rewrite Hlk in Ha.
  destruct Ha as [[Hfull ->]|(dir' & -> & Hwd & Hld & Hfree & Hlook)]; cbn [mbind res_bind negb].
  { apply create_refuses; [| done | done]. by intros (_ & ? & _). }
  pose proof (Bitmap.count_clear_insert _ _ Hk) as Hcount. rewrite <- H1 in Hcount.
  destruct (decide (Z.of_nat (count_clear (slots bm1)) < divRoundUp size SectorSize)) as [Hroom | Hroom].
  { destruct (FileHeader.Allocate_refuses fresh_hdr bm1 size Hw1 Hroom) as (h' & ->). cbn [mbind res_bind negb].
    apply create_refuses; [| done | done]. intros (_ & _ & ?). lia. }
  assert (can_create fs d nm size) as Hcan by (split_and!; [done | done | lia]).
  destruct (decide (size <= MaxFileSize)) as [Hmax | Hmax]; (split; [intros _ Hlarge | intros Hnot]); [lia | | | destruct Hnot; split; [exact Hcan | lia]].
  - pose proof (FileHeader.Allocate_spec fresh_hdr bm1 size Hw1 (proj1 (proj2 (proj2 fresh_hdr_wf))) (conj Hsize Hmax)) as Hal.
    cbv zeta in Hal. rewrite decide_False in Hal by lia.
    destruct Hal as (ks & bm2 & -> & Hlks & Hcl & Hw2 & _ & H2). cbn [mbind res_bind negb].
    destruct (Create_succeeds fs d nm size k bm1 ks bm2 dir') as (d' & -> & Hcr); try done.
    exists true, d'. split_and!; [done | done | done | intros _; by eexists _, _].
  - by rewrite (FileHeader.allocate_overruns_header fresh_hdr bm1 size) by (apply fresh_hdr_wf || done || lia).
Qed.

Lemma created_same fs d1 d d' nm size k h :
  (forall s, contents d1 s = contents d s) ->
  created fs d1 d' nm size k h -> created fs d d' nm size k h.
Proof.
  intros Hs [H1 H2 H3 H4 H5 H6 H7 H8 H9]. unfold in_use in *.
  rewrite (free_map_same fs d d1) in * by done. rewrite (directory_same fs d d1) in * by done.
  split; try done. intros s Hr Hne Hout. rewrite H9 by done. apply Hs.
Qed.

(** [Open] of a name the directory binds. *)
Lemma Open_found fs d nm k :
  consistent fs d -> CString.is_name nm ->
  Directory.lookup_key (directory_of fs d) (Directory.key nm) = Some k -> sector_in_range k ->
  exists d', Open fresh_dir fs d nm = Ok (Some (OpenFile.mk (FileHeader.decode (contents d k)) 0), d') /\
    store_ok d' /\ forall s, contents d' s = contents d s.
Proof.
  intros Hc Hn Hlk Hk. unfold Open.
  destruct (fetch_directory_spec fs d Hc) as (d1 & -> & Hd1 & Hs1). cbn [mbind res_bind].
  rewrite (Directory.Find_spec _ _ (c_dir _ _ Hc) Hn), Hlk. cbn [mbind res_bind from_option id].
  destruct (Z.leb_spec 0 k) as [_|?]; [| destruct Hk; lia].
  unfold OpenFile.create, FileHeader.FetchFrom.
  destruct (read_sector d1 k Hd1 Hk) as (d2 & -> & Hd2 & Hs2). cbn [mbind res_bind].
  exists d2. rewrite Hs1. split_and!; [done | done |]. intros s. by rewrite Hs2.
Qed.

Lemma Open_created fs d d' nm size k h :
  CString.is_name nm -> created fs d d' nm size k h ->
  exists d'', Open fresh_dir fs d' nm = Ok (Some (OpenFile.mk h 0), d'') /\ store_ok d'' /\ forall s, contents d'' s = contents d' s.
Proof.
  intros Hn [Hc Hk Hdir Hh _ _ _ _ _]. rewrite <- Hh. apply Open_found; [done | done | |].
  - rewrite Hdir. by rewrite decide_True.
  - pose proof (lookup_lt_Some _ _ _ Hk) as Hlt. rewrite length_map in Hlt. unfold sector_in_range. lia.
Qed.

(** [Create], up to the file it makes. *)
Lemma Create_spec fs d nm size :
  consistent fs d -> CString.is_name nm -> 0 <= size ->
  create_ends fs d nm size (Create fresh fresh_dir fresh_hdr fs d nm size).
Proof.
  intros Hc Hn Hsize. unfold Create.
  destruct (fetch_directory_spec fs d Hc) as (d1 & -> & Hd1 & Hs1). cbn [mbind res_bind].
  pose proof (consistent_same fs d d1 Hc Hd1 Hs1) as Hc1.
  rewrite (Directory.Find_spec _ _ (c_dir _ _ Hc) Hn). cbn [mbind res_bind].
  destruct (Directory.lookup_key (directory_of fs d) (Directory.key nm)) as [s0|] eqn:Hlk; cbn [from_option id].
  { pose proof (Directory.lookup_key_sector _ _ _ (c_dir _ _ Hc) Hlk).
    destruct (Z.eqb_spec s0 (-1)); [lia |]. cbn [negb]. apply create_refuses; [| done | done]. intros [? _]. congruence. }
  change (negb (-1 =? -1)) with false. cbv iota.
  destruct (PersistentBitmap.create_from_spec NumSectors (freeMapFile fs) d1 eq_refl Hd1 (c_map_fits _ _ Hc))
    as (d2 & -> & Hd2 & Hs2). cbn [mbind res_bind].
  pose proof (consistent_same fs d1 d2 Hc1 Hd2 Hs2) as Hc2.
  assert (forall s, contents d2 s = contents d s) as Hs by (intros s; by rewrite Hs2, Hs1).
  fold (free_map fs d1). rewrite <- (free_map_same fs d1 d2) by done.
  assert (can_create fs d2 nm size <-> can_create fs d nm size) as Hcan
    by (unfold can_create; by rewrite (directory_same fs d d2), (free_map_same fs d d2)).
  rewrite <- (directory_same fs d d2) in Hlk |- * by done.
  destruct (Create_new fs d2 nm size Hc2 Hn Hsize Hlk) as [Hbad Hgood]. rewrite Hcan in Hbad, Hgood. split; [exact Hbad |].
  intros Hnot. destruct (Hgood Hnot) as (b & d' & -> & Hb & Hf & Ht). exists b, d'. split; [done |]. split; [by rewrite Hb |]. split.
  - intros Hb'. destruct (Hf Hb') as [? Hsf]. split; [done |]. intros s. by rewrite Hsf.
  - intros Hb'. destruct (Ht Hb') as (k & h & Hcr). exists k, h. by apply (created_same fs d2 d).
Qed.

Lemma Create_fits fs d nm size :
  consistent fs d -> CString.is_name nm -> 0 <= size <= MaxFileSize ->
  exists b d', Create fresh fresh_dir fresh_hdr fs d nm size = Ok (b, d') /\
    (b = true <-> can_create fs d nm size) /\
    (b = false -> consistent fs d' /\ forall s, contents d' s = contents d s) /\
    (b = true -> exists k h, created fs d d' nm size k h).
Proof. intros Hc Hn [Hs Hm]. apply (Create_spec fs d nm size Hc Hn Hs). intros [_ ?]. lia. Qed.

(** C16: [Create] on a consistent disk, for a name and a size that is not negative (and
    that can be rounded up to blocks in an [int]).  The file can be made when the name is
    new, the directory has a free entry and the free map has a sector for the header and
    one for every block.  If it can, but its size is more than [MaxFileSize], [Create]
    writes past the end of its header.  In every other case it returns, and succeeds
    exactly when the file can be made.  A failed [Create] leaves every sector as it was; a
    successful one binds the name (and changes no other), stores a header that
    describes a file of the size asked for on fresh sectors apart from one
    another, marks exactly those sectors, touches no other sector and leaves the
    disk consistent, and [Open] then gives that file, at its start. *)
Theorem file_create_spec fs d nm size :
  consistent fs d -> CString.is_name nm -> 0 <= size < 2 ^ 31 - SectorSize ->
  (can_create fs d nm size -> MaxFileSize < size ->
     Create fresh fresh_dir fresh_hdr fs d nm size = Fault MemoryFault) /\
  (~ (can_create fs d nm size /\ MaxFileSize < size) ->
   exists b d', Create fresh fresh_dir fresh_hdr fs d nm size = Ok (b, d') /\
    (b = true <-> can_create fs d nm size) /\
    (b = false -> consistent fs d' /\ forall s, contents d' s = contents d s) /\
    (b = true -> exists k h d'', created fs d d' nm size k h /\
       Open fresh_dir fs d' nm = Ok (Some (OpenFile.mk h 0), d''))).
Proof.
  intros Hc Hn [Hsize _]. destruct (Create_spec fs d nm size Hc Hn Hsize) as [Hbad Hgood]. split; [done |]. intros Hnot.
  destruct (Hgood Hnot) as (b & d' & E & Hb & Hf & Ht).
  exists b, d'. refine (conj E (conj Hb (conj Hf _))). intros Hbt. destruct (Ht Hbt) as (k & h & Hcr).
  destruct (Open_created fs d d' nm size k h Hn Hcr) as (d'' & E2 & _). by exists k, h, d''.
Qed.

(** *** Remove

    A file the directory names: its header and its blocks are in use, apart
    from one another and from the file system's own sectors. *)
Record file_at fs d nm (k : Z) (h : FileHeader.t) : Prop := {
  fa_named : Directory.lookup_key (directory_of fs d) (Directory.key nm) = Some k;
  fa_range : sector_in_range k;
  fa_header : FileHeader.decode (contents d k) = h;
  fa_ok : OpenFile.hdr_ok h;
  fa_used : Forall (in_use fs d) (k :: OpenFile.data_sectors h);
  fa_self : k ∉ OpenFile.data_sectors h;
  fa_apart : Forall (fun s => s ∉ dir_sectors fs ++ map_sectors fs) (k :: OpenFile.data_sectors h);
}.

(** What [Create] makes is such a file. *)
Lemma created_file_at fs d d' nm size k h :
  consistent fs d -> created fs d d' nm size k h -> file_at fs d' nm (Z.of_nat k) h.
Proof.
  clear fresh_dir_wf fresh_length fresh_bytes fresh_hdr_wf.
  intros Hc [Hc' Hk Hdir Hh _ Hok Hfr Hmap _]. rewrite Forall_forall in Hfr.
  pose proof (OpenFile.ho_range _ Hok) as Hr. rewrite Forall_forall in Hr.
  split; [by rewrite Hdir, decide_True | | done | done | | |].
  - pose proof (lookup_lt_Some _ _ _ Hk) as Hlt. rewrite length_map in Hlt. unfold sector_in_range. lia.
  - apply Forall_cons. split; [apply Hmap; [lia |]; by right; left |].
    apply Forall_forall. intros s Hs. apply Hmap; [apply (Hr s Hs) |]. by right; right.
  - intros Hin. by destruct (Hfr _ Hin).
  - apply Forall_cons. split; [by apply (clear_not_own fs d) |].
    apply Forall_forall. intros s Hs. destruct (Hfr s Hs) as [Hcl _].
    rewrite <- (Z2Nat.id s) by apply (Hr s Hs). by apply (clear_not_own fs d).
Qed.

Lemma flush_removed fs d dir' bm' :
  consistent fs d -> Forall Directory.entry_wf dir' -> length dir' = NumDirEntries ->
  Bitmap.wf bm' -> Bitmap.numBits bm' = NumSectors ->
  exists d', (d ← PersistentBitmap.WriteBack fresh bm' (freeMapFile fs) d;
              d ← Directory.WriteBack fresh dir' (directoryFile fs) d;
              Ok (true, d)) = Ok (true, d') /\
    store_ok d' /\ directory_of fs d' = dir' /\ free_map fs d' = bm' /\
    forall s, sector_in_range s -> s ∉ dir_sectors fs ++ map_sectors fs -> contents d' s = contents d s.
Proof.
  intros Hc Hdir Hlen Hbm Hbits.
  pose proof (c_map_fits _ _ Hc) as Hmf. rewrite <- Hbits in Hmf.
  destruct (PersistentBitmap.map_WriteBack_spec fresh fresh_length fresh_bytes bm' (freeMapFile fs) d
    (c_store _ _ Hc) Hbm Hmf) as (d1 & -> & Hd1 & Hs1 & Ho1).
  cbn [mbind res_bind]. pose proof (c_dir_fits _ _ Hc) as Hdf. rewrite <- Hlen in Hdf.
  destruct (Directory.dir_WriteBack_spec fresh fresh_length fresh_bytes dir' (directoryFile fs) d1
    Hd1 Hdir Hdf) as (d2 & -> & Hd2 & Hs2 & Ho2).
  cbn [mbind res_bind]. exists d2. split_and!; [done | done | | |].
  - unfold directory_of. by rewrite <- Hlen.
  - rewrite (free_map_same fs d1 d2); [unfold free_map; by rewrite <- Hbits |].
    intros s Hs. apply Ho2; [apply (own_sectors_range fs d); [done |]; apply elem_of_app; by right |].
    intros Hin. by apply (c_apart _ _ Hc) in Hin.
  - intros s Hs [Hn1 Hn2]%not_elem_of_app. by rewrite Ho2, Ho1.
Qed.

(** [Deallocate] of a header whose blocks are in use. *)
Lemma Deallocate_spec (bm : Bitmap.t) h :
  slots_wf bm -> OpenFile.hdr_ok h ->
  Forall (fun s => slots bm !! Z.to_nat s = Some true) (OpenFile.data_sectors h) ->
  exists bm', FileHeader.Deallocate h bm = Ok bm' /\ slots_wf bm' /\
    slots bm' = SlotOps.set_slots false (Z.to_nat <$> OpenFile.data_sectors h) (slots bm).
Proof.
  clear fresh_dir_wf fresh_length fresh_bytes fresh_hdr_wf.
  intros Hwf Hok Hu. pose proof (OpenFile.ho_range _ Hok) as Hr. fold (OpenFile.data_sectors h) in Hr.
  pose proof (OpenFile.ho_nodup _ Hok) as Hnd. fold (OpenFile.data_sectors h) in Hnd.
  pose proof (OpenFile.length_data_sectors h Hok) as Hl.
  rewrite Forall_forall in Hr.
  destruct (FileHeader.deallocate_loop_spec (Z.to_nat <$> OpenFile.data_sectors h) 0
    (FileHeader.dataSectors h) bm Hwf) as (bm' & E & Hw & Hs).
  - apply NoDup_fmap_2_strong; [| done]. intros x y Hx Hy Hxy.
    destruct (Hr x Hx) as [? _], (Hr y Hy) as [? _]. lia.
  - by apply Forall_fmap.
  - intros j k Hj. rewrite list_lookup_fmap in Hj.
    destruct (OpenFile.data_sectors h !! j) as [x|] eqn:Hx; [| done]. cbn in Hj. injection Hj as <-.
    destruct (Hr x) as [? _]; [exact (list_elem_of_lookup_2 _ _ _ Hx) |].
    rewrite Z2Nat.id by done. unfold OpenFile.data_sectors in Hx.
    rewrite lookup_take_Some in Hx. apply Hx.
  - exists bm'. rewrite length_fmap, Hl in E. done.
Qed.

(** The free map once the file's sectors are given back. *)
Lemma map_after_remove (bm : Bitmap.t) h k :
  Bitmap.wf bm -> OpenFile.hdr_ok h -> sector_in_range k ->
  Forall (fun s => slots bm !! Z.to_nat s = Some true) (k :: OpenFile.data_sectors h) ->
  exists bm' bm'', FileHeader.Deallocate h bm = Ok bm' /\ Bitmap.Clear bm' k = Ok bm'' /\
    Bitmap.wf bm'' /\ length (slots bm'') = length (slots bm) /\
    forall s, 0 <= s -> slots bm'' !! Z.to_nat s = Some true <->
      slots bm !! Z.to_nat s = Some true /\ s <> k /\ s ∉ OpenFile.data_sectors h.
Proof.
  clear fresh_dir_wf fresh_length fresh_bytes fresh_hdr_wf.
  intros Hwf Hok [Hk0 Hk1] [Hku Hu]%Forall_cons.
  destruct (Deallocate_spec bm h Hwf Hok Hu) as (bm' & -> & Hw' & Hs').
  pose proof (OpenFile.ho_range _ Hok) as Hr. fold (OpenFile.data_sectors h) in Hr. rewrite Forall_forall in Hr.
  pose proof (lookup_lt_Some _ _ _ Hku) as Hlt.
  assert (length (slots bm') = length (slots bm)) as Hl' by (by rewrite Hs', SlotOps.length_set_slots).
  destruct (slot_clear_law bm' (Z.to_nat k) Hw') as (bm'' & E & Hw'' & Hs''); [lia |].
  rewrite Z2Nat.id in E by done. exists bm', bm''.
  split_and!; [done | exact E | exact Hw'' | by rewrite Hs'', length_insert |].
  assert (Forall (fun i => i < length (slots bm))%nat (Z.to_nat <$> OpenFile.data_sectors h)) as Hin.
  { apply Forall_fmap. eapply Forall_impl; [exact Hu |]. intros i Hi. exact (lookup_lt_Some _ _ _ Hi). }
  intros s Hs. rewrite Hs''. destruct (decide (s = k)) as [->|Hne].
  - rewrite list_lookup_insert_eq by lia. split; [done | by intros (_ & ? & _)].
  - rewrite list_lookup_insert_ne by lia. rewrite Hs', SlotOps.lookup_set_slots by done.
    assert (Z.to_nat s ∈ Z.to_nat <$> OpenFile.data_sectors h <-> s ∈ OpenFile.data_sectors h) as Heq.
    { rewrite list_elem_of_fmap. split; [| by exists s]. intros (x & Hx & Hxin).
      destruct (Hr x Hxin) as [? _]. by replace s with x by lia. }
    case_decide as Hd; rewrite Heq in Hd; [split; [done | by intros (_ & _ & ?)] |].
    split; [by intros ? | by intros (? & _)].
Qed.

(** C17: on a consistent disk [Remove] of a name that is not in the directory
    answers FALSE and changes nothing; [Remove] of a file answers TRUE, unbinds
    the name and no other, frees exactly the sectors of the header and of the
    blocks, writes only the directory and the free map, and leaves the disk
    consistent. *)
Theorem file_remove_spec fs d nm :
  consistent fs d -> CString.is_name nm ->
  (Directory.lookup_key (directory_of fs d) (Directory.key nm) = None ->
   exists d', Remove fresh fresh_dir fs d nm = Ok (false, d') /\ consistent fs d' /\
     forall s, contents d' s = contents d s) /\
  (forall k h, file_at fs d nm k h ->
   exists d', Remove fresh fresh_dir fs d nm = Ok (true, d') /\ consistent fs d' /\
     (forall q, Directory.lookup_key (directory_of fs d') q =
        if decide (q = Directory.key nm) then None else Directory.lookup_key (directory_of fs d) q) /\
     (forall s, 0 <= s -> in_use fs d' s <->
        in_use fs d s /\ s <> k /\ s ∉ OpenFile.data_sectors h) /\
     forall s, sector_in_range s -> s ∉ dir_sectors fs ++ map_sectors fs -> contents d' s = contents d s).
Proof.
  intros Hc Hn. unfold Remove.
  destruct (fetch_directory_spec fs d Hc) as (d1 & -> & Hd1 & Hs1). cbn [mbind res_bind].
  pose proof (consistent_same fs d d1 Hc Hd1 Hs1) as Hc1.
  rewrite (Directory.Find_spec _ _ (c_dir _ _ Hc) Hn). cbn [mbind res_bind].
  split; [intros ->; exists d1; done |]. intros k h [Hlk Hk Hh Hok Hu Hself Hap].
  rewrite Hlk. cbn [from_option id]. destruct (Z.eqb_spec k (-1)); [destruct Hk; lia |].
  unfold FileHeader.FetchFrom. destruct (read_sector d1 k Hd1 Hk) as (d2 & -> & Hd2 & Hs2).
  cbn [mbind res_bind]. rewrite Hs1, Hh.
  destruct (PersistentBitmap.create_from_spec NumSectors (freeMapFile fs) d2 eq_refl Hd2 (c_map_fits _ _ Hc))
    as (d3 & -> & Hd3 & Hs3). cbn [mbind res_bind].
  assert (forall s, contents d3 s = contents d s) as Hs by (intros s; by rewrite Hs3, Hs2, Hs1).
  pose proof (consistent_same fs d d3 Hc Hd3 Hs) as Hc3.
  fold (free_map fs d2). rewrite <- (free_map_same fs d2 d3), (free_map_same fs d d3) by done.
  destruct (map_after_remove (free_map fs d) h k (map_wf fs d Hc) Hok Hk Hu)
    as (bm1 & bm2 & -> & E2 & Hw2 & Hl2 & Hm2). cbn [mbind res_bind]. rewrite E2. cbn [mbind res_bind].
  pose proof (Directory.Remove_spec _ _ (c_dir _ _ Hc) Hn) as Hrem. rewrite Hlk in Hrem.
  destruct Hrem as (dir' & -> & Hwd & Hld & Hlook). cbn [mbind res_bind].
  assert (Bitmap.numBits bm2 = NumSectors) as Hb2.
  { rewrite length_map in Hl2. cbn [slots Bitmap.slot_map] in Hl2. rewrite Bitmap.length_bits in Hl2.
    pose proof (Bitmap.wf_pos _ Hw2). change NumSectors with 1024 in *. lia. }
  destruct (flush_removed fs d3 dir' bm2 Hc3 (Directory.wf_entries _ Hwd)
    ltac:(by rewrite Hld, length_directory) Hw2 Hb2) as (d' & -> & Hd' & Hdir & Hmap & Ho).
  exists d'. split; [done |]. split; [| split; [by intros q; rewrite Hdir |]; split].
  - split; try apply Hc; [done | by rewrite Hdir |]. apply Forall_forall. intros s Hin.
    pose proof (own_sectors_range fs d s Hc Hin) as [Hs0 _].
    unfold in_use. rewrite Hmap. apply Hm2; [done |]. split_and!.
    + pose proof (c_used _ _ Hc) as Hused. rewrite Forall_forall in Hused. exact (Hused s Hin).
    + intros ->. apply Forall_cons in Hap as [? _]. done.
    + intros Hdat. apply Forall_cons in Hap as [_ Hap]. rewrite Forall_forall in Hap. by apply (Hap s).
  - intros s Hs0. unfold in_use. rewrite Hmap. by apply Hm2.
  - intros s Hr Hout. by rewrite Ho.
Qed.
End spec.
End FileSystem.

(** ** Instances of the claims

    A small disk: the free map in sector 2, the directory in sectors 3 and 4,
    and one empty file, ["a"], with its header in sector 5. *)
Module FsDemo.
Import FileSystem.

Definition map_header : FileHeader.t := FileHeader.mk 128 1 (2 :: replicate 29 0).
Definition dir_header : FileHeader.t := FileHeader.mk 200 2 ([3; 4] ++ replicate 28 0).
Definition fs : FileSystem.t := FileSystem.mk (OpenFile.mk map_header 0) (OpenFile.mk dir_header 0).

Definition empty_entry : Directory.DirectoryEntry :=
  Directory.mkEntry false [0; 0; 0] 0 (replicate 10 0) [0; 0].
Definition a_entry : Directory.DirectoryEntry :=
  Directory.mkEntry true [0; 0; 0] 5 (97 :: replicate 9 0) [0; 0].
Definition table : list Directory.DirectoryEntry := a_entry :: replicate 9 empty_entry.

Definition map_sector : list Z := 63 :: replicate 127 0.
Definition dir_sector : list Z := Directory.encode a_entry ++ replicate 108 0.

Ltac compute_check := apply (bool_decide_unpack _); vm_compute; exact I.

Lemma map_header_ok : OpenFile.hdr_ok map_header.
Proof. split; try done; [by repeat constructor | compute_check]. Qed.
Lemma dir_header_ok : OpenFile.hdr_ok dir_header.
Proof. split; try done; [by repeat constructor | compute_check]. Qed.

Lemma is_byte_dec_all bs : forallb (fun b => (0 <=? b) && (b <? 256)) bs = true -> Forall is_byte bs.
Proof.
  rewrite forallb_forall. intros Hb. apply Forall_forall. intros x Hx.
  apply list_elem_of_In, Hb, andb_true_iff in Hx as [?%Z.leb_le ?%Z.ltb_lt]. by split.
Qed.

Lemma table_wf : Directory.wf table.
Proof.
  assert (Directory.entry_wf empty_entry) as He
    by (unfold Directory.entry_wf; split_and!; try done; by apply is_byte_dec_all).
  split.
  - apply Forall_cons. split; [| by apply Forall_replicate].
    unfold Directory.entry_wf. split_and!; try done; by apply is_byte_dec_all.
  - compute_check.
  - apply Forall_cons. split; [done |]. apply Forall_replicate. done.
Qed.

Lemma demo_disk :
  exists d : SynchDisk.t, store_ok d /\ contents d 2 = map_sector /\ contents d 3 = dir_sector /\
    contents d 4 = replicate 128 0 /\ contents d 5 = replicate 128 0.
Proof.
  destruct (SynchDisk.create_blank Stats.Stats.create ltac:(done)) as (d & _ & Hok & Hz).
  destruct (write_sector (H := SynchDisk.block_store) d 2 map_sector Hok ltac:(by split)) as (d1 & _ & Hok1 & H1 & Ho1).
  { split; [done | by apply is_byte_dec_all]. }
  destruct (write_sector (H := SynchDisk.block_store) d1 3 dir_sector Hok1 ltac:(by split)) as (d2 & _ & Hok2 & H2 & Ho2).
  { split; [done | by apply is_byte_dec_all]. }
  exists d2.
  split_and!; [done | by rewrite Ho2 | done | |];
    (rewrite Ho2, Ho1 by (done || by split)); by apply Hz.
Qed.

Section disk.
Context (d : SynchDisk.t).
#[local] Set Default Proof Using "Type*".
Hypothesis d_ok : store_ok d.
Hypothesis d_map : contents d 2 = map_sector.
Hypothesis d_dir : contents d 3 = dir_sector.
Hypothesis d_dir2 : contents d 4 = replicate 128 0.
Hypothesis d_hdr : contents d 5 = replicate 128 0.

Lemma demo_directory : directory_of fs d = table.
Proof.
  unfold directory_of, Directory.stored, OpenFile.file_bytes, OpenFile.raw_bytes, OpenFile.blocks.
  change (OpenFile.data_sectors (OpenFile.hdr (directoryFile fs))) with [3; 4].
  cbn [fmap list_fmap]. rewrite d_dir, d_dir2. vm_compute. reflexivity.
Qed.

Lemma demo_map : free_map fs d = Bitmap.mk 1024 32 (63 :: replicate 31 0).
Proof.
  unfold free_map, PersistentBitmap.stored, OpenFile.file_bytes, OpenFile.raw_bytes, OpenFile.blocks.
  change (OpenFile.data_sectors (OpenFile.hdr (freeMapFile fs))) with [2].
  cbn [fmap list_fmap]. rewrite d_map. vm_compute. reflexivity.
Qed.

Lemma demo_consistent : consistent fs d.
Proof.
  split; [done | split; [apply dir_header_ok | done] | split; [apply map_header_ok | done] | | |].
  - rewrite demo_directory. apply table_wf.
  - unfold in_use. rewrite demo_map. by repeat constructor.
  - change (dir_sectors fs) with [3; 4]. change (map_sectors fs) with [2]. intros s Hs Hs2.
    apply list_elem_of_singleton in Hs2 as ->. revert Hs. compute_check.
Qed.

Lemma demo_file : file_at fs d [97] 5 (FileHeader.mk 0 0 (replicate 30 0)).
Proof.
  split; [by rewrite demo_directory | by split | by rewrite d_hdr | by split; try done; constructor | | |].
  - unfold in_use. rewrite demo_map. by repeat constructor.
  - by intros ?%not_elem_of_nil.
  - apply Forall_cons. split; [| constructor]. change (dir_sectors fs ++ map_sectors fs) with [3; 4; 2].
    compute_check.
Qed.
End disk.

Definition sevens (n : nat) : list Z := replicate n 7.
Lemma sevens_length n : length (sevens n) = n.
Proof. apply length_replicate. Qed.
Lemma sevens_bytes n : Forall is_byte (sevens n).
Proof. by apply Forall_replicate. Qed.

Lemma new_table_wf : Forall Directory.entry_wf table /\ length table = NumDirEntries.
Proof. split; [apply table_wf | done]. Qed.

Lemma new_header_wf : FileHeader.wf map_header.
Proof. unfold FileHeader.wf. split_and!; [by split.. | reflexivity |]. compute_check. Qed.

Lemma directory_is_map_witness :
  Directory.Find table [97] = Ok 5 /\
  exists dir', Directory.Remove table [97] = Ok (true, dir') /\ Directory.wf dir' /\
    Directory.lookup_key dir' [97] = None.
Proof.
  destruct (Directory.directory_is_map table [97] 9 table_wf ltac:(by repeat constructor)
    ltac:(by split) ltac:(done)) as (Hf & _ & Hr).
  split; [exact Hf |]. destruct Hr as (dir' & E & Hw & _ & Hk). exists dir'.
  split; [exact E |]. split; [exact Hw |]. apply (Hk [97]).
Defined.

Lemma demo_can_create (d : SynchDisk.t) size :
  store_ok d -> contents d 2 = map_sector -> contents d 3 = dir_sector ->
  contents d 4 = replicate 128 0 -> contents d 5 = replicate 128 0 ->
  (1 + divRoundUp size SectorSize <=? 1000) = true -> can_create fs d [98] size.
Proof.
  intros Hok H2 H3 H4 H5 Hs. unfold can_create.
  rewrite (demo_directory d Hok H2 H3 H4 H5), (demo_map d Hok H2 H3 H4 H5). split; [reflexivity |]. split.
  - intros Hall. by apply Forall_cons in Hall as [_ [Hall _]%Forall_cons].
  - apply Z.leb_le in Hs. etransitivity; [exact Hs |]. vm_compute. discriminate.
Qed.

(** A file of 300 bytes, ["b"], and one of 4000 bytes, which overruns its header. *)
Lemma file_create_spec_witness :
  exists (d d' : SynchDisk.t), Create sevens table map_header fs d [98] 300 = Ok (true, d') /\
    Create sevens table map_header fs d [98] 4000 = Fault MemoryFault.
Proof.
  destruct demo_disk as (d & Hok & H2 & H3 & H4 & H5). exists d.
  pose proof (demo_consistent d Hok H2 H3 H4 H5) as Hc.
  assert (CString.is_name [98]) as Hn by (by repeat constructor).
  destruct (file_create_spec (H := SynchDisk.block_store) sevens table map_header sevens_length sevens_bytes
    new_table_wf new_header_wf fs d [98] 300 Hc Hn) as [_ Hgood]; [by split |].
  destruct (file_create_spec (H := SynchDisk.block_store) sevens table map_header sevens_length sevens_bytes
    new_table_wf new_header_wf fs d [98] 4000 Hc Hn) as [Hbad _]; [by split |].
  destruct Hgood as (b & d' & E & Hb & _); [intros [_ Hx]; by vm_compute in Hx |]. exists d'. split.
  - rewrite E. do 2 f_equal. apply Hb. by apply demo_can_create.
  - apply Hbad; [by apply demo_can_create | reflexivity].
Defined.

Lemma file_remove_spec_witness :
  exists (d d' : SynchDisk.t), Remove sevens table fs d [97] = Ok (true, d') /\
    Directory.lookup_key (directory_of fs d') [97] = None.
Proof.
  destruct demo_disk as (d & Hok & H2 & H3 & H4 & H5). exists d.
  pose proof (demo_consistent d Hok H2 H3 H4 H5) as Hc.
  destruct (file_remove_spec (H := SynchDisk.block_store) sevens table sevens_length sevens_bytes
    new_table_wf fs d [97] Hc) as [_ Hr]; [by repeat constructor |].
  destruct (Hr 5 _ (demo_file d Hok H2 H3 H4 H5)) as (d' & E & _ & Hq & _).
  exists d'. split; [exact E |]. rewrite Hq. by rewrite decide_True.
Defined.
End FsDemo.
