(* ===== verification/Copying.v ===== *)
(** * Copying: threads/main.cc [Copy] and [Print]

    The flags -cp and -p of the build without FILESYS_STUB: a file of the host is
    copied into the file system of the simulated disk, and a file of that is
    printed, both [TransferSize] bytes at a time.  They compose everything the
    file system is made of: Create and Open of FileSys.v, the reads and writes at
    a position of Files.v, the sectors of Disk.v.

    The files of the host are a map from names to bytes; [ReadPartial] gives as
    many bytes as there are, up to the number asked for. *)

From S2P Require Import Prelude Bitmap Disk Files FileSys.

Module Copying.
Import FileSystem.

Definition TransferSize : Z := 128.

Section tools.
Context `{BlockStore D} (fresh : nat -> list Z) (fresh_dir : list Directory.DirectoryEntry) (fresh_hdr : FileHeader.t).
(** The files of the host. *)
Context (unix : gmap (list Z) (list Z)).

(** [ReadPartial(fd, buffer, n)] with [rest] still to read. *)
Definition ReadPartial (rest : list Z) (n : Z) : list Z * list Z := (take (Z.to_nat n) rest, drop (Z.to_nat n) rest).

(** [while ((amountRead = ReadPartial(...)) > 0) openFile->Write(buffer, amountRead);] *)
Fixpoint write_chunks (fuel : nat) (rest : list Z) (openFile : OpenFile.t) (d : D) : res (OpenFile.t * D) :=
  match fuel with
  | O => Fault OutOfFuel
  | S fuel =>
      let '(buffer, rest) := ReadPartial rest TransferSize in
      let amountRead := Z.of_nat (length buffer) in
      if 0 <? amountRead then
        '(_, openFile, d) ← OpenFile.Write fresh openFile d buffer amountRead;
        write_chunks fuel rest openFile d
      else Ok (openFile, d)
  end.

Inductive message := CouldNotOpenInput | CouldNotCreateOutput | Copied.

Definition Copy (fs : t) (d : D) (from to : list Z) : res (message * D) :=
  match unix !! from with
  | None => Ok (CouldNotOpenInput, d)
  | Some bytes =>
      let fileLength := s32 (Z.of_nat (length bytes)) in
      '(ok, d) ← Create fresh fresh_dir fresh_hdr fs d to fileLength;
      if negb ok then Ok (CouldNotCreateOutput, d)
      else
        '(openFile, d) ← Open fresh_dir fs d to;
        match openFile with
        | None => Fault AssertFailure
        | Some openFile => '(_, d) ← write_chunks (S (length bytes)) bytes openFile d; Ok (Copied, d)
        end
  end.

(** [while ((amountRead = openFile->Read(buffer, TransferSize)) > 0)], and what it prints. *)
Fixpoint print_chunks (fuel : nat) (openFile : OpenFile.t) (d : D) : res (list Z * D) :=
  match fuel with
  | O => Fault OutOfFuel
  | S fuel =>
      '(buffer, openFile, d) ← OpenFile.Read openFile d TransferSize;
      if 0 <? Z.of_nat (length buffer) then
        '(out, d) ← print_chunks fuel openFile d;
        Ok (buffer ++ out, d)
      else Ok ([], d)
  end.

(** [None] when the file cannot be opened. *)
Definition Print (fs : t) (d : D) (name : list Z) : res (option (list Z) * D) :=
  '(openFile, d) ← Open fresh_dir fs d name;
  match openFile with
  | None => Ok (None, d)
  | Some openFile =>
      '(out, d) ← print_chunks (S (Z.to_nat (OpenFile.Length openFile))) openFile d;
      Ok (Some out, d)
  end.
End tools.

(** ** The loops *)

Lemma take_inserts_end {A} i (k l : list A) : (i + length k <= length l)%nat -> take (i + length k) (list_inserts i k l) = take i l ++ k.
Proof.
  intros Hl. apply list_eq. intros j. destruct (decide (j < i + length k)%nat) as [Hj | Hj].
  - rewrite lookup_take_lt, lookup_inserts by lia. destruct (decide (j < i)%nat) as [Hi | Hi].
    + rewrite decide_False by lia. rewrite lookup_app_l by (rewrite length_take; lia). by rewrite lookup_take_lt.
    + rewrite decide_True by lia. rewrite lookup_app_r by (rewrite length_take; lia). f_equal. rewrite length_take. lia.
  - rewrite lookup_take_ge by lia. symmetry. apply lookup_ge_None_2. rewrite length_app, length_take. lia.
Qed.

Lemma clip_inside len n pos : 0 < n -> pos + n <= len -> OpenFile.clip len n pos = n.
Proof.
  intros Hn Hp. unfold OpenFile.clip. destruct (Z.leb_spec n 0); [lia |]. destruct (Z.leb_spec len pos); [lia |]. cbn [orb].
  destruct (Z.ltb_spec len (pos + n)); [lia | done].
Qed.

Section loops.
Context `{BlockStoreLaws D} (fresh : nat -> list Z).
Hypothesis fresh_length : forall n, length (fresh n) = n.
Hypothesis fresh_bytes : forall n, Forall is_byte (fresh n).
#[local] Set Default Proof Using "Type*".

(** The bytes from the position on become the rest of the input. *)
Lemma write_chunks_spec fuel rest h pos d : OpenFile.hdr_ok h -> store_ok d -> Forall is_byte rest -> 0 <= pos ->
  pos + Z.of_nat (length rest) = FileHeader.numBytes h -> (length rest < fuel)%nat ->
  exists d' f', write_chunks fresh fuel rest (OpenFile.mk h pos) d = Ok (f', d') /\ store_ok d' /\
    OpenFile.file_bytes h d' = take (Z.to_nat pos) (OpenFile.file_bytes h d) ++ rest /\
    forall s, sector_in_range s -> s ∉ OpenFile.data_sectors h -> contents d' s = contents d s.
Proof.
  intros Ho. revert rest pos d. induction fuel as [| fuel IH]; intros rest pos d Hd Hb Hp Hl Hf; [lia |].
  cbn [write_chunks ReadPartial]. pose proof (OpenFile.length_file h d Ho Hd) as Hlf.
  destruct (Z.ltb_spec 0 (Z.of_nat (length (take (Z.to_nat TransferSize) rest)))) as [Hpos | Hz].
  2: { rewrite length_take in Hz. destruct rest as [| b rest]; [| unfold TransferSize in Hz; cbn [length] in Hz; lia].
    eexists d, _. split_and!; [done | done | | done]. rewrite app_nil_r, take_ge; [done |]. cbn [length] in Hl. lia. }
  set (buf := take (Z.to_nat TransferSize) rest) in *. set (n := Z.of_nat (length buf)) in *. assert (n = Z.of_nat (length buf)) as Hnn by done. clearbody n.
  assert (n <= Z.of_nat (length rest)) as Hn by (rewrite Hnn; unfold buf; rewrite length_take; lia).
  assert (clip_n : OpenFile.clip (FileHeader.numBytes h) n pos = n) by (apply clip_inside; lia).
  destruct (OpenFile.WriteAt_spec fresh fresh_length fresh_bytes (OpenFile.mk h pos) d buf n pos Ho Hd Hp) as (d1 & E & Hd1 & Hfb & Hne);
    [lia | by apply Forall_take |].
  cbn [OpenFile.hdr] in *. rewrite clip_n in *.
  unfold OpenFile.Write. cbn [OpenFile.seekPosition OpenFile.hdr]. rewrite E. cbn [mbind res_bind].
  assert (length rest = length buf + length (drop (Z.to_nat TransferSize) rest))%nat as Hsplit
    by (rewrite <- length_app; unfold buf; by rewrite take_drop).
  destruct (IH (drop (Z.to_nat TransferSize) rest) (pos + n) d1) as (d2 & f2 & E2 & Hd2 & Hfb2 & Hne2);
    [done | by apply Forall_drop | lia | lia | lia |].
  exists d2, f2. split_and!; [done | done | | intros s Hs Hin; by rewrite Hne2, Hne].
  rewrite Hfb2, Hfb, (take_ge buf) by lia. rewrite <- (take_drop (Z.to_nat TransferSize) rest) at 2. fold buf.
  rewrite app_assoc. f_equal. replace (Z.to_nat (pos + n)) with (Z.to_nat pos + length buf)%nat by lia.
  apply take_inserts_end. lia.
Qed.

(** What is printed is the file from the position on. *)
Lemma print_chunks_spec fuel h pos d : OpenFile.hdr_ok h -> store_ok d -> 0 <= pos <= FileHeader.numBytes h ->
  FileHeader.numBytes h - pos < Z.of_nat fuel ->
  exists d', print_chunks fuel (OpenFile.mk h pos) d = Ok (drop (Z.to_nat pos) (OpenFile.file_bytes h d), d') /\
    store_ok d' /\ forall s, contents d' s = contents d s.
Proof using H0.
  clear fresh_length fresh_bytes. intros Ho. revert pos d. induction fuel as [| fuel IH]; intros pos d Hd Hp Hf; [lia |].
  cbn [print_chunks]. pose proof (OpenFile.length_file h d Ho Hd) as Hlf.
  destruct (OpenFile.ReadAt_spec (OpenFile.mk h pos) d TransferSize pos Ho Hd ltac:(lia)) as (d1 & E & Hd1 & Hs1).
  unfold OpenFile.Read. cbn [OpenFile.seekPosition OpenFile.hdr] in *. rewrite E. cbn [mbind res_bind].
  set (n := OpenFile.clip (FileHeader.numBytes h) TransferSize pos) in *.
  assert (n = Z.min TransferSize (FileHeader.numBytes h - pos)) as Hn.
  { unfold n, OpenFile.clip. destruct (Z.leb_spec TransferSize 0); [by unfold TransferSize in * |].
    destruct (Z.leb_spec (FileHeader.numBytes h) pos); cbn [orb]; [unfold TransferSize; lia |].
    destruct (Z.ltb_spec (FileHeader.numBytes h) (pos + TransferSize)); lia. }
  set (buf := slice (Z.to_nat pos) (Z.to_nat n) (OpenFile.file_bytes h d)).
  assert (length buf = Z.to_nat n) as Hbuf by (apply length_slice; unfold TransferSize in *; lia).
  destruct (Z.ltb_spec 0 (Z.of_nat (length buf))) as [Hpos | Hz].
  2: { exists d1. split_and!; [| done | done]. rewrite drop_ge; [done |]. unfold TransferSize in *. lia. }
  destruct (IH (pos + Z.of_nat (length buf)) d1 Hd1) as (d2 & E2 & Hd2 & Hs2); [unfold TransferSize in *; lia | lia |].
  rewrite E2. cbn [mbind res_bind]. exists d2. split_and!; [| done | intros s; by rewrite Hs2].
  rewrite (file_bytes_same h d d1) by (intros; apply Hs1). do 2 f_equal.
  replace (Z.to_nat (pos + Z.of_nat (length buf))) with (Z.to_nat pos + length buf)%nat by lia.
  rewrite Hbuf. unfold buf, slice. rewrite <- drop_drop. apply take_drop.
Qed.
End loops.

(** ** The tools *)

Section spec.
Context `{BlockStoreLaws D} (fresh : nat -> list Z) (fresh_dir : list Directory.DirectoryEntry) (fresh_hdr : FileHeader.t).
Hypothesis fresh_length : forall n, length (fresh n) = n.
Hypothesis fresh_bytes : forall n, Forall is_byte (fresh n).
Hypothesis fresh_dir_wf : Forall Directory.entry_wf fresh_dir /\ length fresh_dir = NumDirEntries.
Hypothesis fresh_hdr_wf : FileHeader.wf fresh_hdr.
Context (unix : gmap (list Z) (list Z)).
#[local] Set Default Proof Using "Type*".

(** [Print] of a file the directory names gives its bytes. *)
Lemma Print_file fs d nm k h : consistent fs d -> CString.is_name nm -> file_at fs d nm k h ->
  exists d', Print fresh_dir fs d nm = Ok (Some (OpenFile.file_bytes h d), d') /\ forall s, contents d' s = contents d s.
Proof.
  intros Hc Hn [Hk Hr Hh Ho _ _ _]. unfold Print.
  destruct (Open_found fresh_dir fresh_dir_wf fs d nm k Hc Hn Hk Hr) as (d1 & E & Hd1 & Hs1). rewrite E. cbn [mbind res_bind].
  rewrite Hh. unfold OpenFile.Length, FileHeader.FileLength. cbn [OpenFile.hdr].
  destruct (print_chunks_spec (S (Z.to_nat (FileHeader.numBytes h))) h 0 d1 Ho Hd1) as (d2 & E2 & _ & Hs2).
  { pose proof (OpenFile.ho_size _ Ho). lia. }
  { lia. }
  rewrite E2. cbn [mbind res_bind]. exists d2. rewrite drop_0, (file_bytes_same h d d1) by (intros; apply Hs1).
  split; [done |]. intros s. by rewrite Hs2.
Qed.

(** What the directory and the free map say depends on their own sectors. *)
Lemma consistent_own fs d d' : consistent fs d -> store_ok d' ->
  (forall s, s ∈ dir_sectors fs ++ map_sectors fs -> contents d' s = contents d s) ->
  consistent fs d' /\ directory_of fs d' = directory_of fs d /\ free_map fs d' = free_map fs d.
Proof.
  intros [H1 H2 H3 H4 H5 H6] Hd Hs.
  assert (directory_of fs d' = directory_of fs d) as Hdir by (apply directory_same; intros; apply Hs, elem_of_app; by left).
  assert (free_map fs d' = free_map fs d) as Hmap by (apply free_map_same; intros; apply Hs, elem_of_app; by right).
  split_and!; [| done | done]. split; [done | done | done | by rewrite Hdir | by unfold in_use; rewrite Hmap | done].
Qed.

(** A file stays when its name, its marks and its sectors do. *)
Lemma file_at_frame fs d d' nm k h : file_at fs d nm k h ->
  Directory.lookup_key (directory_of fs d') (Directory.key nm) = Directory.lookup_key (directory_of fs d) (Directory.key nm) ->
  (forall s, s ∈ k :: OpenFile.data_sectors h -> in_use fs d' s) ->
  (forall s, s ∈ k :: OpenFile.data_sectors h -> contents d' s = contents d s) ->
  file_at fs d' nm k h /\ OpenFile.file_bytes h d' = OpenFile.file_bytes h d.
Proof.
  intros [H1 H2 H3 H4 H5 H6 H7] Hk Hu Hs. split.
  - split; [by rewrite Hk | done | by rewrite Hs by (by left) | done | by apply Forall_forall | done | done].
  - apply file_bytes_same. intros s Hin. apply Hs. by right.
Qed.

(** The new file shares no sector with one that was there. *)
Lemma created_apart fs d d' nm nm' size k h k' h' : created fs d d' nm size k h -> file_at fs d nm' k' h' ->
  forall s, s ∈ k' :: OpenFile.data_sectors h' -> s <> Z.of_nat k /\ s ∉ OpenFile.data_sectors h.
Proof.
  intros Hcr Hf s Hs. pose proof (fa_used _ _ _ _ _ Hf) as Hu. rewrite Forall_forall in Hu. specialize (Hu s Hs).
  unfold in_use in Hu. pose proof (cr_fresh _ _ _ _ _ _ _ Hcr) as Hfr. rewrite Forall_forall in Hfr. split.
  - intros ->. rewrite Nat2Z.id, (cr_clear _ _ _ _ _ _ _ Hcr) in Hu. done.
  - intros Hin. destruct (Hfr s Hin) as [Hc _]. by rewrite Hc in Hu.
Qed.

Lemma file_sector fs d nm k h s : file_at fs d nm k h -> s ∈ k :: OpenFile.data_sectors h ->
  sector_in_range s /\ s ∉ dir_sectors fs ++ map_sectors fs.
Proof.
  intros Hf Hs. pose proof (fa_apart _ _ _ _ _ Hf) as Ha. rewrite Forall_forall in Ha. split; [| by apply Ha].
  apply elem_of_cons in Hs as [-> | Hs]; [apply (fa_range _ _ _ _ _ Hf) |].
  pose proof (OpenFile.ho_range _ (fa_ok _ _ _ _ _ Hf)) as Hr. rewrite Forall_forall in Hr. by apply Hr.
Qed.

(** C18: What is copied in is what is printed: for a file of the host that fits in
    a file of the disk, Copy returns, and makes the file exactly when Create can;
    otherwise every sector is as it was.  When it does, the disk is consistent,
    Print of the new name prints the bytes of the file of the host, and every file
    that was there is where it was, with the bytes it had. *)
Theorem copy_then_print fs d from to bytes : consistent fs d -> CString.is_name to -> unix !! from = Some bytes ->
  Forall is_byte bytes -> Z.of_nat (length bytes) <= MaxFileSize ->
  exists msg d', Copy fresh fresh_dir fresh_hdr unix fs d from to = Ok (msg, d') /\ consistent fs d' /\
    (msg = Copied <-> can_create fs d to (Z.of_nat (length bytes))) /\
    (msg <> Copied -> msg = CouldNotCreateOutput /\ forall s, contents d' s = contents d s) /\
    (msg = Copied ->
       (exists d'', Print fresh_dir fs d' to = Ok (Some bytes, d'')) /\
       forall nm k h, Directory.key nm <> Directory.key to -> file_at fs d nm k h ->
         file_at fs d' nm k h /\ OpenFile.file_bytes h d' = OpenFile.file_bytes h d).
Proof.
  intros Hc Hn Hu Hb Hl. unfold Copy. rewrite Hu. rewrite s32_id by (unfold is_s32; change MaxFileSize with 3840 in Hl; lia).
  destruct (Create_fits fresh fresh_dir fresh_hdr fresh_length fresh_bytes fresh_dir_wf fresh_hdr_wf fs d to (Z.of_nat (length bytes)) Hc Hn
    ltac:(lia)) as ([|] & d1 & E & Hcan & Hno & Hyes); rewrite E; cbn [mbind res_bind negb].
  2: { destruct (Hno eq_refl) as [Hc1 Hs1]. exists CouldNotCreateOutput, d1. split_and!; try done.
       split; [done |]. intros Hx. by apply Hcan in Hx. }
  destruct (Hyes eq_refl) as (k & h & Hcr).
  destruct (Open_created fresh_dir fresh_dir_wf fs d d1 to _ k h Hn Hcr) as (d2 & E2 & Hd2 & Hs2). rewrite E2. cbn [mbind res_bind].
  pose proof (created_file_at fs d d1 to _ k h Hc Hcr) as Hnew. pose proof (fa_ok _ _ _ _ _ Hnew) as Ho.
  destruct (write_chunks_spec fresh fresh_length fresh_bytes (S (length bytes)) bytes h 0 d2 Ho Hd2 Hb) as (d3 & f3 & E3 & Hd3 & Hfb & Hne);
    [lia | rewrite (cr_size _ _ _ _ _ _ _ Hcr); lia | lia |].
  rewrite E3. cbn [mbind res_bind]. exists Copied, d3. rewrite take_0, app_nil_l in Hfb.
  assert (forall s, sector_in_range s -> s ∉ OpenFile.data_sectors h -> contents d3 s = contents d1 s) as H31
    by (intros s Hr Hs; by rewrite Hne, Hs2).
  destruct (consistent_own fs d1 d3 (cr_consistent _ _ _ _ _ _ _ Hcr) Hd3) as (Hc3 & Hdir & Hmap).
  { intros s Hs. apply H31; [by eapply own_sectors_range; [apply Hcr |] |]. intros Hin.
    by destruct (file_sector _ _ _ _ _ s Hnew ltac:(by right)). }
  assert (forall nm' k' h', file_at fs d1 nm' k' h' -> (forall s, s ∈ k' :: OpenFile.data_sectors h' -> contents d3 s = contents d1 s) ->
    file_at fs d3 nm' k' h' /\ OpenFile.file_bytes h' d3 = OpenFile.file_bytes h' d1) as Hkeep.
  { intros nm' k' h' Hf Hs. apply file_at_frame; [done | by rewrite Hdir | | done]. intros s Hs'. unfold in_use. rewrite Hmap.
    pose proof (fa_used _ _ _ _ _ Hf) as Hu'. rewrite Forall_forall in Hu'. by apply Hu'. }
  split_and!; [done | done | split; [intros _; by apply Hcan | done] | done |]. intros _. split.
  - assert (file_at fs d3 to (Z.of_nat k) h) as Hf3.
    { destruct Hnew. split; try done; [by rewrite Hdir | | by unfold in_use; rewrite Hmap].
      rewrite H31 by done. done. }
    destruct (Print_file fs d3 to _ h Hc3 Hn Hf3) as (d4 & E4 & _). exists d4. by rewrite E4, Hfb.
  - intros nm k' h' Hkey Hf. pose proof (created_apart _ _ _ _ _ _ _ _ _ _ Hcr Hf) as Hap.
    destruct (file_at_frame fs d d1 nm k' h' Hf) as [Hf1 Hb1].
    + rewrite (cr_directory _ _ _ _ _ _ _ Hcr). by rewrite decide_False.
    + intros s Hs. apply (cr_map _ _ _ _ _ _ _ Hcr); [by apply (file_sector _ _ _ _ _ s Hf Hs) |]. left.
      pose proof (fa_used _ _ _ _ _ Hf) as Hu'. rewrite Forall_forall in Hu'. by apply Hu'.
    + intros s Hs. destruct (file_sector _ _ _ _ _ s Hf Hs), (Hap s Hs). by apply (cr_others _ _ _ _ _ _ _ Hcr).
    + rewrite <- Hb1. apply Hkeep; [done |]. intros s Hs. destruct (file_sector _ _ _ _ _ s Hf Hs), (Hap s Hs). by apply H31.
Qed.
End spec.

(** ** A file of 300 bytes *)

Module CopyingDemo.
Import FsDemo.

Definition three_hundred : list Z := (fun i => Z.of_nat i mod 256) <$> seq 0 300.
Definition host : gmap (list Z) (list Z) := {[ [102] := three_hundred ]}.

Lemma three_hundred_bytes : Forall is_byte three_hundred.
Proof. apply is_byte_dec_all. vm_compute. reflexivity. Qed.

Lemma copy_then_print_witness :
  exists (d d1 d2 : SynchDisk.t), Copy sevens table map_header host fs d [102] [98] = Ok (Copied, d1) /\
    Print table fs d1 [98] = Ok (Some three_hundred, d2).
Proof.
  destruct demo_disk as (d & Hok & H2 & H3 & H4 & H5). exists d. pose proof (demo_consistent d Hok H2 H3 H4 H5) as Hc.
  destruct (copy_then_print (H := SynchDisk.block_store) sevens table map_header sevens_length sevens_bytes
    new_table_wf new_header_wf host fs d [102] [98] three_hundred Hc) as (msg & d1 & E & _ & Hm & _ & Hp).
  - by repeat constructor.
  - reflexivity.
  - exact three_hundred_bytes.
  - vm_compute. discriminate.
  - assert (msg = Copied) as ->.
    { apply Hm. unfold can_create. rewrite (demo_directory d Hok H2 H3 H4 H5), (demo_map d Hok H2 H3 H4 H5). split; [reflexivity |]. split.
      - intros Hall. by apply Forall_cons in Hall as [_ [Hall _]%Forall_cons].
      - vm_compute. discriminate. }
    destruct (Hp eq_refl) as [(d2 & E2) _]. exists d1, d2. exact (conj E E2).
Defined.
End CopyingDemo.
End Copying.
