(* ===== verification/CommandLine.v ===== *)
(** * CommandLine: the arguments of nachos, threads/main.cc [main] and
      threads/kernel.cc [Kernel::Kernel]

    The command line is read twice: [main] takes what says what to do, and the
    constructor of the kernel what sets its parameters.  Each skips what it does
    not know, one word at a time, so that a word that is the argument of a flag of
    the one is looked at as a flag by the other. *)

From Stdlib Require Import String Ascii.
From S2P Require Import Prelude.

#[local] Open Scope string_scope.
#[local] Open Scope Z_scope.

Module CommandLine.

(** ** Numbers: [atoi] *)

Definition is_space (c : ascii) : bool := let n := Z.of_N (N_of_ascii c) in (9 <=? n) && (n <=? 13) || (n =? 32).
Definition digit (c : ascii) : option Z :=
  let n := Z.of_N (N_of_ascii c) in if (48 <=? n) && (n <=? 57) then Some (n - 48) else None.

Fixpoint digits (acc : Z) (s : string) : Z :=
  match s with
  | String c s => match digit c with Some v => digits (10 * acc + v) s | None => acc end
  | EmptyString => acc
  end.
Fixpoint skip_spaces (s : string) : string :=
  match s with String c s' => if is_space c then skip_spaces s' else s | EmptyString => s end.
(** A value outside [int] is undefined in C. *)
Definition atoi (s : string) : res Z :=
  let v := match skip_spaces s with
           | String "-" s => - digits 0 s
           | String "+" s => digits 0 s
           | s => digits 0 s
           end in
  if decide (is_s32 v) then Ok v else Fault ArithFault.

Example atoi_examples : atoi " -42x" = Ok (-42) /\ atoi "7" = Ok 7 /\ atoi "x" = Ok 0 /\ atoi "2147483648" = Fault ArithFault.
Proof. by vm_compute. Qed.

(** [strcmp(a, b) == 0] *)
Definition streq : string -> string -> bool := String.eqb.

Section cmd.
(** Built with FILESYS_STUB, as it is, or without. *)
Context (FILESYS_STUB : bool).
(** The C type double: 1, and what [atof] reads. *)
Context {double : Type} (one : double) (atof : string -> double).

(** ** Kernel::Kernel *)

(** The parameters, and the seed RandomInit was given last. *)
Record Kernel := mkKernel {
  randomSlice : bool;
  debugUserProg : bool;
  consoleIn : option string;
  consoleOut : option string;
  formatFlag : bool;
  reliability : double;
  hostName : Z;
  seed : option Z;
}.
Definition Kernel_default : Kernel := mkKernel false false None None false one 0 None.

(** The loop over [argv]; what follows [argv[i]] must not be empty where the code
    asserts [i + 1 < argc]. *)
Fixpoint Kernel_args (argv : list string) (k : Kernel) : res Kernel :=
  match argv with
  | [] => Ok k
  | arg :: rest =>
      if streq arg "-rs" then
        match rest with
        | a :: rest => n ← atoi a; Kernel_args rest (mkKernel true (debugUserProg k) (consoleIn k) (consoleOut k) (formatFlag k) (reliability k) (hostName k) (Some n))
        | [] => Fault AssertFailure
        end
      else if streq arg "-s" then
        Kernel_args rest (mkKernel (randomSlice k) true (consoleIn k) (consoleOut k) (formatFlag k) (reliability k) (hostName k) (seed k))
      else if streq arg "-ci" then
        match rest with
        | a :: rest => Kernel_args rest (mkKernel (randomSlice k) (debugUserProg k) (Some a) (consoleOut k) (formatFlag k) (reliability k) (hostName k) (seed k))
        | [] => Fault AssertFailure
        end
      else if streq arg "-co" then
        match rest with
        | a :: rest => Kernel_args rest (mkKernel (randomSlice k) (debugUserProg k) (consoleIn k) (Some a) (formatFlag k) (reliability k) (hostName k) (seed k))
        | [] => Fault AssertFailure
        end
      else if negb FILESYS_STUB && streq arg "-f" then
        Kernel_args rest (mkKernel (randomSlice k) (debugUserProg k) (consoleIn k) (consoleOut k) true (reliability k) (hostName k) (seed k))
      else if streq arg "-n" then
        match rest with
        | a :: rest => Kernel_args rest (mkKernel (randomSlice k) (debugUserProg k) (consoleIn k) (consoleOut k) (formatFlag k) (atof a) (hostName k) (seed k))
        | [] => Fault AssertFailure
        end
      else if streq arg "-m" then
        match rest with
        | a :: rest => n ← atoi a; Kernel_args rest (mkKernel (randomSlice k) (debugUserProg k) (consoleIn k) (consoleOut k) (formatFlag k) (reliability k) n (seed k))
        | [] => Fault AssertFailure
        end
      else Kernel_args rest k
  end.
(** [argv[0]] is the name of the command. *)
Definition Kernel_new (argv : list string) : res Kernel := Kernel_args (drop 1 argv) Kernel_default.

(** ** main *)

Record Options := mkOptions {
  debugArg : string;
  userProgName : option string;
  threadTestFlag : bool;
  consoleTestFlag : bool;
  networkTestFlag : bool;
  copyUnixFileName : option string;
  copyNachosFileName : option string;
  printFileName : option string;
  removeFileName : option string;
  dirListFlag : bool;
  dumpFlag : bool;
}.
Definition Options_default : Options := mkOptions "" None false false false None None None None false false.

Fixpoint main_args (argv : list string) (o : Options) : res Options :=
  match argv with
  | [] => Ok o
  | arg :: rest =>
      if streq arg "-d" then
        match rest with
        | a :: rest => main_args rest (mkOptions a (userProgName o) (threadTestFlag o) (consoleTestFlag o) (networkTestFlag o) (copyUnixFileName o) (copyNachosFileName o) (printFileName o) (removeFileName o) (dirListFlag o) (dumpFlag o))
        | [] => Fault AssertFailure
        end
      else if streq arg "-x" then
        match rest with
        | a :: rest => main_args rest (mkOptions (debugArg o) (Some a) (threadTestFlag o) (consoleTestFlag o) (networkTestFlag o) (copyUnixFileName o) (copyNachosFileName o) (printFileName o) (removeFileName o) (dirListFlag o) (dumpFlag o))
        | [] => Fault AssertFailure
        end
      else if streq arg "-K" then
        main_args rest (mkOptions (debugArg o) (userProgName o) true (consoleTestFlag o) (networkTestFlag o) (copyUnixFileName o) (copyNachosFileName o) (printFileName o) (removeFileName o) (dirListFlag o) (dumpFlag o))
      else if streq arg "-C" then
        main_args rest (mkOptions (debugArg o) (userProgName o) (threadTestFlag o) true (networkTestFlag o) (copyUnixFileName o) (copyNachosFileName o) (printFileName o) (removeFileName o) (dirListFlag o) (dumpFlag o))
      else if streq arg "-N" then
        main_args rest (mkOptions (debugArg o) (userProgName o) (threadTestFlag o) (consoleTestFlag o) true (copyUnixFileName o) (copyNachosFileName o) (printFileName o) (removeFileName o) (dirListFlag o) (dumpFlag o))
      else if negb FILESYS_STUB && streq arg "-cp" then
        match rest with
        | a :: b :: rest => main_args rest (mkOptions (debugArg o) (userProgName o) (threadTestFlag o) (consoleTestFlag o) (networkTestFlag o) (Some a) (Some b) (printFileName o) (removeFileName o) (dirListFlag o) (dumpFlag o))
        | _ => Fault AssertFailure
        end
      else if negb FILESYS_STUB && streq arg "-p" then
        match rest with
        | a :: rest => main_args rest (mkOptions (debugArg o) (userProgName o) (threadTestFlag o) (consoleTestFlag o) (networkTestFlag o) (copyUnixFileName o) (copyNachosFileName o) (Some a) (removeFileName o) (dirListFlag o) (dumpFlag o))
        | [] => Fault AssertFailure
        end
      else if negb FILESYS_STUB && streq arg "-r" then
        match rest with
        | a :: rest => main_args rest (mkOptions (debugArg o) (userProgName o) (threadTestFlag o) (consoleTestFlag o) (networkTestFlag o) (copyUnixFileName o) (copyNachosFileName o) (printFileName o) (Some a) (dirListFlag o) (dumpFlag o))
        | [] => Fault AssertFailure
        end
      else if negb FILESYS_STUB && streq arg "-l" then
        main_args rest (mkOptions (debugArg o) (userProgName o) (threadTestFlag o) (consoleTestFlag o) (networkTestFlag o) (copyUnixFileName o) (copyNachosFileName o) (printFileName o) (removeFileName o) true (dumpFlag o))
      else if negb FILESYS_STUB && streq arg "-D" then
        main_args rest (mkOptions (debugArg o) (userProgName o) (threadTestFlag o) (consoleTestFlag o) (networkTestFlag o) (copyUnixFileName o) (copyNachosFileName o) (printFileName o) (removeFileName o) (dirListFlag o) true)
      else main_args rest o
  end.

(** ** What main does then, in its order *)

Inductive action :=
  | Initialize (k : Kernel)                 (** [new Kernel], [Initialize] *)
  | ThreadSelfTest | ConsoleTest | NetworkTest
  | RemoveFile (name : string) | CopyFile (from to : string) | PrintFileSystem | ListDirectory | PrintFile (name : string)
  | Execute (prog : string)                 (** [Load]; when it succeeds, Execute, which does not return *)
  | Halt.

Definition when_ (b : bool) (a : action) : list action := if b then [a] else [].
Definition if_some {A} (x : option A) (f : A -> action) : list action := match x with Some a => [f a] | None => [] end.

Definition plan (o : Options) : list action :=
  when_ (threadTestFlag o) ThreadSelfTest ++ when_ (consoleTestFlag o) ConsoleTest ++ when_ (networkTestFlag o) NetworkTest ++
  (if FILESYS_STUB then [] else
     if_some (removeFileName o) RemoveFile ++
     match copyUnixFileName o, copyNachosFileName o with Some a, Some b => [CopyFile a b] | _, _ => [] end ++
     when_ (dumpFlag o) PrintFileSystem ++ when_ (dirListFlag o) ListDirectory ++ if_some (printFileName o) PrintFile) ++
  if_some (userProgName o) Execute ++ [Halt].

Definition main (argv : list string) : res (list action) :=
  o ← main_args (drop 1 argv) Options_default;
  k ← Kernel_new argv;
  Ok (Initialize k :: plan o).

(** ** The command line of a list of options *)

Inductive option_ :=
  | O_rs (seed : string) | O_s | O_ci (file : string) | O_co (file : string) | O_f | O_n (rel : string) | O_m (host : string)
  | O_d (flags : string) | O_z | O_x (prog : string) | O_K | O_C | O_N
  | O_cp (from to : string) | O_p (name : string) | O_r (name : string) | O_l | O_D | O_u.

Definition render (o : option_) : list string :=
  match o with
  | O_rs a => ["-rs"; a] | O_s => ["-s"] | O_ci a => ["-ci"; a] | O_co a => ["-co"; a] | O_f => ["-f"]
  | O_n a => ["-n"; a] | O_m a => ["-m"; a] | O_d a => ["-d"; a] | O_z => ["-z"] | O_x a => ["-x"; a]
  | O_K => ["-K"] | O_C => ["-C"] | O_N => ["-N"] | O_cp a b => ["-cp"; a; b] | O_p a => ["-p"; a] | O_r a => ["-r"; a]
  | O_l => ["-l"] | O_D => ["-D"] | O_u => ["-u"]
  end.

(** What an option means to the kernel, and to [main]. *)
Definition means_kernel (o : option_) (k : Kernel) : res Kernel :=
  match o with
  | O_rs a => n ← atoi a; Ok (mkKernel true (debugUserProg k) (consoleIn k) (consoleOut k) (formatFlag k) (reliability k) (hostName k) (Some n))
  | O_s => Ok (mkKernel (randomSlice k) true (consoleIn k) (consoleOut k) (formatFlag k) (reliability k) (hostName k) (seed k))
  | O_ci a => Ok (mkKernel (randomSlice k) (debugUserProg k) (Some a) (consoleOut k) (formatFlag k) (reliability k) (hostName k) (seed k))
  | O_co a => Ok (mkKernel (randomSlice k) (debugUserProg k) (consoleIn k) (Some a) (formatFlag k) (reliability k) (hostName k) (seed k))
  | O_f => Ok (mkKernel (randomSlice k) (debugUserProg k) (consoleIn k) (consoleOut k) true (reliability k) (hostName k) (seed k))
  | O_n a => Ok (mkKernel (randomSlice k) (debugUserProg k) (consoleIn k) (consoleOut k) (formatFlag k) (atof a) (hostName k) (seed k))
  | O_m a => n ← atoi a; Ok (mkKernel (randomSlice k) (debugUserProg k) (consoleIn k) (consoleOut k) (formatFlag k) (reliability k) n (seed k))
  | _ => Ok k
  end.
Definition means_main (o : option_) (p : Options) : Options :=
  match o with
  | O_d a => mkOptions a (userProgName p) (threadTestFlag p) (consoleTestFlag p) (networkTestFlag p) (copyUnixFileName p) (copyNachosFileName p) (printFileName p) (removeFileName p) (dirListFlag p) (dumpFlag p)
  | O_x a => mkOptions (debugArg p) (Some a) (threadTestFlag p) (consoleTestFlag p) (networkTestFlag p) (copyUnixFileName p) (copyNachosFileName p) (printFileName p) (removeFileName p) (dirListFlag p) (dumpFlag p)
  | O_K => mkOptions (debugArg p) (userProgName p) true (consoleTestFlag p) (networkTestFlag p) (copyUnixFileName p) (copyNachosFileName p) (printFileName p) (removeFileName p) (dirListFlag p) (dumpFlag p)
  | O_C => mkOptions (debugArg p) (userProgName p) (threadTestFlag p) true (networkTestFlag p) (copyUnixFileName p) (copyNachosFileName p) (printFileName p) (removeFileName p) (dirListFlag p) (dumpFlag p)
  | O_N => mkOptions (debugArg p) (userProgName p) (threadTestFlag p) (consoleTestFlag p) true (copyUnixFileName p) (copyNachosFileName p) (printFileName p) (removeFileName p) (dirListFlag p) (dumpFlag p)
  | O_cp a b => mkOptions (debugArg p) (userProgName p) (threadTestFlag p) (consoleTestFlag p) (networkTestFlag p) (Some a) (Some b) (printFileName p) (removeFileName p) (dirListFlag p) (dumpFlag p)
  | O_p a => mkOptions (debugArg p) (userProgName p) (threadTestFlag p) (consoleTestFlag p) (networkTestFlag p) (copyUnixFileName p) (copyNachosFileName p) (Some a) (removeFileName p) (dirListFlag p) (dumpFlag p)
  | O_r a => mkOptions (debugArg p) (userProgName p) (threadTestFlag p) (consoleTestFlag p) (networkTestFlag p) (copyUnixFileName p) (copyNachosFileName p) (printFileName p) (Some a) (dirListFlag p) (dumpFlag p)
  | O_l => mkOptions (debugArg p) (userProgName p) (threadTestFlag p) (consoleTestFlag p) (networkTestFlag p) (copyUnixFileName p) (copyNachosFileName p) (printFileName p) (removeFileName p) true (dumpFlag p)
  | O_D => mkOptions (debugArg p) (userProgName p) (threadTestFlag p) (consoleTestFlag p) (networkTestFlag p) (copyUnixFileName p) (copyNachosFileName p) (printFileName p) (removeFileName p) (dirListFlag p) true
  | _ => p
  end.

Fixpoint foldM {A S} (f : A -> S -> res S) (l : list A) (s : S) : res S :=
  match l with [] => Ok s | a :: l => s ← f a s; foldM f l s end.

(** No argument is itself a flag, and the options of the file system need one. *)
Definition flags : list string :=
  ["-rs"; "-s"; "-ci"; "-co"; "-f"; "-n"; "-m"; "-d"; "-z"; "-x"; "-K"; "-C"; "-N"; "-cp"; "-p"; "-r"; "-l"; "-D"; "-u"].
Definition plain (o : option_) : Prop :=
  Forall (fun a => a ∉ flags) (drop 1 (render o)) /\
  (FILESYS_STUB = true -> match o with O_f | O_cp _ _ | O_p _ | O_r _ | O_l | O_D => False | _ => True end).

Lemma streq_refl a : streq a a = true.
Proof. apply String.eqb_refl. Qed.
Lemma streq_flag a f : a ∉ flags -> f ∈ flags -> streq a f = false.
Proof. intros Ha Hf. apply String.eqb_neq. by intros ->. Qed.

(** A word that is no flag is skipped. *)
Lemma Kernel_args_skip a rest k : a ∉ flags -> Kernel_args (a :: rest) k = Kernel_args rest k.
Proof. intros Ha. cbn [Kernel_args]. rewrite !(streq_flag a) by (done || by repeat constructor). by rewrite andb_false_r. Qed.
Lemma main_args_skip a rest o : a ∉ flags -> main_args (a :: rest) o = main_args rest o.
Proof. intros Ha. cbn [main_args]. rewrite !(streq_flag a) by (done || by repeat constructor). by rewrite !andb_false_r. Qed.

(** So is a flag of the other. *)
Lemma Kernel_args_other a rest k : a ∈ ["-d"; "-z"; "-x"; "-K"; "-C"; "-N"; "-cp"; "-p"; "-r"; "-l"; "-D"; "-u"] ->
  Kernel_args (a :: rest) k = Kernel_args rest k.
Proof. intros Ha. repeat (apply elem_of_cons in Ha as [-> | Ha]; [cbn; by rewrite ?andb_false_r |]). by apply not_elem_of_nil in Ha. Qed.
Lemma main_args_other a rest o : a ∈ ["-rs"; "-s"; "-ci"; "-co"; "-f"; "-n"; "-m"; "-z"; "-u"] -> main_args (a :: rest) o = main_args rest o.
Proof. intros Ha. repeat (apply elem_of_cons in Ha as [-> | Ha]; [cbn; by rewrite ?andb_false_r |]). by apply not_elem_of_nil in Ha. Qed.

Ltac skipped := repeat first [rewrite Kernel_args_other by (by repeat constructor) | rewrite main_args_other by (by repeat constructor)
  | rewrite Kernel_args_skip by done | rewrite main_args_skip by done].

Lemma Kernel_args_option o rest k : plain o -> Kernel_args (render o ++ rest) k = k ← means_kernel o k; Kernel_args rest k.
Proof.
  intros [Hp Hs]. destruct o; cbn [render drop app means_kernel] in *; repeat (apply Forall_cons in Hp as [? Hp]);
    try (by skipped); cbn; rewrite ?andb_false_r; try done; try (by destruct (atoi _)).
  destruct FILESYS_STUB; [by destruct Hs | done].
Qed.

Lemma main_args_option o rest p : plain o -> main_args (render o ++ rest) p = main_args rest (means_main o p).
Proof.
  intros [Hp Hs]. destruct o; cbn [render drop app means_main] in *; repeat (apply Forall_cons in Hp as [? Hp]);
    try (by skipped); cbn; try done; (destruct FILESYS_STUB; [by destruct Hs | done]).
Qed.

(** C40: The command line of a list of options is read as those options: when no
    argument of an option is itself the name of a flag (and, with FILESYS_STUB, no
    option of the other file system is used), the constructor of the kernel and
    main, which both go over all of it, take each the meaning of every option of
    theirs, in order, and nothing from those of the other. *)
Theorem command_line_read cmd os : Forall plain os ->
  Kernel_new (cmd :: concat (render <$> os)) = foldM means_kernel os Kernel_default /\
  main_args (concat (render <$> os)) Options_default = Ok (foldl (fun p o => means_main o p) Options_default os).
Proof.
  unfold Kernel_new. cbn [drop]. rewrite drop_0. generalize Kernel_default as k, Options_default as p.
  induction os as [| o os IH]; intros k p Hp; [done |]. apply Forall_cons in Hp as [Ho Hp].
  cbn [fmap list_fmap concat foldM foldl]. rewrite Kernel_args_option, main_args_option by done.
  destruct (means_kernel o k) as [k' |]; cbn [mbind res_bind]; [by apply IH |]. split; [done | by apply (IH k)].
Qed.
End cmd.

(** ** Some command lines *)

Definition read (argv : list string) : res (list action) := main true tt (fun _ => tt) argv.

Example run_shell : read ["nachos"; "-rs"; "5"; "-x"; "shell"] =
  Ok [Initialize (mkKernel true false None None false tt 0 (Some 5)); Execute "shell"; Halt].
Proof. reflexivity. Qed.

(** The argument of a flag of main is a flag of the kernel as well. *)
Example program_named_rs : read ["nachos"; "-x"; "-rs"] = Fault AssertFailure.
Proof. reflexivity. Qed.
Example program_named_s : read ["nachos"; "-x"; "-s"] =
  Ok [Initialize (mkKernel false true None None false tt 0 None); Execute "-s"; Halt].
Proof. reflexivity. Qed.

Lemma command_line_read_witness :
  Kernel_new true tt (fun _ => tt) ["nachos"; "-m"; "1"; "-N"] = Ok (mkKernel false false None None false tt 1 None).
Proof.
  destruct (command_line_read true tt (fun _ => tt) "nachos" [O_m "1"; O_N]) as [H _].
  - repeat constructor; [| done..]. apply (bool_decide_unpack _). vm_compute. exact I.
  - exact H.
Defined.
End CommandLine.
