(* ===== verification/Interrupt.v ===== *)
(** * Interrupt: machine/interrupt.h, interrupt.cc, machine/timer.h, timer.cc,
    threads/alarm.h, alarm.cc

    The simulated interrupt hardware: the interrupt level, the list of pending
    interrupts in order of time, and the clock that only this code advances.
    The pending list is a [SortedList] of Lists.v.  The devices are a parameter:
    the objects [CallBack] is called on, and what each call does to the kernel;
    the timer and the alarm are modelled as one of them. *)

From Stdlib Require Import Sorted.
From S2P Require Import Prelude Lists Machine Stats.

Module Interrupt.
Import Stats.

Inductive IntStatus : Set := IntOff | IntOn.
Inductive MachineStatus : Set := IdleMode | SystemMode | UserMode.
Inductive IntType : Set :=
  TimerInt | DiskInt | ConsoleWriteInt | ConsoleReadInt | NetworkSendInt | NetworkRecvInt.

#[global] Instance IntStatus_eq_dec : EqDecision IntStatus.
Proof. solve_decision. Defined.
#[global] Instance MachineStatus_eq_dec : EqDecision MachineStatus.
Proof. solve_decision. Defined.
#[global] Instance IntType_eq_dec : EqDecision IntType.
Proof. solve_decision. Defined.

Section interrupt.
(** The objects that can be called back, and what else the kernel holds. *)
Context {Obj : Type} `{EqDecision Obj} {W : Type}.
#[local] Set Default Proof Using "Type*".

(** [class PendingInterrupt], at its address.  Each constructor sets either the
    object or the function and its argument; the other is left unset. *)
Record PendingInterrupt := mkPending {
  address : nat;
  callOnInterrupt : option Obj;
  handler : option (nat * Z);
  when_ : Z;
  type : IntType;
}.

#[global] Instance PendingInterrupt_eq_dec : EqDecision PendingInterrupt.
Proof. solve_decision. Defined.

Definition PendingCompare (x y : PendingInterrupt) : Z :=
  if when_ x <? when_ y then -1 else if when_ x >? when_ y then 1 else 0.

(** [class Interrupt]; [brk] is where the next [PendingInterrupt] is allocated. *)
Record t := mk {
  level : IntStatus;
  pending : CList.t PendingInterrupt;
  inHandler : bool;
  yieldOnReturn : bool;
  status : MachineStatus;
  brk : nat;
}.

(** What this code sees of [kernel]. *)
Record kernel := mkKernel {
  interrupt : t;
  stats : Stats.t;
  machine : option Machine.t;
  rest : W;
}.

Definition create : t := mk IntOff CList.create false false SystemMode 0.

Definition with_interrupt (k : kernel) (i : t) : kernel := mkKernel i (stats k) (machine k) (rest k).
Definition with_stats (k : kernel) (s : Stats.t) : kernel := mkKernel (interrupt k) s (machine k) (rest k).
Definition with_machine (k : kernel) m : kernel := mkKernel (interrupt k) (stats k) m (rest k).
Definition with_rest (k : kernel) (w : W) : kernel := mkKernel (interrupt k) (stats k) (machine k) w.

Definition set_level (i : t) l := mk l (pending i) (inHandler i) (yieldOnReturn i) (status i) (brk i).
Definition set_pending (i : t) p b := mk (level i) p (inHandler i) (yieldOnReturn i) (status i) b.
Definition set_inHandler (i : t) b := mk (level i) (pending i) b (yieldOnReturn i) (status i) (brk i).
Definition set_yield (i : t) b := mk (level i) (pending i) (inHandler i) b (status i) (brk i).
Definition set_status (i : t) s := mk (level i) (pending i) (inHandler i) (yieldOnReturn i) s (brk i).

Definition ticks (k : kernel) : Z := totalTicks (stats k).
Definition pop (k : kernel) l : kernel := with_interrupt k (set_pending (interrupt k) l (brk (interrupt k))).

Definition ChangeLevel (k : kernel) (now : IntStatus) : kernel :=
  with_interrupt k (set_level (interrupt k) now).

Definition setStatus (k : kernel) (st : MachineStatus) : kernel :=
  with_interrupt k (set_status (interrupt k) st).

Definition YieldOnReturn (k : kernel) : res kernel :=
  _ ← ASSERT (inHandler (interrupt k));
  Ok (with_interrupt k (set_yield (interrupt k) true)).

(** [Schedule(toCall, fromNow, type)] *)
Definition Schedule (k : kernel) (toCall : Obj) (fromNow : Z) (ty : IntType) : res kernel :=
  let i := interrupt k in
  let toOccur := mkPending (brk i) (Some toCall) None (ticks k + fromNow) ty in
  _ ← ASSERT (0 <? fromNow);
  l ← CList.Insert PendingCompare (pending i) toOccur;
  Ok (with_interrupt k (set_pending i l (S (brk i)))).

(** [Schedule(handler, arg, fromNow, type)] *)
Definition Schedule_fun (k : kernel) (fn : nat) (arg fromNow : Z) (ty : IntType) : res kernel :=
  let i := interrupt k in
  let when := ticks k + fromNow in
  let toOccur := mkPending (brk i) None (Some (fn, arg)) when ty in
  _ ← ASSERT (0 <? fromNow);
  l ← CList.SortedInsert (pending i) toOccur when;
  Ok (with_interrupt k (set_pending i l (S (brk i)))).

Section handlers.
(** [CallBack] of each object, and [kernel->currentThread->Yield()]. *)
Context (CallBack : Obj -> kernel -> res kernel) (Yield : kernel -> res kernel).

(** The [do ... while] of [CheckIfDue]. *)
Fixpoint fire_loop (n : nat) (k : kernel) : res kernel :=
  match n with
  | O => Fault OutOfFuel
  | S n' =>
      '(next, l) ← CList.RemoveFront (pending (interrupt k));
      let k := pop k l in
      obj ← deref (callOnInterrupt next);
      k ← CallBack obj k;
      if CList.IsEmpty (pending (interrupt k)) then Ok k
      else
        f ← CList.Front (pending (interrupt k));
        if when_ f <=? ticks k then fire_loop n' k else Ok k
  end.

(** [kernel->machine->DelayedLoad(0, 0)] when there is a machine. *)
Definition settle_load (k : kernel) : res kernel :=
  match machine k with
  | Some m => m ← Machine.DelayedLoad m 0 0; Ok (with_machine k (Some m))
  | None => Ok k
  end.

Definition CheckIfDue (k : kernel) (advanceClock : bool) : res (bool * kernel) :=
  let i := interrupt k in
  _ ← ASSERT (bool_decide (level i = IntOff));
  if CList.IsEmpty (pending i) then Ok (false, k)
  else
    next ← CList.Front (pending i);
    if (when_ next >? ticks k) && negb advanceClock then Ok (false, k)
    else
      let k := if when_ next >? ticks k then with_stats k (idle_until (when_ next) (stats k)) else k in
      k ← settle_load k;
      let k := with_interrupt k (set_inHandler (interrupt k) true) in
      k ← fire_loop (Z.to_nat (CList.numInList (pending i))) k;
      Ok (true, with_interrupt k (set_inHandler (interrupt k) false)).

Definition advance_clock (k : kernel) : kernel :=
  with_stats k (if decide (status (interrupt k) = SystemMode) then add_system SystemTick (stats k)
                else add_user UserTick (stats k)).

Definition OneTick (k : kernel) : res kernel :=
  let oldStatus := status (interrupt k) in
  let k := advance_clock k in
  let k := ChangeLevel k IntOff in
  '(_, k) ← CheckIfDue k false;
  let k := ChangeLevel k IntOn in
  if yieldOnReturn (interrupt k) then
    let k := with_interrupt k (set_yield (interrupt k) false) in
    let k := setStatus k SystemMode in
    k ← Yield k;
    Ok (setStatus k oldStatus)
  else Ok k.

Definition SetLevel (k : kernel) (now : IntStatus) : res (IntStatus * kernel) :=
  let old := level (interrupt k) in
  _ ← ASSERT (bool_decide (now = IntOff) || negb (inHandler (interrupt k)));
  let k := ChangeLevel k now in
  k ← (if bool_decide (now = IntOn) && bool_decide (old = IntOff) then OneTick k else Ok k);
  Ok (old, k).

(** [Idle]: [None] when it halts the machine. *)
Definition Idle (k : kernel) : res (option kernel) :=
  let k := setStatus k IdleMode in
  '(b, k) ← CheckIfDue k true;
  if b : bool then Ok (Some (setStatus k SystemMode)) else Ok None.
End handlers.
End interrupt.
Arguments PendingInterrupt : clear implicits.
Arguments t : clear implicits.
Arguments kernel : clear implicits.

(** ** Order and due times *)
Section agenda.
Context {Obj : Type} `{EqDecision Obj} {W : Type}.
#[local] Set Default Proof Using "Type*".
Implicit Types (k : kernel Obj W) (xs : list (PendingInterrupt Obj)).

#[global] Instance PendingCompare_total : CList.Comparator (@PendingCompare Obj).
Proof.
  intros x y. unfold PendingCompare. rewrite !Z.gtb_ltb.
  destruct (Z.ltb_spec (when_ x) (when_ y)), (Z.ltb_spec (when_ y) (when_ x)); lia.
Qed.

Lemma compare_le (x y : PendingInterrupt Obj) : PendingCompare x y <= 0 <-> when_ x <= when_ y.
Proof.
  unfold PendingCompare. rewrite Z.gtb_ltb.
  destruct (Z.ltb_spec (when_ x) (when_ y)), (Z.ltb_spec (when_ y) (when_ x)); lia.
Qed.

Definition due (now : Z) (p : PendingInterrupt Obj) : Prop := when_ p <= now.
#[global] Instance due_dec now p : Decision (due now p).
Proof. unfold due. apply _. Defined.

(** In order of time, the due ones come first. *)
Lemma due_prefix now xs :
  CList.ordered PendingCompare xs ->
  xs = filter (due now) xs ++ filter (fun p => ~ due now p) xs.
Proof.
  unfold CList.ordered. intros Hs. apply Sorted_StronglySorted in Hs.
  2: { intros x y z. rewrite !compare_le. lia. }
  induction Hs as [|x xs Hs IH Hx]; [done |].
  destruct (decide (due now x)) as [Hd|Hd].
  - rewrite filter_cons_True, filter_cons_False by naive_solver. cbn. by f_equal.
  - assert (filter (due now) xs = []) as E.
    { destruct (filter (due now) xs) as [|y l] eqn:E; [done |].
      assert (y ∈ filter (due now) xs) as [Hdy Hy]%list_elem_of_filter by (rewrite E; by left).
      rewrite Stdlib.Lists.List.Forall_forall in Hx. apply list_elem_of_In, Hx in Hy.
      rewrite compare_le in Hy. unfold due in *. lia. }
    rewrite filter_cons_False, filter_cons_True by done. rewrite E in *. cbn in *. by f_equal.
Qed.


(** The pending interrupts are [xs]: in order of time, each at an address of
    its own. *)
Record agenda k xs : Prop := {
  ag_rep : CList.rep (pending (interrupt k)) xs;
  ag_order : CList.ordered PendingCompare xs;
  ag_fresh : Forall (fun p => address p < brk (interrupt k))%nat xs;
}.

(** Scheduling in the future. *)
Lemma Schedule_spec k xs obj fromNow ty :
  agenda k xs -> 0 < fromNow ->
  exists k', Schedule k obj fromNow ty = Ok k' /\
    let p := mkPending (brk (interrupt k)) (Some obj) None (ticks k + fromNow) ty in
    agenda k' (ListSpec.insert_sorted PendingCompare p xs) /\
    stats k' = stats k /\ machine k' = machine k /\ rest k' = rest k /\
    level (interrupt k') = level (interrupt k) /\ inHandler (interrupt k') = inHandler (interrupt k) /\
    yieldOnReturn (interrupt k') = yieldOnReturn (interrupt k) /\
    status (interrupt k') = status (interrupt k).
Proof.
  intros [Hr Ho Hf] Hpos. unfold Schedule. rewrite ASSERT_true by lia. cbn [mbind res_bind].
  set (p := mkPending _ _ _ _ _).
  assert (p ∉ xs) as Hp.
  { intros Hin. rewrite Forall_forall in Hf. specialize (Hf p Hin). cbn in Hf. lia. }
  destruct (CList.Insert_rep PendingCompare _ p xs Hr Hp) as (l' & -> & Hr'). cbn [mbind res_bind].
  eexists. split; [done |]. cbv zeta. split; [| done]. split; cbn [interrupt with_interrupt set_pending pending brk].
  - done.
  - by apply (CList.insert_sorted_ordered PendingCompare).
  - rewrite CList.insert_sorted_perm. constructor; [cbn; lia |].
    eapply Forall_impl; [exact Hf |]. cbn. lia.
Qed.
Lemma agenda_pop k p xs :
  agenda k (p :: xs) -> exists l, CList.RemoveFront (pending (interrupt k)) = Ok (p, l) /\ agenda (pop k l) xs.
Proof.
  intros [Hr Ho [_ Hf]%Forall_cons].
  destruct (CList.RemoveFront_rep _ _ _ Hr) as (l & E & Hr'). exists l.
  split; [done |]. split; try done. unfold CList.ordered in *. by inversion Ho.
Qed.

(** When the first is not due, none is. *)
Lemma none_due now f xs :
  CList.ordered PendingCompare (f :: xs) -> ~ due now f -> filter (due now) (f :: xs) = [].
Proof.
  intros Ho Hf. pose proof (due_prefix now _ Ho) as Hp.
  destruct (filter (due now) (f :: xs)) as [|d ds] eqn:E; [done |].
  injection Hp as -> _.
  assert (d ∈ filter (due now) (d :: xs)) as [? _]%list_elem_of_filter by (rewrite E; by left). done.
Qed.
End agenda.

(** ** Firing

    What the interrupt code relies on of a device: its handler returns, asks
    only for interrupts in the future, takes none away, and leaves the clock and
    the interrupt level alone. *)
Section firing.
Context {Obj : Type} `{EqDecision Obj} {W : Type}.
#[local] Set Default Proof Using "Type*".
Implicit Types (k : kernel Obj W) (xs : list (PendingInterrupt Obj)).
Context (CallBack : Obj -> kernel Obj W -> res (kernel Obj W)).

Definition leave_handler k : kernel Obj W := with_interrupt k (set_inHandler (interrupt k) false).
Definition machine_ok k : Prop := match machine k with Some m => Machine.wf m | None => True end.

(** The machine with its pending load completed. *)
Definition settled (o : option Machine.t) : res (option Machine.t) :=
  match o with Some m => m ← Machine.DelayedLoad m 0 0; Ok (Some m) | None => Ok None end.

(** What is in place when the first handler is called. *)
Record entered k k0 (now : Z) : Prop := {
  en_stats : stats k0 = if ticks k <? now then idle_until now (stats k) else stats k;
  en_machine : machine_ok k0;
  en_settled : settled (machine k) = Ok (machine k0);
  en_rest : rest k0 = rest k;
  en_interrupt : interrupt k0 = set_inHandler (interrupt k) true;
}.

Lemma settle_load_ok k :
  machine_ok k -> exists k', settle_load k = Ok k' /\ machine_ok k' /\ interrupt k' = interrupt k /\
    stats k' = stats k /\ rest k' = rest k /\ settled (machine k) = Ok (machine k').
Proof.
  unfold settle_load, machine_ok, settled. destruct (machine k) as [m|] eqn:E; [| intros _; exists k; by rewrite E].
  intros Hm. pose proof (Machine.DelayedLoad_spec m 0 0 Hm ltac:(done) ltac:(done)) as Hd.
  apply returns_Ok in Hd as (m' & -> & Hm' & _). eexists. split; [done |]. done.
Qed.

(** [CheckIfDue] past its guards, up to the handlers. *)
Lemma CheckIfDue_enters k p xs advance :
  agenda k (p :: xs) -> level (interrupt k) = IntOff -> machine_ok k ->
  (ticks k < when_ p -> advance = true) ->
  let now := Z.max (ticks k) (when_ p) in
  exists k0, CheckIfDue CallBack k advance = (k1 ← fire_loop CallBack (length (p :: xs)) k0; Ok (true, leave_handler k1)) /\
    entered k k0 now /\ agenda k0 (p :: xs) /\ ticks k0 = now.
Proof.
  intros Ha Hl Hm Hadv now. unfold CheckIfDue. rewrite bool_decide_true by done. cbn [ASSERT mbind res_bind].
  rewrite (CList.IsEmpty_rep _ _ (ag_rep _ _ Ha)), bool_decide_false by done.
  rewrite (CList.Front_rep _ _ _ (ag_rep _ _ Ha)). cbn [mbind res_bind]. rewrite Z.gtb_ltb.
  assert ((ticks k <? when_ p) && negb advance = false) as ->.
  { destruct (Z.ltb_spec (ticks k) (when_ p)) as [Hlt|]; [by rewrite (Hadv Hlt) | done]. }
  set (k' := if ticks k <? when_ p then _ else k).
  assert (interrupt k' = interrupt k /\ rest k' = rest k /\ machine k' = machine k /\
    stats k' = (if ticks k <? now then idle_until now (stats k) else stats k)) as (Hi & Hre & Hma & Hst).
  { unfold k', now. destruct (Z.ltb_spec (ticks k) (when_ p)) as [Hlt|Hge].
    - rewrite Z.max_r by lia. by rewrite (proj2 (Z.ltb_lt _ _) Hlt).
    - rewrite Z.max_l by lia. by rewrite Z.ltb_irrefl. }
  destruct (settle_load_ok k') as (k2 & -> & Hm2 & Hi2 & Hs2 & Hr2 & Hse2); [unfold machine_ok; by rewrite Hma |].
  cbn [mbind res_bind]. set (k0 := with_interrupt k2 _).
  assert (interrupt k0 = set_inHandler (interrupt k) true) as Hk0 by (unfold k0; cbn; congruence).
  assert (ticks k0 = now) as Ht0.
  { unfold ticks, k0. cbn. rewrite Hs2, Hst. unfold now, ticks.
    destruct (Z.ltb_spec (totalTicks (stats k)) (Z.max (totalTicks (stats k)) (when_ p))); cbn; lia. }
  rewrite (CList.numInList_rep _ _ (ag_rep _ _ Ha)), Nat2Z.id. exists k0. split; [done |]. split; [| split; [| done]].
  - split; [unfold k0; cbn; congruence | unfold k0, machine_ok; cbn; exact Hm2 | unfold k0; cbn; by rewrite <- Hma | unfold k0; cbn; congruence | done].
  - destruct Ha as [H1 H2 H3]. split; by rewrite ?Hk0.
Qed.

Lemma CheckIfDue_waits k p xs :
  agenda k (p :: xs) -> level (interrupt k) = IntOff -> ticks k < when_ p ->
  CheckIfDue CallBack k false = Ok (false, k).
Proof.
  intros Ha Hl Hlt. unfold CheckIfDue. rewrite bool_decide_true by done. cbn [ASSERT mbind res_bind].
  rewrite (CList.IsEmpty_rep _ _ (ag_rep _ _ Ha)), bool_decide_false by done.
  rewrite (CList.Front_rep _ _ _ (ag_rep _ _ Ha)). cbn [mbind res_bind]. rewrite Z.gtb_ltb.
  by rewrite (proj2 (Z.ltb_lt _ _) Hlt).
Qed.




Context `{!Handlers}.

(** Whether [CheckIfDue] finds an object to call in the interrupt; one made by
    [Schedule(handler, arg, ...)] has none. *)
Definition callable (p : PendingInterrupt Obj) : Prop := is_Some (callOnInterrupt p).




End firing.
End Interrupt.

(** ** The timer and the alarm

    [Timer] interrupts every [TimerTicks], or at random; its handler is
    [Alarm::CallBack], which asks for a context switch unless the machine is
    idle.  [RandomNumber] is the host's generator. *)
Module Timer.
Import Stats Interrupt.

Record t := mk {
  randomize : bool;
  disable : bool;
}.

Section timer.
Context {Obj : Type} `{EqDecision Obj} {W : Type}.
#[local] Set Default Proof Using "Type*".
(** The timer object, where the kernel keeps it, and the host's generator. *)
Context (self : Obj) (get_timer : W -> t) (RandomNumber : W -> Z * W).
Implicit Types (k : kernel Obj W) (xs : list (PendingInterrupt Obj)).

Definition Alarm_CallBack k : res (kernel Obj W) :=
  if decide (status (interrupt k) = IdleMode) then Ok k else YieldOnReturn k.

Definition SetInterrupt k : res (kernel Obj W) :=
  let tm := get_timer (rest k) in
  if disable tm then Ok k
  else
    let '(delay, w) :=
      if randomize tm then let '(r, w) := RandomNumber (rest k) in (1 + Z.rem r (TimerTicks * 2), w)
      else (TimerTicks, rest k) in
    Schedule (with_rest k w) self delay TimerInt.

Definition CallBack k : res (kernel Obj W) := k ← Alarm_CallBack k; SetInterrupt k.

Definition create (set_timer : W -> t -> W) k (doRandom : bool) : res (kernel Obj W) :=
  SetInterrupt (with_rest k (set_timer (rest k) (mk doRandom false))).

(** The delay is in the future, whatever the generator answers. *)
Hypothesis random_nonneg : forall w, 0 <= fst (RandomNumber w).

Lemma agenda_rest k w xs : agenda k xs -> agenda (with_rest k w) xs.
Proof. intros [H1 H2 H3]. by split. Qed.

Lemma SetInterrupt_spec k xs :
  agenda k xs ->
  exists k', SetInterrupt k = Ok k' /\ stats k' = stats k /\ machine k' = machine k /\
    (disable (get_timer (rest k)) = true \/ randomize (get_timer (rest k)) = false -> rest k' = rest k) /\
    level (interrupt k') = level (interrupt k) /\ inHandler (interrupt k') = inHandler (interrupt k) /\
    yieldOnReturn (interrupt k') = yieldOnReturn (interrupt k) /\
    status (interrupt k') = status (interrupt k) /\
    if disable (get_timer (rest k)) then agenda k' xs
    else exists q, agenda k' (ListSpec.insert_sorted PendingCompare q xs) /\
      callOnInterrupt q = Some self /\ ticks k < when_ q <= ticks k + 2 * TimerTicks /\
      (randomize (get_timer (rest k)) = false -> when_ q = ticks k + TimerTicks).
Proof.
  intros Ha. unfold SetInterrupt. destruct (disable _); [by exists k |].
  set (dw := if randomize _ then _ else _).
  assert (0 < dw.1 <= 2 * TimerTicks /\ (randomize (get_timer (rest k)) = false -> dw = (TimerTicks, rest k))) as [Hd Hn].
  { unfold dw. destruct (randomize _); [| done]. pose proof (random_nonneg (rest k)) as Hr.
    destruct (RandomNumber (rest k)) as [r w]. cbn in Hr |- *.
    pose proof (Z.rem_bound_pos r (TimerTicks * 2) Hr ltac:(done)). unfold TimerTicks in *. split; [lia | done]. }
  destruct dw as [delay w]. cbn [fst] in Hd, Hn.
  destruct (Schedule_spec (with_rest k w) xs self delay TimerInt (agenda_rest k w xs Ha) (proj1 Hd))
    as (k' & -> & Ha' & Hs & Hm & Hre & Hl & Hi & Hy & Hst).
  exists k'. split_and!; try done; [intros [? | Hr]; [done | by rewrite Hre; injection (Hn Hr)] |]. eexists. split; [exact Ha' |].
  change (ticks (with_rest k w)) with (ticks k). cbn. split_and!; [done | lia | lia |].
  intros Hr. by injection (Hn Hr) as ->.
Qed.

Lemma CallBack_spec k xs :
  agenda k xs -> inHandler (interrupt k) = true ->
  exists k', CallBack k = Ok k' /\ stats k' = stats k /\ machine k' = machine k /\
    (disable (get_timer (rest k)) = true \/ randomize (get_timer (rest k)) = false -> rest k' = rest k) /\
    level (interrupt k') = level (interrupt k) /\ inHandler (interrupt k') = true /\
    yieldOnReturn (interrupt k') =
      (if decide (status (interrupt k) = IdleMode) then yieldOnReturn (interrupt k) else true) /\
    status (interrupt k') = status (interrupt k) /\
    if disable (get_timer (rest k)) then agenda k' xs
    else exists q, agenda k' (ListSpec.insert_sorted PendingCompare q xs) /\
      callOnInterrupt q = Some self /\ ticks k < when_ q <= ticks k + 2 * TimerTicks /\
      (randomize (get_timer (rest k)) = false -> when_ q = ticks k + TimerTicks).
Proof.
  intros Ha Hi. unfold CallBack, Alarm_CallBack.
  case_decide as Hs.
  - cbn [mbind res_bind]. destruct (SetInterrupt_spec k xs Ha) as (k' & -> & H1). rewrite Hi in H1. by exists k'.
  - unfold YieldOnReturn. rewrite Hi. cbn [ASSERT mbind res_bind].
    set (k1 := with_interrupt k _). assert (agenda k1 xs) as Ha1 by (destruct Ha; by split).
    destruct (SetInterrupt_spec k1 xs Ha1) as (k' & -> & H1). cbn in H1. rewrite Hi in H1. by exists k'.
Qed.

End timer.

(** ** Time slices

    The timer [tm] is one device of several; the others have nothing to do for now: what
    they poll finds nothing ([calm]), and their handlers ask for the next poll and
    change nothing else but their own state.  [kept] is the part of the kernel that
    is not theirs. *)
Section slice.
Context {Obj : Type} `{EqDecision Obj} {W V : Type} (tm : Obj) (get_timer : W -> t) (RandomNumber : W -> Z * W).
#[local] Set Default Proof Using "Type*".
Hypothesis random_nonneg : forall w, 0 <= fst (RandomNumber w).
Context (Other : Obj -> kernel Obj W -> res (kernel Obj W)) (kept : W -> V) (calm : W -> Prop).
Implicit Types (k : kernel Obj W) (xs ps : list (PendingInterrupt Obj)).

Definition devices (o : Obj) k : res (kernel Obj W) :=
  if decide (o = tm) then CallBack tm get_timer RandomNumber k else Other o k.

(** What the handlers leave as it is. *)
Record undisturbed k k' : Prop := {
  un_ticks : ticks k' = ticks k;
  un_machine : machine k' = machine k;
  un_timer : get_timer (rest k') = get_timer (rest k);
  un_kept : kept (rest k') = kept (rest k);
  un_calm : calm (rest k) -> calm (rest k');
  un_level : level (interrupt k') = level (interrupt k);
  un_handler : inHandler (interrupt k') = inHandler (interrupt k);
  un_status : status (interrupt k') = status (interrupt k);
}.

#[global] Instance undisturbed_preorder : PreOrder undisturbed.
Proof. split; [by split |]. intros k1 k2 k3 [] []. split; [congruence.. | auto | congruence | congruence | congruence]. Qed.

(** The interrupts of the timer. *)
Definition of_timer xs : list (PendingInterrupt Obj) := filter (fun p => callOnInterrupt p = Some tm) xs.

Class Quiet : Prop :=
  quiet_ok o k xs : o <> tm -> calm (rest k) -> agenda k xs -> level (interrupt k) = IntOff -> inHandler (interrupt k) = true ->
    exists k' xs' new, Other o k = Ok k' /\ agenda k' xs' /\ undisturbed k k' /\
      yieldOnReturn (interrupt k') = yieldOnReturn (interrupt k) /\ xs' ≡ₚ new ++ xs /\
      Forall (fun q => ticks k < when_ q /\ exists o', callOnInterrupt q = Some o' /\ o' <> tm) new.
Context `{!Quiet}.

(** The pending interrupts, those of the timer being [ps]. *)
Record timed k xs ps : Prop := {
  tmd_agenda : agenda k xs;
  tmd_callable : Forall callable xs;
  tmd_timer : of_timer xs = ps;
}.

#[global] Instance of_timer_perm : Proper ((≡ₚ) ==> (≡ₚ)) of_timer.
Proof. intros xs ys E. unfold of_timer. by rewrite E. Qed.

Lemma of_timer_none xs : Forall (fun q => exists o, callOnInterrupt q = Some o /\ o <> tm) xs -> of_timer xs = [].
Proof.
  induction 1 as [| q xs (o & Hq & Ho) _ IH]; [done |]. unfold of_timer. rewrite filter_cons_False; [done |]. rewrite Hq. congruence.
Qed.

(** A handler, its interrupt off the list. *)
Lemma handler_timer k xs : timed k xs [] -> level (interrupt k) = IntOff -> inHandler (interrupt k) = true ->
  status (interrupt k) <> IdleMode -> disable (get_timer (rest k)) = false -> randomize (get_timer (rest k)) = false ->
  exists k' ys q, devices tm k = Ok k' /\ timed k' ys [q] /\ undisturbed k k' /\
    yieldOnReturn (interrupt k') = true /\ when_ q = ticks k + TimerTicks /\ ys ≡ₚ q :: xs.
Proof.
  intros [Ha Hc Ht] Hl Hi Hst Hdis Hran. unfold devices. rewrite decide_True by done.
  destruct (CallBack_spec tm get_timer RandomNumber random_nonneg k xs Ha Hi) as (k' & E & Hs & Hm & Hr & Hl' & Hi' & Hy & Hss & Hq).
  rewrite Hdis in Hq. destruct Hq as (q & Haq & Hobj & _ & Hw). specialize (Hr (or_intror Hran)). rewrite decide_False in Hy by done.
  exists k', (ListSpec.insert_sorted PendingCompare q xs), q. split; [done |].
  assert (ListSpec.insert_sorted PendingCompare q xs ≡ₚ q :: xs) as Hp by apply CList.insert_sorted_perm.
  split; [| split; [| split_and!; [done | by apply Hw | done]]].
  - split; [done | rewrite Hp; constructor; [by exists tm | done] |]. apply Permutation_singleton_r. rewrite Hp.
    unfold of_timer in *. rewrite filter_cons_True by done. by rewrite Ht.
  - split; [unfold ticks | ..]; congruence.
Qed.

Lemma handler_other k xs ps o : o <> tm -> calm (rest k) -> timed k xs ps -> (length ps <= 1)%nat ->
  level (interrupt k) = IntOff -> inHandler (interrupt k) = true ->
  exists k' ys new, devices o k = Ok k' /\ timed k' ys ps /\ undisturbed k k' /\
    yieldOnReturn (interrupt k') = yieldOnReturn (interrupt k) /\ ys ≡ₚ new ++ xs /\ Forall (fun q => ticks k < when_ q) new.
Proof.
  intros Ho Hcalm [Ha Hc Ht] Hps Hl Hi. unfold devices. rewrite decide_False by done.
  destruct (quiet_ok o k xs Ho Hcalm Ha Hl Hi) as (k' & ys & new & E & Ha' & Hu & Hy & Hp & Hnew). exists k', ys, new.
  split; [done |]. split; [| split_and!; [done | done | done | by eapply Forall_impl; [exact Hnew | intros ? []]]].
  assert (of_timer ys ≡ₚ ps) as Hpt.
  { rewrite Hp. unfold of_timer. rewrite filter_app. fold (of_timer new). rewrite of_timer_none; [by rewrite <- Ht |].
    eapply Forall_impl; [exact Hnew | by intros ? []]. }
  split; [done | |].
  - rewrite Hp. apply Forall_app. split; [| done]. eapply Forall_impl; [exact Hnew |]. intros q (_ & o' & Hq & _). by exists o'.
  - destruct ps as [| p [| ? ?]]; [by apply Permutation_nil_r | by apply Permutation_singleton_r | cbn in Hps; lia].
Qed.

Lemma due_count now (new xs ys : list (PendingInterrupt Obj)) : ys ≡ₚ new ++ xs -> Forall (fun q => now < when_ q) new ->
  length (filter (due now) ys) = length (filter (due now) xs).
Proof.
  intros Hp Hn. rewrite Hp, filter_app. replace (filter (due now) new) with (@nil (PendingInterrupt Obj)); [done |]. symmetry.
  clear Hp. induction Hn as [| q new Hq _ IH]; [done |]. rewrite filter_cons_False; [done |]. unfold due. lia.
Qed.

(** The list when the timer is not due, and the state when it is. *)
Lemma fire_all n k p0 xs p : timed k (p0 :: xs) [p] -> due (ticks k) p0 -> calm (rest k) ->
  level (interrupt k) = IntOff -> inHandler (interrupt k) = true -> (length (filter (due (ticks k)) (p0 :: xs)) <= n)%nat ->
  status (interrupt k) <> IdleMode -> disable (get_timer (rest k)) = false -> randomize (get_timer (rest k)) = false ->
  exists k' ys q, fire_loop devices n k = Ok k' /\ timed k' ys [q] /\ undisturbed k k' /\
    if decide (when_ p <= ticks k) then yieldOnReturn (interrupt k') = true /\ when_ q = ticks k + TimerTicks
    else yieldOnReturn (interrupt k') = yieldOnReturn (interrupt k) /\ q = p.
Proof.
  revert k p0 xs p. induction n as [| n IH]; intros k p0 xs p [Ha Hc Ht] Hd Hcalm Hl Hi Hn Hst Hdis Hran.
  { rewrite filter_cons_True in Hn by done. cbn in Hn. lia. }
  destruct (agenda_pop k p0 xs Ha) as (l & E & Ha'). cbn [fire_loop]. rewrite E. cbn [mbind res_bind].
  rewrite filter_cons_True in Hn by done. cbn [length] in Hn.
  apply Forall_cons in Hc as [[o Ho] Hc]. rewrite Ho. cbn [deref mbind res_bind].
  unfold of_timer in Ht. destruct (decide (o = tm)) as [-> | Hne].
  - rewrite filter_cons_True in Ht by done. injection Ht as -> Ht.
    destruct (handler_timer (pop k l) xs) as (k1 & ys & q & E1 & Ht1 & Hu & Hy & Hw & Hp); try done.
    change (ticks (pop k l)) with (ticks k) in Hw. rewrite E1. cbn [mbind res_bind]. unfold due in Hd.
    pose proof Hu as [Htk Hmk Htm Hkp Hcl Hlv Hhd Hss]. change (ticks (pop k l)) with (ticks k) in Htk.
    assert (undisturbed k k1) as Hu1 by by destruct Hu.
    rewrite (CList.IsEmpty_rep _ _ (ag_rep _ _ (tmd_agenda _ _ _ Ht1))). destruct ys as [| f ys]; [by apply Permutation_nil_cons in Hp |].
    rewrite bool_decide_false by done. rewrite (CList.Front_rep _ _ _ (ag_rep _ _ (tmd_agenda _ _ _ Ht1))). cbn [mbind res_bind].
    rewrite Htk. destruct (Z.leb_spec (when_ f) (ticks k)) as [Hf |]; [| by exists k1, (f :: ys), q; rewrite decide_True].
    destruct (IH k1 f ys q Ht1) as (k2 & zs & q2 & E2 & Ht2 & Hu2 & Hcase); try done.
    { unfold due. lia. }
    { by apply Hcl. }
    { by rewrite Hlv. }
    { by rewrite Hhd. }
    { rewrite Htk, (due_count (ticks k) [q] xs (f :: ys) Hp); [lia |]. repeat constructor. unfold TimerTicks in Hw. lia. }
    { by rewrite Hss. }
    { by rewrite Htm. }
    { by rewrite Htm. }
    rewrite decide_False in Hcase by (unfold TimerTicks in Hw; lia). destruct Hcase as [Hy2 ->].
    exists k2, zs, q. rewrite decide_True by done. split_and!; [done | done | by etrans | by rewrite Hy2 | done].
  - rewrite filter_cons_False in Ht by (rewrite Ho; congruence).
    destruct (handler_other (pop k l) xs [p] o) as (k1 & ys & new & E1 & Ht1 & Hu & Hy & Hp & Hnew); try done.
    rewrite E1. cbn [mbind res_bind]. change (ticks (pop k l)) with (ticks k) in Hnew.
    change (yieldOnReturn (interrupt (pop k l))) with (yieldOnReturn (interrupt k)) in Hy.
    pose proof Hu as [Htk Hmk Htm Hkp Hcl Hlv Hhd Hss]. change (ticks (pop k l)) with (ticks k) in Htk.
    assert (undisturbed k k1) as Hu1 by by destruct Hu.
    rewrite (CList.IsEmpty_rep _ _ (ag_rep _ _ (tmd_agenda _ _ _ Ht1))).
    destruct ys as [| f ys]; [by pose proof (tmd_timer _ _ _ Ht1) |].
    rewrite bool_decide_false by done. rewrite (CList.Front_rep _ _ _ (ag_rep _ _ (tmd_agenda _ _ _ Ht1))). cbn [mbind res_bind].
    rewrite Htk. destruct (Z.leb_spec (when_ f) (ticks k)) as [Hf | Hf].
    + destruct (IH k1 f ys p Ht1) as (k2 & zs & q2 & E2 & Ht2 & Hu2 & Hcase); try done.
      { unfold due. lia. }
      { by apply Hcl. }
      { by rewrite Hlv. }
      { by rewrite Hhd. }
      { rewrite Htk, (due_count (ticks k) new xs (f :: ys) Hp Hnew). lia. }
      { by rewrite Hss. }
      { by rewrite Htm. }
      { by rewrite Htm. }
      rewrite Htk, Hy in Hcase. exists k2, zs, q2. split_and!; [done | done | by etrans | done].
    + exists k1, (f :: ys), p. split_and!; [done | done | done |]. rewrite decide_False; [done |].
      assert (p ∈ of_timer (f :: ys)) as [_ Hin]%list_elem_of_filter by (rewrite (tmd_timer _ _ _ Ht1); by left).
      intros Hdue. pose proof (none_due (ticks k) f ys (ag_order _ _ (tmd_agenda _ _ _ Ht1)) ltac:(unfold due; lia)) as Hno.
      assert (p ∈ filter (due (ticks k)) (f :: ys)) as Hin2 by by apply list_elem_of_filter. rewrite Hno in Hin2. by apply not_elem_of_nil in Hin2.
Qed.

(** [CheckIfDue] at a time when something is due. *)
Lemma check_fires k xs p : timed k xs [p] -> Exists (due (ticks k)) xs -> level (interrupt k) = IntOff -> machine_ok k ->
  calm (rest k) -> status (interrupt k) <> IdleMode -> disable (get_timer (rest k)) = false -> randomize (get_timer (rest k)) = false ->
  exists k0 k' ys q, CheckIfDue devices k false = Ok (true, leave_handler k') /\ entered k k0 (ticks k) /\
    timed k' ys [q] /\ undisturbed k0 k' /\
    if decide (when_ p <= ticks k) then yieldOnReturn (interrupt k') = true /\ when_ q = ticks k + TimerTicks
    else yieldOnReturn (interrupt k') = yieldOnReturn (interrupt k) /\ q = p.
Proof.
  intros Ht Hex Hl Hm Hcalm Hst Hdis Hran. destruct xs as [| p0 xs]; [by apply Exists_nil in Hex |].
  assert (when_ p0 <= ticks k) as Hp0.
  { destruct (Z.le_gt_cases (when_ p0) (ticks k)) as [| Hgt]; [done |]. exfalso.
    apply Exists_exists in Hex as (x & Hx & Hdx). pose proof (none_due (ticks k) p0 xs (ag_order _ _ (tmd_agenda _ _ _ Ht)) ltac:(unfold due; lia)) as Hno.
    assert (x ∈ filter (due (ticks k)) (p0 :: xs)) as Hin by by apply list_elem_of_filter. rewrite Hno in Hin. by apply not_elem_of_nil in Hin. }
  destruct (CheckIfDue_enters devices k p0 xs false (tmd_agenda _ _ _ Ht) Hl Hm ltac:(lia)) as (k0 & E & Hen & Ha0 & Ht0).
  rewrite Z.max_l in Hen, Ht0 by done. pose proof Hen as [_ _ _ Hr0 Hi0].
  destruct (fire_all (length (p0 :: xs)) k0 p0 xs p) as (k' & ys & q & Ef & Ht' & Hu & Hcase); rewrite ?Hi0, ?Hr0, ?Ht0; try done.
  { split; [done | apply Ht | apply Ht]. }
  { apply length_filter. }
  exists k0, k', ys, q. rewrite E, Ef. cbn [mbind res_bind]. rewrite Ht0 in Hcase. rewrite Hi0 in Hcase. by split_and!.
Qed.

(** A tick of the clock, with a thread running.  When the timer is due by then, [Yield] is
    called once, in system mode with interrupts on and the pending load completed, the
    old mode is restored after it, and the next timer interrupt is [TimerTicks] from
    now; otherwise nothing but the clock changes, and the pending load, when another
    device was due. *)
Lemma tick_spec Yield k xs p :
  timed k xs [p] -> machine_ok k -> inHandler (interrupt k) = false -> yieldOnReturn (interrupt k) = false ->
  status (interrupt k) <> IdleMode -> disable (get_timer (rest k)) = false -> randomize (get_timer (rest k)) = false -> calm (rest k) ->
  let now := ticks k + (if decide (status (interrupt k) = SystemMode) then SystemTick else UserTick) in
  exists k1 ys q, timed k1 ys [q] /\ ticks k1 = now /\ level (interrupt k1) = IntOn /\
    inHandler (interrupt k1) = false /\ yieldOnReturn (interrupt k1) = false /\
    get_timer (rest k1) = get_timer (rest k) /\ kept (rest k1) = kept (rest k) /\ calm (rest k1) /\
    (machine k1 = machine k \/ settled (machine k) = Ok (machine k1)) /\
    if decide (when_ p <= now) then
      settled (machine k) = Ok (machine k1) /\ when_ q = now + TimerTicks /\ status (interrupt k1) = SystemMode /\
      OneTick devices Yield k = (k' ← Yield k1; Ok (setStatus k' (status (interrupt k))))
    else q = p /\ status (interrupt k1) = status (interrupt k) /\ OneTick devices Yield k = Ok k1.
Proof.
  intros Ht Hm Hh Hy Hst Hdis Hran Hcalm now. unfold OneTick. set (k2 := ChangeLevel (advance_clock k) IntOff).
  assert (ticks k2 = now) as Ht2 by (unfold k2, now, ticks, advance_clock; cbn; by case_decide).
  assert (timed k2 xs [p]) as Htm2 by (destruct Ht as [[] ? ?]; by repeat split).
  destruct (decide (Exists (due now) xs)) as [Hex | Hno].
  - rewrite <- Ht2 in Hex. destruct (check_fires k2 xs p Htm2 Hex eq_refl Hm Hcalm Hst Hdis Hran) as (k0 & k' & ys & q & -> & [Hs0 _ Hse Hr0 Hi0] & Ht' & [Utk Um Utm Uk Uc Ul Uh Us] & Hcase).
    cbn [mbind res_bind]. rewrite Ht2 in Hcase.
    assert (ticks k0 = now) as Ht0 by (rewrite Z.ltb_irrefl in Hs0; unfold ticks; by rewrite Hs0).
    change (yieldOnReturn (interrupt (ChangeLevel (leave_handler k') IntOn))) with (yieldOnReturn (interrupt k')).
    assert (rest k0 = rest k) as Hr by (by rewrite Hr0). rewrite Hr in Utm, Uk, Uc.
    rewrite Hi0 in Us. change (yieldOnReturn (interrupt k2)) with (yieldOnReturn (interrupt k)) in Hcase. change (settled (machine k) = Ok (machine k0)) in Hse. rewrite <- Um in Hse.
    assert (forall y s, timed (with_interrupt k' (Interrupt.mk IntOn (pending (interrupt k')) false y s (brk (interrupt k')))) ys [q]) as Htd
      by (intros; destruct Ht' as [[] ? ?]; by repeat split).
    case_decide as Hd; destruct Hcase as [Hyk Hq]; rewrite Hyk.
    + eexists _, ys, q. split; [| split; [| split; [| split; [| split; [| split; [| split; [| split; [| split; [| split; [| split; [| split]]]]]]]]]]];
        [.. | reflexivity]; try done; try (by right); [apply Htd | etrans; [exact Utk | done] | by apply Uc].
    + rewrite Hy. exists (ChangeLevel (leave_handler k') IntOn), ys, q. split_and!; try done; [apply Htd | etrans; [exact Utk | done] | by cbn; rewrite Hyk | by apply Uc | by right].
  - assert (~ when_ p <= now) as Hd.
    { intros Hle. apply Hno, Exists_exists. exists p. split; [| done].
      assert (p ∈ of_timer xs) as [_ ?]%list_elem_of_filter by (rewrite (tmd_timer _ _ _ Ht); by left). done. }
    destruct xs as [| p0 xs]; [by pose proof (tmd_timer _ _ _ Ht) |].
    assert (ticks k2 < when_ p0) as Hlt.
    { rewrite Ht2. destruct (Z.le_gt_cases (when_ p0) now); [| lia]. destruct Hno. by left. }
    rewrite (CheckIfDue_waits devices k2 p0 xs (tmd_agenda _ _ _ Htm2) eq_refl Hlt). cbn [mbind res_bind].
    exists (ChangeLevel k2 IntOn), (p0 :: xs), p. change (yieldOnReturn (interrupt (ChangeLevel k2 IntOn)))
      with (yieldOnReturn (interrupt k)). rewrite Hy. rewrite decide_False by done.
    split_and!; try done; [| by left]. destruct Htm2 as [[] ? ?]; by repeat split.
Qed.
End slice.




End Timer.
