(* ===== verification/Devices.v ===== *)
(** * Devices: what a device sees of the kernel

    The devices of Consoles.v and Post.v use two things of the kernel:
    [kernel->stats], and [kernel->interrupt], which calls them back.  Here these
    are the counters and the interrupts a device has asked for.  Any of them that
    is due may come next, at any later time: what Interrupt.v does is one of these
    orders ([schedule_implements], [fire_implements]). *)

From S2P Require Import Prelude Lists Stats Interrupt.

Module Bus.
Export Stats Interrupt.

Record t := mk {
  stats : Stats.t;
  asked : list (Z * IntType);
}.

Definition create : t := mk Stats.create [].
Definition count (f : Stats.t -> Stats.t) (b : t) : t := mk (f (stats b)) (asked b).

(** [kernel->interrupt->Schedule(this, fromNow, type)] *)
Definition Schedule (fromNow : Z) (type : IntType) (b : t) : res t :=
  _ ← ASSERT (0 <? fromNow);
  Ok (mk (stats b) (asked b ++ [(totalTicks (stats b) + fromNow, type)])).

(** The [i]th of them comes, at the time [now]. *)
Definition fire (i : nat) (now : Z) (b : t) : option t :=
  '(when, _) ← asked b !! i;
  if (when <=? now) && (totalTicks (stats b) <=? now)
  then Some (mk (at_time now (stats b)) (delete i (asked b))) else None.

Lemma fire_asked i now b b' : fire i now b = Some b' -> length (asked b) = S (length (asked b')).
Proof.
  unfold fire. destruct (asked b !! i) as [[w ty] |] eqn:Hi; [| done]. cbn. case_match; [| done]. intros [= <-]. cbn.
  rewrite length_delete by eauto. apply lookup_lt_Some in Hi. lia.
Qed.

(** ** The interrupt code does this *)

Section implements.
Context {Obj : Type} `{EqDecision Obj} {W : Type}.
#[local] Set Default Proof Using "Type*".
Implicit Types (k : kernel Obj W) (xs : list (PendingInterrupt Obj)).

(** The interrupts that [self] has asked for. *)
Definition mine (self : Obj) (xs : list (PendingInterrupt Obj)) : list (Z * IntType) :=
  (fun p => (when_ p, type p)) <$> filter (fun p => callOnInterrupt p = Some self) xs.
Definition sees (self : Obj) xs (k : kernel Obj W) (b : t) : Prop :=
  agenda k xs /\ mine self xs ≡ₚ asked b /\ Interrupt.stats k = stats b.

#[global] Instance mine_perm self : Proper ((≡ₚ) ==> (≡ₚ)) (mine self).
Proof. intros xs ys E. unfold mine. by rewrite E. Qed.

Lemma mine_cons self p xs : mine self (p :: xs) =
  if decide (callOnInterrupt p = Some self) then (when_ p, type p) :: mine self xs else mine self xs.
Proof. unfold mine. cbn. by destruct (decide _). Qed.

Lemma schedule_implements self xs k b fromNow ty : sees self xs k b -> 0 < fromNow ->
  exists xs' k' b', Interrupt.Schedule k self fromNow ty = Ok k' /\ Schedule fromNow ty b = Ok b' /\ sees self xs' k' b'.
Proof.
  intros (Ha & Hm & Hs) Hpos. destruct (Schedule_spec k xs self fromNow ty Ha Hpos) as (k' & E & Ha' & Hs' & _).
  eexists _, k', (mk (stats b) (asked b ++ [(totalTicks (stats b) + fromNow, ty)])). unfold Schedule. rewrite ASSERT_true by lia.
  split_and!; [done | done |]. split; [exact Ha' | split; [| by rewrite Hs']].
  rewrite CList.insert_sorted_perm, mine_cons, decide_True by done. cbn. rewrite Hm, <- Hs. unfold ticks.
  by rewrite Permutation_app_comm.
Qed.

Lemma fire_implements self k b p xs : sees self (p :: xs) k b -> callOnInterrupt p = Some self -> due (ticks k) p ->
  exists i b' l, fire i (ticks k) b = Some b' /\ CList.RemoveFront (pending (interrupt k)) = Ok (p, l) /\ sees self xs (pop k l) b'.
Proof.
  intros (Ha & Hm & Hs) Hobj Hdue.
  rewrite mine_cons, decide_True in Hm by done.
  assert ((when_ p, type p) ∈ asked b) as [i Hi]%list_elem_of_lookup by (rewrite <- Hm; by left).
  destruct (agenda_pop k p xs Ha) as (l & Hl & Hpop).
  exists i, (mk (stats b) (delete i (asked b))), l. split_and!; [| done |].
  - unfold fire. rewrite Hi. unfold due, ticks in *. rewrite Hs in *. cbn.
    rewrite (proj2 (Z.leb_le _ _) Hdue), Z.leb_refl. cbn. by destruct (stats b).
  - split; [exact Hpop | split; [| done]]. rewrite (delete_Permutation (asked b) i _ Hi) in Hm.
    by apply Permutation_cons_inv in Hm.
Qed.
End implements.
End Bus.
