(* ===== verification/AddrSpace.v ===== *)
(** * AddrSpace: userprog/addrspace.h, addrspace.cc, userprog/noff.h

    Address spaces: the page table of a process, its construction from a NOFF
    executable, and the state that follows it over a context switch.  The frames
    come from the bitmap [kernel->gPhysPageBitMap], seen through the [SlotMap]
    interface; [exe] is what the file system gives for the name: the bytes of
    the executable (the stub [OpenFile] of filesys/openfile.h reads a UNIX file).
    [kernel->addrLock] is a semaphore; [P] on it when it is 0 is [Blocked]. *)

From S2P Require Import Prelude Bitmap Machine.

Module AddrSpace.
Import Machine.

Definition UserStackSize : Z := 1024.
Definition NOFFMAGIC : Z := 0xbadfad.

Record Segment := mkSegment { virtualAddr : Z; inFileAddr : Z; size : Z }.
Record NoffHeader := mkNoff {
  noffMagic : Z;
  code : Segment;
  initData : Segment;
  readonlyData : Segment;
  uninitData : Segment;
}.

(** [sizeof(NoffHeader)], and the header in memory. *)
Definition HeaderSize : nat := 52.
Definition word_at (bs : list Z) (i : nat) : Z := s32 (le_combine (slice (4 * i) 4 bs)).
Definition segment_at (bs : list Z) (i : nat) : Segment :=
  mkSegment (word_at bs i) (word_at bs (i + 1)) (word_at bs (i + 2)).
Definition header_of (bs : list Z) : NoffHeader :=
  mkNoff (word_at bs 0) (segment_at bs 1) (segment_at bs 4) (segment_at bs 7) (segment_at bs 10).

Definition swap_segment (s : Segment) : Segment :=
  mkSegment (WordToHost (virtualAddr s)) (WordToHost (inFileAddr s)) (WordToHost (size s)).
Definition SwapHeader (h : NoffHeader) : NoffHeader :=
  mkNoff (WordToHost (noffMagic h)) (swap_segment (code h)) (swap_segment (initData h))
    (swap_segment (readonlyData h)) (swap_segment (uninitData h)).

(** [class AddrSpace]; [None] for a page table that was never set. *)
Record t := mk {
  pageTable : option (list TranslationEntry);
  numPages : Z;
}.

(** [OpenFile::ReadAt] of the stub: what [lseek] and [read] give. *)
Definition ReadAt (file : list Z) (numBytes position : Z) : res (list Z) :=
  _ ← ASSERT (0 <=? position);
  Ok (slice (Z.to_nat position) (Z.to_nat numBytes) file).

(** Bytes copied to [&mainMemory[at_]]; copying none touches nothing. *)
Definition copy_to (m : Machine.t) (at_ : Z) (bs : list Z) : res Machine.t :=
  match bs with [] => Ok m | _ => store m at_ bs end.

Section frames.
Context `{SlotMap B}.

(** What [Load] works on. *)
Record kernel := mkKernel {
  machine : Machine.t;
  gPhysPageBitMap : B;
  addrLock : Z;
}.

Definition P (k : kernel) : res kernel :=
  if addrLock k =? 0 then Fault Blocked else Ok (mkKernel (machine k) (gPhysPageBitMap k) (addrLock k - 1)).
Definition V (k : kernel) : kernel := mkKernel (machine k) (gPhysPageBitMap k) (addrLock k + 1).
Definition with_mem (k : kernel) m : kernel := mkKernel m (gPhysPageBitMap k) (addrLock k).

(** The loop that fills the page table and clears the frames. *)
Fixpoint alloc_loop (n : nat) (i : Z) (k : kernel) : res (list TranslationEntry * kernel) :=
  match n with
  | O => Ok ([], k)
  | S n' =>
      '(frame, bm) ← slot_find_and_set (gPhysPageBitMap k);
      m ← store (machine k) (frame * PageSize) (replicate (Z.to_nat PageSize) 0);
      '(pt, k) ← alloc_loop n' (i + 1) (mkKernel m bm (addrLock k));
      Ok (mkEntry i frame true false false false :: pt, k)
  end.

(** The loop that copies one segment, a page per iteration. *)
Fixpoint copy_loop (file : list Z) (s : Segment) (pt : list TranslationEntry) (i : Z) (m : Machine.t)
    : res Machine.t :=
  match pt with
  | [] => Ok m
  | e :: pt' =>
      bs ← ReadAt file PageSize (s32 (inFileAddr s + i * PageSize));
      m ← copy_to m (virtualAddr s + physicalPage e * PageSize) bs;
      copy_loop file s pt' (i + 1) m
  end.

Definition copy_segment (file : list Z) (s : Segment) (pt : list TranslationEntry) (k : kernel) : res kernel :=
  if 0 <? size s then m ← copy_loop file s pt 0 (machine k); Ok (with_mem k m) else Ok k.

Definition space_size (h : NoffHeader) : Z :=
  u32 (size (code h) + size (readonlyData h) + size (initData h) + size (uninitData h) + UserStackSize).

(** [Load] once the header is known. *)
Definition load_pages (s : t) (k : kernel) (file : list Z) (noffH : NoffHeader) : res (bool * t * kernel) :=
  k ← P k;
  let np := divRoundUp (space_size noffH) PageSize in
  numclear ← slot_num_clear (gPhysPageBitMap k);
  if np >? numclear then Ok (false, mk (pageTable s) 0, V k)
  else
    '(pt, k) ← alloc_loop (Z.to_nat np) 0 k;
    let k := V k in
    k ← copy_segment file (code noffH) pt k;
    k ← copy_segment file (initData noffH) pt k;
    k ← copy_segment file (readonlyData noffH) pt k;
    Ok (true, mk (Some pt) np, k).

(** [AddrSpace::Load]; [garbage] is what the header holds before it is read. *)
Definition Load (garbage : list Z) (s : t) (k : kernel) (exe : option (list Z)) : res (bool * t * kernel) :=
  match exe with
  | None => Ok (false, s, k)
  | Some file =>
      bs ← ReadAt file (Z.of_nat HeaderSize) 0;
      let noffH := header_of (list_inserts 0 bs garbage) in
      let noffH := if negb (noffMagic noffH =? NOFFMAGIC) && (WordToHost (noffMagic noffH) =? NOFFMAGIC)
                   then SwapHeader noffH else noffH in
      _ ← ASSERT (noffMagic noffH =? NOFFMAGIC);
      load_pages s k file noffH
  end.

(** [AddrSpace::AddrSpace(filename)]: the same steps, without the answer. *)
Definition create_from (garbage : list Z) (uninit : t) (k : kernel) (exe : option (list Z)) : res (t * kernel) :=
  '(_, s, k) ← Load garbage uninit k exe; Ok (s, k).

(** [AddrSpace::AddrSpace()]: one page per frame, and all of memory cleared;
    [numPages] stays unset. *)
Definition create (uninit : Z) (k : kernel) : res (t * kernel) :=
  m ← store (machine k) 0 (replicate (Z.to_nat MemorySize) 0);
  Ok (mk (Some ((fun i => mkEntry (Z.of_nat i) (Z.of_nat i) true false false false)
        <$> seq 0 (Z.to_nat NumPhysPages))) uninit, with_mem k m).
End frames.
Arguments kernel : clear implicits.

(** *** The state of a running space *)

Definition zero_registers (m : Machine.t) : res Machine.t :=
  forN (fun i m => WriteRegister m (Z.of_nat i) 0) 0 (Z.to_nat NumTotalRegs) m.

Definition InitRegisters (s : t) (m : Machine.t) : res Machine.t :=
  m ← zero_registers m;
  m ← WriteRegister m PCReg 0;
  m ← WriteRegister m NextPCReg 4;
  WriteRegister m StackReg (s32 (numPages s * PageSize - 16)).

Definition SaveState (s : t) (m : Machine.t) : Machine.t := m.
Definition RestoreState (s : t) (m : Machine.t) : Machine.t :=
  Machine.mk (registers m) (mainMemory m) (tlb m) (pageTable s) (numPages s).

(** [AddrSpace::Translate]; [paddr] is meaningful when there is no exception. *)
Definition Translate (s : t) (vaddr : Z) (isReadWrite : bool) : res (ExceptionType * Z * t) :=
  let vpn := vaddr / PageSize in
  let offset := vaddr mod PageSize in
  if numPages s <=? vpn then Ok (AddressErrorException, 0, s)
  else
    pt ← deref (pageTable s);
    pte ← deref (pt !! Z.to_nat vpn);
    if isReadWrite && readOnly pte then Ok (ReadOnlyException, 0, s)
    else
      let pfn := physicalPage pte in
      if NumPhysPages <=? pfn then Ok (BusErrorException, 0, s)
      else
        let paddr := u32 (pfn * PageSize + offset) in
        _ ← ASSERT (paddr <? MemorySize);
        Ok (NoException, paddr, mk (Some (<[Z.to_nat vpn := touch isReadWrite pte]> pt)) (numPages s)).

(** ** Loading

    Memory as frames. *)
Definition mem_ok (m : Machine.t) : Prop := length (mainMemory m) = Z.to_nat MemorySize.
Definition frame_of (a : nat) : nat := (a / 128)%nat.

(** The page table [alloc_loop] builds of the frames [ks]. *)
Definition table_of (i : Z) (ks : list nat) : list TranslationEntry :=
  imap (fun j f => mkEntry (i + Z.of_nat j) (Z.of_nat f) true false false false) ks.

Lemma table_of_cons i f ks :
  table_of i (f :: ks) = mkEntry i (Z.of_nat f) true false false false :: table_of (i + 1) ks.
Proof.
  unfold table_of. cbn [imap]. f_equal; [f_equal; lia |]. apply imap_ext. intros j x _. cbn. f_equal. lia.
Qed.

Lemma store_ok m pa bs :
  mem_ok m -> (pa + length bs <= Z.to_nat MemorySize)%nat ->
  store m (Z.of_nat pa) bs = Ok (with_memory m (list_inserts pa bs (mainMemory m))).
Proof.
  intros Hm Hfit. unfold store. rewrite Hm. destruct (Z.ltb_spec (Z.of_nat pa) 0); [lia |].
  destruct (Z.ltb_spec (Z.of_nat (Z.to_nat MemorySize)) (Z.of_nat pa + Z.of_nat (length bs))); [lia |].
  cbn [orb]. by rewrite Nat2Z.id.
Qed.

Lemma mem_ok_store m pa bs : mem_ok m -> mem_ok (with_memory m (list_inserts pa bs (mainMemory m))).
Proof. unfold mem_ok. cbn. by rewrite length_inserts. Qed.

(** A write inside frame [f] at offset 0. *)
Lemma frame_write m f bs :
  mem_ok m -> (f < 128)%nat -> (length bs <= 128)%nat ->
  store m (Z.of_nat f * PageSize) bs = Ok (with_memory m (list_inserts (f * 128) bs (mainMemory m))) /\
  (forall o, (o < 128)%nat -> list_inserts (f * 128) bs (mainMemory m) !! (f * 128 + o)%nat =
     match bs !! o with Some b => Some b | None => mainMemory m !! (f * 128 + o)%nat end) /\
  (forall a, frame_of a <> f -> list_inserts (f * 128) bs (mainMemory m) !! a = mainMemory m !! a).
Proof.
  intros Hm Hf Hb. change (Z.of_nat f * PageSize) with (Z.of_nat f * 128).
  replace (Z.of_nat f * 128) with (Z.of_nat (f * 128)) by lia.
  assert (f * 128 + length bs <= length (mainMemory m))%nat as Hfit.
  { rewrite Hm. change MemorySize with 16384. lia. }
  split; [apply store_ok; [done | unfold mem_ok in Hm; lia] |]. split.
  - intros o Ho. rewrite lookup_inserts by done. destruct (bs !! o) as [b|] eqn:E.
    + pose proof (lookup_lt_Some _ _ _ E). rewrite decide_True by lia.
      by replace (f * 128 + o - f * 128)%nat with o by lia.
    + apply lookup_ge_None in E. rewrite decide_False by lia. done.
  - intros a Ha. rewrite lookup_inserts by done. rewrite decide_False; [done |].
    intros [H1 H2]. apply Ha. unfold frame_of. symmetry. apply (Nat.div_unique a 128 f (a - f * 128)); lia.
Qed.

Section load.
Context `{SlotMapLaws B}.
#[local] Set Default Proof Using "Type*".
Import SlotOps.

(** How many frames that are in memory are free; the map may have more bits. *)
Definition free_frames (bm : B) : nat := count_clear (take (Z.to_nat NumPhysPages) (slots bm)).

Lemma first_free (bm : B) :
  slots_wf bm -> (0 < count_clear (slots bm))%nat ->
  exists f bm', slot_find_and_set bm = Ok (Z.of_nat f, bm') /\ slots_wf bm' /\
    slots bm !! f = Some false /\ slots bm' = <[f := true]> (slots bm) /\
    ((0 < free_frames bm)%nat <-> (f < 128)%nat).
Proof.
  intros Hw Hn. pose proof (slot_find_law bm Hw) as Hf.
  destruct (first_clear (slots bm)) as [f|] eqn:Hk; [| apply Bitmap.first_clear_None in Hk; apply Bitmap.count_clear_full in Hk; lia].
  destruct Hf as (bm' & E & Hw' & Hs). apply Bitmap.first_clear_Some in Hk as [Hk Hlow].
  exists f, bm'. split_and!; try done. unfold free_frames. change (Z.to_nat NumPhysPages) with 128%nat. split; intros Hlt.
  - destruct (decide (f < 128)%nat) as [|Hge]; [done |].
    rewrite Bitmap.count_clear_full in Hlt; [lia |]. apply Forall_lookup. intros j b [Hj Hj']%lookup_take_Some.
    rewrite Hlow in Hj by lia. congruence.
  - apply (Bitmap.count_clear_insert _ f). by rewrite lookup_take_lt.
Qed.

Lemma free_frames_mark (bm bm' : B) f :
  slots bm !! f = Some false -> slots bm' = <[f := true]> (slots bm) -> (f < 128)%nat ->
  free_frames bm' = (free_frames bm - 1)%nat /\ count_clear (slots bm') = (count_clear (slots bm) - 1)%nat.
Proof.
  intros Hcl Hs Hf. unfold free_frames. change (Z.to_nat NumPhysPages) with 128%nat. rewrite Hs. split; [| by apply Bitmap.count_clear_insert].
  rewrite take_insert_lt by done. apply Bitmap.count_clear_insert. by rewrite lookup_take_lt.
Qed.

Lemma alloc_loop_spec n i (k : kernel B) :
  mem_ok (machine k) -> slots_wf (gPhysPageBitMap k) ->
  (n <= free_frames (gPhysPageBitMap k))%nat ->
  exists ks bm mem, alloc_loop n i k =
      Ok (table_of i ks, mkKernel (with_memory (machine k) mem) bm (addrLock k)) /\
    length ks = n /\ clear_slots (gPhysPageBitMap k) ks /\ Forall (fun f => f < 128)%nat ks /\ slots_wf bm /\
    slots bm = set_slots true ks (slots (gPhysPageBitMap k)) /\ length mem = Z.to_nat MemorySize /\
    forall a, (a < Z.to_nat MemorySize)%nat ->
      mem !! a = if decide (frame_of a ∈ ks) then Some 0 else mainMemory (machine k) !! a.
Proof.
  revert i k. induction n as [|n IH]; intros i k Hm Hw Hn.
  { exists [], (gPhysPageBitMap k), (mainMemory (machine k)). destruct k as [m bm l]. cbn.
    split_and!; try done; [by destruct m | constructor; constructor]. }
  assert (free_frames (gPhysPageBitMap k) <= count_clear (slots (gPhysPageBitMap k)))%nat as Hle.
  { unfold free_frames. rewrite <- (take_drop (Z.to_nat NumPhysPages) (slots (gPhysPageBitMap k))) at 2. rewrite Bitmap.count_clear_app. lia. }
  destruct (first_free (gPhysPageBitMap k) Hw) as (f & bm1 & E & Hw1 & Hcl & Hs1 & Hff); [lia |].
  assert (f < 128)%nat as Hlt by (apply Hff; lia).
  destruct (frame_write (machine k) f (replicate (Z.to_nat PageSize) 0) Hm Hlt) as (Est & Hin & Hout).
  { by rewrite length_replicate. }
  cbn [alloc_loop]. rewrite E. cbn [mbind res_bind]. rewrite Est. cbn [mbind res_bind].
  set (mem1 := list_inserts _ _ _) in *. set (m1 := with_memory (machine k) mem1).
  destruct (free_frames_mark _ _ _ Hcl Hs1 Hlt) as [Hfm _].
  destruct (IH (i + 1) (mkKernel m1 bm1 (addrLock k))) as (ks & bm & mem & -> & Hl & [Hnd Hcs] & H128 & Hwb & Hsb & Hlm & Hmem).
  - by apply mem_ok_store.
  - done.
  - cbn [gPhysPageBitMap]. lia.
  - cbn [mbind res_bind]. cbn [gPhysPageBitMap machine addrLock] in *. rewrite Forall_forall in Hcs.
    assert (f ∉ ks) as Hfk.
    { intros Hin'. apply Hcs in Hin'. rewrite Hs1, list_lookup_insert_eq in Hin' by (by eapply lookup_lt_Some). done. }
    exists (f :: ks), bm, mem. rewrite table_of_cons. split_and!; try done.
    + cbn. by rewrite Hl.
    + split; [by constructor |]. constructor; [done |]. apply Forall_forall. intros j Hj.
      pose proof (Hcs j Hj) as Hjc. rewrite Hs1, list_lookup_insert_ne in Hjc by (by intros ->). done.
    + by constructor.
    + rewrite Hsb, Hs1. done.
    + intros a Ha. rewrite Hmem by done. cbn [m1 with_memory mainMemory].
      destruct (decide (frame_of a ∈ ks)) as [Hk|Hk]; [by rewrite decide_True by (by right) |].
      destruct (decide (frame_of a = f)) as [Ha'|Ha'].
      * rewrite decide_True by (rewrite Ha'; by left). unfold frame_of in Ha'.
        pose proof (Nat.div_mod_eq a 128) as Hdm. rewrite Ha' in Hdm.
        pose proof (Nat.mod_upper_bound a 128 ltac:(done)).
        replace a with (f * 128 + a mod 128)%nat by lia. rewrite Hin by done.
        by rewrite lookup_replicate_2 by (change (Z.to_nat PageSize) with 128%nat; done).
      * rewrite decide_False by (rewrite not_elem_of_cons; done). by apply Hout.
Qed.

(** When the map has bits for frames that are not in memory, the loop goes on to
    them and clears what is not there. *)
Lemma alloc_loop_spills n i (k : kernel B) :
  mem_ok (machine k) -> slots_wf (gPhysPageBitMap k) ->
  (free_frames (gPhysPageBitMap k) < n <= count_clear (slots (gPhysPageBitMap k)))%nat ->
  alloc_loop n i k = Fault MemoryFault.
Proof.
  revert i k. induction n as [|n IH]; intros i k Hm Hw Hn; [lia |].
  destruct (first_free (gPhysPageBitMap k) Hw) as (f & bm1 & E & Hw1 & Hcl & Hs1 & Hff); [lia |].
  cbn [alloc_loop]. rewrite E. cbn [mbind res_bind]. destruct (decide (f < 128)%nat) as [Hlt|Hge].
  - destruct (frame_write (machine k) f (replicate (Z.to_nat PageSize) 0) Hm Hlt) as (Est & _).
    { by rewrite length_replicate. }
    rewrite Est. cbn [mbind res_bind]. destruct (free_frames_mark _ _ _ Hcl Hs1 Hlt) as [Hfm Hcm]. rewrite IH; [done | by apply mem_ok_store | done |].
    cbn [gPhysPageBitMap]. apply Hff in Hlt. lia.
  - unfold store. rewrite Hm. change (Z.of_nat (Z.to_nat MemorySize)) with 16384. rewrite length_replicate.
    change PageSize with 128. rewrite (proj2 (Z.ltb_lt 16384 _)) by lia. by rewrite orb_true_r.
Qed.

(** The copy of a segment at address 0: page [i] of it goes to frame [i]. *)
Lemma copy_loop_spec file s i ks m :
  mem_ok m -> virtualAddr s = 0 -> 0 <= inFileAddr s -> 0 <= i ->
  inFileAddr s + (i + Z.of_nat (length ks)) * PageSize < 2 ^ 31 ->
  NoDup ks -> Forall (fun f => f < 128)%nat ks ->
  exists mem, copy_loop file s (table_of i ks) i m = Ok (with_memory m mem) /\
    length mem = Z.to_nat MemorySize /\
    (forall j f o, ks !! j = Some f -> (o < 128)%nat ->
       mem !! (f * 128 + o)%nat =
       match file !! (Z.to_nat (inFileAddr s) + (Z.to_nat i + j) * 128 + o)%nat with
       | Some b => Some b | None => mainMemory m !! (f * 128 + o)%nat end) /\
    forall a, frame_of a ∉ ks -> mem !! a = mainMemory m !! a.
Proof.
  intros Hm Hva Hin. revert i m Hm. induction ks as [|f ks IH]; intros i m Hm Hi Hmax Hnd Hlt.
  { exists (mainMemory m). split_and!; [by destruct m | done | done | done]. }
  apply NoDup_cons in Hnd as [Hfk Hnd]. apply Forall_cons in Hlt as [Hf Hlt].
  rewrite table_of_cons. cbn [copy_loop]. unfold ReadAt. cbn [length] in Hmax. change PageSize with 128 in *.
  rewrite s32_id by (unfold is_s32; lia). rewrite ASSERT_true by lia. cbn [mbind res_bind physicalPage].
  rewrite Hva, Z.add_0_l. set (bs := slice _ _ file). change (Z.of_nat f * 128) with (Z.of_nat f * PageSize).
  assert (length bs <= 128)%nat as Hb by (unfold bs, slice; rewrite length_take; lia).
  destruct (frame_write m f bs Hm Hf Hb) as (Est & Hins & Hout).
  set (mem1 := list_inserts (f * 128) bs (mainMemory m)) in *.
  assert (copy_to m (Z.of_nat f * PageSize) bs = Ok (with_memory m mem1)) as ->.
  { unfold copy_to. destruct bs; [| done]. unfold mem1. cbn. by destruct m. }
  cbn [mbind res_bind].
  destruct (IH (i + 1) (with_memory m mem1)) as (mem & -> & Hl & Hpg & Hsame);
    [by apply mem_ok_store | lia | lia | done | done |].
  exists mem. split_and!; [done | done | |].
  - intros [|j] g o Hj Ho.
    + injection Hj as <-. rewrite Hsame.
      2: { unfold frame_of. by rewrite Nat.div_add_l, (Nat.div_small o), Nat.add_0_r by done. }
      cbn [with_memory mainMemory]. rewrite Hins by done. unfold bs. rewrite lookup_slice.
      rewrite decide_True by done.
      by replace (Z.to_nat (inFileAddr s) + (Z.to_nat i + 0) * 128 + o)%nat
        with (Z.to_nat (inFileAddr s + i * 128) + o)%nat by lia.
    + cbn in Hj. rewrite (Hpg j g o Hj Ho). cbn [with_memory mainMemory].
      replace (Z.to_nat (i + 1) + j)%nat with (Z.to_nat i + S j)%nat by lia.
      rewrite Hout; [done |]. unfold frame_of. rewrite Nat.div_add_l, (Nat.div_small o), Nat.add_0_r by done.
      intros ->. by apply list_elem_of_lookup_2 in Hj.
  - intros a [Ha1 Ha2]%not_elem_of_cons. rewrite Hsame by done. by apply Hout.
Qed.

(** A NOFF file whose only segment with contents is code at address 0. *)
Record code_only (file : list Z) (h : NoffHeader) : Prop := {
  co_header : header_of (slice 0 HeaderSize file) = h;
  co_whole : (HeaderSize <= length file)%nat;
  co_magic : noffMagic h = NOFFMAGIC;
  co_start : virtualAddr (code h) = 0;
  co_size : 0 < size (code h);
  co_file : 0 <= inFileAddr (code h);
  co_init : size (initData h) <= 0;
  co_rdata : size (readonlyData h) <= 0;
  co_fits : inFileAddr (code h) + divRoundUp (space_size h) PageSize * PageSize < 2 ^ 31;
}.

Lemma pages_nonneg h : 0 <= divRoundUp (space_size h) PageSize.
Proof.
  unfold divRoundUp. assert (0 <= space_size h) as Hr by apply u32_range.
  pose proof (Z.quot_pos (space_size h) PageSize Hr ltac:(done)). case_match; lia.
Qed.

Lemma header_read (garbage file : list Z) :
  length garbage = HeaderSize -> (HeaderSize <= length file)%nat ->
  list_inserts 0 (slice 0 HeaderSize file) garbage = slice 0 HeaderSize file.
Proof.
  intros Hg Hf. assert (length (slice 0 HeaderSize file) = HeaderSize) as Hs by (apply length_slice; lia).
  apply list_eq. intros j. rewrite lookup_inserts by lia. case_decide as Hj.
  - f_equal. lia.
  - rewrite !lookup_ge_None_2; [done | lia | lia].
Qed.

Lemma Load_header garbage s (k : kernel B) file h :
  length garbage = HeaderSize -> code_only file h ->
  Load garbage s k (Some file) = load_pages s k file h.
Proof.
  intros Hg [Hh Hwhole Hmag _ _ _ _ _ _]. unfold Load, ReadAt. change (0 <=? 0) with true.
  cbn [ASSERT mbind res_bind]. change (Z.to_nat 0) with 0%nat. rewrite Nat2Z.id, header_read, Hh by done.
  rewrite Hmag. change (negb (NOFFMAGIC =? NOFFMAGIC)) with false. cbn [andb]. by rewrite Hmag.
Qed.

(** [load_pages] for such a file. *)
Lemma load_pages_image s (k : kernel B) file h :
  code_only file h -> mem_ok (machine k) -> slots_wf (gPhysPageBitMap k) -> addrLock k = 1 ->
  let np := divRoundUp (space_size h) PageSize in
  if decide (Z.of_nat (count_clear (slots (gPhysPageBitMap k))) < np) then
    load_pages s k file h = Ok (false, mk (pageTable s) 0, k)
  else if decide (Z.of_nat (free_frames (gPhysPageBitMap k)) < np) then load_pages s k file h = Fault MemoryFault
  else exists ks bm mem,
    load_pages s k file h =
      Ok (true, mk (Some (table_of 0 ks)) np, mkKernel (with_memory (machine k) mem) bm 1) /\
    Z.of_nat (length ks) = np /\ clear_slots (gPhysPageBitMap k) ks /\
    slots bm = set_slots true ks (slots (gPhysPageBitMap k)) /\
    (forall i f o, ks !! i = Some f -> (o < 128)%nat ->
       mem !! (f * 128 + o)%nat =
       Some (default 0 (file !! (Z.to_nat (inFileAddr (code h)) + i * 128 + o)%nat))) /\
    forall a, frame_of a ∉ ks -> mem !! a = mainMemory (machine k) !! a.
Proof.
  intros Hco Hm Hfr Hlock np. pose proof Hco as [_ _ _ Hva Hsz Hfa Hini Hrd Hfit].
  pose proof (pages_nonneg h) as Hnp. fold np in Hnp.
  unfold load_pages.
  unfold P. rewrite Hlock. cbn [Z.eqb mbind res_bind gPhysPageBitMap machine].
  destruct k as [m bm0 lock]. cbn [gPhysPageBitMap machine addrLock] in *. subst lock.
  rewrite (slot_num_law bm0 Hfr). cbn [mbind res_bind].
  fold np. rewrite Z.gtb_ltb. case_decide as Hroom.
  { by rewrite (proj2 (Z.ltb_lt _ _) Hroom). }
  rewrite (proj2 (Z.ltb_ge _ _)) by lia. case_decide as Hmem128.
  { rewrite (alloc_loop_spills (Z.to_nat np) 0 (mkKernel m bm0 (1 - 1)) Hm Hfr); [done | cbn; lia]. }
  destruct (alloc_loop_spec (Z.to_nat np) 0 (mkKernel m bm0 (1 - 1)) Hm Hfr) as
    (ks & bm & mem0 & -> & Hl & [Hnd Hcl] & Hk128 & Hwb & Hsb & Hlm & Hmem); [cbn; lia |].
  cbn [mbind res_bind V machine gPhysPageBitMap addrLock] in *. unfold copy_segment.
  rewrite (proj2 (Z.ltb_lt _ _) Hsz), !(proj2 (Z.ltb_ge _ _)) by done.
  cbn [V machine gPhysPageBitMap addrLock].
  destruct (copy_loop_spec file (code h) 0 ks (with_memory m mem0)) as (mem & -> & Hlm' & Hpg & Hsame);
    [done | done | done | lia | replace (0 + Z.of_nat (length ks)) with np by lia; exact Hfit | done | done |].
  cbn [mbind res_bind with_mem machine gPhysPageBitMap addrLock with_memory]. exists ks, bm, mem.
  assert (forall a, frame_of a ∈ ks -> (a < Z.to_nat MemorySize)%nat) as Hin.
  { intros a Ha. rewrite Forall_forall in Hk128. specialize (Hk128 _ Ha). unfold frame_of in Hk128.
    pose proof (Nat.div_mod_eq a 128). pose proof (Nat.mod_upper_bound a 128 ltac:(done)).
    change MemorySize with 16384. lia. }
  split_and!; [done | rewrite Hl; lia | by split | done | |].
  - intros i f o Hi Ho. rewrite (Hpg i f o Hi Ho). cbn [with_memory mainMemory].
    change (Z.to_nat 0 + i)%nat with i. destruct (file !! _); [done |].
    assert (frame_of (f * 128 + o) ∈ ks) as Hf.
    { unfold frame_of. rewrite Nat.div_add_l, (Nat.div_small o), Nat.add_0_r by done.
      by apply list_elem_of_lookup_2 in Hi. }
    rewrite Hmem by (by apply Hin). by rewrite decide_True.
  - intros a Ha. rewrite Hsame by done. cbn [with_memory mainMemory].
    destruct (decide (a < Z.to_nat MemorySize)%nat).
    + rewrite Hmem by done. by rewrite decide_False.
    + rewrite !lookup_ge_None_2; [done | unfold mem_ok in Hm; lia | lia].
Qed.

(** Loading a program of one code segment, with the loader's lock free: [Load]
    answers FALSE and changes nothing when the program needs more pages than the
    map has free bits; it writes outside memory when it needs more than there are
    free frames in memory (the kernel's map has twice as many bits); otherwise the
    page table maps page [i] to the [i]-th of as many distinct frames, all free
    before and exactly these taken now; every byte of the program's memory is the
    byte of the file it stands for, or zero past the end of the file; no byte of
    any other frame changes; and the lock is free again. *)
Theorem load_program_image garbage s (k : kernel B) file h :
  length garbage = HeaderSize -> code_only file h ->
  mem_ok (machine k) -> slots_wf (gPhysPageBitMap k) -> addrLock k = 1 ->
  let np := divRoundUp (space_size h) PageSize in
  if decide (Z.of_nat (count_clear (slots (gPhysPageBitMap k))) < np) then
    Load garbage s k (Some file) = Ok (false, mk (pageTable s) 0, k)
  else if decide (Z.of_nat (free_frames (gPhysPageBitMap k)) < np) then Load garbage s k (Some file) = Fault MemoryFault
  else exists ks bm mem,
    Load garbage s k (Some file) =
      Ok (true, mk (Some (table_of 0 ks)) np, mkKernel (with_memory (machine k) mem) bm 1) /\
    Z.of_nat (length ks) = np /\ clear_slots (gPhysPageBitMap k) ks /\
    slots bm = set_slots true ks (slots (gPhysPageBitMap k)) /\
    (forall i f o, ks !! i = Some f -> (o < 128)%nat ->
       mem !! (f * 128 + o)%nat =
       Some (default 0 (file !! (Z.to_nat (inFileAddr (code h)) + i * 128 + o)%nat))) /\
    forall a, frame_of a ∉ ks -> mem !! a = mainMemory (machine k) !! a.
Proof.
  intros Hg Hco Hm Hfr Hlock. rewrite (Load_header garbage s k file h Hg Hco). by apply load_pages_image.
Qed.
End load.

(** ** Isolation

    What a space can reach: the frames in its page table. *)
Definition uses_frame (s : t) (f : Z) : Prop :=
  exists pt e, pageTable s = Some pt /\ e ∈ pt /\ s32 (physicalPage e) = f.

(** An access that goes through stays inside one frame of the table. *)
Lemma access_frame m va sz w :
  sz = 1 \/ sz = 2 \/ sz = 4 -> expected_exception m va sz w = NoException ->
  exists e o, e ∈ table m /\ phys_addr m va = Some (s32 (physicalPage e) * 128 + o) /\
    0 <= s32 (physicalPage e) < 128 /\ 0 <= o /\ o + sz <= 128.
Proof.
  intros Hs He. unfold expected_exception, phys_addr in *. cbv zeta in He.
  destruct (Z.eqb_spec (va mod sz) 0) as [Ha|]; [| done]. cbn [negb] in He.
  destruct (Machine.offset_fits va sz Hs Ha) as [Ho1 Ho2].
  destruct (page_entry m (u32 va / PageSize)) as [e|] eqn:Hp.
  - exists e, (u32 va mod PageSize). unfold page_entry in Hp.
    destruct (page_index m _) as [i|]; [| done]. cbn in Hp.
    destruct (readOnly e && w); [done |]. case_decide as Hf; [| done].
    split_and!; [exact (list_elem_of_lookup_2 _ _ _ Hp) | done | | | |]; unfold NumPhysPages, PageSize in *; lia.
  - destruct (tlb m); [done |]. by destruct (_ <=? _).
Qed.

(** Two address spaces that share no frame: a store by one, through the
    machine's translation, leaves every load of the other as it was: the same
    value where there was one, and the same exception otherwise. *)
Theorem spaces_isolated a b m va sz v m' va2 sz2 :
  wf (RestoreState a m) -> wf (RestoreState b m) -> tlb m = None ->
  (forall f, uses_frame a f -> ~ uses_frame b f) ->
  sz = 1 \/ sz = 2 \/ sz = 4 -> sz2 = 1 \/ sz2 = 2 \/ sz2 = 4 ->
  WriteMem (RestoreState a m) va sz v = Ok (Done tt m') ->
  expected_exception (RestoreState b m') va2 sz2 false =
    expected_exception (RestoreState b m) va2 sz2 false /\
  forall x m1, ReadMem (RestoreState b m) va2 sz2 = Ok (Done x m1) ->
    exists m2, ReadMem (RestoreState b m') va2 sz2 = Ok (Done x m2).
Proof.
  intros Hwa Hwb Htlb Hdis Hs Hs2 Hw.
  assert (expected_exception (RestoreState a m) va sz true = NoException) as He.
  { apply (WriteMem_done _ _ _ _ _ Hwa Hs Hw). }
  destruct (WriteMem_ok _ va sz v Hwa Hs He) as (pa & i & Hp & H0 & H1 & E). rewrite E in Hw.
  injection Hw as <-. set (bs := le_split (Z.to_nat sz) v).
  destruct (access_frame _ _ _ _ Hs He) as (e & o & Hin & Hp' & Hf & Ho & Ho').
  rewrite Hp in Hp'. injection Hp' as Hpa.
  set (m' := write_bytes (mark true i (RestoreState a m)) pa bs).
  assert (RestoreState b m' = write_bytes (RestoreState b m) pa bs) as Eb.
  { unfold m', write_bytes, with_memory, mark, with_table, RestoreState. cbn. rewrite Htlb. done. }
  rewrite Eb. split; [done |]. intros x m1 Hr.
  assert (expected_exception (RestoreState b m) va2 sz2 false = NoException) as He2
    by apply (ReadMem_done _ _ _ _ _ Hwb Hs2 Hr).
  destruct (ReadMem_ok _ va2 sz2 Hwb Hs2 He2) as (pa2 & j & Hp2 & H2 & H3 & Hj & E2). rewrite E2 in Hr.
  injection Hr as <- _.
  assert (wf (write_bytes (RestoreState b m) pa bs)) as Hwb' by (apply wf_write_bytes; [done | apply le_split_bytes]).
  destruct (ReadMem_ok _ va2 sz2 Hwb' Hs2 He2) as (pa3 & j' & Hp3 & _ & _ & _ & E3).
  change (phys_addr (write_bytes (RestoreState b m) pa bs) va2) with (phys_addr (RestoreState b m) va2) in Hp3.
  rewrite Hp2 in Hp3. injection Hp3 as <-.
  eexists. rewrite E3. do 3 f_equal. unfold bytes_at, write_bytes. cbn [with_memory mainMemory].
  destruct (access_frame _ _ _ _ Hs2 He2) as (e2 & o2 & Hin2 & Hp2' & Hf2 & Ho2 & Ho2').
  rewrite Hp2 in Hp2'. injection Hp2' as Hpa2.
  assert (s32 (physicalPage e) <> s32 (physicalPage e2)) as Hne.
  { unfold table in Hin, Hin2. cbn in Hin, Hin2. rewrite Htlb in Hin, Hin2. intros Heq.
    destruct (pageTable a) as [pta|] eqn:Ea, (pageTable b) as [ptb|] eqn:Eb'; cbn in Hin, Hin2;
      try by apply not_elem_of_nil in Hin. 2: by apply not_elem_of_nil in Hin2.
    apply (Hdis (s32 (physicalPage e))); [by exists pta, e | exists ptb, e2; by rewrite Heq]. }
  assert (length bs = Z.to_nat sz) as Hlb by apply length_le_split.
  apply slice_inserts_ne; rewrite Hlb; [rewrite (wf_mem _ Hwb); lia | lia].
Qed.

(** C39: on a page table whose entries are valid and name no negative frame,
    the kernel's [AddrSpace::Translate] and the machine's [Translate] of a byte
    agree: the same exception, the same physical address, the same use and dirty
    bits set. *)
Theorem translate_agrees s m pt va w :
  tlb m = None -> pageTable s = Some pt -> numPages s = Z.of_nat (length pt) -> is_u32 va ->
  Forall (fun e => valid e = true /\ 0 <= physicalPage e < 2 ^ 31) pt ->
  exists ex pa s', Translate s va w = Ok (ex, pa, s') /\
    Machine.Translate (RestoreState s m) va 1 w = Ok (ex, pa, RestoreState s' m).
Proof.
  intros Htlb Hpt Hn Hva Hall. unfold Translate, Machine.Translate. cbn [Z.eqb andb orb].
  rewrite u32_id by done. unfold RestoreState. cbn [tlb Machine.pageTable pageTableSize]. rewrite Htlb, Hpt.
  rewrite (bool_decide_true (None = None)), (bool_decide_false (Some pt = None)) by done.
  cbn [orb negb ASSERT mbind res_bind deref]. assert (0 <= va / PageSize) as Hv by (apply Z.div_pos; [apply Hva | done]).
  destruct (Z.leb_spec (numPages s) (va / PageSize)) as [|Hin]; [by eexists _, _, s; rewrite Hpt |].
  destruct (lookup_lt_is_Some_2 pt (Z.to_nat (va / PageSize))) as [e He]; [lia |].
  rewrite He. cbn [deref mbind res_bind]. rewrite Forall_forall in Hall.
  destruct (Hall e (list_elem_of_lookup_2 _ _ _ He)) as [Hvalid Hf]. rewrite Hvalid. cbn [negb].
  unfold check_entry. rewrite (andb_comm w). destruct (readOnly e && w).
  { cbn [mbind res_bind]. rewrite decide_False by done. by eexists _, _, s; rewrite Hpt. }
  rewrite (u32_id (physicalPage e)) by (unfold is_u32; lia).
  destruct (Z.leb_spec NumPhysPages (physicalPage e)) as [|Hlt].
  { cbn [mbind res_bind]. rewrite decide_False by done. by eexists _, _, s; rewrite Hpt. }
  pose proof (Z.mod_pos_bound va PageSize ltac:(done)) as Ho. unfold MemorySize, NumPhysPages, PageSize in *.
  rewrite s32_id by (unfold is_s32; lia). rewrite u32_id by (unfold is_u32; lia).
  set (pa := physicalPage e * 128 + va mod 128). assert (0 <= pa < 128 * 128) as Hpa by (unfold pa; lia).
  rewrite (proj2 (Z.ltb_lt _ _)), (proj2 (Z.leb_le 0 pa)), (proj2 (Z.leb_le (pa + 1) _)) by lia.
  cbn [andb ASSERT mbind res_bind]. rewrite decide_True by done. by eexists _, _, _.
Qed.

(** ** Where loading goes wrong *)
Section beyond.
Context `{SlotMapLaws B}.
#[local] Set Default Proof Using "Type*".

(** The frame map of the kernel has 256 bits for 128 frames: once the
    first free bit is past the last frame, [Load] finds room enough and writes
    outside main memory. *)
Theorem load_leaves_memory garbage s (k : kernel B) file h j :
  length garbage = HeaderSize -> code_only file h -> mem_ok (machine k) ->
  slots_wf (gPhysPageBitMap k) -> addrLock k = 1 -> 0 < divRoundUp (space_size h) PageSize ->
  divRoundUp (space_size h) PageSize <= Z.of_nat (count_clear (slots (gPhysPageBitMap k))) ->
  first_clear (slots (gPhysPageBitMap k)) = Some j -> NumPhysPages <= Z.of_nat j ->
  Load garbage s k (Some file) = Fault MemoryFault.
Proof.
  intros Hg Hco Hm Hw Hlock Hpos Hroom Hj Hbig.
  rewrite (Load_header garbage s k file h Hg Hco). unfold load_pages, P. rewrite Hlock.
  cbn [Z.eqb mbind res_bind gPhysPageBitMap machine]. destruct k as [m bm lock]. cbn in *.
  rewrite (slot_num_law bm Hw). cbn [mbind res_bind]. rewrite Z.gtb_ltb, (proj2 (Z.ltb_ge _ _)) by lia.
  destruct (Z.to_nat (divRoundUp (space_size h) PageSize)) as [|n] eqn:En; [lia |].
  cbn [alloc_loop gPhysPageBitMap machine]. pose proof (slot_find_law bm Hw) as Hf. rewrite Hj in Hf.
  destruct Hf as (bm' & -> & _ & _). cbn [mbind res_bind]. unfold store.
  change PageSize with 128. change NumPhysPages with 128 in Hbig. rewrite Hm.
  change (Z.of_nat (Z.to_nat MemorySize)) with 16384. rewrite length_replicate.
  change (Z.of_nat (Z.to_nat 128)) with 128.
  rewrite (proj2 (Z.ltb_lt 16384 _)) by lia. by rewrite orb_true_r.
Qed.
End beyond.

(** ** Instances *)
Module SpaceDemo.

Definition noff (words : list Z) (contents : list Z) : list Z := concat (le_split 4 <$> words) ++ contents.

(** Ten bytes of code. *)
Definition code_file : list Z := noff [NOFFMAGIC; 0; 52; 10; 0; 0; 0; 0; 0; 0; 0; 0; 0] (replicate 10 7).
(** A page of code, and four bytes of data at the next page. *)
Definition data_file : list Z :=
  noff [NOFFMAGIC; 0; 52; 128; 128; 180; 4; 0; 0; 0; 0; 0; 0] (replicate 128 7 ++ [1; 2; 3; 4]).

Definition blank : t := mk None 0.
Definition junk : list Z := replicate HeaderSize 0.

(** All frames free; all but frame 1; and the kernel's map with every frame taken. *)
Definition fresh_kernel : kernel Bitmap.t := mkKernel Machine.create (Bitmap.mk 128 4 [0; 0; 0; 0]) 1.
Definition shared_kernel : kernel Bitmap.t := mkKernel Machine.create (Bitmap.mk 128 4 [2; 0; 0; 0]) 1.
Definition full_kernel : kernel Bitmap.t :=
  mkKernel Machine.create (Bitmap.mk 256 8 (replicate 4 (2 ^ 32 - 1) ++ replicate 4 0)) 1.

Lemma code_file_ok : code_only code_file (header_of (slice 0 HeaderSize code_file)).
Proof.
  split; [done | | | | | | | |]; vm_compute; try done; try (intros ?; discriminate).
  repeat constructor.
Qed.

(** The outcome of the load below, as a test. *)
Definition spills (r : res (bool * t * kernel Bitmap.t)) : bool :=
  match r with
  | Ok (true, s, k') =>
      negb (existsb (fun e => s32 (physicalPage e) =? 1) (default [] (pageTable s)))
      && bool_decide (slice 128 4 (mainMemory (machine k')) = [1; 2; 3; 4])
  | _ => false
  end.

Lemma load_spills : spills (Load junk blank shared_kernel (Some data_file)) = true.
Proof. vm_compute. reflexivity. Qed.

(** With frame 1 in use by another process, loading a program whose data
    lies at its second page succeeds and writes the data into frame 1, which is
    not in its page table: the copy adds the virtual address to the frame of page
    [i], which is right only when the frames are contiguous. *)
Theorem load_overwrites_neighbour :
  exists s k', Load junk blank shared_kernel (Some data_file) = Ok (true, s, k') /\
    slots (gPhysPageBitMap shared_kernel) !! 1%nat = Some true /\ ~ uses_frame s 1 /\
    slice 128 4 (mainMemory (machine shared_kernel)) = [0; 0; 0; 0] /\
    slice 128 4 (mainMemory (machine k')) = [1; 2; 3; 4].
Proof.
  pose proof load_spills as Hs. destruct (Load junk blank shared_kernel (Some data_file)) as [[[b s] k']|f]; [| done].
  destruct b; [| done]. cbn [spills] in Hs. apply andb_true_iff in Hs as [Hu Hm].
  exists s, k'. split_and!; [done | by vm_compute | | by vm_compute | by apply bool_decide_eq_true in Hm].
  intros (pt & e & Ept & Hin & He). rewrite Ept in Hu. cbn [from_option id] in Hu.
  apply negb_true_iff in Hu. apply not_true_iff_false in Hu. apply Hu.
  apply existsb_exists. exists e. split; [by apply list_elem_of_In | by apply Z.eqb_eq].
Qed.

Lemma map_wf_dec (bm : Bitmap.t) :
  (0 <? Bitmap.numBits bm) && (Bitmap.numWords bm =? divRoundUp (Bitmap.numBits bm) Bitmap.BitsInWord)
  && (Z.of_nat (length (Bitmap.map bm)) =? Bitmap.numWords bm)
  && forallb (fun w => (0 <=? w) && (w <? 2 ^ 32)) (Bitmap.map bm) = true -> slots_wf bm.
Proof.
  intros [[[H1%Z.ltb_lt H2%Z.eqb_eq]%andb_true_iff H3%Z.eqb_eq]%andb_true_iff H4]%andb_true_iff.
  rewrite forallb_forall in H4. split; [done | done | done |]. apply Forall_forall. intros w Hw.
  apply list_elem_of_In, H4, andb_true_iff in Hw as [?%Z.leb_le ?%Z.ltb_lt]. by split.
Qed.

Lemma create_mem : mem_ok Machine.create.
Proof. unfold mem_ok, Machine.create. cbn [mainMemory]. apply length_replicate. Qed.

(** What the kernel starts with: a map of 256 bits, none of them set. *)
Definition first_kernel : kernel Bitmap.t := mkKernel Machine.create (Bitmap.mk 256 8 (replicate 8 0)) 1.

Lemma first_frames : slots_wf (gPhysPageBitMap first_kernel).
Proof. by apply map_wf_dec. Qed.

Lemma load_program_image_witness :
  exists s k', Load junk blank first_kernel (Some code_file) = Ok (true, s, k') /\ numPages s = 9.
Proof.
  pose proof (load_program_image junk blank first_kernel code_file _ eq_refl code_file_ok
    create_mem first_frames eq_refl) as Himg. cbv zeta in Himg.
  rewrite !decide_False in Himg by (vm_compute; discriminate).
  destruct Himg as (ks & bm & mem & E & _). eexists _, _. split; [exact E | vm_compute; reflexivity].
Defined.

Lemma load_leaves_memory_witness : Load junk blank full_kernel (Some code_file) = Fault MemoryFault.
Proof.
  apply (load_leaves_memory junk blank full_kernel code_file _ 128 eq_refl code_file_ok create_mem);
    [by apply map_wf_dec | reflexivity | vm_compute; reflexivity | vm_compute; discriminate
    | vm_compute; reflexivity | vm_compute; discriminate].
Defined.

(** Two spaces of one page each. *)
Definition one_page (f : Z) : t := mk (Some [mkEntry 0 f true false false false]) 1.

Lemma one_page_wf f : wf (RestoreState (one_page f) Machine.create).
Proof.
  split; cbn [RestoreState registers mainMemory Machine.create]; try done.
  - by apply Forall_replicate.
  - exists 0. split; [done | by split].
  - by apply Forall_replicate.
Qed.

Lemma spaces_isolated_witness :
  exists m', WriteMem (RestoreState (one_page 3) Machine.create) 8 4 77 = Ok (Done tt m') /\
    expected_exception (RestoreState (one_page 5) m') 8 4 false = NoException.
Proof.
  destruct (WriteMem_ok (RestoreState (one_page 3) Machine.create) 8 4 77 (one_page_wf 3)) as (pa & i & _ & _ & _ & E);
    [by right; right | reflexivity |].
  eexists. split; [exact E |].
  rewrite (proj1 (spaces_isolated (one_page 3) (one_page 5) Machine.create 8 4 77 _ 8 4 (one_page_wf 3)
    (one_page_wf 5) eq_refl ltac:(intros f (pt & e & [= <-] & ->%list_elem_of_singleton & <-)
      (pt' & e' & [= <-] & ->%list_elem_of_singleton & Hx); discriminate Hx)
    (or_intror (or_intror eq_refl)) (or_intror (or_intror eq_refl)) E)).
  reflexivity.
Defined.

Lemma translate_agrees_witness :
  exists ex pa s', Translate (one_page 3) 200 true = Ok (ex, pa, s') /\
    Machine.Translate (RestoreState (one_page 3) Machine.create) 200 1 true = Ok (ex, pa, RestoreState s' Machine.create).
Proof.
  apply (translate_agrees (one_page 3) Machine.create _ 200 true eq_refl eq_refl eq_refl);
    [by split | by repeat constructor].
Defined.
End SpaceDemo.
End AddrSpace.
