(* ===== verification/Threads.v ===== *)
(** * Threads: threads/thread.h, thread.cc, scheduler.h, scheduler.cc, synch.h, synch.cc

    Threads, the ready list, semaphores and locks on one processor.  A thread's
    control state is what it still has to do: a list of calls, with the points
    inside [P], [Sleep] and [Yield] where it can be switched out.  The context
    switch itself (SWITCH in switch.S) goes from one such list to another.
    Programs are finite sequences of calls; the theorems hold for all of them,
    and so for every finite run of a program with loops and branches.

    One [Exec] runs the current thread to its next call boundary; between calls,
    while interrupts are on, the timer can make it yield and a device handler can
    signal a semaphore; while the machine idles, only the devices act. *)

From S2P Require Import Prelude Lists Machine Interrupt AddrSpace.

Module Threads.
Import Machine Interrupt.

Inductive ThreadStatus : Set := JUST_CREATED | RUNNING | READY | BLOCKED.
#[global] Instance ThreadStatus_eq_dec : EqDecision ThreadStatus.
Proof. solve_decision. Defined.

(** What a thread has to do. *)
Inductive instr : Type :=
  | Call_P (s : nat)
  | Wait_P (s : nat) (oldLevel : IntStatus)   (** in [P], before the test of [value] *)
  | Call_V (s : nat)
  | Call_Yield
  | Set_Level (l : IntStatus)                 (** [SetLevel(l)] on the way out of a call *)
  | In_Sleep (finishing : bool)               (** in the loop of [Sleep] *)
  | Call_Fork (body : list instr)
  | Call_Finish
  | Call_Acquire (l : nat)
  | Set_Holder (l : nat)                      (** in [Acquire], after [P] *)
  | Call_Release (l : nat)
  | Set_Space (sp : AddrSpace.t).             (** the thread becomes a user program *)

Definition STACK_FENCEPOST : Z := 0xdedbeef.

(** [class Thread]; [code] is the state of its stack, [stack] the fencepost. *)
Record Thread := mkThread {
  main : bool;
  stack : option Z;
  status : ThreadStatus;
  userRegisters : list Z;
  space : option AddrSpace.t;
  code : list instr;
}.

Record Semaphore := mkSem { value : Z; queue : list nat }.
Record Lock := mkLock { semaphore : nat; lockHolder : option nat }.

(** What this code sees of [kernel]: a thread, a semaphore or a lock is its
    index; [None] is a thread that was deleted. *)
Record kernel := mk {
  level : IntStatus;
  machine : Machine.t;
  currentThread : nat;
  readyList : list nat;
  toBeDestroyed : option nat;
  threads : list (option Thread);
  sems : list Semaphore;
  locks : list Lock;
}.

Definition with_level (k : kernel) l :=
  mk l (machine k) (currentThread k) (readyList k) (toBeDestroyed k) (threads k) (sems k) (locks k).
Definition with_machine (k : kernel) m :=
  mk (level k) m (currentThread k) (readyList k) (toBeDestroyed k) (threads k) (sems k) (locks k).
Definition with_current (k : kernel) t :=
  mk (level k) (machine k) t (readyList k) (toBeDestroyed k) (threads k) (sems k) (locks k).
Definition with_ready (k : kernel) l :=
  mk (level k) (machine k) (currentThread k) l (toBeDestroyed k) (threads k) (sems k) (locks k).
Definition with_destroyed (k : kernel) d :=
  mk (level k) (machine k) (currentThread k) (readyList k) d (threads k) (sems k) (locks k).
Definition with_threads (k : kernel) ts :=
  mk (level k) (machine k) (currentThread k) (readyList k) (toBeDestroyed k) ts (sems k) (locks k).
Definition with_sems (k : kernel) ss :=
  mk (level k) (machine k) (currentThread k) (readyList k) (toBeDestroyed k) (threads k) ss (locks k).
Definition with_locks (k : kernel) ls :=
  mk (level k) (machine k) (currentThread k) (readyList k) (toBeDestroyed k) (threads k) (sems k) ls.

Definition set_status (th : Thread) st := mkThread (main th) (stack th) st (userRegisters th) (space th) (code th).
Definition set_code (th : Thread) c := mkThread (main th) (stack th) (status th) (userRegisters th) (space th) c.
Definition set_space (th : Thread) sp := mkThread (main th) (stack th) (status th) (userRegisters th) (Some sp) (code th).
Definition set_registers (th : Thread) rs := mkThread (main th) (stack th) (status th) rs (space th) (code th).

(** A thread through its pointer; a deleted one is a dangling pointer. *)
Definition thread (k : kernel) (t : nat) : res Thread :=
  th ← deref (threads k !! t); deref th.
Definition set_thread (k : kernel) (t : nat) (th : Thread) : kernel :=
  with_threads k (<[t := Some th]> (threads k)).

(** ** The scheduler *)

Definition ReadyToRun (k : kernel) (t : nat) : res kernel :=
  _ ← ASSERT (bool_decide (level k = IntOff));
  th ← thread k t;
  l ← ListSpec.Append t (readyList k);
  Ok (with_ready (set_thread k t (set_status th READY)) l).

Definition FindNextToRun (k : kernel) : res (option nat * kernel) :=
  _ ← ASSERT (bool_decide (level k = IntOff));
  match readyList k with
  | [] => Ok (None, k)
  | _ => '(t, l) ← ListSpec.RemoveFront (readyList k); Ok (Some t, with_ready k l)
  end.

(** [delete toBeDestroyed], with the checks of [~Thread]. *)
Definition CheckToBeDestroyed (k : kernel) : res kernel :=
  match toBeDestroyed k with
  | None => Ok k
  | Some t =>
      th ← thread k t;
      _ ← ASSERT (main th || negb (bool_decide (t = currentThread k)));
      Ok (with_destroyed (with_threads k (<[t := None]> (threads k))) None)
  end.

Definition CheckOverflow (th : Thread) : res unit :=
  match stack th with None => Ok tt | Some w => ASSERT (w =? STACK_FENCEPOST) end.

(** [for (i = 0; i < NumTotalRegs; i++) userRegisters[i] = ReadRegister(i)] *)
Definition SaveUserState (m : Machine.t) (th : Thread) : res Thread :=
  rs ← forN (fun i rs => v ← ReadRegister m (Z.of_nat i); Ok (<[i := v]> rs)) 0
         (Z.to_nat NumTotalRegs) (userRegisters th);
  Ok (set_registers th rs).

Definition RestoreUserState (m : Machine.t) (th : Thread) : res Machine.t :=
  forN (fun i m => v ← deref (userRegisters th !! i); WriteRegister m (Z.of_nat i) v) 0
    (Z.to_nat NumTotalRegs) m.

(** The two sides of [Run]: what happens before SWITCH, in the old thread, and
    after it, in the new one (a thread that begins has no address space yet). *)
Definition switch_out (k : kernel) : res kernel :=
  let old := currentThread k in
  oth ← thread k old;
  match space oth with
  | Some sp => oth ← SaveUserState (machine k) oth;
               Ok (set_thread (with_machine k (AddrSpace.SaveState sp (machine k))) old oth)
  | None => Ok k
  end.

Definition switch_in (k : kernel) : res kernel :=
  _ ← ASSERT (bool_decide (level k = IntOff));
  k ← CheckToBeDestroyed k;
  th ← thread k (currentThread k);
  match space th with
  | Some sp => m ← RestoreUserState (machine k) th; Ok (with_machine k (AddrSpace.RestoreState sp m))
  | None => Ok k
  end.

Definition Run (k : kernel) (nextThread : nat) (finishing : bool) : res kernel :=
  let oldThread := currentThread k in
  _ ← ASSERT (bool_decide (level k = IntOff));
  k ← (if finishing then
         _ ← ASSERT (bool_decide (toBeDestroyed k = None)); Ok (with_destroyed k (Some oldThread))
       else Ok k);
  k ← switch_out k;
  oth ← thread k oldThread;
  _ ← CheckOverflow oth;
  nth ← thread k nextThread;
  let k := set_thread (with_current k nextThread) nextThread (set_status nth RUNNING) in
  switch_in k.

(** ** Threads *)

(** Put [is_] in front of what the current thread has to do. *)
Definition push (k : kernel) (is_ : list instr) : res kernel :=
  th ← thread k (currentThread k);
  Ok (set_thread k (currentThread k) (set_code th (is_ ++ code th))).

(** [Sleep]: up to its loop. *)
Definition Sleep (k : kernel) (finishing : bool) : res kernel :=
  _ ← ASSERT (bool_decide (level k = IntOff));
  th ← thread k (currentThread k);
  Ok (set_thread k (currentThread k) (set_code (set_status th BLOCKED) (In_Sleep finishing :: code th))).

Definition Yield (k : kernel) : res kernel :=
  let oldLevel := level k in
  let k := with_level k IntOff in
  '(nextThread, k) ← FindNextToRun k;
  match nextThread with
  | Some n =>
      k ← push k [Set_Level oldLevel];
      k ← ReadyToRun k (currentThread k);
      Run k n false
  | None => Ok (with_level k oldLevel)
  end.

Definition Finish (k : kernel) : res kernel := Sleep (with_level k IntOff) true.

(** [new Thread] and [Fork]; the new thread starts in [ThreadRoot], which calls
    [Begin] (whose effects after the switch are those of [switch_in], and then
    [Enable]), the function, and [Finish].  [fresh] is what [new] leaves in
    [userRegisters]. *)
Definition Fork (fresh : list Z) (k : kernel) (body : list instr) : res kernel :=
  let t := length (threads k) in
  let th := mkThread false (Some STACK_FENCEPOST) JUST_CREATED fresh None
              (Set_Level IntOn :: body ++ [Call_Finish]) in
  let k := with_threads k (threads k ++ [Some th]) in
  let oldLevel := level k in
  k ← ReadyToRun (with_level k IntOff) t;
  Ok (with_level k oldLevel).

(** ** Semaphores and locks *)

Definition set_sem (k : kernel) (s : nat) (sem : Semaphore) : kernel := with_sems k (<[s := sem]> (sems k)).

(** The loop of [P] and what follows it; the thread sleeps with this still to do. *)
Definition P_loop (k : kernel) (s : nat) (oldLevel : IntStatus) : res kernel :=
  sem ← deref (sems k !! s);
  if value sem =? 0 then
    q ← ListSpec.Append (currentThread k) (queue sem);
    k ← push (set_sem k s (mkSem (value sem) q)) [Wait_P s oldLevel];
    Sleep k false
  else Ok (with_level (set_sem k s (mkSem (value sem - 1) (queue sem))) oldLevel).

Definition P (k : kernel) (s : nat) : res kernel :=
  let oldLevel := level k in
  push (with_level k IntOff) [Wait_P s oldLevel].

Definition V (k : kernel) (s : nat) : res kernel :=
  let oldLevel := level k in
  let k := with_level k IntOff in
  sem ← deref (sems k !! s);
  '(q, k) ← match queue sem with
            | [] => Ok ([], k)
            | _ => '(t, q) ← ListSpec.RemoveFront (queue sem); k ← ReadyToRun k t; Ok (q, k)
            end;
  Ok (with_level (set_sem k s (mkSem (value sem + 1) q)) oldLevel).

Definition Acquire (k : kernel) (l : nat) : res kernel :=
  lk ← deref (locks k !! l); push k [Call_P (semaphore lk); Set_Holder l].

Definition set_holder (k : kernel) (l : nat) (h : option nat) : res kernel :=
  lk ← deref (locks k !! l); Ok (with_locks k (<[l := mkLock (semaphore lk) h]> (locks k))).

Definition Release (k : kernel) (l : nat) : res kernel :=
  lk ← deref (locks k !! l);
  _ ← ASSERT (bool_decide (lockHolder lk = Some (currentThread k)));
  k ← set_holder k l None;
  V k (semaphore lk).

(** ** Steps *)

(** The current thread at its next call; [None] while it waits in [Sleep] and no
    thread is ready.  A program that runs off its end has finished. *)
Definition exec (fresh : list Z) (k : kernel) : option (res kernel) :=
  match threads k !! currentThread k with
  | Some (Some th) =>
      let k' := set_thread k (currentThread k) (set_code th (tail (code th))) in
      match code th with
      | [] => Some (Finish k)
      | i :: _ =>
          match i with
          | Call_P s => Some (P k' s)
          | Wait_P s old => Some (P_loop k' s old)
          | Call_V s => Some (V k' s)
          | Call_Yield => Some (Yield k')
          | Set_Level l => Some (Ok (with_level k' l))
          | In_Sleep finishing =>
              match readyList k with
              | [] => None
              | _ => Some ('(n, k) ← FindNextToRun k'; n ← deref n; Run k n finishing)
              end
          | Call_Fork body => Some (Fork fresh k' body)
          | Call_Finish => Some (Finish k')
          | Call_Acquire l => Some (Acquire k' l)
          | Set_Holder l => Some (set_holder k' l (Some (currentThread k')))
          | Call_Release l => Some (Release k' l)
          | Set_Space sp =>
              Some (Ok (set_thread k' (currentThread k') (set_space (set_code th (tail (code th))) sp)))
          end
      end
  | _ => Some (Fault MemoryFault)
  end.

(** The loop of [Sleep] waits for an interrupt. *)
Definition idle (k : kernel) : bool :=
  match threads k !! currentThread k with
  | Some (Some th) =>
      match code th with In_Sleep _ :: _ => bool_decide (readyList k = []) | _ => false end
  | _ => false
  end.

Inductive event : Type :=
  | Exec
  | TimeSlice                       (** the timer handler asked for a switch *)
  | Device (s : nat)                (** a device handler calls [V] *)
  | User (m : Machine.t).           (** the user program runs *)

Definition step (fresh : list Z) (k : kernel) (e : event) : option (res kernel) :=
  match e with
  | Exec => exec fresh k
  | TimeSlice => if decide (level k = IntOn) then Some (Yield k) else None
  | Device s => if bool_decide (level k = IntOn) || idle k then Some (V k s) else None
  | User m =>
      if decide (level k = IntOn /\ length (registers m) = length (registers (machine k)))
      then Some (Ok (with_machine k m)) else None
  end.
(** [Kernel::Initialize]: the thread that started Nachos, with interrupts on; it
    has no stack of its own. *)
Definition Initialize (fresh : list Z) (m : Machine.t) (program : list instr) (ss : list Semaphore)
    (ls : list Lock) : kernel :=
  mk IntOn m 0 [] None [Some (mkThread true None RUNNING fresh None program)] ss ls.

Definition new_Semaphore (initialValue : Z) : Semaphore := mkSem initialValue [].
Definition new_Lock (sem : nat) : Lock := mkLock sem None.

(** ** The invariant of the kernel *)

Definition alive (k : kernel) (t : nat) (th : Thread) : Prop := threads k !! t = Some (Some th).

(** The semaphore a thread is in [P] of, and whether it is in the loop of [Sleep]. *)
Definition waits_on (th : Thread) : option nat :=
  match code th with
  | Wait_P s _ :: _ => Some s
  | In_Sleep false :: Wait_P s _ :: _ => Some s
  | _ => None
  end.
Definition sleeping (th : Thread) : bool :=
  match code th with In_Sleep _ :: _ => true | _ => false end.

(** Calls on [ns] semaphores and [nl] locks. *)
Fixpoint plain (ns nl : nat) (i : instr) : bool :=
  match i with
  | Call_P s | Call_V s => bool_decide (s < ns)%nat
  | Wait_P _ _ | In_Sleep _ => false
  | Call_Acquire l | Set_Holder l | Call_Release l => bool_decide (l < nl)%nat
  | Call_Fork body => forallb (plain ns nl) body
  | Call_Yield | Set_Level _ | Call_Finish | Set_Space _ => true
  end.
Definition program (ns nl : nat) (c : list instr) : Prop := Forall (fun i => plain ns nl i = true) c.

(** What a thread has to do, wherever it was switched out. *)
Definition shape (ns nl : nat) (c : list instr) : Prop :=
  match c with
  | In_Sleep true :: r => program ns nl r
  | In_Sleep false :: Wait_P s _ :: r | Wait_P s _ :: r => (s < ns)%nat /\ program ns nl r
  | _ => program ns nl c
  end.

Record thread_inv (k : kernel) (t : nat) (th : Thread) : Prop := {
  ti_created : status th <> JUST_CREATED;
  ti_ready : status th = READY <-> t ∈ readyList k;
  ti_running : status th = RUNNING -> t = currentThread k /\ sleeping th = false;
  ti_blocked : status th = BLOCKED -> match waits_on th with
    | Some s => exists sem, sems k !! s = Some sem /\ t ∈ queue sem
    | None => t = currentThread k /\ sleeping th = true
    end;
  ti_ready_waits : status th = READY -> sleeping th = true -> is_Some (waits_on th);
  ti_asleep : sleeping th = true -> t = currentThread k;
  ti_shape : shape (length (sems k)) (length (locks k)) (code th);
  ti_registers : length (userRegisters th) = 40%nat;
  ti_stack : stack th = None \/ stack th = Some STACK_FENCEPOST;
}.

Record sem_inv (k : kernel) (s : nat) (sem : Semaphore) : Prop := {
  si_value : 0 <= value sem;
  si_nodup : NoDup (queue sem);
  si_queue t : t ∈ queue sem -> exists th, alive k t th /\ status th = BLOCKED /\ waits_on th = Some s;
}.

Record inv (k : kernel) : Prop := {
  i_ready : NoDup (readyList k);
  i_ready_alive t : t ∈ readyList k -> exists th, alive k t th;
  i_threads t th : alive k t th -> thread_inv k t th;
  i_sems s sem : sems k !! s = Some sem -> sem_inv k s sem;
  i_current : exists th, alive k (currentThread k) th /\ (status th = RUNNING \/ sleeping th = true) /\
    (is_Some (waits_on th) \/ sleeping th = true -> level k = IntOff);
  i_destroyed : toBeDestroyed k = None;
  i_machine : length (registers (machine k)) = 40%nat;
  i_locks l lk : locks k !! l = Some lk -> (semaphore lk < length (sems k))%nat;
}.

(** Threads that were woken from a semaphore, or have not yet looked at it. *)
Definition woken_on (s : nat) (o : option Thread) : Prop :=
  match o with Some th => waits_on th = Some s /\ status th <> BLOCKED | None => False end.
#[global] Instance woken_on_dec s o : Decision (woken_on s o).
Proof. unfold woken_on. destruct o; apply _. Defined.
Definition woken (k : kernel) (s : nat) : nat := length (filter (woken_on s) (threads k)).

(** As long as somebody waits, there are as many woken threads as units. *)
Definition no_lost_wakeup (k : kernel) : Prop :=
  forall s sem, sems k !! s = Some sem -> queue sem <> [] -> value sem <= Z.of_nat (woken k s).

(** *** Lookups *)

Lemma thread_alive k t th : alive k t th -> thread k t = Ok th.
Proof. unfold alive, thread. by intros ->. Qed.

Lemma alive_lt k t th : alive k t th -> (t < length (threads k))%nat.
Proof. apply lookup_lt_Some. Qed.

Lemma alive_fun k t th th' : alive k t th -> alive k t th' -> th = th'.
Proof. unfold alive. congruence. Qed.

Lemma alive_set k t th t' th' :
  (t < length (threads k))%nat ->
  alive (set_thread k t th) t' th' <-> (t' = t /\ th' = th) \/ (t' <> t /\ alive k t' th').
Proof.
  intros Hlt. unfold alive, set_thread. cbn [with_threads threads].
  destruct (decide (t' = t)) as [->|Hne].
  - rewrite list_lookup_insert_eq by done. naive_solver.
  - rewrite list_lookup_insert_ne by done. naive_solver.
Qed.

Lemma program_shape ns nl c : program ns nl c -> shape ns nl c.
Proof.
  destruct c as [|i c]; [done |]. intros Hp. pose proof Hp as [Hi Hc]%Forall_cons.
  by destruct i as [| | | | |[]| | | | | |].
Qed.
(** *** Registers over a switch *)

(** Copying a list cell by cell. *)
Lemma copy_cells (src dst : list Z) (i : nat) v :
  length dst = length src -> take i dst = take i src -> src !! i = Some v ->
  take (S i) (<[i := v]> dst) = take (S i) src.
Proof.
  intros Hl Ht Hv. pose proof (lookup_lt_Some _ _ _ Hv) as Hlt.
  rewrite (take_S_r src i v Hv), (take_S_r _ i v) by (apply list_lookup_insert_eq; lia).
  by rewrite take_insert_ge by done; rewrite Ht.
Qed.

Lemma SaveUserState_spec m th :
  length (registers m) = 40%nat -> length (userRegisters th) = 40%nat ->
  SaveUserState m th = Ok (set_registers th (registers m)).
Proof.
  intros Hm Hu. unfold SaveUserState.
  destruct (forN_ind (fun i rs => length rs = 40%nat /\ take i rs = take i (registers m))
    (fun i rs => v ← ReadRegister m (Z.of_nat i); Ok (<[i := v]> rs)) 0 (Z.to_nat NumTotalRegs) (userRegisters th))
    as (rs & -> & Hl & Ht).
  - done.
  - intros i rs Hi [Hl Ht]. change (Z.to_nat NumTotalRegs) with 40%nat in Hi.
    destruct (lookup_lt_is_Some_2 (registers m) i) as [v Hv]; [lia |].
    unfold ReadRegister, NumTotalRegs. rewrite ASSERT_true by lia. cbn [mbind res_bind]. unfold reg.
    destruct (Z.ltb_spec (Z.of_nat i) 0); [lia |]. rewrite Nat2Z.id, Hv. cbn [deref mbind res_bind].
    eexists. split; [done |]. rewrite length_insert. split; [done |]. apply copy_cells; [lia | done | done].
  - cbn [mbind res_bind]. change (Z.to_nat NumTotalRegs) with 40%nat in Ht.
    rewrite !take_ge in Ht by lia. by rewrite Ht.
Qed.

Lemma RestoreUserState_spec m th :
  length (registers m) = 40%nat -> length (userRegisters th) = 40%nat ->
  RestoreUserState m th = Ok (with_registers m (userRegisters th)).
Proof.
  intros Hm Hu. unfold RestoreUserState.
  destruct (forN_ind (fun i m' => exists rs, m' = with_registers m rs /\ length rs = 40%nat /\
      take i rs = take i (userRegisters th))
    (fun i m => v ← deref (userRegisters th !! i); WriteRegister m (Z.of_nat i) v) 0 (Z.to_nat NumTotalRegs) m)
    as (m' & -> & rs & -> & Hl & Ht).
  - exists (registers m). split_and!; [by destruct m | done | done].
  - intros i m' Hi (rs & -> & Hl & Ht). change (Z.to_nat NumTotalRegs) with 40%nat in Hi.
    destruct (lookup_lt_is_Some_2 (userRegisters th) i) as [v Hv]; [lia |].
    rewrite Hv. cbn [deref mbind res_bind]. unfold WriteRegister, NumTotalRegs. rewrite ASSERT_true by lia.
    cbn [mbind res_bind]. unfold set_reg. cbn [with_registers registers]. rewrite Hl.
    destruct (Z.ltb_spec (Z.of_nat i) 0), (Z.leb_spec (Z.of_nat 40) (Z.of_nat i)); try lia. cbn [orb].
    eexists. split; [done |]. exists (<[i := v]> rs). rewrite Nat2Z.id, length_insert.
    split_and!; [done | done |]. apply copy_cells; [lia | done | done].
  - change (Z.to_nat NumTotalRegs) with 40%nat in Ht. rewrite !take_ge in Ht by lia. by rewrite Ht.
Qed.

(** What a thread is when it is switched out. *)
Definition saved (m : Machine.t) (th : Thread) : Thread :=
  match space th with Some _ => set_registers th (registers m) | None => th end.
(** The machine when it is switched in. *)
Definition loaded (m : Machine.t) (th : Thread) : Machine.t :=
  match space th with
  | Some sp => AddrSpace.RestoreState sp (with_registers m (userRegisters th))
  | None => m
  end.

Lemma loaded_registers m th :
  length (registers m) = 40%nat -> length (userRegisters th) = 40%nat ->
  length (registers (loaded m th)) = 40%nat.
Proof. unfold loaded. by destruct (space th). Qed.

(** [Run] to another thread, which takes the processor. *)
Lemma Run_other k n fin oth nth :
  level k = IntOff -> toBeDestroyed k = None -> n <> currentThread k ->
  alive k (currentThread k) oth -> alive k n nth ->
  length (registers (machine k)) = 40%nat -> length (userRegisters oth) = 40%nat ->
  length (userRegisters nth) = 40%nat -> (stack oth = None \/ stack oth = Some STACK_FENCEPOST) ->
  Run k n fin = Ok (mk IntOff (loaded (machine k) nth) n (readyList k) None
    (<[currentThread k := if fin then None else Some (saved (machine k) oth)]>
       (<[n := Some (set_status nth RUNNING)]> (threads k))) (sems k) (locks k)).
Proof.
  intros Hl Hd Hne Ho Hn Hm Huo Hun Hst. unfold Run. rewrite Hl, (bool_decide_true (IntOff = IntOff)), (bool_decide_true (toBeDestroyed k = None)) by done.
  cbn [ASSERT mbind res_bind]. set (old := currentThread k) in *. pose proof (alive_lt _ _ _ Ho) as Hlto. pose proof (alive_lt _ _ _ Hn) as Hltn.
  set (k1 := if fin then with_destroyed k (Some old) else k).
  match goal with |- context [if fin then ?a else Ok k] =>
    replace (if fin then a else Ok k) with (Ok k1) by (unfold k1; by destruct fin) end.
  cbn [mbind res_bind].
  set (k2 := with_threads k1 (<[old := Some (saved (machine k) oth)]> (threads k))).
  assert (switch_out k1 = Ok k2) as ->.
  { unfold switch_out. assert (currentThread k1 = old) as -> by (unfold k1; by destruct fin).
    assert (threads k1 = threads k /\ machine k1 = machine k) as [Ht1 Hm1] by (unfold k1; by destruct fin).
    rewrite (thread_alive k1 old oth) by (unfold alive; by rewrite Ht1). cbn [mbind res_bind].
    unfold k2, saved. destruct (space oth).
    - rewrite SaveUserState_spec by (rewrite ?Hm1; done). cbn [mbind res_bind]. unfold set_thread, AddrSpace.SaveState.
      f_equal. unfold with_machine, with_threads. cbn. by rewrite Ht1, Hm1.
    - f_equal. rewrite list_insert_id by done. rewrite <- Ht1. by destruct k1. }
  cbn [mbind res_bind].
  assert (stack (saved (machine k) oth) = stack oth) as Hss by (unfold saved; by destruct (space oth)).
  rewrite (thread_alive k2 old (saved (machine k) oth)) by (unfold alive, k2; cbn; by rewrite list_lookup_insert_eq).
  cbn [mbind res_bind]. unfold CheckOverflow. rewrite Hss.
  assert (match stack oth with Some w => ASSERT (w =? STACK_FENCEPOST) | None => Ok () end = Ok ()) as ->
    by (by destruct Hst as [-> | ->]).
  cbn [mbind res_bind].
  rewrite (thread_alive k2 n nth) by (unfold alive, k2; cbn; by rewrite list_lookup_insert_ne).
  cbn [mbind res_bind]. unfold switch_in, set_thread. cbn [with_current with_threads level].
  assert (level k2 = IntOff) as -> by (unfold k2, k1; cbn; by destruct fin). cbn [bool_decide ASSERT mbind res_bind].
  rewrite bool_decide_true by done. cbn [ASSERT mbind res_bind].
  set (k3 := with_threads _ _). set (ts := <[n := Some (set_status nth RUNNING)]> (threads k)).
  assert (CheckToBeDestroyed k3 = Ok (mk IntOff (machine k) n (readyList k) None
    (<[old := if fin then None else Some (saved (machine k) oth)]> ts) (sems k) (locks k))) as ->.
  { assert (<[n := Some (set_status nth RUNNING)]> (<[old := Some (saved (machine k) oth)]> (threads k))
      = <[old := Some (saved (machine k) oth)]> ts) as Hts
      by (unfold ts; by rewrite (list_insert_insert_ne _ n old) by done).
    unfold CheckToBeDestroyed, k3, k2, k1. destruct fin; cbn.
    - unfold thread. cbn. rewrite Hts, list_lookup_insert_eq by (unfold ts; by rewrite length_insert). cbn.
      rewrite bool_decide_false by done. cbn. rewrite orb_true_r. cbn.
      unfold with_destroyed, with_threads, with_current. cbn. by rewrite list_insert_insert_eq, Hl.
    - rewrite Hd. unfold with_threads, with_current. cbn. by rewrite Hts, Hl, Hd. }
  cbn [mbind res_bind]. rewrite (thread_alive _ n (set_status nth RUNNING)).
  2: { unfold alive, ts. cbn. rewrite list_lookup_insert_ne, list_lookup_insert_eq by done. done. }
  cbn [mbind res_bind]. unfold loaded. cbn [set_status space]. destruct (space nth); [| done].
  rewrite RestoreUserState_spec by done. done.
Qed.
Lemma Run_self k oth :
  level k = IntOff -> toBeDestroyed k = None -> alive k (currentThread k) oth ->
  length (registers (machine k)) = 40%nat -> length (userRegisters oth) = 40%nat ->
  (stack oth = None \/ stack oth = Some STACK_FENCEPOST) ->
  Run k (currentThread k) false = Ok (mk IntOff (loaded (machine k) (saved (machine k) oth)) (currentThread k)
    (readyList k) None (<[currentThread k := Some (set_status (saved (machine k) oth) RUNNING)]> (threads k))
    (sems k) (locks k)).
Proof.
  intros Hl Hd Ho Hm Huo Hst. pose proof (alive_lt _ _ _ Ho) as Hlt. unfold Run.
  rewrite Hl, (bool_decide_true (IntOff = IntOff)) by done. cbn [ASSERT mbind res_bind].
  set (k2 := with_threads k (<[currentThread k := Some (saved (machine k) oth)]> (threads k))).
  assert (switch_out k = Ok k2) as ->.
  { unfold switch_out. rewrite (thread_alive _ _ _ Ho). cbn [mbind res_bind]. unfold k2, saved. destruct (space oth).
    - rewrite SaveUserState_spec by done. done.
    - rewrite list_insert_id by done. by destruct k. }
  cbn [mbind res_bind].
  assert (alive k2 (currentThread k) (saved (machine k) oth)) as Ha2
    by (unfold alive, k2; cbn; by rewrite list_lookup_insert_eq).
  rewrite (thread_alive _ _ _ Ha2). cbn [mbind res_bind]. unfold CheckOverflow.
  assert (stack (saved (machine k) oth) = stack oth) as -> by (unfold saved; by destruct (space oth)).
  assert (match stack oth with Some w => ASSERT (w =? STACK_FENCEPOST) | None => Ok () end = Ok ()) as ->
    by (by destruct Hst as [-> | ->]).
  cbn [mbind res_bind]. unfold switch_in, set_thread. cbn [with_current with_threads level k2].
  rewrite Hl, (bool_decide_true (IntOff = IntOff)) by done. cbn [ASSERT mbind res_bind].
  unfold CheckToBeDestroyed, k2. cbn [with_threads with_current toBeDestroyed threads]. rewrite Hd. cbn [mbind res_bind].
  rewrite list_insert_insert_eq.
  rewrite (thread_alive _ (currentThread k) (set_status (saved (machine k) oth) RUNNING)).
  2: { unfold alive. cbn. by rewrite list_lookup_insert_eq. }
  cbn [mbind res_bind]. unfold loaded. cbn [set_status space].
  assert (length (userRegisters (saved (machine k) oth)) = 40%nat) as Hs by (unfold saved; by destruct (space oth)).
  destruct (space (saved (machine k) oth)).
  - rewrite RestoreUserState_spec by done. cbn [mbind res_bind].
    unfold with_machine, with_threads, with_current. cbn. by rewrite Hl, Hd.
  - unfold with_threads, with_current. cbn. by rewrite Hl, Hd.
Qed.

(** *** Switching

    The state in which [Run] is called: nobody runs, and [n] is off the list. *)
Record switching (k : kernel) (n : nat) (fin : bool) : Prop := {
  sw_level : level k = IntOff;
  sw_destroyed : toBeDestroyed k = None;
  sw_machine : length (registers (machine k)) = 40%nat;
  sw_locks l lk : locks k !! l = Some lk -> (semaphore lk < length (sems k))%nat;
  sw_ready : NoDup (n :: readyList k);
  sw_alive t : t ∈ n :: readyList k -> exists th, alive k t th;
  sw_current : exists th, alive k (currentThread k) th /\
    (fin = true -> status th = BLOCKED /\ waits_on th = None);
  sw_threads t th : alive k t th ->
    status th <> JUST_CREATED /\ status th <> RUNNING /\ (status th = READY <-> t ∈ n :: readyList k) /\
    sleeping th = false /\ shape (length (sems k)) (length (locks k)) (code th) /\
    length (userRegisters th) = 40%nat /\ (stack th = None \/ stack th = Some STACK_FENCEPOST) /\
    (status th = BLOCKED -> (fin = true /\ t = currentThread k) \/
       exists s sem, waits_on th = Some s /\ sems k !! s = Some sem /\ t ∈ queue sem);
  sw_sems s sem : sems k !! s = Some sem -> sem_inv k s sem;
}.

(** The parts of a thread the invariant speaks of survive the switch. *)
Lemma saved_same m th : status (saved m th) = status th /\ code (saved m th) = code th /\ stack (saved m th) = stack th.
Proof. unfold saved. by destruct (space th). Qed.

Lemma saved_length m th :
  length (registers m) = 40%nat -> length (userRegisters th) = 40%nat ->
  length (userRegisters (saved m th)) = 40%nat.
Proof. unfold saved. by destruct (space th). Qed.

Lemma code_same th th' : code th' = code th -> waits_on th' = waits_on th /\ sleeping th' = sleeping th.
Proof. unfold waits_on, sleeping. by intros ->. Qed.

End Threads.
