(* ===== verification/Sched.v ===== *)
(** * Sched: the scheduler and the semaphores keep their promises

    Every step of [Threads] preserves the invariant [Threads.inv]: the ready list
    holds exactly the READY threads, each once; a BLOCKED thread is in the queue of
    the semaphore it waits for; one thread runs.  So no assertion of the scheduler,
    of [Sleep], of [Append] or of the thread destructor can fail, and no pointer to
    a deleted thread is used.  With it goes [Threads.no_lost_wakeup].  The last
    part is about user programs over a switch. *)

From S2P Require Import Prelude Lists Machine Interrupt AddrSpace Threads.

Module Sched.
Import Machine Interrupt Threads.

(** ** Counting threads *)

Definition count (Q : option Thread -> Prop) `{forall o, Decision (Q o)} (ts : list (option Thread)) : nat :=
  length (filter Q ts).

Section Count.
Context (Q : option Thread -> Prop) `{forall o, Decision (Q o)}.

Lemma count_insert ts t o o' :
  ts !! t = Some o ->
  Z.of_nat (count Q (<[t := o']> ts)) =
  Z.of_nat (count Q ts) - (if decide (Q o) then 1 else 0) + (if decide (Q o') then 1 else 0).
Proof.
  unfold count. intros Ht. apply list_elem_of_split_length in Ht as (l1 & l2 & -> & ->).
  rewrite insert_app_r_alt by done. rewrite Nat.sub_diag. cbn [insert list_insert].
  rewrite !filter_app, !filter_cons, !length_app.
  destruct (decide (Q o)), (decide (Q o')); cbn [length]; lia.
Qed.

Lemma count_insert_same ts t o o' :
  ts !! t = Some o -> (Q o <-> Q o') -> count Q (<[t := o']> ts) = count Q ts.
Proof.
  intros Ht HQ. pose proof (count_insert ts t o o' Ht).
  destruct (decide (Q o)), (decide (Q o')); try tauto; lia.
Qed.

Lemma count_snoc ts o : ~ Q o -> count Q (ts ++ [o]) = count Q ts.
Proof.
  intros HQ. unfold count. rewrite filter_app, length_app, filter_cons_False by done. cbn [length filter]. 
  rewrite filter_nil. cbn [length]. lia.
Qed.
End Count.

(** Two threads the invariant does not tell apart, but for their status. *)
Record same (th th' : Thread) : Prop := {
  sm_code : code th' = code th;
  sm_stack : stack th' = stack th;
  sm_registers : length (userRegisters th) = 40%nat -> length (userRegisters th') = 40%nat;
  sm_space : space th' = space th;
}.

Lemma same_refl th : same th th.
Proof. done. Qed.

Lemma same_status th st : same th (set_status th st).
Proof. by split. Qed.

Lemma same_saved m th : length (registers m) = 40%nat -> same th (saved m th).
Proof.
  intros Hm. destruct (saved_same m th) as (_ & Hc & Hs). split; [done | done | |].
  - intros Hu. by apply saved_length.
  - unfold saved. by destruct (space th) eqn:E.
Qed.

Lemma same_trans a b c : same a b -> same b c -> same a c.
Proof. intros [] []. split; [congruence | congruence | auto | congruence]. Qed.

Lemma same_waits th th' : same th th' -> waits_on th' = waits_on th /\ sleeping th' = sleeping th.
Proof. intros []. by apply code_same. Qed.

#[local] Hint Resolve same_refl same_status same_saved same_trans : sched.

(** ** The context switch *)

(** What [Run] leaves. *)
Record switched (k : kernel) (n : nat) (fin : bool) (k' : kernel) : Prop := {
  st_level : level k' = IntOff;
  st_current : currentThread k' = n;
  st_ready : readyList k' = readyList k;
  st_destroyed : toBeDestroyed k' = None;
  st_sems : sems k' = sems k;
  st_locks : locks k' = locks k;
  st_machine : length (registers (machine k')) = 40%nat;
  st_next : exists nth th', alive k n nth /\ alive k' n th' /\ status th' = RUNNING /\ same nth th';
  st_back t th' : alive k' t th' -> t <> n -> ~ (fin = true /\ t = currentThread k) /\
    exists th, alive k t th /\ status th' = status th /\ same th th';
  st_forth t th : alive k t th -> t <> n -> ~ (fin = true /\ t = currentThread k) ->
    exists th', alive k' t th' /\ status th' = status th /\ same th th';
  st_count (Q : option Thread -> Prop) `{forall o, Decision (Q o)} : ~ Q None ->
    (forall th th', same th th' -> (status th' = status th \/ status th = READY /\ status th' = RUNNING) ->
       Q (Some th) <-> Q (Some th')) ->
    (fin = true -> forall th, alive k (currentThread k) th -> ~ Q (Some th)) ->
    count Q (threads k') = count Q (threads k);
}.

Lemma Run_switches k n fin : switching k n fin -> exists k', Run k n fin = Ok k' /\ switched k n fin k'.
Proof.
  intros Hsw. destruct (sw_alive _ _ _ Hsw n ltac:(by left)) as [nth Hn].
  destruct (sw_current _ _ _ Hsw) as (oth & Ho & Hfin).
  destruct (sw_threads _ _ _ Hsw _ _ Ho) as (_ & Hor & _ & _ & _ & Hou & Hos & _).
  destruct (sw_threads _ _ _ Hsw _ _ Hn) as (_ & _ & Hnr & _ & _ & Hnu & Hns & _).
  pose proof (proj2 Hnr ltac:(by left)) as Hnready.
  pose proof (same_saved (machine k) oth (sw_machine _ _ _ Hsw)) as Hs.
  destruct (saved_same (machine k) oth) as (Hss & _ & _).
  pose proof (alive_lt _ _ _ Ho) as Hlto. pose proof (alive_lt _ _ _ Hn) as Hltn.
  destruct (decide (n = currentThread k)) as [-> | Hne].
  - pose proof (alive_fun _ _ _ _ Ho Hn) as ->.
    destruct fin; [destruct (Hfin eq_refl); congruence |].
    eexists. split; [apply Run_self; by destruct Hsw |].
    split; cbn; try done.
    + apply loaded_registers; [by destruct Hsw | by apply sm_registers with nth].
    + exists nth, (set_status (saved (machine k) nth) RUNNING).
      split_and!; [done | | done | by eauto with sched]. unfold alive. cbn. by rewrite list_lookup_insert_eq.
    + intros t th'. unfold alive. cbn. intros Ht Htn. rewrite list_lookup_insert_ne in Ht by done.
      split; [naive_solver |]. eauto with sched.
    + intros t th Ht Htn _. exists th. unfold alive. cbn. rewrite list_lookup_insert_ne by done. eauto with sched.
    + intros Q HQ HN Hsame Hb. apply (count_insert_same Q _ _ (Some nth)); [done |].
      apply Hsame; [by eauto with sched | right; by split].
  - eexists. split; [apply (Run_other k n fin oth nth); by destruct Hsw |].
    assert (currentThread k <> n) as Hne' by congruence.
    split; cbn; try done.
    + apply loaded_registers; by destruct Hsw.
    + exists nth, (set_status nth RUNNING). split_and!; [done | | done | by eauto with sched].
      unfold alive. cbn. by rewrite list_lookup_insert_ne, list_lookup_insert_eq by done.
    + intros t th'. unfold alive. cbn. intros Ht Htn. destruct (decide (t = currentThread k)) as [-> | Hto].
      * rewrite list_lookup_insert_eq in Ht by (by rewrite length_insert). destruct fin; [done |].
        injection Ht as <-. split; [naive_solver |]. eauto.
      * rewrite !list_lookup_insert_ne in Ht by done. split; [naive_solver |]. eauto with sched.
    + intros t th Ht Htn Hnf. unfold alive. cbn. destruct (decide (t = currentThread k)) as [-> | Hto].
      * rewrite list_lookup_insert_eq by (by rewrite length_insert). destruct fin; [naive_solver |].
        pose proof (alive_fun _ _ _ _ Ho Ht) as ->. eauto.
      * rewrite !list_lookup_insert_ne by done. eauto with sched.
    + intros Q HQ HN Hsame Hb. etrans; [apply (count_insert_same Q _ _ (Some oth)) | apply (count_insert_same Q _ _ (Some nth)); [done |]].
      * by rewrite list_lookup_insert_ne by done.
      * destruct fin; [| apply Hsame; [done | by left]]. pose proof (Hb eq_refl oth Ho). tauto.
      * apply Hsame; [by eauto with sched | by right].
Qed.

(** The state after the switch satisfies the invariant. *)
Lemma switched_inv k n fin k' : switching k n fin -> switched k n fin k' -> inv k'.
Proof.
  intros Hsw Hst. destruct (st_next _ _ _ _ Hst) as (nth & nth' & Hn & Hn' & Hnr & Hns).
  pose proof (sw_ready _ _ _ Hsw) as [Hnin Hnd]%NoDup_cons.
  assert (forall t th', alive k' t th' -> exists th, alive k t th /\ same th th' /\
    (t = n /\ status th' = RUNNING /\ status th = READY \/
     t <> n /\ status th' = status th /\ ~ (fin = true /\ t = currentThread k))) as Hall.
  { intros t th' Ht. destruct (decide (t = n)) as [-> | Htn].
    - pose proof (alive_fun _ _ _ _ Ht Hn') as ->. exists nth. split_and!; [done | done |]. left.
      split_and!; [done | done |]. destruct (sw_threads _ _ _ Hsw _ _ Hn) as (_ & _ & Hr & _). apply Hr. by left.
    - destruct (st_back _ _ _ _ Hst _ _ Ht Htn) as (Hnf & th & ? & ? & ?). exists th. split_and!; [done | done |]. by right. }
  split.
  - by rewrite (st_ready _ _ _ _ Hst).
  - rewrite (st_ready _ _ _ _ Hst). intros t Ht. destruct (sw_alive _ _ _ Hsw t ltac:(by right)) as [th Hth].
    destruct (sw_threads _ _ _ Hsw _ _ Hth) as (_ & _ & Hr & _). pose proof (proj2 Hr ltac:(by right)) as Hrd.
    destruct (st_forth _ _ _ _ Hst t th Hth) as (th' & ? & _); [congruence | | by eauto].
    intros [-> ->]. destruct (sw_current _ _ _ Hsw) as (oth & Ho & Hf). destruct (Hf eq_refl) as [Hb _].
    pose proof (alive_fun _ _ _ _ Ho Hth) as ->. congruence.
  - intros t th' Ht. destruct (Hall t th' Ht) as (th & Hth & Hs & Hcase).
    destruct (sw_threads _ _ _ Hsw _ _ Hth) as (Hjc & Hnrun & Hr & Hsl & Hshape & Hu & Hstk & Hbl).
    destruct (same_waits _ _ Hs) as [Hw Hsl']. destruct Hs as [Hc Hsk Hu' _].
    split.
    + destruct Hcase as [(_ & -> & _) | (_ & -> & _)]; done.
    + rewrite (st_ready _ _ _ _ Hst). destruct Hcase as [(-> & -> & _) | (? & -> & _)]; [done |].
      rewrite Hr, elem_of_cons. naive_solver.
    + rewrite (st_current _ _ _ _ Hst), Hsl', Hsl. destruct Hcase as [(-> & _) | (? & -> & _)]; [done |]. by intros ?%Hnrun.
    + destruct Hcase as [(-> & -> & _) | (? & -> & Hnf)]; [done |]. intros [? | (s & sem & Hws & Hsem & Hin)]%Hbl; [done |].
      rewrite Hw, Hws, (st_sems _ _ _ _ Hst). by eauto.
    + by rewrite Hsl', Hsl.
    + by rewrite Hsl', Hsl.
    + by rewrite (st_sems _ _ _ _ Hst), (st_locks _ _ _ _ Hst), Hc.
    + by apply Hu'.
    + by rewrite Hsk.
  - rewrite (st_sems _ _ _ _ Hst). intros s sem Hsem. destruct (sw_sems _ _ _ Hsw _ _ Hsem) as [Hv Hndq Hq].
    split; [done | done |]. intros t Ht. destruct (Hq t Ht) as (th & Hth & Hb & Hw).
    destruct (sw_threads _ _ _ Hsw _ _ Hth) as (_ & _ & Hr & _).
    destruct (st_forth _ _ _ _ Hst t th Hth) as (th' & Hth' & Hs' & Hsm).
    + intros ->. pose proof (proj2 Hr ltac:(by left)). congruence.
    + intros [Hf ->]. destruct (sw_current _ _ _ Hsw) as (oth & Ho & Hfo). destruct (Hfo Hf) as [_ Hwo].
      pose proof (alive_fun _ _ _ _ Ho Hth) as ->. congruence.
    + exists th'. destruct (same_waits _ _ Hsm). split_and!; [done | congruence | congruence].
  - rewrite (st_current _ _ _ _ Hst). exists nth'. split_and!; [done | by left |]. intros _. by destruct Hst.
  - by destruct Hst.
  - by destruct Hst.
  - rewrite (st_sems _ _ _ _ Hst), (st_locks _ _ _ _ Hst). by destruct Hsw.
Qed.
(** ** Steps of the current thread *)

Definition good (k : kernel) : Prop := inv k /\ no_lost_wakeup k.

(** The current thread, the semaphores and the locks change; the rest stays. *)
Definition update (k : kernel) (lv : IntStatus) (th : Thread) (ss : list Semaphore) (ls : list Lock) : kernel :=
  mk lv (machine k) (currentThread k) (readyList k) (toBeDestroyed k)
    (<[currentThread k := Some th]> (threads k)) ss ls.

Definition units (th : Thread) (s : nat) : Z := if decide (waits_on th = Some s) then 1 else 0.

Lemma running_free k th : inv k -> alive k (currentThread k) th -> status th = RUNNING ->
  currentThread k ∉ readyList k /\ sleeping th = false /\
  (forall s sem, sems k !! s = Some sem -> currentThread k ∉ queue sem).
Proof.
  intros Hi Ha Hr. destruct (i_threads _ Hi _ _ Ha) as [_ Hrd Hrun _ _ _ _ _ _]. split_and!.
  - rewrite <- Hrd. congruence.
  - by apply Hrun.
  - intros s sem Hs Hin. destruct (si_queue _ _ _ (i_sems _ Hi _ _ Hs) _ Hin) as (th' & Ha' & Hb & _).
    pose proof (alive_fun _ _ _ _ Ha Ha') as ->. congruence.
Qed.

(** The invariant of a thread that is not touched. *)
Lemma thread_inv_frame k k' t th :
  thread_inv k t th -> (t ∈ readyList k' <-> t ∈ readyList k) -> currentThread k' = currentThread k ->
  (forall s sem, sems k !! s = Some sem -> t ∈ queue sem -> exists sem', sems k' !! s = Some sem' /\ t ∈ queue sem') ->
  length (sems k') = length (sems k) -> length (locks k') = length (locks k) -> thread_inv k' t th.
Proof.
  intros [? ? ? Hb ? ? ? ? ?] Hr Hc Hq Hls Hll. split; rewrite ?Hc, ?Hls, ?Hll, ?Hr; try done.
  intros HB. specialize (Hb HB). destruct (waits_on th); [| done].
  destruct Hb as (sem & Hs & Hin). by eauto.
Qed.

Section Advance.
#[local] Set Default Proof Using "All".
Context (k : kernel) (lv : IntStatus) (th th' : Thread) (ss : list Semaphore) (ls : list Lock).
Context (Hi : inv k) (Ha : alive k (currentThread k) th) (Hrun : status th = RUNNING).
Context (Hrun' : status th' = RUNNING) (Hsl : sleeping th' = false).
Context (Hregs : length (userRegisters th') = length (userRegisters th)) (Hstk : stack th' = stack th).
Context (Hsh : shape (length (sems k)) (length (locks k)) (code th')).
Context (Hlv : is_Some (waits_on th') -> lv = IntOff).
Context (Hss : Forall2 (fun a b => queue b = queue a /\ 0 <= value b) (sems k) ss).
Context (Hls : Forall2 (fun a b => semaphore b = semaphore a) (locks k) ls).

Let k' := update k lv th' ss ls.

Lemma advance_alive t u : alive k' t u <-> (t = currentThread k /\ u = th') \/ (t <> currentThread k /\ alive k t u).
Proof. apply (alive_set k (currentThread k) th' t u). by eapply alive_lt. Qed.

Lemma advance_queues s sem' : ss !! s = Some sem' ->
  exists sem, sems k !! s = Some sem /\ queue sem' = queue sem /\ 0 <= value sem'.
Proof. intros Hs. destruct (Forall2_lookup_r _ _ _ _ _ Hss Hs) as (sem & ? & ? & ?). eauto. Qed.

Lemma advance_inv : inv k'.
Proof.
  destruct (running_free k th Hi Ha Hrun) as (Hnr & _ & Hnq).
  pose proof (Forall2_length _ _ _ Hss) as Hlss. pose proof (Forall2_length _ _ _ Hls) as Hlls.
  pose proof (i_threads _ Hi _ _ Ha) as Hti.
  split; cbn [k' update readyList sems locks toBeDestroyed machine currentThread level].
  - by destruct Hi.
  - intros t Ht. destruct (i_ready_alive _ Hi t Ht) as [u Hu]. exists u. apply advance_alive. right. split; [congruence | done].
  - intros t u [(-> & ->) | (Hne & Hu)]%advance_alive.
    + destruct Hti. split; cbn; try congruence; try tauto.
    + apply (thread_inv_frame k); cbn; try done.
      * by destruct Hi as [_ _ Ht _ _ _ _ _]; apply Ht.
      * intros s sem Hs Hin. destruct (Forall2_lookup_l _ _ _ _ _ Hss Hs) as (sem' & Hs' & Hq & _).
        exists sem'. by rewrite Hq.
  - intros s sem' Hs'. destruct (advance_queues s sem' Hs') as (sem & Hs & Hq & Hv).
    destruct (i_sems _ Hi _ _ Hs) as [_ Hnd Hqs]. split; [done | by rewrite Hq |].
    rewrite Hq. intros t Ht. destruct (Hqs t Ht) as (u & Hu & Hb & Hw). exists u. split; [| done].
    apply advance_alive. right. split; [| done]. intros ->. by apply (Hnq s sem).
  - exists th'. split_and!; [apply advance_alive; by left | by left |]. intros [? | ?]; [by apply Hlv | congruence].
  - by destruct Hi.
  - by destruct Hi.
  - intros l lk Hl. destruct (Forall2_lookup_r _ _ _ _ _ Hls Hl) as (lk0 & Hl0 & ->). rewrite <- Hlss.
    by eapply i_locks.
Qed.

Lemma advance_wakeup :
  no_lost_wakeup k ->
  (forall s a b, sems k !! s = Some a -> ss !! s = Some b -> queue b <> [] ->
     value b - value a <= units th' s - units th s) ->
  no_lost_wakeup k'.
Proof.
  intros Hn Hd s sem' Hs' Hq'. destruct (advance_queues s sem' Hs') as (sem & Hs & Hq & _).
  pose proof (Hd s sem sem' Hs Hs' Hq'). rewrite Hq in Hq'. pose proof (Hn s sem Hs Hq') as Hle.
  pose proof (count_insert (woken_on s) (threads k) (currentThread k) (Some th) (Some th') Ha) as Hc.
  assert (forall u, status u = RUNNING -> (if decide (woken_on s (Some u)) then 1 else 0) = units u s) as Hu.
  { intros u Hu. unfold units.
    destruct (decide (woken_on s (Some u))) as [[? _] | Hw], (decide (waits_on u = Some s)); try done.
    destruct Hw. by split; [| rewrite Hu]. }
  rewrite !Hu in Hc by done. unfold woken in *. fold (count (woken_on s) (threads k)) in Hle.
  change (length (filter (woken_on s) (threads k'))) with
    (count (woken_on s) (<[currentThread k := Some th']> (threads k))). lia.
Qed.
End Advance.

(** ** The calls of a running thread *)

(** The current thread runs, outside of [P] and [Sleep]. *)
Record running (k : kernel) (th : Thread) : Prop := {
  rn_alive : alive k (currentThread k) th;
  rn_status : status th = RUNNING;
  rn_waits : waits_on th = None;
}.

Lemma running_program k th : inv k -> running k th -> program (length (sems k)) (length (locks k)) (code th).
Proof.
  intros Hi [Ha Hr Hw]. destruct (i_threads _ Hi _ _ Ha) as [_ _ Hrun _ _ _ Hsh _ _].
  destruct (Hrun Hr) as [_ Hsl]. revert Hsh Hw Hsl. unfold shape, waits_on, sleeping.
  by destruct (code th) as [| [| | | | |[] | | | | | |] ?].
Qed.

Lemma program_waits ns nl th : program ns nl (code th) -> waits_on th = None /\ sleeping th = false.
Proof. unfold program, waits_on, sleeping. destruct (code th) as [| i c]; [done |]. intros [Hi _]%Forall_cons. by destruct i. Qed.

Lemma queues_refl k : inv k -> Forall2 (fun a b => queue b = queue a /\ 0 <= value b) (sems k) (sems k).
Proof.
  intros Hi. apply Forall2_same_length_lookup. split; [done |]. intros s a b Hs Hs'.
  assert (a = b) as -> by congruence. split; [done |]. by apply (i_sems _ Hi s).
Qed.

Lemma locks_refl (ls : list Lock) : Forall2 (fun a b => semaphore b = semaphore a) ls ls.
Proof. by apply Reflexive_instance_0. Qed.

(** Only the code of the running thread changes, and the level. *)
Lemma good_code k th lv c :
  good k -> running k th -> let th' := set_code th c in
  shape (length (sems k)) (length (locks k)) c -> sleeping th' = false -> (is_Some (waits_on th') -> lv = IntOff) ->
  good (with_level (set_thread k (currentThread k) th') lv).
Proof.
  intros [Hi Hn] [Ha Hr Hw] th' Hsh Hsl Hlv.
  pose proof (queues_refl k Hi) as Hq. pose proof (locks_refl (locks k)) as Hl. split.
  - by apply (advance_inv k lv th th' (sems k) (locks k)).
  - apply (advance_wakeup k lv th th' (sems k) (locks k)); try done.
    intros s a b Hs Hs' _. assert (a = b) as -> by congruence.
    assert (units th s = 0) as -> by (unfold units; by rewrite decide_False by congruence).
    unfold units. case_decide; lia.
Qed.

Lemma set_thread_running k th th' lv :
  running k th -> status th' = RUNNING -> waits_on th' = None ->
  running (with_level (set_thread k (currentThread k) th') lv) th'.
Proof.
  intros [Ha _ _] Hs Hw. split; [| done | done]. unfold alive. cbn.
  rewrite list_lookup_insert_eq; [done | by eapply alive_lt].
Qed.

Lemma push_spec k th is_ : alive k (currentThread k) th ->
  push k is_ = Ok (set_thread k (currentThread k) (set_code th (is_ ++ code th))).
Proof. intros Ha. unfold push. by rewrite (thread_alive _ _ _ Ha). Qed.

Lemma push_level k th lv is_ : alive k (currentThread k) th ->
  push (with_level k lv) is_ = Ok (with_level (set_thread k (currentThread k) (set_code th (is_ ++ code th))) lv).
Proof. intros Ha. by rewrite (push_spec (with_level k lv) th). Qed.

Section Calls.
#[local] Set Default Proof Using "All".
Context (k : kernel) (th : Thread) (Hg : good k) (Hr : running k th).

Lemma P_good s : (s < length (sems k))%nat -> exists k', P k s = Ok k' /\ good k'.
Proof.
  intros Hs. unfold P. rewrite (push_level _ th) by apply Hr. eexists. split; [done |].
  apply good_code; try done. split; [done |]. apply running_program; [apply Hg | done].
Qed.

Lemma Acquire_good l : (l < length (locks k))%nat -> exists k', Acquire k l = Ok k' /\ good k'.
Proof.
  intros Hl. unfold Acquire. destruct (lookup_lt_is_Some_2 _ _ Hl) as [lk Hlk]. rewrite Hlk. cbn [deref mbind res_bind].
  rewrite (push_spec _ th) by apply Hr. eexists. split; [done |].
  replace (set_thread _ _ _) with (with_level (set_thread k (currentThread k)
    (set_code th ([Call_P (semaphore lk); Set_Holder l] ++ code th))) (level k)) by (by destruct k).
  apply good_code; try done; [| by intros []]. apply program_shape. destruct Hg as [Hi _].
  repeat (apply Forall_cons; split); [| | by apply running_program]; cbn; apply bool_decide_eq_true; [| done].
  by apply (i_locks _ Hi l).
Qed.

Lemma set_level_good lv : good (with_level k lv).
Proof.
  pose proof (good_code k th lv (code th) Hg Hr) as H. cbn zeta in H. destruct Hg as [Hi _].
  pose proof (running_program k th Hi Hr) as Hp. destruct (program_waits _ _ _ Hp) as [Hw Hsl].
  replace (with_level (set_thread _ _ _) lv) with (with_level k lv) in H.
  - apply H; [by apply program_shape | done |]. rewrite (proj1 (program_waits _ _ (set_code th (code th)) Hp)). by intros [].
  - destruct Hr as [Ha _ _]. unfold set_thread, with_level, with_threads. cbn. rewrite list_insert_id; [done |].
    replace (set_code th (code th)) with th by (by destruct th). done.
Qed.

Lemma set_holder_good l h : (l < length (locks k))%nat ->
  exists k', set_holder k l h = Ok k' /\ good k' /\ running k' th /\ sems k' = sems k.
Proof.
  intros Hl. unfold set_holder. destruct (lookup_lt_is_Some_2 _ _ Hl) as [lk Hlk]. rewrite Hlk. cbn [deref mbind res_bind].
  eexists. split; [done |]. split; [| by destruct Hr].
  destruct Hg as [Hi Hn]. pose proof (running_program k th Hi Hr) as Hp.
  destruct (program_waits _ _ _ Hp) as [Hw Hsl]. destruct Hr as [Ha Hs _].
  set (ls := <[l := _]> (locks k)).
  replace (with_locks k ls) with (update k (level k) th (sems k) ls).
  2: { unfold update, with_locks. by rewrite list_insert_id by done. }
  pose proof (queues_refl k Hi) as Hq.
  assert (Forall2 (fun a b => semaphore b = semaphore a) (locks k) ls) as Hls.
  { apply Forall2_same_length_lookup. split; [by unfold ls; rewrite length_insert |]. intros i a b Hia Hib.
    unfold ls in Hib. apply list_lookup_insert_Some in Hib as [(<- & <- & _) | [_ ?]]; [| congruence].
    cbn. congruence. }
  assert (is_Some (waits_on th) -> level k = IntOff) as Hlv by (rewrite Hw; by intros []).
  assert (shape (length (sems k)) (length (locks k)) (code th)) as Hsh by (by apply program_shape).
  split.
  - by apply (advance_inv k (level k) th th (sems k) ls).
  - apply (advance_wakeup k (level k) th th (sems k) ls); try done.
    intros s a b Hsa Hsb _. assert (a = b) as -> by congruence. lia.
Qed.

(** Taking the call off what the thread has to do. *)
Lemma pop_good i r : code th = i :: r ->
  good (set_thread k (currentThread k) (set_code th r)) /\
  running (set_thread k (currentThread k) (set_code th r)) (set_code th r) /\
  plain (length (sems k)) (length (locks k)) i = true.
Proof.
  intros Hc. destruct Hg as [Hi _]. pose proof (running_program k th Hi Hr) as Hp. rewrite Hc in Hp.
  apply Forall_cons in Hp as [Hpi Hpr]. destruct (program_waits _ _ (set_code th r) Hpr) as [Hw Hsl].
  split_and!; [| | done].
  - replace (set_thread _ _ _) with (with_level (set_thread k (currentThread k) (set_code th r)) (level k)) by (by destruct k).
    apply good_code; try done; [by apply program_shape |]. rewrite Hw. by intros [].
  - replace (set_thread _ _ _) with (with_level (set_thread k (currentThread k) (set_code th r)) (level k)) by (by destruct k).
    apply (set_thread_running k th); [done | apply Hr | done].
Qed.
End Calls.

(** ** Waking a thread up *)

Section Wake.
#[local] Set Default Proof Using "All".
Context (k : kernel) (s t : nat) (q : list nat) (v : Z) (th : Thread).
Context (Hi : inv k) (Hs : sems k !! s = Some (mkSem v (t :: q))) (Ha : alive k t th).
Context (Hb : status th = BLOCKED) (Hw : waits_on th = Some s).

(** What [V] leaves when [t] is the first of the queue. *)
Definition wake : kernel :=
  with_sems (with_ready (set_thread k t (set_status th READY)) (readyList k ++ [t])) (<[s := mkSem (v + 1) q]> (sems k)).

Lemma wake_alive u w : alive wake u w <-> (u = t /\ w = set_status th READY) \/ (u <> t /\ alive k u w).
Proof. apply (alive_set k t (set_status th READY) u w). by eapply alive_lt. Qed.

Lemma wake_not_ready : t ∉ readyList k.
Proof. rewrite <- (ti_ready _ _ _ (i_threads _ Hi _ _ Ha)). congruence. Qed.

Lemma wake_queue s' sem' : sems wake !! s' = Some sem' ->
  exists sem, sems k !! s' = Some sem /\
    (s' = s /\ sem = mkSem v (t :: q) /\ sem' = mkSem (v + 1) q \/ s' <> s /\ sem' = sem).
Proof. cbn. intros [(<- & <- & _) | [? ?]]%list_lookup_insert_Some; eauto 10. Qed.

Lemma wake_inv : inv wake.
Proof.
  pose proof wake_not_ready as Hnr.
  destruct (i_sems _ Hi _ _ Hs) as [Hv [Htq Hndq]%NoDup_cons Hqs]. cbn in *.
  split; cbn [wake with_sems with_ready set_thread with_threads readyList toBeDestroyed machine currentThread level].
  - apply NoDup_app. split_and!; [by destruct Hi | | apply NoDup_singleton].
    intros u Hu ->%list_elem_of_singleton. done.
  - intros u [Hu | ->%list_elem_of_singleton]%elem_of_app.
    + destruct (i_ready_alive _ Hi u Hu) as [w Hwu]. exists w. apply wake_alive. right. split; [congruence | done].
    + eexists. apply wake_alive. by left.
  - intros u w [(-> & ->) | (Hne & Hu)]%wake_alive.
    + destruct (i_threads _ Hi _ _ Ha). split; cbn; try done.
      * rewrite elem_of_app, list_elem_of_singleton. tauto.
      * by rewrite length_insert.
    + apply (thread_inv_frame k); cbn; try done.
      * by apply (i_threads _ Hi).
      * rewrite elem_of_app, list_elem_of_singleton. tauto.
      * intros s' sem' Hs' Hin. destruct (decide (s' = s)) as [-> | Hss].
        -- rewrite Hs in Hs'. injection Hs' as <-. cbn in Hin. exists (mkSem (v + 1) q).
           rewrite list_lookup_insert_eq by (by eapply lookup_lt_Some). split; [done |]. by apply elem_of_cons in Hin as [|].
        -- exists sem'. by rewrite list_lookup_insert_ne by done.
      * by rewrite length_insert.
  - intros s' sem' (sem & Hs' & Hcase)%wake_queue. destruct Hcase as [(-> & -> & ->) | (Hss & ->)].
    + split; cbn; [lia | done |]. intros u Hu. destruct (Hqs u) as (w & Hwu & ? & ?); [by right |].
      exists w. split; [| done]. apply wake_alive. right. split; [congruence | done].
    + destruct (i_sems _ Hi _ _ Hs') as [? ? Hq]. split; [done | done |].
      intros u Hu. destruct (Hq u Hu) as (w & Hwu & ? & Hws). exists w. split; [| done]. apply wake_alive.
      right. split; [| done]. intros ->. pose proof (alive_fun _ _ _ _ Ha Hwu) as ->. congruence.
  - destruct (i_current _ Hi) as (c & Hc & Hcs & Hcl). destruct (decide (currentThread k = t)) as [Hct | Hct].
    + rewrite Hct in Hc |- *. pose proof (alive_fun _ _ _ _ Hc Ha) as Hcth. exists (set_status th READY).
      subst c. split_and!; [by apply wake_alive; left | right | done]. by destruct Hcs as [? | Hsl]; [congruence |].
    + exists c. split_and!; [by apply wake_alive; right | done | done].
  - by destruct Hi.
  - by destruct Hi.
  - intros l lk. cbn. rewrite length_insert. by apply (i_locks _ Hi).
Qed.

Lemma wake_wakeup : no_lost_wakeup k -> no_lost_wakeup wake.
Proof.
  intros Hn s' sem' (sem & Hs' & Hcase)%wake_queue Hq'.
  assert (sem' = sem \/ queue sem <> []) as Hq by (destruct Hcase as [(_ & -> & _) | (_ & ->)]; [by right | by left]).
  assert (value sem <= Z.of_nat (woken k s')) as Hle.
  { apply Hn; [done |]. by destruct Hq as [-> |]. }
  pose proof (count_insert (woken_on s') (threads k) t (Some th) (Some (set_status th READY)) Ha) as Hc.
  rewrite (decide_False (P := woken_on s' (Some th))) in Hc by (by intros [_ ?]).
  change (Z.of_nat (woken wake s')) with (Z.of_nat (count (woken_on s') (<[t := Some (set_status th READY)]> (threads k)))).
  change (woken k s') with (count (woken_on s') (threads k)) in Hle. destruct Hcase as [(-> & -> & ->) | (Hss & ->)]; cbn in *.
  - rewrite decide_True in Hc by (by split). lia.
  - rewrite Hc. case_decide; lia.
Qed.
End Wake.

Section Post.
#[local] Set Default Proof Using "All".
Context (k : kernel) (s : nat) (sem : Semaphore) (Hi : inv k) (Hs : sems k !! s = Some sem) (Hq : queue sem = []).

(** What [V] leaves when nobody waits. *)
Definition post : kernel := set_sem k s (mkSem (value sem + 1) []).

Lemma post_inv : inv post.
Proof.
  assert (forall s' sem', sems post !! s' = Some sem' -> exists sem, sems k !! s' = Some sem /\
    queue sem' = queue sem /\ 0 <= value sem') as Hback.
  { intros s' sem'. cbn. intros [(<- & <- & _) | [? ?]]%list_lookup_insert_Some.
    - exists sem. split_and!; [done | done | cbn]. pose proof (si_value _ _ _ (i_sems _ Hi _ _ Hs)). lia.
    - exists sem'. split_and!; [done | done |]. by apply (si_value _ _ _ (i_sems _ Hi _ _ H0)). }
  destruct Hi. split; try done.
  - intros t th Ht. apply (thread_inv_frame k); cbn; rewrite ?length_insert; try done.
    + by apply i_threads0.
    + intros s' sem' Hs' Hin. destruct (decide (s' = s)) as [-> | Hne].
      * assert (sem' = sem) as -> by congruence. rewrite Hq in Hin. by apply elem_of_nil in Hin.
      * exists sem'. by rewrite list_lookup_insert_ne by done.
  - intros s' sem' (sem0 & Hs' & Hqq & ?)%Hback. destruct (i_sems0 _ _ Hs'). split; [done | by rewrite Hqq |]. by rewrite Hqq.
  - intros l lk. cbn. rewrite length_insert. by apply i_locks0.
Qed.

Lemma post_wakeup : no_lost_wakeup k -> no_lost_wakeup post.
Proof.
  intros Hn s' sem'. cbn. intros [(<- & <- & _) | [? ?]]%list_lookup_insert_Some; [done |]. by apply Hn.
Qed.
End Post.

(** What [V] does, in one equation. *)
Lemma V_cases k s sem :
  inv k -> sems k !! s = Some sem ->
  (queue sem = [] /\ V k s = Ok (post k s sem)) \/
  exists t q th, sem = mkSem (value sem) (t :: q) /\ alive k t th /\ status th = BLOCKED /\ waits_on th = Some s /\
    V k s = Ok (wake k s t q (value sem) th).
Proof.
  intros Hi Hs. unfold V. cbn [with_level sems]. rewrite Hs. cbn [deref mbind res_bind].
  destruct sem as [v [| t q]]; cbn [queue value]; [left; by destruct k | right].
  destruct (si_queue _ _ _ (i_sems _ Hi _ _ Hs) t) as (th & Ha & Hb & Hw); [by left |].
  exists t, q, th. split_and!; [done | done | done | done |].
  cbn [ListSpec.RemoveFront mbind res_bind]. unfold ReadyToRun. cbn [with_level level].
  rewrite bool_decide_true by done. cbn [ASSERT mbind res_bind].
  rewrite (thread_alive (with_level k IntOff) t th) by done. cbn [mbind res_bind].
  unfold ListSpec.Append, ListSpec.is_in. cbn [with_level readyList].
  rewrite bool_decide_false by (by apply (wake_not_ready k s t q v th)). done.
Qed.

Lemma V_good k s : good k -> (s < length (sems k))%nat -> exists k', V k s = Ok k' /\ good k'.
Proof.
  intros [Hi Hn] [sem Hs]%lookup_lt_is_Some_2.
  destruct (V_cases k s sem Hi Hs) as [(Hq & ->) | (t & q & th & Hsem & Ha & Hb & Hw & ->)]; eexists; (split; [done |]).
  - split; [by apply post_inv | by apply post_wakeup].
  - rewrite Hsem in Hs. split; [by eapply wake_inv | by eapply wake_wakeup].
Qed.
(** ** Giving the processor away *)

Lemma switch_good k n fin :
  switching k n fin -> no_lost_wakeup k -> exists k', Run k n fin = Ok k' /\ good k'.
Proof.
  intros Hsw Hn. destruct (Run_switches k n fin Hsw) as (k' & HR & Hst). exists k'. split; [done |].
  split; [by eapply switched_inv |]. intros s sem Hs Hq. rewrite (st_sems _ _ _ _ Hst) in Hs.
  change (woken k' s) with (count (woken_on s) (threads k')). rewrite (st_count _ _ _ _ Hst (woken_on s)).
  - by apply Hn.
  - by intros [].
  - intros th th' Hsm Hstat. destruct (same_waits _ _ Hsm) as [Hw _]. unfold woken_on. rewrite Hw.
    destruct Hstat as [-> | [-> ->]]; naive_solver.
  - intros Hfin th Ha [? ?]. destruct (sw_current _ _ _ Hsw) as (th' & Ha' & Hf). destruct (Hf Hfin).
    pose proof (alive_fun _ _ _ _ Ha Ha') as <-. congruence.
Qed.

Section Give.
#[local] Set Default Proof Using "All".
Context (k : kernel) (th th' : Thread) (n : nat) (l0 l : list nat) (fin : bool).
Context (Hi : inv k) (Ha : alive k (currentThread k) th) (Hl0 : readyList k = n :: l0).
Context (Hregs : length (userRegisters th') = length (userRegisters th)) (Hstk : stack th' = stack th).
Context (Hst : status th' = READY \/ status th' = BLOCKED) (Hsl : sleeping th' = false).
Context (Hsh : shape (length (sems k)) (length (locks k)) (code th')).
Context (Hnd : NoDup (n :: l)) (Hl : forall t, t <> currentThread k -> t ∈ n :: l <-> t ∈ n :: l0).
Context (Hc : status th' = READY <-> currentThread k ∈ n :: l).
Context (Hb : status th' = BLOCKED -> fin = true /\ waits_on th' = None \/
  exists s sem, waits_on th' = Some s /\ sems k !! s = Some sem /\ currentThread k ∈ queue sem).
Context (Hf : fin = true -> status th' = BLOCKED /\ waits_on th' = None).
Context (Hqs : forall s sem, sems k !! s = Some sem -> currentThread k ∈ queue sem ->
  status th' = BLOCKED /\ waits_on th' = Some s).

(** The current thread gives up the processor to the first of the ready list. *)
Definition give : kernel :=
  mk IntOff (machine k) (currentThread k) l (toBeDestroyed k) (<[currentThread k := Some th']> (threads k)) (sems k) (locks k).

Lemma give_alive u w : alive give u w <-> (u = currentThread k /\ w = th') \/ (u <> currentThread k /\ alive k u w).
Proof. apply (alive_set k (currentThread k) th' u w). by eapply alive_lt. Qed.

Lemma give_switching : switching give n fin.
Proof.
  split; cbn [give level toBeDestroyed machine readyList currentThread sems locks]; try (by destruct Hi).
  - intros t Ht. destruct (decide (t = currentThread k)) as [-> | Hne].
    + exists th'. apply give_alive. by left.
    + rewrite (Hl t Hne), <- Hl0 in Ht. destruct (i_ready_alive _ Hi t Ht) as [w Hw]. exists w. apply give_alive. by right.
  - exists th'. split; [apply give_alive; by left | done].
  - intros t w [(-> & ->) | (Hne & Hw)]%give_alive.
    + destruct (i_threads _ Hi _ _ Ha). split_and!; try done.
      * by destruct Hst as [-> | ->].
      * by destruct Hst as [-> | ->].
      * congruence.
      * by rewrite Hstk.
      * intros [[? _] | ?]%Hb; [by left | by right].
    + destruct (i_threads _ Hi _ _ Hw) as [? Hr Hrun Hbl Hrw Has ? ? ?]. rewrite Hl0, <- Hl in Hr by done. split_and!; try done.
      * intros [? _]%Hrun. done.
      * destruct (sleeping w); [by destruct Hne; apply Has | done].
      * intros HB. specialize (Hbl HB). right. destruct (waits_on w) as [s |]; [| naive_solver].
        destruct Hbl as (sem & ? & ?). by exists s, sem.
  - intros s sem Hs. destruct (i_sems _ Hi _ _ Hs) as [? ? Hq]. split; [done | done |]. intros t Ht.
    destruct (decide (t = currentThread k)) as [-> | Hne].
    + exists th'. split; [apply give_alive; by left | by apply Hqs with sem].
    + destruct (Hq t Ht) as (w & Hw & ? & ?). exists w. split; [apply give_alive; by right | done].
Qed.
End Give.

Lemma give_wakeup k th th' l :
  alive k (currentThread k) th -> no_lost_wakeup k -> waits_on th' = waits_on th -> (waits_on th = None \/ status th' = status th) ->
  no_lost_wakeup (give k th' l).
Proof.
  intros Ha Hn Hw Hs s sem Hsem Hq. pose proof (Hn s sem Hsem Hq) as Hle.
  change (woken (give k th' l) s) with (count (woken_on s) (<[currentThread k := Some th']> (threads k))).
  rewrite (count_insert_same (woken_on s) _ _ (Some th)); [done | done |]. unfold woken_on. rewrite Hw.
  destruct Hs as [-> | ->]; naive_solver.
Qed.
(** What [Yield] leaves of the thread when it gives the processor away. *)
Definition yielded (k : kernel) (th : Thread) : Thread :=
  set_status (set_code th ([Set_Level (level k)] ++ code th)) READY.

Lemma Yield_alone k : readyList k = [] -> Yield k = Ok k.
Proof. intros Hl. unfold Yield, FindNextToRun. cbn [with_level level readyList]. rewrite Hl. by destruct k. Qed.

Lemma Yield_gives k th n l :
  inv k -> running k th -> readyList k = n :: l ->
  Yield k = Run (give k (yielded k th) (l ++ [currentThread k])) n false.
Proof.
  intros Hi [Ha Hs Hw] Hl. destruct (running_free k th Hi Ha Hs) as (Hcr & Hsl & Hcq).
  unfold Yield, FindNextToRun. cbn [with_level level readyList]. rewrite bool_decide_true, Hl by done.
  cbn [ASSERT ListSpec.RemoveFront mbind res_bind]. rewrite (push_spec _ th) by done. cbn [mbind res_bind].
  set (th1 := set_code th _). set (k1 := set_thread _ _ _). change (currentThread k1) with (currentThread k).
  assert (ReadyToRun k1 (currentThread k) = Ok (give k (yielded k th) (l ++ [currentThread k]))) as ->; [| done].
  rewrite Hl in Hcr. apply not_elem_of_cons in Hcr as [Hcn Hcl]. unfold ReadyToRun.
  assert (level k1 = IntOff) as -> by done. rewrite bool_decide_true by done. cbn [ASSERT mbind res_bind].
  rewrite (thread_alive k1 (currentThread k) th1).
  2: { unfold alive, k1. cbn. rewrite list_lookup_insert_eq; [done | by eapply alive_lt]. }
  assert (readyList k1 = l) as -> by done. unfold ListSpec.Append, ListSpec.is_in. cbn [mbind res_bind].
  rewrite bool_decide_false by done. cbn [negb ASSERT mbind res_bind].
  unfold give, set_thread, with_ready, with_threads. cbn. by rewrite list_insert_insert_eq.
Qed.

Lemma Yield_switching k th n l :
  inv k -> running k th -> readyList k = n :: l ->
  switching (give k (yielded k th) (l ++ [currentThread k])) n false.
Proof.
  intros Hi Hr Hl. pose proof Hr as [Ha Hs Hw]. destruct (running_free k th Hi Ha Hs) as (Hcr & Hsl & Hcq).
  pose proof (running_program k th Hi Hr) as Hp. pose proof (i_ready _ Hi) as Hnd. rewrite Hl in Hnd, Hcr.
  apply NoDup_cons in Hnd as [Hnl Hndl]. apply not_elem_of_cons in Hcr as [Hcn Hcl].
  apply (give_switching k th _ n l); try done; cbn.
  - by left.
  - apply Forall_cons. by split.
  - apply NoDup_cons. rewrite not_elem_of_app, list_elem_of_singleton. split; [naive_solver |].
    apply NoDup_app. split_and!; [done | set_solver | apply NoDup_singleton].
  - set_solver.
  - set_solver.
  - intros s sem H1 H2. by destruct (Hcq s sem H1).
Qed.

Lemma Yield_good k th : good k -> running k th -> exists k', Yield k = Ok k' /\ good k'.
Proof.
  intros Hg Hr. pose proof Hg as [Hi Hn]. destruct (readyList k) as [| n l] eqn:Hl.
  - exists k. split; [by apply Yield_alone | done].
  - rewrite (Yield_gives k th n l) by done. apply switch_good; [by apply Yield_switching |].
    apply (give_wakeup k th); [apply Hr | done | | left; apply Hr]. symmetry. apply Hr.
Qed.

(** ** Going to sleep *)

Section Suspend.
#[local] Set Default Proof Using "All".
Context (k : kernel) (th th' : Thread) (ss : list Semaphore).
Context (Hi : inv k) (Ha : alive k (currentThread k) th) (Hrun : status th = RUNNING).
Context (Hregs : length (userRegisters th') = length (userRegisters th)) (Hstk : stack th' = stack th).
Context (Hst : status th' = BLOCKED) (Hsl : sleeping th' = true).
Context (Hsh : shape (length (sems k)) (length (locks k)) (code th')).
Context (Hw : waits_on th' = None \/
  exists s b, waits_on th' = Some s /\ ss !! s = Some b /\ currentThread k ∈ queue b).
Context (Hss : Forall2 (fun a b => value b = value a /\ queue a `prefix_of` queue b) (sems k) ss).
Context (Hnew : forall s a b, sems k !! s = Some a -> ss !! s = Some b ->
  queue b = queue a \/ queue b = queue a ++ [currentThread k] /\ waits_on th' = Some s /\ value a = 0).

Definition suspend : kernel := update k IntOff th' ss (locks k).

Lemma suspend_alive u w : alive suspend u w <-> (u = currentThread k /\ w = th') \/ (u <> currentThread k /\ alive k u w).
Proof. apply (alive_set k (currentThread k) th' u w). by eapply alive_lt. Qed.

Lemma suspend_inv : inv suspend.
Proof.
  destruct (running_free k th Hi Ha Hrun) as (Hnr & _ & Hnq). pose proof (Forall2_length _ _ _ Hss) as Hlss.
  split; cbn [suspend update readyList sems locks toBeDestroyed machine currentThread level]; try (by destruct Hi).
  - intros t Ht. destruct (i_ready_alive _ Hi t Ht) as [u Hu]. exists u. apply suspend_alive. right. split; [congruence | done].
  - intros t u [(-> & ->) | (Hne & Hu)]%suspend_alive.
    + destruct (i_threads _ Hi _ _ Ha). split; cbn; try congruence.
      * rewrite Hst. split; [done | by intros].
      * intros _. destruct Hw as [-> | (s & b & -> & ?)]; [done | by eauto].
    + apply (thread_inv_frame k); cbn; try done; [by apply (i_threads _ Hi) |].
      intros s sem Hs Hin. destruct (Forall2_lookup_l _ _ _ _ _ Hss Hs) as (sem' & Hs' & _ & [q' Hq]).
      exists sem'. rewrite Hq. set_solver.
  - intros s b Hb. destruct (Forall2_lookup_r _ _ _ _ _ Hss Hb) as (a & Hs & Hv & _).
    destruct (i_sems _ Hi _ _ Hs) as [? Hnd Hqs]. pose proof (Hnq s a Hs) as Hna.
    assert (forall t, t ∈ queue a -> exists u, alive suspend t u /\ status u = BLOCKED /\ waits_on u = Some s) as Hold.
    { intros t Ht. destruct (Hqs t Ht) as (u & Hu & ?). exists u. split; [| done]. apply suspend_alive. right.
      split; [congruence | done]. }
    destruct (Hnew s a b Hs Hb) as [Hq | (Hq & Hwq & _)]; split; rewrite ?Hv, ?Hq; try done.
    + apply NoDup_app. split_and!; [done | set_solver | apply NoDup_singleton].
    + intros t [Ht | ->%list_elem_of_singleton]%elem_of_app; [by apply Hold |].
      exists th'. split; [apply suspend_alive; by left | done].
  - exists th'. split_and!; [apply suspend_alive; by left | by right | done].
  - intros l lk Hl. rewrite <- Hlss. by eapply i_locks.
Qed.

Lemma suspend_wakeup : no_lost_wakeup k -> (forall s, waits_on th = Some s -> waits_on th' = Some s) ->
  (forall s a, waits_on th' = Some s -> sems k !! s = Some a -> value a = 0) -> no_lost_wakeup suspend.
Proof.
  intros Hn Hwt Hzero s b Hb Hq. destruct (Forall2_lookup_r _ _ _ _ _ Hss Hb) as (a & Hs & Hv & _).
  rewrite Hv. destruct (decide (waits_on th' = Some s)) as [Hws | Hws]; [rewrite (Hzero s a) by done; lia |].
  destruct (Hnew s a b Hs Hb) as [Hqa | (_ & ? & _)]; [| done]. rewrite Hqa in Hq.
  pose proof (Hn s a Hs Hq) as Hle. change (woken suspend s) with (count (woken_on s) (<[currentThread k := Some th']> (threads k))).
  rewrite (count_insert_same (woken_on s) _ _ (Some th)); [done | done |].
  split; [intros [?%Hwt _]; done | intros [? _]; done].
Qed.
End Suspend.

Lemma queues_same (ss : list Semaphore) :
  Forall2 (fun a b => value b = value a /\ queue a `prefix_of` queue b) ss ss.
Proof. apply Forall2_same_length_lookup. split; [done |]. intros s a b ??. by assert (a = b) as -> by congruence. Qed.

Lemma Finish_good k th : good k -> running k th -> exists k', Finish k = Ok k' /\ good k'.
Proof.
  intros [Hi Hn] Hr. pose proof Hr as [Ha Hs Hw]. unfold Finish, Sleep. cbn [with_level level].
  rewrite bool_decide_true by done. cbn [ASSERT mbind res_bind].
  rewrite (thread_alive (with_level k IntOff) (currentThread (with_level k IntOff)) th) by done. cbn [mbind res_bind]. eexists. split; [done |].
  set (th' := set_code _ _). pose proof (queues_same (sems k)) as Hqs.
  assert (shape (length (sems k)) (length (locks k)) (code th')) as Hsh by (by apply running_program).
  change (good (suspend k th' (sems k))). split.
  - apply (suspend_inv k th th'); try done; [by left |]. intros s a b ??. left. congruence.
  - apply (suspend_wakeup k th th'); try done; [by left | | congruence]. intros s a b ??. left. congruence.
Qed.

(** In [P]: the thread joins the queue, or takes the unit. *)
Section InP.
#[local] Set Default Proof Using "All".
Context (k : kernel) (th : Thread) (s : nat) (old : IntStatus) (r : list instr) (sem : Semaphore).
Context (Hg : good k) (Ha : alive k (currentThread k) th) (Hrun : status th = RUNNING).
Context (Hc : code th = Wait_P s old :: r) (Hs : sems k !! s = Some sem).

Definition popped : kernel := set_thread k (currentThread k) (set_code th r).
Definition blocked : Thread := set_code (set_status th BLOCKED) (In_Sleep false :: Wait_P s old :: r).
Definition queued : list Semaphore := <[s := mkSem (value sem) (queue sem ++ [currentThread k])]> (sems k).
Definition taken : list Semaphore := <[s := mkSem (value sem - 1) (queue sem)]> (sems k).

Lemma wait_shape : (s < length (sems k))%nat /\ program (length (sems k)) (length (locks k)) r.
Proof using Hg Ha Hc. pose proof (ti_shape _ _ _ (i_threads _ (proj1 Hg) _ _ Ha)) as Hsh. by rewrite Hc in Hsh. Qed.

Lemma wait_waits : waits_on th = Some s.
Proof using Hc. unfold waits_on. by rewrite Hc. Qed.

Lemma P_loop_blocks : value sem = 0 -> P_loop popped s old = Ok (suspend k blocked queued).
Proof.
  intros Hz. pose proof Hg as [Hi _]. destruct (running_free k th Hi Ha Hrun) as (_ & _ & Hnq).
  pose proof (alive_lt _ _ _ Ha) as Hla.
  assert (level k = IntOff) as Hlv.
  { destruct (i_current _ Hi) as (th1 & Ha1 & _ & Hl). pose proof (alive_fun _ _ _ _ Ha Ha1) as <-. apply Hl.
    left. rewrite wait_waits. by exists s. }
  unfold P_loop. change (sems popped) with (sems k). rewrite Hs. cbn [deref mbind res_bind]. rewrite Hz. cbn [Z.eqb].
  unfold ListSpec.Append, ListSpec.is_in. change (currentThread popped) with (currentThread k).
  rewrite bool_decide_false by (by apply (Hnq s)). cbn [negb ASSERT mbind res_bind].
  rewrite (push_spec _ (set_code th r)) by (unfold alive; cbn; by rewrite list_lookup_insert_eq).
  cbn [mbind res_bind]. set (k1 := set_thread _ _ _). unfold Sleep. assert (level k1 = IntOff) as -> by done.
  rewrite bool_decide_true by done. cbn [ASSERT mbind res_bind].
  rewrite (thread_alive k1 (currentThread k1) (set_code th (Wait_P s old :: r))).
  2: { unfold alive, k1. cbn. by rewrite list_lookup_insert_eq by (by rewrite length_insert). }
  cbn [mbind res_bind]. f_equal. unfold suspend, update, set_thread, with_threads, queued. cbn.
  by rewrite !list_insert_insert_eq, Hlv, Hz.
Qed.

Lemma queued_lookup i a b : sems k !! i = Some a -> queued !! i = Some b ->
  b = a \/ i = s /\ a = sem /\ b = mkSem (value sem) (queue sem ++ [currentThread k]).
Proof.
  intros Hia. unfold queued. intros [(<- & <- & _) | [_ ?]]%list_lookup_insert_Some; [right | left; congruence].
  split_and!; [done | congruence | done].
Qed.

Lemma blocked_good : value sem = 0 -> good (suspend k blocked queued).
Proof.
  intros Hz. pose proof Hg as [Hi Hn]. destruct wait_shape as [Hlt Hp].
  assert (Forall2 (fun a b => value b = value a /\ queue a `prefix_of` queue b) (sems k) queued) as Hf2.
  { apply Forall2_same_length_lookup. split; [by unfold queued; rewrite length_insert |]. intros i a b Hia Hib.
    destruct (queued_lookup i a b Hia Hib) as [-> | (-> & -> & ->)]; cbn; [done |]. split; [done | by apply prefix_app_r]. }
  assert (waits_on blocked = None \/ exists s0 b, waits_on blocked = Some s0 /\ queued !! s0 = Some b /\
    currentThread k ∈ queue b) as Hw2.
  { right. exists s. eexists. split_and!; [done | by apply list_lookup_insert_eq |]. cbn. set_solver. }
  assert (forall s0 a b, sems k !! s0 = Some a -> queued !! s0 = Some b ->
    queue b = queue a \/ queue b = queue a ++ [currentThread k] /\ waits_on blocked = Some s0 /\ value a = 0) as Hnew.
  { intros s0 a b Hia Hib. destruct (queued_lookup s0 a b Hia Hib) as [-> | (-> & -> & ->)]; [by left | by right]. }
  assert (shape (length (sems k)) (length (locks k)) (code blocked)) as Hsh by done.
  split; [by apply (suspend_inv k th) |]. apply (suspend_wakeup k th); try done.
  - rewrite wait_waits. done.
  - intros s0 a [= <-] Ha0. congruence.
Qed.

Lemma taken_good : value sem <> 0 -> good (update k old (set_code th r) taken (locks k)).
Proof.
  intros Hz. pose proof Hg as [Hi Hn]. destruct wait_shape as [Hlt Hp].
  destruct (program_waits _ _ (set_code th r) Hp) as [Hw' Hsl'].
  pose proof (si_value _ _ _ (i_sems _ Hi _ _ Hs)) as Hv. pose proof wait_waits as Hw.
  assert (shape (length (sems k)) (length (locks k)) (code (set_code th r))) as Hsh by (by apply program_shape).
  assert (is_Some (waits_on (set_code th r)) -> old = IntOff) as Hlv by (rewrite Hw'; by intros []).
  assert (Forall2 (fun a b => queue b = queue a /\ 0 <= value b) (sems k) taken) as Hss.
  { apply Forall2_same_length_lookup. split; [by unfold taken; rewrite length_insert |]. intros i a b Hia.
    intros [(<- & <- & _) | [_ ?]]%list_lookup_insert_Some.
    - assert (a = sem) as -> by congruence. cbn. split; [done | lia].
    - assert (a = b) as -> by congruence. split; [done |]. by apply (i_sems _ Hi i). }
  pose proof (locks_refl (locks k)) as Hll. split.
  - by apply (advance_inv k old th (set_code th r) taken).
  - apply (advance_wakeup k old th (set_code th r) taken); try done.
    intros i a b Hia. unfold units. rewrite (decide_False (P := waits_on (set_code th r) = Some i)) by congruence.
    intros [(<- & <- & _) | [Hne ?]]%list_lookup_insert_Some _.
    + assert (a = sem) as -> by congruence. rewrite decide_True by done. cbn. lia.
    + assert (a = b) as -> by congruence. rewrite decide_False by congruence. lia.
Qed.
End InP.

Lemma P_loop_cases k th s old r :
  good k -> alive k (currentThread k) th -> status th = RUNNING -> code th = Wait_P s old :: r ->
  exists sem, sems k !! s = Some sem /\
    (value sem = 0 /\ P_loop (popped k th r) s old = Ok (suspend k (blocked th s old r) (queued k s sem)) \/
     value sem <> 0 /\ P_loop (popped k th r) s old = Ok (update k old (set_code th r) (taken k s sem) (locks k))).
Proof.
  intros Hg Ha Hrun Hc. destruct (wait_shape k th s old r Hg Ha Hc) as [[sem Hs]%lookup_lt_is_Some_2 _].
  exists sem. split; [done |]. destruct (decide (value sem = 0)) as [Hz | Hz]; [left | right]; (split; [done |]).
  - by apply P_loop_blocks.
  - unfold P_loop. change (sems (popped k th r)) with (sems k). rewrite Hs. cbn [deref mbind res_bind].
    by destruct (Z.eqb_spec (value sem) 0).
Qed.

Lemma P_loop_good k th s old r :
  good k -> alive k (currentThread k) th -> status th = RUNNING -> code th = Wait_P s old :: r ->
  exists k', P_loop (popped k th r) s old = Ok k' /\ good k'.
Proof.
  intros Hg Ha Hrun Hc. destruct (P_loop_cases k th s old r Hg Ha Hrun Hc) as (sem & Hs & [(Hz & ->) | (Hz & ->)]);
    (eexists; split; [done |]); [by eapply blocked_good | by eapply taken_good].
Qed.
(** ** New threads *)

Section ForkSection.
#[local] Set Default Proof Using "All".
Context (fresh : list Z) (k : kernel) (th : Thread) (body : list instr).
Context (Hg : good k) (Hr : running k th) (Hfresh : length fresh = 40%nat).
Context (Hbody : forallb (plain (length (sems k)) (length (locks k))) body = true).

Definition born : Thread :=
  mkThread false (Some STACK_FENCEPOST) READY fresh None (Set_Level IntOn :: body ++ [Call_Finish]).
Definition forked : kernel :=
  with_ready (with_threads k (threads k ++ [Some born])) (readyList k ++ [length (threads k)]).

Lemma forked_alive u w : alive forked u w <-> (u = length (threads k) /\ w = born) \/ alive k u w.
Proof.
  unfold alive. cbn. destruct (decide (u < length (threads k))%nat) as [Hlt | Hge].
  - rewrite lookup_app_l by done. split; [by right |]. intros [[-> _] | ?]; [lia | done].
  - rewrite lookup_app_r by lia. rewrite (lookup_ge_None_2 (threads k) u) by lia.
    destruct (decide (u = length (threads k))) as [-> | Hne].
    + rewrite Nat.sub_diag. cbn. naive_solver.
    + rewrite lookup_ge_None_2 by (cbn; lia). naive_solver.
Qed.

Lemma not_ready_new : length (threads k) ∉ readyList k.
Proof. intros Hin. destruct (i_ready_alive _ (proj1 Hg) _ Hin) as [w Hw%alive_lt]. lia. Qed.

Lemma Fork_forked : Fork fresh k body = Ok forked.
Proof.
  unfold Fork. set (th0 := mkThread _ _ _ _ _ _). unfold ReadyToRun. cbn [with_level level].
  rewrite bool_decide_true by done. cbn [ASSERT mbind res_bind].
  rewrite (thread_alive _ (length (threads k)) th0) by (unfold alive; cbn; by apply list_lookup_middle).
  cbn [mbind res_bind]. unfold ListSpec.Append, ListSpec.is_in. cbn [with_level with_threads readyList].
  rewrite bool_decide_false by apply not_ready_new. cbn [negb ASSERT mbind res_bind]. f_equal.
  unfold forked, with_level, with_ready, set_thread, with_threads. cbn.
  rewrite insert_app_r_alt by lia. by rewrite Nat.sub_diag.
Qed.

Lemma born_program : program (length (sems k)) (length (locks k)) (code born).
Proof.
  apply Forall_cons. split; [done |]. apply Forall_app. split; [| by apply Forall_singleton].
  apply Forall_forall. intros i Hi. apply list_elem_of_In in Hi. by apply (proj1 (forallb_forall _ _) Hbody).
Qed.

Lemma forked_good : good forked.
Proof.
  pose proof Hg as [Hi Hn]. pose proof not_ready_new as Hnew. pose proof born_program as Hp.
  destruct (program_waits _ _ _ Hp) as [Hw Hsl].
  split; [split; try (by destruct Hi) |].
  - cbn. apply NoDup_app. split_and!; [by destruct Hi | set_solver | apply NoDup_singleton].
  - cbn. intros t [[w Hw']%(i_ready_alive _ Hi) | ->%list_elem_of_singleton]%elem_of_app;
      [exists w | exists born]; apply forked_alive; [by right | by left].
  - intros t w [(-> & ->) | Ha]%forked_alive.
    + split; cbn; try done; try (by right). set_solver.
    + apply (thread_inv_frame k); cbn; try done; [by apply (i_threads _ Hi) | | by eauto].
      apply alive_lt in Ha. rewrite elem_of_app, list_elem_of_singleton. split; [| by left]. intros [|]; [done | lia].
  - intros s sem Hs. destruct (i_sems _ Hi _ _ Hs) as [? ? Hq]. split; [done | done |].
    intros t Ht. destruct (Hq t Ht) as (w & Hwa & ?). exists w. split; [apply forked_alive; by right | done].
  - destruct (i_current _ Hi) as (c & Hc & ?). exists c. split; [apply forked_alive; by right | done].
  - intros s sem Hs Hq. change (woken forked s) with (count (woken_on s) (threads k ++ [Some born])).
    rewrite count_snoc; [by apply Hn |]. intros [? _]. done.
Qed.
End ForkSection.

(** ** Out of [Sleep] *)

Lemma wake_up_switching k th fin r n l :
  inv k -> alive k (currentThread k) th -> code th = In_Sleep fin :: r -> readyList k = n :: l ->
  switching (give k (set_code th r) l) n fin /\ waits_on (set_code th r) = waits_on th.
Proof.
  intros Hi Ha Hc Hl. destruct (i_threads _ Hi _ _ Ha) as [Hj Hrd Hrun Hb Hrw Has Hsh Hu Hs].
  assert (sleeping th = true) as Hsl by (unfold sleeping; by rewrite Hc). rewrite Hc in Hsh.
  assert (waits_on (set_code th r) = waits_on th /\ sleeping (set_code th r) = false /\
    shape (length (sems k)) (length (locks k)) r /\ (fin = true -> waits_on th = None) /\
    (waits_on th = None -> fin = true)) as (Hw & Hsl' & Hsh' & Hf & Hf').
  { unfold waits_on at 2 3 4. rewrite Hc. destruct fin.
    - destruct (program_waits _ _ (set_code th r) Hsh) as [? ?]. split_and!; try done. by apply program_shape.
    - destruct r as [| [] r]; try (by apply Forall_cons in Hsh as [??]).
      destruct Hsh. by split_and!. }
  assert (status th = READY \/ status th = BLOCKED) as Hst.
  { destruct (status th) eqn:E; [done | | by left | by right]. destruct (Hrun eq_refl). congruence. }
  pose proof (i_ready _ Hi) as Hnd. rewrite Hl in Hnd, Hrd.
  split; [| done]. apply (give_switching k th (set_code th r) n l l); try done.
  - rewrite Hw. intros HB. specialize (Hb HB). destruct (waits_on th) as [s |] eqn:E; [right | left; by auto].
    destruct Hb as (sem & ? & ?). by exists s, sem.
  - intros Hfin. split; [| rewrite Hw; by auto]. destruct Hst as [HR |]; [| done].
    destruct (Hrw HR Hsl) as [x Hx]. rewrite (Hf Hfin) in Hx. done.
  - intros s sem Hss Hin. destruct (si_queue _ _ _ (i_sems _ Hi _ _ Hss) _ Hin) as (th1 & Ha1 & ? & ?).
    pose proof (alive_fun _ _ _ _ Ha Ha1) as <-. by rewrite Hw.
Qed.

Lemma wake_up_good k th fin r n l :
  good k -> alive k (currentThread k) th -> code th = In_Sleep fin :: r -> readyList k = n :: l ->
  exists k', Run (give k (set_code th r) l) n fin = Ok k' /\ good k'.
Proof.
  intros [Hi Hn] Ha Hc Hl. destruct (wake_up_switching k th fin r n l Hi Ha Hc Hl) as [Hsw Hw].
  apply switch_good; [done |]. apply (give_wakeup k th); try done. by right.
Qed.

Lemma machine_good k m : length (registers m) = 40%nat -> good k -> good (with_machine k m).
Proof.
  intros Hm [Hi Hn]. split; [| done]. destruct Hi. split; try done.
  - intros t th Ht. destruct (i_threads0 t th Ht). by split.
  - intros s sem Hs. destruct (i_sems0 s sem Hs). by split.
Qed.
Lemma set_space_good k th sp : good k -> running k th ->
  good (set_thread k (currentThread k) (set_space th sp)).
Proof.
  intros [Hi Hn] [Ha Hr Hw]. pose proof (running_program k th Hi (Build_running _ _ Ha Hr Hw)) as Hp.
  destruct (program_waits _ _ (set_space th sp) Hp) as [Hw' Hsl].
  pose proof (queues_refl k Hi) as Hq. pose proof (locks_refl (locks k)) as Hl. pose proof (program_shape _ _ _ Hp) as Hsh.
  assert (is_Some (waits_on (set_space th sp)) -> level k = IntOff) as Hlv by (rewrite Hw'; by intros []).
  change (good (update k (level k) (set_space th sp) (sems k) (locks k))). split.
  - by apply (advance_inv k (level k) th).
  - apply (advance_wakeup k (level k) th); try done. intros s a b Hs Hs' _. assert (a = b) as -> by congruence.
    unfold units. rewrite Hw', Hw. lia.
Qed.

(** ** Every step *)

(** The one way to go wrong: the thread releases a lock it does not hold. *)
Definition misused (k : kernel) : Prop :=
  exists th l lk r, alive k (currentThread k) th /\ code th = Call_Release l :: r /\
    locks k !! l = Some lk /\ lockHolder lk <> Some (currentThread k).

(** Devices signal semaphores that exist. *)
Definition valid (k : kernel) (e : event) : Prop :=
  match e with Device s => (s < length (sems k))%nat | _ => True end.

(** Where the current thread is. *)
Lemma current_cases k : inv k -> exists th, alive k (currentThread k) th /\
  (running k th \/ (exists s old r, status th = RUNNING /\ code th = Wait_P s old :: r) \/
   (exists fin r, code th = In_Sleep fin :: r)).
Proof.
  intros Hi. destruct (i_current _ Hi) as (th & Ha & Hst & _). exists th. split; [done |].
  destruct (i_threads _ Hi _ _ Ha) as [_ _ Hrun _ _ _ _ _ _]. unfold sleeping in Hst, Hrun.
  destruct (code th) as [| i r] eqn:Hc.
  - left. split; [done | by destruct Hst | unfold waits_on; by rewrite Hc].
  - destruct i; try (left; split; [done | by destruct Hst | unfold waits_on; by rewrite Hc]); right.
    + left. destruct Hst; [| done]. by eauto.
    + right. by eauto.
Qed.

Lemma exec_sleep fresh k th fin r :
  inv k -> alive k (currentThread k) th -> code th = In_Sleep fin :: r ->
  exec fresh k = match readyList k with [] => None | n :: l => Some (Run (give k (set_code th r) l) n fin) end.
Proof.
  intros Hi Ha Hc. unfold exec. rewrite Ha, Hc. destruct (readyList k) as [| n l] eqn:Hl; [done |]. f_equal.
  unfold FindNextToRun. cbn [set_thread with_threads level readyList tail]. rewrite Hl.
  assert (level k = IntOff) as Hlv.
  { destruct (i_current _ Hi) as (th1 & Ha1 & _ & Hlv). pose proof (alive_fun _ _ _ _ Ha Ha1) as <-. apply Hlv.
    right. unfold sleeping. by rewrite Hc. }
  rewrite bool_decide_true by done. cbn [ASSERT ListSpec.RemoveFront mbind res_bind deref].
  f_equal. unfold give, with_ready, set_thread, with_threads. cbn. by rewrite Hlv.
Qed.

Lemma running_on k th : inv k -> level k = IntOn -> alive k (currentThread k) th -> running k th.
Proof.
  intros Hi Hlv Ha. destruct (current_cases k Hi) as (th0 & Ha0 & Hcase). pose proof (alive_fun _ _ _ _ Ha Ha0) as <-.
  destruct (i_current _ Hi) as (th1 & Ha1 & _ & Hl). pose proof (alive_fun _ _ _ _ Ha Ha1) as <-.
  destruct Hcase as [? | [(s & old & c & _ & Hc) | (fin & c & Hc)]]; [done | |];
    rewrite Hl in Hlv; try done; unfold waits_on, sleeping; rewrite Hc; [left; by eauto | by right].
Qed.

(** A call of a running thread. *)
Definition fine (k : kernel) (r : res kernel) : Prop :=
  (exists k', r = Ok k' /\ good k') \/ (r = Fault AssertFailure /\ misused k).

Lemma Release_fine k th l : good k -> running k th -> (l < length (locks k))%nat ->
  (exists k', Release k l = Ok k' /\ good k') \/
  (Release k l = Fault AssertFailure /\ exists lk, locks k !! l = Some lk /\ lockHolder lk <> Some (currentThread k)).
Proof.
  intros Hg Hr Hl. unfold Release. destruct (lookup_lt_is_Some_2 _ _ Hl) as [lk Hlk]. rewrite Hlk. cbn [deref mbind res_bind].
  destruct (decide (lockHolder lk = Some (currentThread k))) as [Hh | Hh]; [left | right].
  - rewrite bool_decide_true by done. cbn [ASSERT mbind res_bind].
    destruct (set_holder_good k th Hg Hr l None Hl) as (k' & -> & Hg' & _ & Hss). cbn [mbind res_bind].
    apply V_good; [done |]. rewrite Hss. by apply (i_locks _ (proj1 Hg) l).
  - rewrite bool_decide_false by done. split; [done |]. by exists lk.
Qed.

Lemma exec_running fresh k th r :
  length fresh = 40%nat -> good k -> running k th -> exec fresh k = Some r -> fine k r.
Proof.
  intros Hf Hg Hr. unfold exec. rewrite (rn_alive _ _ Hr). destruct (code th) as [| i c] eqn:Hc.
  { intros [= <-]. left. by apply (Finish_good k th). }
  destruct (pop_good k th Hg Hr i c Hc) as (Hg' & Hr' & Hpl). cbn [tail].
  set (k' := set_thread k (currentThread k) (set_code th c)) in *.
  assert (length (sems k') = length (sems k) /\ length (locks k') = length (locks k)) as [Hls Hll] by done.
  destruct i; cbn [plain] in Hpl; try discriminate; try apply bool_decide_eq_true in Hpl; intros [= <-].
  - left. by apply (P_good k' _ Hg' Hr').
  - left. by apply V_good.
  - left. by apply (Yield_good k' _ Hg' Hr').
  - left. eexists. split; [done |]. by apply (set_level_good k' _ Hg' Hr').
  - left. rewrite (Fork_forked fresh k' _ body Hg' Hr' Hf Hpl). eexists. split; [done |].
    by apply (forked_good fresh k' _ body Hg' Hr').
  - left. by apply (Finish_good k' _ Hg' Hr').
  - left. by apply (Acquire_good k' _ Hg' Hr').
  - left. destruct (set_holder_good k' _ Hg' Hr' l (Some (currentThread k')) Hpl) as (k2 & ? & ? & _). by exists k2.
  - destruct (Release_fine k' _ l Hg' Hr' Hpl) as [? | (HR & lk & Hlk & Hh)]; [by left | right].
    split; [done |]. exists th, l, lk, c. split_and!; [apply Hr | done | done | done].
  - left. eexists. split; [done |]. by apply (set_space_good k' (set_code th c)).
Qed.

Lemma step_fine fresh k e r :
  length fresh = 40%nat -> good k -> valid k e -> step fresh k e = Some r -> fine k r.
Proof.
  intros Hf Hg Hv. pose proof Hg as [Hi _]. destruct (current_cases k Hi) as (th & Ha & Hcase).
  destruct e as [| | s | m]; cbn [step].
  - destruct Hcase as [Hr | [(s & old & c & Hst & Hc) | (fin & c & Hc)]].
    + by apply (exec_running fresh k th).
    + unfold exec. rewrite Ha, Hc. intros [= <-]. left. by apply (P_loop_good k th s old c).
    + rewrite (exec_sleep fresh k th fin c Hi Ha Hc). destruct (readyList k) as [| n l] eqn:Hl; [done |].
      intros [= <-]. left. by apply (wake_up_good k th).
  - destruct (decide (level k = IntOn)) as [Hlv |]; [| done]. intros [= <-]. left. apply (Yield_good k th); [done | by apply running_on].
  - destruct (_ || _); [| done]. intros [= <-]. left. by apply V_good.
  - case_decide as Hm; [| done]. intros [= <-]. left. eexists. split; [done |]. apply machine_good; [| done].
    destruct Hm as [_ ->]. by destruct Hi.
Qed.

(** The states the kernel goes through. *)
Inductive reaches (fresh : list Z) (k0 : kernel) : kernel -> Prop :=
  | reaches_refl : reaches fresh k0 k0
  | reaches_step k e k' : reaches fresh k0 k -> valid k e -> step fresh k e = Some (Ok k') -> reaches fresh k0 k'.

Lemma reaches_good fresh k0 k : length fresh = 40%nat -> good k0 -> reaches fresh k0 k -> good k.
Proof.
  intros Hf H0. induction 1 as [| k e k' _ IH Hv Hst]; [done |].
  destruct (step_fine fresh k e _ Hf IH Hv Hst) as [(k2 & [= <-] & ?) | [? _]]; done.
Qed.

(** *** The user state of the other threads *)

Definition user_same (th th' : Thread) : Prop := userRegisters th' = userRegisters th /\ space th' = space th.

Lemma user_same_trans a b c : user_same a b -> user_same b c -> user_same a c.
Proof. unfold user_same. intuition congruence. Qed.

(** A step without a switch: the other threads keep their user state. *)
Record stays (k k' : kernel) : Prop := {
  sy_current : currentThread k' = currentThread k;
  sy_others t th : t <> currentThread k -> alive k t th -> exists th', alive k' t th' /\ user_same th th';
}.

Lemma stays_trans k1 k2 k3 : stays k1 k2 -> stays k2 k3 -> stays k1 k3.
Proof.
  intros [Hc1 H1] [Hc2 H2]. split; [congruence |]. intros t th Hne Ha.
  destruct (H1 t th Hne Ha) as (th' & Ha' & Hu). destruct (H2 t th') as (th2 & ? & ?); [congruence | done |].
  exists th2. split; [done | by eapply user_same_trans].
Qed.

Lemma stays_eq k k' : currentThread k' = currentThread k -> threads k' = threads k -> stays k k'.
Proof. intros Hc Ht. split; [done |]. intros t th _. unfold alive. rewrite Ht. by exists th. Qed.

(** Only the current thread is touched. *)
Lemma stays_set k k' th :
  currentThread k' = currentThread k -> threads k' = <[currentThread k := Some th]> (threads k) -> stays k k'.
Proof.
  intros Hc Ht. split; [done |]. intros t u Hne Ha. exists u. split; [| done].
  unfold alive. by rewrite Ht, list_lookup_insert_ne by done.
Qed.

Lemma V_stays k s k' : inv k -> (s < length (sems k))%nat -> V k s = Ok k' -> stays k k'.
Proof.
  intros Hi [sem Hs]%lookup_lt_is_Some_2 HV.
  destruct (V_cases k s sem Hi Hs) as [(_ & E) | (t & q & th & _ & Ha & _ & _ & E)]; rewrite E in HV; injection HV as <-.
  - by apply stays_eq.
  - split; [done |]. intros u w _ Hw. unfold alive. cbn. destruct (decide (u = t)) as [-> | Hne].
    + pose proof (alive_fun _ _ _ _ Ha Hw) as ->. rewrite list_lookup_insert_eq by (by eapply alive_lt). by eexists.
    + rewrite list_lookup_insert_ne by done. by exists w.
Qed.

Lemma push_stays k is_ k' : push k is_ = Ok k' -> stays k k'.
Proof. unfold push. intros H. inv_ok. by eapply stays_set. Qed.

Lemma Sleep_stays k fin k' : Sleep k fin = Ok k' -> stays k k'.
Proof. unfold Sleep. intros H. inv_ok. by eapply stays_set. Qed.

Lemma set_holder_stays k l h k' : set_holder k l h = Ok k' -> stays k k'.
Proof. unfold set_holder. intros H. inv_ok. by apply stays_eq. Qed.

Lemma Release_stays k th l k' : good k -> running k th -> (l < length (locks k))%nat -> Release k l = Ok k' -> stays k k'.
Proof.
  intros Hg Hr Hl. unfold Release. destruct (lookup_lt_is_Some_2 _ _ Hl) as [lk Hlk]. rewrite Hlk. cbn [deref mbind res_bind].
  destruct (ASSERT _); [| done]. cbn [mbind res_bind].
  destruct (set_holder_good k th Hg Hr l None Hl) as (k1 & E & [Hi1 _] & _ & Hss). rewrite E. cbn [mbind res_bind].
  intros HV. eapply stays_trans; [by eapply set_holder_stays |]. eapply V_stays; [done | | done].
  rewrite Hss. by apply (i_locks _ (proj1 Hg) l).
Qed.

(** How the current thread gives the processor away. *)
Definition gives (k k' : kernel) : Prop :=
  exists th th' l n fin, alive k (currentThread k) th /\ user_same th th' /\
    switching (give k th' l) n fin /\ Run (give k th' l) n fin = Ok k'.

Lemma Yield_cases k th k' : inv k -> running k th -> Yield k = Ok k' -> stays k k' \/ gives k k'.
Proof.
  intros Hi Hr HY. destruct (readyList k) as [| n l] eqn:Hl.
  - rewrite Yield_alone in HY by done. injection HY as <-. left. by apply stays_eq.
  - right. rewrite (Yield_gives k th n l) in HY by done. exists th, (yielded k th), (l ++ [currentThread k]), n, false.
    split_and!; [apply Hr | done | by apply Yield_switching | done].
Qed.

Lemma exec_cases fresh k th k' :
  good k -> running k th -> exec fresh k = Some (Ok k') -> stays k k' \/ gives k k'.
Proof.
  intros Hg Hr. pose proof (rn_alive _ _ Hr) as Ha. unfold exec. rewrite Ha. destruct (code th) as [| i c] eqn:Hc.
  { intros [= H]. left. eapply stays_trans; [| by eapply Sleep_stays]. by apply stays_eq. }
  destruct (pop_good k th Hg Hr i c Hc) as (Hg' & Hr' & Hpl). cbn [tail].
  set (k1 := set_thread k (currentThread k) (set_code th c)) in *.
  assert (stays k k1) as Hk1 by (by eapply stays_set).
  destruct i; cbn [plain] in Hpl; try discriminate; try apply bool_decide_eq_true in Hpl; intros [= H].
  - left. eapply stays_trans; [done |]. unfold P in H. eapply stays_trans; [| by eapply push_stays]. by apply stays_eq.
  - left. eapply stays_trans; [done |]. eapply V_stays; [apply Hg' | done | done].
  - destruct (Yield_cases k1 _ k' (proj1 Hg') Hr' H) as [? | (u & u' & l & n & fin & Hu & Hus & Hsw & HR)].
    + left. by eapply stays_trans.
    + right. exists th, u', l, n, fin. pose proof (alive_fun _ _ _ _ Hu (rn_alive _ _ Hr')) as ->.
      assert (give k1 u' l = give k u' l) as E by (unfold give, k1; cbn; by rewrite list_insert_insert_eq).
      rewrite <- E. split_and!; [done | done | done | done].
  - subst k'. left. eapply stays_trans; [done |]. by apply stays_eq.
  - left. eapply stays_trans; [done |]. unfold Fork, ReadyToRun in H. set (t0 := mkThread _ _ _ _ _ _) in H. inv_ok.
    split; [done |]. intros t w _ Hw. exists w. split; [| done]. pose proof (alive_lt _ _ _ Hw).
    assert (t <> length (threads k1)) by lia. unfold alive. cbn. rewrite list_lookup_insert_ne by (intros E'; by subst t). by rewrite lookup_app_l by done.
  - left. eapply stays_trans; [done |]. eapply stays_trans; [| by eapply Sleep_stays]. by apply stays_eq.
  - left. eapply stays_trans; [done |]. unfold Acquire in H. inv_ok. by eapply push_stays.
  - left. eapply stays_trans; [done |]. by eapply set_holder_stays.
  - left. eapply stays_trans; [done |]. by apply (Release_stays k1 _ l k' Hg' Hr').
  - subst k'. left. eapply stays_trans; [done |]. by eapply stays_set.
Qed.

Lemma step_cases fresh k e k' :
  good k -> valid k e -> step fresh k e = Some (Ok k') -> stays k k' \/ gives k k'.
Proof.
  intros Hg Hv. pose proof Hg as [Hi _]. destruct (current_cases k Hi) as (th & Ha & Hcase).
  destruct e as [| | s | m]; cbn [step].
  - destruct Hcase as [Hr | [(s & old & c & Hst & Hc) | (fin & c & Hc)]].
    + by apply (exec_cases fresh k th).
    + unfold exec. rewrite Ha, Hc. intros [= H]. left.
      destruct (P_loop_cases k th s old c Hg Ha Hst Hc) as (sem & _ & [(_ & E) | (_ & E)]);
        unfold popped in E; cbn [tail] in H; rewrite E in H; injection H as <-; by eapply stays_set.
    + rewrite (exec_sleep fresh k th fin c Hi Ha Hc). destruct (readyList k) as [| n l] eqn:Hl; [done |]. intros [= H]. right.
      exists th, (set_code th c), l, n, fin. split_and!; [done | done | by apply wake_up_switching | done].
  - destruct (decide (level k = IntOn)) as [Hlv |]; [| done]. intros [= H].
    apply (Yield_cases k th); [done | by apply running_on | done].
  - destruct (_ || _); [| done]. intros [= H]. left. by eapply V_stays.
  - case_decide; [| done]. intros [= <-]. left. by apply stays_eq.
Qed.

(** *** A switch away and back *)

(** The thread that gives the processor away, and the one that gets it. *)
Lemma gives_other k k' : inv k -> gives k k' -> currentThread k' <> currentThread k ->
  exists th nth, alive k (currentThread k) th /\ alive k (currentThread k') nth /\
    machine k' = loaded (machine k) nth /\
    (forall th', alive k' (currentThread k) th' -> user_same (saved (machine k) th) th') /\
    (forall t u, t <> currentThread k -> t <> currentThread k' -> alive k t u -> alive k' t u).
Proof.
  intros Hi (th & th' & l & n & fin & Ha & Hus & Hsw & HR) Hne.
  assert (forall t u, t <> currentThread k -> alive (give k th' l) t u <-> alive k t u) as Hga.
  { intros t u Ht. unfold alive, give. cbn. by rewrite list_lookup_insert_ne. }
  assert (currentThread k' = n) as Hn.
  { destruct (Run_switches _ _ _ Hsw) as (k2 & HR2 & Hst). rewrite HR in HR2. injection HR2 as <-. apply Hst. }
  rewrite Hn in Hne |- *. destruct (sw_alive _ _ _ Hsw n ltac:(by left)) as [nth Hnth].
  assert (alive (give k th' l) (currentThread k) th') as Hg
    by (unfold alive; cbn; rewrite list_lookup_insert_eq; [done | by eapply alive_lt]).
  destruct (sw_threads _ _ _ Hsw _ _ Hg) as (_ & _ & _ & _ & _ & Hu & Hs & _).
  destruct (sw_threads _ _ _ Hsw _ _ Hnth) as (_ & _ & _ & _ & _ & Hun & Hsn & _).
  rewrite (Run_other (give k th' l) n fin th' nth) in HR by (try done; by destruct Hsw). injection HR as <-.
  exists th, nth. cbn [give machine threads currentThread]. split_and!; [done | by apply Hga | done | |].
  - intros w. unfold alive. cbn. rewrite list_lookup_insert_eq by (rewrite !length_insert; by eapply alive_lt).
    destruct fin; [done |]. intros [= <-]. destruct Hus as [Hu1 Hu2]. unfold saved, user_same. rewrite Hu2. destruct (space th) eqn:E; cbn; split; congruence.
  - intros t u Ht1 Ht2 Hu0. unfold alive. cbn. by rewrite !list_lookup_insert_ne by done.
Qed.

(** A thread that gives the processor to itself disturbs nobody. *)
Lemma gives_self k k' : gives k k' -> currentThread k' = currentThread k ->
  forall t u, t <> currentThread k -> alive k t u -> exists u', alive k' t u' /\ user_same u u'.
Proof.
  intros (th & th' & l & n & fin & Ha & _ & Hsw & HR) Hc t u Ht Hu.
  destruct (Run_switches _ _ _ Hsw) as (k2 & HR2 & Hst). rewrite HR in HR2. injection HR2 as <-.
  rewrite (st_current _ _ _ _ Hst) in Hc.
  assert (alive (give k th' l) (currentThread k) th') as Hg
    by (unfold alive; cbn; rewrite list_lookup_insert_eq; [done | by eapply alive_lt]).
  destruct (sw_threads _ _ _ Hsw _ _ Hg) as (_ & _ & Hr & _ & _ & Hur & Hs & _).
  destruct fin.
  { destruct (sw_current _ _ _ Hsw) as (w & Hw & Hf). destruct (Hf eq_refl) as [Hb _].
    pose proof (alive_fun _ _ _ _ Hg Hw) as ->. assert (status w = READY); [| congruence].
    apply Hr. rewrite Hc. by left. }
  change (currentThread k) with (currentThread (give k th' l)) in Hc.
  rewrite Hc, (Run_self (give k th' l) th') in HR by (try done; by destruct Hsw). injection HR as <-.
  exists u. split; [| done]. unfold alive. cbn. by rewrite !list_lookup_insert_ne by done.
Qed.

(** Steps during which [t] does not have the processor. *)
Inductive away (fresh : list Z) (t : nat) : kernel -> kernel -> Prop :=
  | away_refl k : currentThread k <> t -> away fresh t k k
  | away_step k1 k2 e k3 : away fresh t k1 k2 -> valid k2 e -> step fresh k2 e = Some (Ok k3) ->
      currentThread k3 <> t -> away fresh t k1 k3.

Lemma away_keeps fresh t k k' th :
  length fresh = 40%nat -> good k -> away fresh t k k' -> alive k t th ->
  good k' /\ currentThread k' <> t /\ exists th', alive k' t th' /\ user_same th th'.
Proof.
  intros Hf Hg Haw Ha. induction Haw as [k Hc | k1 k2 e k3 Haw IH Hv Hst Hc].
  { split_and!; [done | done |]. by exists th. }
  destruct (IH Hg Ha) as (Hg2 & Hc2 & th2 & Ha2 & Hu2). pose proof (proj1 Hg2) as Hi2.
  destruct (step_fine fresh k2 e _ Hf Hg2 Hv Hst) as [(k4 & [= <-] & Hg3) | [? _]]; [| done].
  split_and!; [done | done |].
  assert (stays k2 k3 \/ gives k2 k3) as [[_ Ho] | Hgv] by (by eapply step_cases).
  - destruct (Ho t th2) as (th3 & ? & ?); [congruence | done |]. exists th3. split; [done | by eapply user_same_trans].
  - destruct (decide (currentThread k3 = currentThread k2)) as [Hs | Hs].
    + destruct (gives_self k2 k3 Hgv Hs t th2) as (th3 & ? & ?); [congruence | done |].
      exists th3. split; [done | by eapply user_same_trans].
    + destruct (gives_other k2 k3 Hi2 Hgv Hs) as (_ & _ & _ & _ & _ & _ & Hoth). exists th2. split; [| done].
      apply Hoth; [congruence | congruence | done].
Qed.

(** *** Idling *)

Lemma idle_state fresh k : inv k -> exec fresh k = None ->
  readyList k = [] /\ forall t th, alive k t th -> status th = BLOCKED.
Proof.
  intros Hi Hx. destruct (current_cases k Hi) as (c & Hc & Hcase).
  assert (readyList k = [] /\ sleeping c = true) as [Hl Hsl].
  { unfold sleeping. destruct Hcase as [[_ Hst Hw] | [(s & old & r & Hst & Hcc) | (fin & r & Hcc)]].
    - unfold exec in Hx. rewrite Hc in Hx. destruct (i_threads _ Hi _ _ Hc) as [_ _ Hrun _ _ _ _ _ _].
      destruct (Hrun Hst) as [_ Hsl]. unfold sleeping in Hsl. by destruct (code c) as [| []].
    - unfold exec in Hx. by rewrite Hc, Hcc in Hx.
    - rewrite (exec_sleep fresh k c fin r Hi Hc Hcc) in Hx. rewrite Hcc. by destruct (readyList k). }
  split; [done |]. intros t th Ha. destruct (i_threads _ Hi _ _ Ha) as [Hj Hr Hrun _ _ _ _ _ _].
  rewrite Hl, elem_of_nil in Hr. destruct (status th) eqn:E; [done | | tauto | done].
  destruct (Hrun eq_refl) as [-> Hsl']. pose proof (alive_fun _ _ _ _ Ha Hc) as ->. congruence.
Qed.

Lemma idle_woken k s : (forall t th, alive k t th -> status th = BLOCKED) -> woken k s = 0%nat.
Proof.
  intros Hall. unfold woken. destruct (filter (woken_on s) (threads k)) as [| o l] eqn:E; [done |].
  assert (o ∈ filter (woken_on s) (threads k)) as [Ho [t Ht]%list_elem_of_lookup]%list_elem_of_filter
    by (rewrite E; by left).
  destruct o as [th |]; [| done]. destruct Ho as [_ Hb]. by destruct Hb; apply (Hall t).
Qed.

Lemma asleep_finishing k t th : inv k -> alive k t th -> waits_on th = None -> sleeping th = true ->
  exists r, code th = In_Sleep true :: r.
Proof.
  intros Hi Ha Hw Hsl. pose proof (ti_shape _ _ _ (i_threads _ Hi _ _ Ha)) as Hsh.
  unfold waits_on in Hw. unfold sleeping in Hsl. destruct (code th) as [| i r]; [done |].
  destruct i as [| | | | | fin | | | | | |]; try done. exists r. destruct fin; [done |].
  cbn in Hsh. destruct r as [| [] r]; try done; by apply Forall_cons in Hsh as [? _].
Qed.

(** A kernel that starts. *)
Record starts (fresh : list Z) (m : Machine.t) (prog : list instr) (ss : list Semaphore) (ls : list Lock) : Prop := {
  so_fresh : length fresh = 40%nat;
  so_machine : length (registers m) = 40%nat;
  so_program : program (length ss) (length ls) prog;
  so_sems : Forall (fun sem => 0 <= value sem /\ queue sem = []) ss;
  so_locks : Forall (fun lk => (semaphore lk < length ss)%nat /\ lockHolder lk = None) ls;
}.

Lemma Initialize_good fresh m prog ss ls : starts fresh m prog ss ls -> good (Initialize fresh m prog ss ls).
Proof.
  intros [Hf Hm Hp Hs Hl].
  assert (forall t th, alive (Initialize fresh m prog ss ls) t th -> t = 0%nat /\
    th = mkThread true None RUNNING fresh None prog) as Hth by (intros [| t] th; cbn; by intros [= <-]).
  destruct (program_waits _ _ (mkThread true None RUNNING fresh None prog) Hp) as [Hw Hsl].
  assert (forall s sem, ss !! s = Some sem -> 0 <= value sem /\ queue sem = []) as Hss
    by (intros; by eapply (proj1 (Forall_lookup _ _) Hs)).
  split; [split | ]; cbn.
  - constructor.
  - by intros t ?%elem_of_nil.
  - intros t th [-> ->]%Hth. split; try done; try (by rewrite Hsl); try (by apply program_shape); [| by left].
    split; [done | by intros ?%elem_of_nil].
  - intros s sem [? Hq]%Hss. split; rewrite ?Hq; [done | constructor | by intros t ?%elem_of_nil].
  - eexists. split_and!; [done | by left |]. rewrite Hw, Hsl. by intros [[] | ?].
  - done.
  - done.
  - intros l lk Hlk. by apply (proj1 (Forall_lookup _ _) Hl) in Hlk as [? _].
  - intros s sem [_ Hq]%Hss. by rewrite Hq.
Qed.
(** C1: the scheduler never fails.  Whatever the threads of a program do (fork,
    yield, wait, signal, lock, finish), however time slices, devices and user code
    interleave with them, a step of the kernel returns: no assertion of [Run],
    [ReadyToRun], [Sleep], [Append] or the thread destructor fails and no deleted
    thread is used, and the state is well formed: the ready list holds the READY
    threads, each once, a BLOCKED thread is in the queue of what it waits for, and
    exactly the current thread runs.  The one exception is the assertion of
    [Lock::Release], for a thread that does not hold the lock. *)
Theorem scheduler_safe fresh m prog ss ls k e r :
  starts fresh m prog ss ls -> reaches fresh (Initialize fresh m prog ss ls) k ->
  valid k e -> step fresh k e = Some r ->
  inv k /\ ((exists k', r = Ok k' /\ inv k') \/ (r = Fault AssertFailure /\ misused k)).
Proof.
  intros Hs Hr Hv Hst. pose proof (so_fresh _ _ _ _ _ Hs) as Hf.
  assert (good k) as Hg by (eapply reaches_good; [done | by apply Initialize_good | done]).
  split; [apply Hg |]. destruct (step_fine fresh k e r Hf Hg Hv Hst) as [(k' & ? & [? _]) | ?]; eauto.
Qed.

(** C2: no wakeup is lost.  The processor idles only when there is nothing to run:
    when the current thread waits in [Sleep] and nobody is ready, every thread is
    in the queue of a semaphore whose value is zero, or is the current thread on
    its way out. *)
Theorem idle_only_when_blocked fresh m prog ss ls k t th :
  starts fresh m prog ss ls -> reaches fresh (Initialize fresh m prog ss ls) k ->
  exec fresh k = None -> alive k t th ->
  status th = BLOCKED /\
  ((exists s sem, waits_on th = Some s /\ sems k !! s = Some sem /\ t ∈ queue sem /\ value sem = 0) \/
   (t = currentThread k /\ exists r, code th = In_Sleep true :: r)).
Proof.
  intros Hs Hr Hidle Ha. pose proof (so_fresh _ _ _ _ _ Hs) as Hf.
  assert (good k) as [Hi Hn] by (eapply reaches_good; [done | by apply Initialize_good | done]).
  destruct (idle_state fresh k Hi Hidle) as (Hl & Hall). split; [by eapply Hall |].
  destruct (i_threads _ Hi _ _ Ha) as [_ _ _ Hb _ _ Hsh _ _]. specialize (Hb (Hall _ _ Ha)).
  destruct (waits_on th) as [s |] eqn:Hw.
  - left. destruct Hb as (sem & Hsem & Hin). exists s, sem. split_and!; [done | done | done |].
    assert (value sem <= Z.of_nat (woken k s)) as Hle by (apply Hn; [done | by intros E; rewrite E in Hin; apply elem_of_nil in Hin]).
    rewrite (idle_woken k s) in Hle by done. pose proof (si_value _ _ _ (i_sems _ Hi _ _ Hsem)). lia.
  - right. destruct Hb as [-> Hsl]. split; [done |]. by apply (asleep_finishing k (currentThread k)).
Qed.

(** C3: a user program does not notice that it was switched out.  When a thread with
    an address space gives the processor away (by yielding, a time slice, or
    waiting), other threads run for as long as they like, and the thread gets the
    processor back, then every register of the machine has the value it had, and
    the machine translates with the thread's own page table again; the memory is as
    the others left it. *)
Theorem user_state_survives fresh m prog ss ls k e k1 k2 e' k3 th th1 sp :
  starts fresh m prog ss ls -> reaches fresh (Initialize fresh m prog ss ls) k ->
  alive k (currentThread k) th -> space th = Some sp ->
  valid k e -> step fresh k e = Some (Ok k1) -> alive k1 (currentThread k) th1 ->
  away fresh (currentThread k) k1 k2 ->
  valid k2 e' -> step fresh k2 e' = Some (Ok k3) -> currentThread k3 = currentThread k ->
  machine k3 = AddrSpace.RestoreState sp (with_registers (machine k2) (registers (machine k))).
Proof.
  intros Hs Hr Ha Hsp Hv Hst Ha1 Haw Hv2 Hst2 Hc. pose proof (so_fresh _ _ _ _ _ Hs) as Hf.
  assert (good k) as Hg by (eapply reaches_good; [done | by apply Initialize_good | done]).
  assert (good k1) as Hg1.
  { destruct (step_fine fresh k e _ Hf Hg Hv Hst) as [(k4 & [= <-] & ?) | [? _]]; done. }
  assert (currentThread k1 <> currentThread k) as Hc1 by (clear -Haw; by induction Haw).
  destruct (away_keeps fresh _ k1 k2 th1 Hf Hg1 Haw Ha1) as (Hg2 & Hc2 & th2 & Ha2 & Hu2).
  destruct (step_cases fresh k e k1 Hg Hv Hst) as [[? _] | Hgv]; [done |].
  destruct (gives_other k k1 (proj1 Hg) Hgv Hc1) as (th0 & _ & Ha0 & _ & _ & Hsv & _).
  pose proof (alive_fun _ _ _ _ Ha Ha0) as <-. specialize (Hsv th1 Ha1).
  destruct (step_cases fresh k2 e' k3 Hg2 Hv2 Hst2) as [[? _] | Hgv2]; [congruence |].
  destruct (gives_other k2 k3 (proj1 Hg2) Hgv2 ltac:(congruence)) as (_ & nth & _ & Hn & -> & _).
  rewrite Hc in Hn. pose proof (alive_fun _ _ _ _ Hn Ha2) as ->. destruct (user_same_trans _ _ _ Hsv Hu2) as [Hreg Hspc].
  unfold saved in Hreg, Hspc. rewrite Hsp in Hreg, Hspc. unfold loaded. rewrite Hspc. cbn [set_registers space userRegisters] in *.
  by rewrite Hsp, Hreg.
Qed.
End Sched.

(** ** A run of two threads *)
Module SchedDemo.
Import Machine Interrupt Threads Sched.

(** The main thread forks a second one, becomes a user program and waits for a
    semaphore that the second one signals. *)
Definition fresh : list Z := replicate 40 7.
Definition m0 : Machine.t := Machine.mk (replicate 40 0) [] None None 0.
Definition m1 : Machine.t := Machine.mk (seqZ 1 40) [] None None 0.
Definition sp : AddrSpace.t := AddrSpace.mk (Some []) 0.
Definition prog : list instr := [Call_Fork [Call_V 0; Call_Yield]; Set_Space sp; Call_P 0; Call_Release 0].
Definition ss : list Semaphore := [new_Semaphore 0; new_Semaphore 1].
Definition ls : list Lock := [new_Lock 1].

Definition run (k : kernel) (es : list event) : option kernel :=
  foldl (fun o e => k ← o; match step fresh k e with Some (Ok k') => Some k' | _ => None end) (Some k) es.

Lemma starts_demo : starts fresh m0 prog ss ls.
Proof.
  split; [done | done | | |]; repeat (apply Forall_cons; split); try apply Forall_nil; cbn; try done;
    split; try done; lia.
Qed.

Lemma run_none es : foldl (fun o e => k ← o; match step fresh k e with Some (Ok k') => Some k' | _ => None end) None es = None.
Proof. by induction es. Qed.

Lemma run_reaches k0 k es k' :
  Forall (fun e => match e with Device _ => False | _ => True end) es -> reaches fresh k0 k -> run k es = Some k' ->
  reaches fresh k0 k'.
Proof.
  revert k. induction es as [| e es IH]; intros k Hes Hr Hrun; [by injection Hrun as <- |].
  apply Forall_cons in Hes as [He Hes]. unfold run in Hrun. simpl in Hrun.
  destruct (step fresh k e) as [[k2 |] |] eqn:Hs; [| by rewrite run_none in Hrun ..].
  apply (IH k2); [done | | done]. eapply reaches_step; [done | | done]. by destruct e.
Qed.

Definition k0 : kernel := Initialize fresh m0 prog ss ls.
(** Up to [P], where the main thread has to wait; the second thread runs and signals. *)
Definition k_wait : kernel := Eval vm_compute in default k0 (run k0 [Exec; Exec; User m1; Exec; Exec]).
Definition k_away : kernel := Eval vm_compute in default k0 (run k_wait [Exec]).
Definition k_signalled : kernel := Eval vm_compute in default k0 (run k_away [Exec; Exec]).
Definition k_back : kernel := Eval vm_compute in default k0 (run k_signalled [Exec]).

Lemma reaches_wait : reaches fresh k0 k_wait.
Proof. apply (run_reaches k0 k0 [Exec; Exec; User m1; Exec; Exec]); [by repeat constructor | constructor | by vm_compute]. Qed.

Lemma scheduler_safe_witness :
  exists k, reaches fresh k0 k /\ inv k /\ currentThread k = 1%nat /\
    (exists k', step fresh k TimeSlice = Some (Ok k') /\ inv k').
Proof.
  assert (reaches fresh k0 (default k0 (run k_away [Exec]))) as Hr
    by (eapply (run_reaches k0 k_wait [Exec; Exec]); [by repeat constructor | apply reaches_wait | by vm_compute]).
  set (k := default k0 (run k_away [Exec])) in *.
  destruct (step fresh k TimeSlice) as [r |] eqn:Hs; [| by vm_compute in Hs].
  destruct (scheduler_safe fresh m0 prog ss ls k TimeSlice r starts_demo Hr I Hs) as (Hi & Hc).
  exists k. split; [done |]. split; [done |]. split; [by vm_compute |].
  destruct Hc as [(k' & -> & Hi') | (-> & _)]; [by exists k' | by vm_compute in Hs].
Defined.

Lemma user_state_survives_witness :
  machine k_wait = m1 /\ machine k_back = AddrSpace.RestoreState sp (with_registers (machine k_signalled) (registers m1)).
Proof.
  split; [by vm_compute |].
  assert (away fresh 0 k_away k_signalled) as Haw.
  { eapply (away_step _ _ _ _ Exec); [eapply (away_step _ _ _ _ Exec); [by apply away_refl | done | by vm_compute | done] | done | by vm_compute | done]. }
  eapply (user_state_survives fresh m0 prog ss ls k_wait Exec k_away k_signalled Exec k_back);
    [apply starts_demo | apply reaches_wait | by vm_compute | done | done | by vm_compute | by vm_compute | exact Haw | done | by vm_compute | done].
Defined.

(** The main thread waits for a signal that does not come. *)
Definition k_stuck : kernel :=
  Eval vm_compute in default k0 (run (Initialize fresh m0 [Call_P 0] ss ls) [Exec; Exec]).

Lemma idle_only_when_blocked_witness :
  exec fresh k_stuck = None /\ exists th, alive k_stuck 0 th /\ status th = BLOCKED.
Proof.
  split; [by vm_compute |]. eexists. split; [by vm_compute |].
  apply (idle_only_when_blocked fresh m0 [Call_P 0] ss ls k_stuck 0); [| | by vm_compute | by vm_compute].
  - destruct starts_demo. split; [done | done | | done | done]. by repeat constructor.
  - eapply (run_reaches _ _ [Exec; Exec]); [by repeat constructor | constructor | by vm_compute].
Defined.

End SchedDemo.
