(* ===== verification/SelfTests.v ===== *)
(** * SelfTests: Thread::SelfTest of thread.cc and Semaphore::SelfTest of synch.cc

    The two tests that [Kernel::ThreadSelfTest] runs on threads, as programs for the
    kernel of Threads.v.  Whatever the clock does, a test goes through finitely
    many states; they are enumerated here, and what the test means to show is
    checked in each of them. *)

From S2P Require Import Prelude Machine Interrupt AddrSpace Threads Sched.

(** ** Enumerating what a system can reach *)
Module Explore.
Section explore.
Context {S E : Type} `{EqDecision S} (next : S -> E -> option (res S)) (events : list E).

(** The states and the faults that lie one event away. *)
Definition after (s : S) : list S := omap (fun e => match next s e with Some (Ok s') => Some s' | _ => None end) events.

Fixpoint explore (fuel : nat) (seen todo : list S) : list S :=
  match fuel with
  | O => seen
  | Datatypes.S fuel =>
      match todo with
      | [] => seen
      | s :: todo => if bool_decide (s ∈ seen) then explore fuel seen todo else explore fuel (s :: seen) (after s ++ todo)
      end
  end.

(** A list that no event leaves, where [good] holds and nothing fails. *)
Definition closed (good : S -> bool) (l : list S) : bool :=
  forallb (fun s => good s && forallb (fun e => match next s e with
    | None => true | Some (Ok s') => bool_decide (s' ∈ l) | Some (Fault _) => false end) events) l.

Inductive reached (s0 : S) : S -> Prop :=
  | reached_refl : reached s0 s0
  | reached_step s e s' : reached s0 s -> e ∈ events -> next s e = Some (Ok s') -> reached s0 s'.

Lemma closed_reached good l s0 s : closed good l = true -> s0 ∈ l -> reached s0 s ->
  good s = true /\ forall e r, e ∈ events -> next s e = Some r -> exists s', r = Ok s' /\ reached s0 s'.
Proof.
  unfold closed. rewrite forallb_forall. intros Hc H0 Hr.
  assert (forall s, s ∈ l -> good s = true /\ forall e r, e ∈ events -> next s e = Some r -> exists s', r = Ok s' /\ s' ∈ l) as Hl.
  { intros x Hx. apply list_elem_of_In, Hc, andb_true_iff in Hx as [Hg He]. split; [done |]. intros e r Hin Hn.
    rewrite forallb_forall in He. apply list_elem_of_In, He in Hin. rewrite Hn in Hin. destruct r as [x' |]; [| done].
    exists x'. split; [done | by apply bool_decide_eq_true in Hin]. }
  assert (s ∈ l) as Hs.
  { induction Hr as [| s e s' Hr IH He Hn]; [done |]. destruct (Hl s IH) as [_ Hx]. destruct (Hx e _ He Hn) as (x & [= <-] & ?). done. }
  destruct (Hl s Hs) as [Hg Hx]. split; [done |]. intros e r He Hn. destruct (Hx e r He Hn) as (s' & -> & _). exists s'. split; [done |].
  by eapply reached_step.
Qed.
End explore.
End Explore.

(** ** The tests *)
Module SelfTests.
Import Machine Interrupt Threads Sched Explore.

#[global] Instance space_eq_dec : EqDecision AddrSpace.t.
Proof. solve_decision. Defined.
#[global] Instance instr_eq_dec : EqDecision instr.
Proof.
  refine (fix go i j := let _ : EqDecision instr := @go in
    match i, j with
    | Call_P s, Call_P s' | Call_V s, Call_V s' | Call_Acquire s, Call_Acquire s' | Set_Holder s, Set_Holder s'
    | Call_Release s, Call_Release s' => cast_if (decide (s = s'))
    | Wait_P s l, Wait_P s' l' => cast_if_and (decide (s = s')) (decide (l = l'))
    | Call_Yield, Call_Yield | Call_Finish, Call_Finish => left eq_refl
    | Set_Level l, Set_Level l' => cast_if (decide (l = l'))
    | In_Sleep b, In_Sleep b' => cast_if (decide (b = b'))
    | Call_Fork c, Call_Fork c' => cast_if (decide (c = c'))
    | Set_Space p, Set_Space p' => cast_if (decide (p = p'))
    | _, _ => right _
    end); abstract congruence.
Defined.
(** What differs most often comes first. *)
#[global] Instance Thread_eq_dec : EqDecision Thread.
Proof.
  refine (fun a b => cast_if_and6 (decide (code a = code b)) (decide (status a = status b)) (decide (main a = main b))
    (decide (stack a = stack b)) (decide (space a = space b)) (decide (userRegisters a = userRegisters b)));
    abstract (destruct a, b; cbn in *; subst; try done; intros [=]; done).
Defined.
#[global] Instance Semaphore_eq_dec : EqDecision Semaphore.
Proof. solve_decision. Defined.
#[global] Instance Lock_eq_dec : EqDecision Lock.
Proof. solve_decision. Defined.
#[global] Instance Machine_eq_dec : EqDecision Machine.t.
Proof. solve_decision. Defined.
#[global] Instance kernel_eq_dec : EqDecision Threads.kernel.
Proof.
  refine (fun a b => if decide (currentThread a = currentThread b) then if decide (threads a = threads b) then
    cast_if_and6 (decide (readyList a = readyList b)) (decide (level a = level b)) (decide (sems a = sems b))
      (decide (toBeDestroyed a = toBeDestroyed b)) (decide (locks a = locks b)) (decide (machine a = machine b))
    else right _ else right _);
    abstract (destruct a, b; cbn in *; subst; try done; intros [=]; done).
Defined.

(** Without its output, a thread that yields five times. *)
Definition SimpleThread : list instr := replicate 5 Call_Yield.
Definition Thread_SelfTest : list instr := Call_Fork SimpleThread :: Call_Yield :: SimpleThread.

(** The semaphores [ping] and [this]: both exist and are 0 when the test starts, which
    is what its ASSERT asks for; that [ping] can be deleted at the end is in [over]. *)
Definition ping : nat := 0.
Definition pong : nat := 1.
Definition SelfTestHelper : list instr := concat (replicate 10 [Call_P ping; Call_V pong]).
Definition Semaphore_SelfTest : list instr := Call_Fork SelfTestHelper :: concat (replicate 10 [Call_V ping; Call_P pong]).

Definition fresh : list Z := replicate 40 0.
Definition start (p : list instr) : Threads.kernel :=
  Initialize fresh (Machine.mk fresh [] None None 0) p [new_Semaphore 0; new_Semaphore 0] [].

(** The values of both semaphores, and whether nobody waits for [ping]. *)
Definition at_most_one (k : Threads.kernel) : bool :=
  match sems k with [a; b] => (0 <=? value a) && (0 <=? value b) && (value a + value b <=? 1) | _ => false end.

(** The test is over: [ping] can be deleted, and both threads have ended. *)
Definition over (k : Threads.kernel) : bool :=
  match sems k with
  | [a; b] => (value a =? 0) && (value b =? 0) && bool_decide (queue a = []) && bool_decide (queue b = [])
  | _ => false
  end && match exec fresh k with None => true | _ => false end.

(** Left to itself, the kernel is idle after at most [n] calls, and then the test
    is over. *)
Fixpoint ends (n : nat) (k : Threads.kernel) : bool :=
  match exec fresh k with
  | None => over k
  | Some (Ok k') => match n with O => false | S n => ends n k' end
  | Some (Fault _) => false
  end.
Definition passing (k : Threads.kernel) : bool := at_most_one k && ends 300 k.

Definition clock : list event := [Exec; TimeSlice].
Definition states (p : list instr) : list Threads.kernel := explore (step fresh) clock 2000 [] [start p].
Definition covers (l : list Threads.kernel) (p : list instr) : bool :=
  closed (step fresh) clock passing l && bool_decide (start p ∈ l).

Lemma thread_test_passes : covers (states Thread_SelfTest) Thread_SelfTest = true.
Proof. vm_compute. reflexivity. Qed.
Lemma semaphore_test_passes : covers (states Semaphore_SelfTest) Semaphore_SelfTest = true.
Proof. vm_compute. reflexivity. Qed.

(** The tests pass under every timing of the clock: nothing fails, the semaphores
    never have more than one unit between them, so that the two threads take
    turns, and from every state the kernel goes on to the end of the test when the
    clock leaves it alone. *)
Theorem self_tests_pass p k : p = Thread_SelfTest \/ p = Semaphore_SelfTest -> reached (step fresh) clock (start p) k ->
  at_most_one k = true /\ ends 300 k = true /\
  forall e r, e ∈ clock -> step fresh k e = Some r -> exists k', r = Ok k' /\ reached (step fresh) clock (start p) k'.
Proof.
  intros Hp. assert (exists l, covers l p = true) as [l Hc].
  { destruct Hp as [-> | ->]; [exists (states Thread_SelfTest) | exists (states Semaphore_SelfTest)];
      [exact thread_test_passes | exact semaphore_test_passes]. }
  unfold covers in Hc. apply andb_true_iff in Hc as [Hc Hin%bool_decide_eq_true]. intros Hr.
  destruct (closed_reached _ _ passing l _ k Hc Hin Hr) as [Hg Hstep].
  apply andb_true_iff in Hg as [H1 H2]. exact (conj H1 (conj H2 Hstep)).
Qed.
End SelfTests.
