(* ===== verification/Switch.v ===== *)
(** * Switch: the context switch, threads/switch.S, switch.h and thread.cc
      [StackAllocate], for the x86

    SWITCH and ThreadRoot as the instructions they are, on a 32-bit machine whose
    memory is a map from the addresses of words; an address that is not mapped
    faults.  The C++ code of a thread is not interpreted here: it is any change of
    the machine that leaves the other threads' objects and stacks alone, and a
    call of it obeys the calling convention ([returns]).

    A thread that is not running is a [ctx]: the registers, the program counter
    and the memory it had.  [kernel_state_survives] says that SWITCH implements
    exactly this, for any number of threads, forks, deletions and switches;
    [forked_thread_runs] that a new thread runs ThreadBegin, its procedure on its
    argument, and ThreadFinish, which is what Threads.v starts a thread with.

    The addresses the linker and the assembler choose are parameters: [label b i]
    is where the instruction [i] of the block [b] is. *)

From S2P Require Import Prelude.

Module Switch.

(** ** The machine *)

Inductive reg : Set := eax | ebx | ecx | edx | esi | edi | ebp | esp.
#[global] Instance reg_eq_dec : EqDecision reg.
Proof. solve_decision. Defined.

Record regs : Set := mkRegs {
  r_eax : Z; r_ebx : Z; r_ecx : Z; r_edx : Z; r_esi : Z; r_edi : Z; r_ebp : Z; r_esp : Z;
}.

Definition get (r : reg) (s : regs) : Z :=
  match r with
  | eax => r_eax s | ebx => r_ebx s | ecx => r_ecx s | edx => r_edx s
  | esi => r_esi s | edi => r_edi s | ebp => r_ebp s | esp => r_esp s
  end.
Definition set (r : reg) (v : Z) (s : regs) : regs :=
  let '(mkRegs a b c d si di bp sp) := s in
  match r with
  | eax => mkRegs v b c d si di bp sp | ebx => mkRegs a v c d si di bp sp
  | ecx => mkRegs a b v d si di bp sp | edx => mkRegs a b c v si di bp sp
  | esi => mkRegs a b c d v di bp sp | edi => mkRegs a b c d si v bp sp
  | ebp => mkRegs a b c d si di v sp | esp => mkRegs a b c d si di bp v
  end.

Notation memory := (gmap Z Z).

(** Where the processor is: in the assembly code, or at an address of C++ code. *)
Inductive block : Set := SWITCH | ThreadRoot.
#[global] Instance block_eq_dec : EqDecision block.
Proof. solve_decision. Defined.
Inductive place : Set := In (b : block) (i : nat) | At (a : Z).

Record state := mk { pc : place; rs : regs; mem : memory }.

(** [off(%r)], the register itself, or the variable _eax_save. *)
Inductive operand : Set := Reg (r : reg) | Mem (off : Z) (r : reg) | _eax_save.
Inductive instr : Set :=
  | movl (src dst : operand)
  | pushl (src : operand)
  | popl (dst : operand)
  | call (dst : reg)          (** call *%dst *)
  | ret.

(** ** The code *)

Definition _ESP := 0.
Definition _EAX := 4.
Definition _EBX := 8.
Definition _ECX := 12.
Definition _EDX := 16.
Definition _EBP := 20.
Definition _ESI := 24.
Definition _EDI := 28.
Definition _PC := 32.

Definition PCState := _PC / 4 - 1.
Definition InitialPCState := _ESI / 4 - 1.
Definition InitialArgState := _EDX / 4 - 1.
Definition WhenDonePCState := _EDI / 4 - 1.
Definition StartupPCState := _ECX / 4 - 1.

Definition InitialPC := esi.
Definition InitialArg := edx.
Definition WhenDonePC := edi.
Definition StartupPC := ecx.

Definition ThreadRoot_code : list instr := [
  pushl (Reg ebp);
  movl (Reg esp) (Reg ebp);
  pushl (Reg InitialArg);
  call StartupPC;
  call InitialPC;
  call WhenDonePC;
  movl (Reg ebp) (Reg esp);
  popl (Reg ebp);
  ret ].

Definition SWITCH_code : list instr := [
  movl (Reg eax) _eax_save;
  movl (Mem 4 esp) (Reg eax);
  movl (Reg ebx) (Mem _EBX eax);
  movl (Reg ecx) (Mem _ECX eax);
  movl (Reg edx) (Mem _EDX eax);
  movl (Reg esi) (Mem _ESI eax);
  movl (Reg edi) (Mem _EDI eax);
  movl (Reg ebp) (Mem _EBP eax);
  movl (Reg esp) (Mem _ESP eax);
  movl _eax_save (Reg ebx);
  movl (Reg ebx) (Mem _EAX eax);
  movl (Mem 0 esp) (Reg ebx);
  movl (Reg ebx) (Mem _PC eax);
  movl (Mem 8 esp) (Reg eax);
  movl (Mem _EAX eax) (Reg ebx);
  movl (Reg ebx) _eax_save;
  movl (Mem _EBX eax) (Reg ebx);
  movl (Mem _ECX eax) (Reg ecx);
  movl (Mem _EDX eax) (Reg edx);
  movl (Mem _ESI eax) (Reg esi);
  movl (Mem _EDI eax) (Reg edi);
  movl (Mem _EBP eax) (Reg ebp);
  movl (Mem _ESP eax) (Reg esp);
  movl (Mem _PC eax) (Reg eax);
  movl (Reg eax) (Mem 4 esp);
  movl _eax_save (Reg eax);
  ret ].

Definition code (b : block) : list instr := match b with SWITCH => SWITCH_code | ThreadRoot => ThreadRoot_code end.

(** ** Running *)

Section machine.
Context (label : block -> nat -> Z) (eax_save : Z).

Definition points : list (block * nat) :=
  (pair SWITCH <$> seq 0 (length SWITCH_code)) ++ (pair ThreadRoot <$> seq 0 (length ThreadRoot_code)).
Definition resolve (a : Z) : place :=
  match list_find (fun p => label p.1 p.2 = a) points with
  | Some (_, (b, i)) => In b i
  | None => At a
  end.

Definition load (m : memory) (a : Z) : res Z := deref (m !! a).
Definition store (m : memory) (a v : Z) : res memory := _ ← load m a; Ok (<[a := v]> m).

Definition address (o : operand) (r : regs) : Z := match o with Mem off b => u32 (get b r + off) | _ => eax_save end.
Definition fetch (o : operand) (r : regs) (m : memory) : res Z :=
  match o with Reg r0 => Ok (get r0 r) | _ => load m (address o r) end.
Definition assign (o : operand) (v : Z) (r : regs) (m : memory) : res (regs * memory) :=
  match o with Reg r0 => Ok (set r0 v r, m) | _ => m ← store m (address o r) v; Ok (r, m) end.
Definition push (v : Z) (r : regs) (m : memory) : res (regs * memory) :=
  let sp := u32 (get esp r - 4) in
  m ← store m sp v; Ok (set esp sp r, m).
Definition pop (r : regs) (m : memory) : res (Z * regs) :=
  v ← load m (get esp r); Ok (v, set esp (u32 (get esp r + 4)) r).

Definition exec (b : block) (i : nat) (r : regs) (m : memory) : res state :=
  c ← deref (code b !! i);
  match c with
  | movl src dst => v ← fetch src r m; '(r, m) ← assign dst v r m; Ok (mk (In b (S i)) r m)
  | pushl src => v ← fetch src r m; '(r, m) ← push v r m; Ok (mk (In b (S i)) r m)
  | popl dst => '(v, r) ← pop r m; '(r, m) ← assign dst v r m; Ok (mk (In b (S i)) r m)
  | call dst => '(r', m) ← push (label b (S i)) r m; Ok (mk (resolve (get dst r)) r' m)
  | ret => '(v, r) ← pop r m; Ok (mk (resolve v) r m)
  end.

(** Up to [n] instructions of the assembly code. *)
Fixpoint run (n : nat) (s : state) : res state :=
  match n, pc s with
  | S n, In b i => s ← exec b i (rs s) (mem s); run n s
  | _, _ => Ok s
  end.

(** ** A new thread: thread.cc *)

Definition StackSize := 8 * 1024.
Definition STACK_FENCEPOST := 0xdedbeef.
Definition MachineStateSize := 75.

(** The object [t] starts with [stackTop] and [machineState]. *)
Definition machineState (t i : Z) : Z := t + 4 * (1 + i).

(** [Thread::Thread], as far as SWITCH is concerned: stackTop = NULL, and
    machineState[i] = NULL. *)
Definition Thread (t : Z) (m : memory) : res memory :=
  m ← store m t 0;
  forN (fun i m => store m (machineState t (Z.of_nat i)) 0) 0 (Z.to_nat MachineStateSize) m.

(** [stack] is what AllocBoundedArray returned. *)
Definition StackAllocate (ThreadBegin ThreadFinish : Z) (t func arg stack : Z) (m : memory) : res memory :=
  m ← store m t (u32 (stack + 4 * (StackSize - 4)));
  stackTop ← load m t;
  m ← store m t (u32 (stackTop - 4));
  stackTop ← load m t;
  m ← store m stackTop (label ThreadRoot 0);
  m ← store m stack STACK_FENCEPOST;
  m ← store m (machineState t PCState) (label ThreadRoot 0);
  m ← store m (machineState t StartupPCState) ThreadBegin;
  m ← store m (machineState t InitialPCState) func;
  m ← store m (machineState t InitialArgState) arg;
  store m (machineState t WhenDonePCState) ThreadFinish.

(** The overload for a procedure on an [int]. *)
Definition StackAllocate_int (ThreadBegin ThreadFinish : Z) (t func arg stack : Z) (m : memory) : res memory :=
  StackAllocate ThreadBegin ThreadFinish t func (u32 arg) stack m.

(** ** One instruction, and several *)

Lemma run_instr n b i r m s' : exec b i r m = Ok s' -> run (S n) (mk (In b i) r m) = run n s'.
Proof. intros E. cbn. by rewrite E. Qed.

Lemma exec_load b i o d r m v : code b !! i = Some (movl o (Reg d)) -> (forall x, o <> Reg x) -> m !! address o r = Some v ->
  exec b i r m = Ok (mk (In b (S i)) (set d v r) m).
Proof.
  intros Hc Ho Hv. unfold exec. rewrite Hc. cbn [deref mbind res_bind].
  unfold fetch, load. destruct o; [by edestruct Ho | ..]; rewrite Hv; done.
Qed.

Lemma exec_store b i x o r m : code b !! i = Some (movl (Reg x) o) -> (forall y, o <> Reg y) -> is_Some (m !! address o r) ->
  exec b i r m = Ok (mk (In b (S i)) r (<[address o r := get x r]> m)).
Proof.
  intros Hc Ho [v Hv]. unfold exec. rewrite Hc. cbn [deref mbind res_bind fetch].
  unfold assign, store, load. destruct o; [by edestruct Ho | ..]; rewrite Hv; done.
Qed.

Lemma exec_move b i x y r m : code b !! i = Some (movl (Reg x) (Reg y)) -> exec b i r m = Ok (mk (In b (S i)) (set y (get x r) r) m).
Proof. intros Hc. unfold exec. by rewrite Hc. Qed.

Lemma exec_push b i x r m : code b !! i = Some (pushl (Reg x)) -> is_Some (m !! u32 (get esp r - 4)) ->
  exec b i r m = Ok (mk (In b (S i)) (set esp (u32 (get esp r - 4)) r) (<[u32 (get esp r - 4) := get x r]> m)).
Proof. intros Hc [v Hv]. unfold exec. rewrite Hc. cbn [deref mbind res_bind fetch]. unfold push, store, load. by rewrite Hv. Qed.

Lemma exec_call b i x r m : code b !! i = Some (call x) -> is_Some (m !! u32 (get esp r - 4)) ->
  exec b i r m = Ok (mk (resolve (get x r)) (set esp (u32 (get esp r - 4)) r) (<[u32 (get esp r - 4) := label b (S i)]> m)).
Proof. intros Hc [v Hv]. unfold exec. rewrite Hc. cbn [deref mbind res_bind]. unfold push, store, load. by rewrite Hv. Qed.

Lemma exec_ret b i r m v : code b !! i = Some ret -> m !! get esp r = Some v ->
  exec b i r m = Ok (mk (resolve v) (set esp (u32 (get esp r + 4)) r) m).
Proof. intros Hc Hv. unfold exec. rewrite Hc. cbn [deref mbind res_bind]. unfold pop, load. by rewrite Hv. Qed.

(** The words from [a] up to [b] are mapped. *)
Definition mapped (m : memory) (a b : Z) : Prop := forall x, a <= x < b -> (x - a) mod 4 = 0 -> is_Some (m !! x).
Definition apart (a b c d : Z) : Prop := b <= c \/ d <= a.

Lemma apart_ne a b c d x y : apart a b c d -> a <= x < b -> c <= y < d -> x <> y.
Proof. unfold apart. lia. Qed.

(** Two words differ: by their offset, or because the ranges they are in are apart. *)
Ltac differ :=
  first [ lia
        | match goal with H : apart _ _ _ _ |- _ => solve [apply (apart_ne _ _ _ _ _ _ H); lia] end
        | match goal with H : apart _ _ _ _ |- _ => solve [apply not_eq_sym, (apart_ne _ _ _ _ _ _ H); lia] end ].

Lemma apart_within a b c d a' b' c' d' : apart a b c d -> a <= a' -> b' <= b -> c <= c' -> d' <= d -> apart a' b' c' d'.
Proof. unfold apart. lia. Qed.
Lemma apart_sym a b c d : apart a b c d -> apart c d a b.
Proof. unfold apart. lia. Qed.

Lemma mapped_at m a b off : mapped m a b -> off mod 4 = 0 -> 0 <= off -> a + off < b -> is_Some (m !! (a + off)).
Proof. intros Hm H4 H0 Hb. apply Hm; [lia | by replace (a + off - a) with off by lia]. Qed.

Lemma mapped_first m a b : mapped m a b -> a < b -> is_Some (m !! a).
Proof. intros Hm Hb. apply Hm; [lia |]. by rewrite Z.sub_diag. Qed.

(** ** What SWITCH needs and does *)

Record ctx := mkCtx { c_regs : regs; c_pc : Z; c_mem : memory }.

(** The object [t] and the top of its stack hold [c]; the stack pointer of [c] is
    that after the return. *)
Record suspended (m : memory) (t : Z) (c : ctx) : Prop := {
  su_esp : m !! (t + _ESP) = Some (r_esp (c_regs c) - 4);
  su_eax : m !! (t + _EAX) = Some (r_eax (c_regs c));
  su_ebx : m !! (t + _EBX) = Some (r_ebx (c_regs c));
  su_ecx : m !! (t + _ECX) = Some (r_ecx (c_regs c));
  su_edx : m !! (t + _EDX) = Some (r_edx (c_regs c));
  su_ebp : m !! (t + _EBP) = Some (r_ebp (c_regs c));
  su_esi : m !! (t + _ESI) = Some (r_esi (c_regs c));
  su_edi : m !! (t + _EDI) = Some (r_edi (c_regs c));
  su_pc : m !! (t + _PC) = Some (c_pc c);
  su_ret : m !! (r_esp (c_regs c) - 4) = Some (c_pc c);
}.

(** Where the code of thread.cc keeps a thread: its object, and its stack. *)
Definition object_size := 4 * (1 + MachineStateSize).
Definition in_object (t a : Z) : Prop := t <= a < t + object_size.
Lemma object_36 : 36 <= object_size.
Proof. by vm_compute. Qed.

(** The layout a switch from [t1] with stack pointer [sp] to [t2] with [sp2] needs. *)
Record separate (t1 sp t2 sp2 : Z) : Prop := {
  se_t1 : 0 <= t1 /\ t1 + 36 <= 2 ^ 32; se_t2 : 0 <= t2 /\ t2 + 36 <= 2 ^ 32;
  se_sp : 0 <= sp /\ sp + 12 <= 2 ^ 32; se_sp2 : 4 <= sp2 /\ sp2 + 4 <= 2 ^ 32;
  se_objects : apart t1 (t1 + 36) t2 (t2 + 36);
  se_stacks : apart sp (sp + 12) (sp2 - 4) (sp2 + 4);
  se_11 : apart t1 (t1 + 36) sp (sp + 12); se_12 : apart t1 (t1 + 36) (sp2 - 4) (sp2 + 4);
  se_21 : apart t2 (t2 + 36) sp (sp + 12); se_22 : apart t2 (t2 + 36) (sp2 - 4) (sp2 + 4);
  se_e1 : apart eax_save (eax_save + 4) t1 (t1 + 36); se_e2 : apart eax_save (eax_save + 4) t2 (t2 + 36);
  se_e3 : apart eax_save (eax_save + 4) sp (sp + 12); se_e4 : apart eax_save (eax_save + 4) (sp2 - 4) (sp2 + 4);
}.

Ltac offsets := cbv [_ESP _EAX _EBX _ECX _EDX _EBP _ESI _EDI _PC] in *.
Ltac addresses := cbn [address get r_esp r_eax r_ebx r_ecx r_edx r_esi r_edi r_ebp]; cbv [_ESP _EAX _EBX _ECX _EDX _EBP _ESI _EDI _PC]; rewrite ?Z.add_0_r, ?Z.sub_add, ?u32_id by (unfold is_u32; lia).
Ltac look := addresses; rewrite ?Z.add_0_r;
  repeat first [eassumption | rewrite lookup_insert_eq; reflexivity | rewrite lookup_insert_ne by differ].
Ltac present := addresses; rewrite ?Z.add_0_r;
  repeat first [eassumption | apply lookup_insert_is_Some'; right | eapply mapped_at; [eassumption | done | lia | lia] | eapply mapped_first; [eassumption | lia]].
Ltac exec1 := erewrite run_instr;
  [| first [ eapply exec_move; reflexivity
           | eapply exec_load; [reflexivity | done | look]
           | eapply exec_store; [reflexivity | done | present]
           | eapply exec_ret; [reflexivity | look] ] ];
  addresses; cbn [set].

Lemma switch_runs t1 t2 ra r m c : separate t1 (r_esp r) t2 (r_esp (c_regs c)) ->
  mapped m t1 (t1 + 36) -> is_Some (m !! eax_save) -> is_Some (m !! r_esp (c_regs c)) ->
  m !! r_esp r = Some ra -> m !! (r_esp r + 4) = Some t1 -> m !! (r_esp r + 8) = Some t2 -> suspended m t2 c ->
  exists m', run 27 (mk (In SWITCH 0) r m) = Ok (mk (resolve (c_pc c)) (c_regs c) m') /\
    suspended m' t1 (mkCtx (set esp (r_esp r + 4) r) ra m) /\
    (forall a, is_Some (m !! a) -> is_Some (m' !! a)) /\
    forall a, a < t1 \/ t1 + 36 <= a -> a <> eax_save -> a <> r_esp (c_regs c) -> m' !! a = m !! a.
Proof.
  intros [] Hmap He H2 Hra Ht1 Ht2 []. destruct r as [a b cx d si di bp sp], c as [[a' b' c' d' si' di' bp' sp'] pc' m0].
  cbn [c_regs c_pc r_esp r_eax r_ebx r_ecx r_edx r_esi r_edi r_ebp] in *. offsets. rewrite ?Z.add_0_r in *.
  eexists. split.
  { do 27 exec1. reflexivity. }
  cbn [set]. split_and!.
  - split; offsets; cbn [c_regs c_pc r_esp r_eax r_ebx r_ecx r_edx r_esi r_edi r_ebp]; rewrite ?Z.add_simpl_r; look.
  - intros x Hx. repeat (apply lookup_insert_is_Some'; right). done.
  - intros x Hx He' Hs'. rewrite !lookup_insert_ne by lia. done.
Qed.

(** ** A new thread is as if it had been switched out *)

Definition stack_bytes := 4 * StackSize.
Context (ThreadBegin ThreadFinish : Z).

(** At the start of ThreadRoot, with the registers it expects. *)
Definition new_regs (func arg stack : Z) : regs :=
  mkRegs 0 0 ThreadBegin arg func ThreadFinish 0 (stack + 4 * (StackSize - 4)).
Definition new_ctx (func arg stack : Z) (m : memory) : ctx := mkCtx (new_regs func arg stack) (label ThreadRoot 0) m.

Lemma store_mapped m a v : is_Some (m !! a) -> store m a v = Ok (<[a := v]> m).
Proof. intros [x Hx]. unfold store, load. by rewrite Hx. Qed.

(** Words are not unmapped, and only those in the ranges change. *)
Definition grows (m m' : memory) : Prop := forall a, is_Some (m !! a) -> is_Some (m' !! a).
Lemma grows_insert m a v : grows m (<[a := v]> m).
Proof. intros x Hx. by apply lookup_insert_is_Some'; right. Qed.
#[global] Instance grows_preorder : PreOrder grows.
Proof. split; [by intros m a |]. intros m1 m2 m3 H1 H2 a Ha. auto. Qed.
Lemma mapped_grows m m' a b : mapped m a b -> grows m m' -> mapped m' a b.
Proof. intros Hm Hg x Hx H4. apply Hg, Hm; done. Qed.

Lemma multiple_of_4 x k : x = 4 * k -> x mod 4 = 0.
Proof. intros ->. rewrite Z.mul_comm. by apply Z.mod_mul. Qed.

Lemma Thread_spec t m : mapped m t (t + object_size) -> exists m', Thread t m = Ok m' /\ grows m m' /\
  (forall i, 0 <= i <= MachineStateSize -> m' !! (t + 4 * i) = Some 0) /\ forall a, ~ in_object t a -> m' !! a = m !! a.
Proof.
  intros Hm. unfold Thread. rewrite store_mapped by (eapply mapped_first; [done | by unfold object_size, MachineStateSize; lia]). cbn [mbind res_bind].
  edestruct (forN_ind (fun n m' => grows m m' /\ (forall i, 0 <= i <= Z.of_nat n -> m' !! (t + 4 * i) = Some 0) /\
    forall a, ~ in_object t a -> m' !! a = m !! a) (fun i m => store m (machineState t (Z.of_nat i)) 0) 0 (Z.to_nat MachineStateSize) (<[t := 0]> m))
    as (m' & E & Hg & Hz & Ho).
  - split_and!; [apply grows_insert | intros i Hi; replace (t + 4 * i) with t by lia; by rewrite lookup_insert_eq |].
    intros a Ha. rewrite lookup_insert_ne; [done |]. intros ->. apply Ha. unfold in_object, object_size, MachineStateSize. lia.
  - intros i m' [Hi0 Hi] (Hg & Hz & Ho). assert (in_object t (machineState t (Z.of_nat i))) as Hin
      by (unfold in_object, machineState, object_size, MachineStateSize in *; lia).
    eexists. split; [apply store_mapped, Hg, Hm; [exact Hin | apply (multiple_of_4 _ (1 + Z.of_nat i)); unfold machineState; lia] |].
    split_and!; [etrans; [exact Hg | apply grows_insert] | |].
    + intros j Hj. unfold machineState. destruct (decide (j = 1 + Z.of_nat i)) as [-> | Hne]; [by rewrite lookup_insert_eq |].
      rewrite lookup_insert_ne by lia. apply Hz. lia.
    + intros a Ha. rewrite lookup_insert_ne; [by apply Ho |]. by intros <-.
  - exists m'. split_and!; [done | done | | done]. intros i Hi. apply Hz. unfold MachineStateSize in *. lia.
Qed.

Lemma store_bind {A} m a v (f : memory -> res A) : is_Some (m !! a) -> (m ← store m a v; f m) = f (<[a := v]> m).
Proof. intros H. by rewrite store_mapped. Qed.
Lemma load_bind {A} m a v (f : Z -> res A) : m !! a = Some v -> (v ← load m a; f v) = f v.
Proof. intros H. unfold load. by rewrite H. Qed.

(** StackAllocate on a new object. *)
Ltac wordm :=
  repeat (apply lookup_insert_is_Some'; right);
  first [eapply mapped_at; [eassumption | done | lia | lia] | eapply mapped_first; [eassumption | lia]].

Lemma StackAllocate_spec t func arg stack m : 0 <= t -> t + object_size <= 2 ^ 32 -> 0 <= stack -> stack + stack_bytes <= 2 ^ 32 ->
  apart t (t + object_size) stack (stack + stack_bytes) -> mapped m t (t + object_size) -> mapped m stack (stack + stack_bytes) ->
  (forall i, 0 <= i <= MachineStateSize -> m !! (t + 4 * i) = Some 0) ->
  exists m', StackAllocate ThreadBegin ThreadFinish t func arg stack m = Ok m' /\ grows m m' /\
    suspended m' t (new_ctx func arg stack m') /\ m' !! stack = Some STACK_FENCEPOST /\
    forall a, ~ in_object t a -> a < stack \/ stack + stack_bytes <= a -> m' !! a = m !! a.
Proof.
  intros Ht0 Ht1 Hs0 Hs1 Ha Hmt Hms Hz. unfold StackAllocate, machineState.
  cbv [object_size MachineStateSize stack_bytes StackSize PCState StartupPCState InitialPCState InitialArgState WhenDonePCState _ECX _EDX _EDI _ESI _PC] in *.
  change (4 * (8 * 1024 - 4)) with 32752. change (4 * (1 + (32 / 4 - 1))) with 32. change (4 * (1 + (12 / 4 - 1))) with 12.
  change (4 * (1 + (24 / 4 - 1))) with 24. change (4 * (1 + (16 / 4 - 1))) with 16. change (4 * (1 + (28 / 4 - 1))) with 28.
  change (4 * (1 + 75)) with 304 in *. change (4 * (8 * 1024)) with 32768 in *. rewrite !u32_id by (unfold is_u32; lia).
  rewrite store_bind by wordm. erewrite load_bind by (rewrite lookup_insert_eq; reflexivity). rewrite store_bind by wordm.
  erewrite load_bind by (rewrite lookup_insert_eq; reflexivity). replace (stack + 32752 - 4) with (stack + 32748) by lia.
  rewrite u32_id by (unfold is_u32; lia).
  rewrite !store_bind by wordm. rewrite store_mapped by wordm. eexists. split_and!; [done | | | |].
  - intros x Hx. repeat (apply lookup_insert_is_Some'; right). done.
  - pose proof (Hz 1 ltac:(lia)). pose proof (Hz 2 ltac:(lia)). pose proof (Hz 5 ltac:(lia)).
    unfold new_ctx, new_regs, StackSize. split; offsets; cbn [c_regs c_pc r_esp r_eax r_ebx r_ecx r_edx r_esi r_edi r_ebp];
      rewrite ?Z.add_0_r; try look; replace (stack + 4 * (8 * 1024 - 4) - 4) with (stack + 32748) by lia; look.
  - look.
  - intros x Hx Hx'. unfold in_object, object_size, MachineStateSize in Hx. rewrite !lookup_insert_ne by lia. done.
Qed.
(** ** Threads that switch to each other

    [parked] has every thread that is not running, and what it was doing; [stk]
    where the stack of each thread is. *)
Record world := mkWorld { cpu : state; current : Z; parked : gmap Z ctx; stk : gmap Z (Z * Z) }.

(** A place for a thread: its object [t] and its stack from [lo] to [hi]. *)
Record home (m : memory) (t lo hi : Z) : Prop := {
  ho_object : 0 <= t /\ t + object_size <= 2 ^ 32;
  ho_stack : 0 <= lo /\ hi <= 2 ^ 32;
  ho_apart : apart t (t + object_size) lo hi;
  ho_save : apart eax_save (eax_save + 4) t (t + object_size);
  ho_save' : apart eax_save (eax_save + 4) lo hi;
  ho_mapped : mapped m t (t + object_size);
  ho_mapped' : mapped m lo hi;
}.
(** Two threads have nothing in common. *)
Record strangers (t lo hi t' lo' hi' : Z) : Prop := {
  st_objects : apart t (t + object_size) t' (t' + object_size);
  st_stacks : apart lo hi lo' hi';
  st_1 : apart t (t + object_size) lo' hi';
  st_2 : apart t' (t' + object_size) lo hi;
}.
Definition belongs (t lo hi a : Z) : Prop := in_object t a \/ lo <= a < hi.

(** The running thread calls SWITCH(current, next), from code at [ra]. *)
Record at_switch (w : world) (next ra : Z) : Prop := {
  as_pc : pc (cpu w) = In SWITCH 0;
  as_stack : exists lo hi, stk w !! current w = Some (lo, hi) /\ lo <= r_esp (rs (cpu w)) /\ r_esp (rs (cpu w)) + 12 <= hi;
  as_ret : mem (cpu w) !! r_esp (rs (cpu w)) = Some ra;
  as_old : mem (cpu w) !! (r_esp (rs (cpu w)) + 4) = Some (current w);
  as_new : mem (cpu w) !! (r_esp (rs (cpu w)) + 8) = Some next;
}.
(** What the caller of SWITCH goes on with. *)
Definition caller (s : state) (ra : Z) : ctx := mkCtx (set esp (r_esp (rs s) + 4) (rs s)) ra (mem s).

Inductive step : world -> world -> Prop :=
  | Computes w s' :                     (** kernel code, or a user program, of the running thread *)
      grows (mem (cpu w)) (mem s') ->
      (forall t lo hi a, stk w !! t = Some (lo, hi) -> t <> current w -> belongs t lo hi a -> mem s' !! a = mem (cpu w) !! a) ->
      step w (mkWorld s' (current w) (parked w) (stk w))
  | Switches w next ra s' :
      at_switch w next ra -> is_Some (parked w !! next) -> run 27 (cpu w) = Ok s' ->
      step w (mkWorld s' next (<[current w := caller (cpu w) ra]> (delete next (parked w))) (stk w))
  | Forks w t func arg stack m1 m2 m3 : (** [new Thread], and [StackAllocate] *)
      stk w !! t = None -> grows (mem (cpu w)) m1 ->
      (forall a, ~ belongs t stack (stack + stack_bytes) a -> m1 !! a = mem (cpu w) !! a) -> home m1 t stack (stack + stack_bytes) ->
      (forall t' lo hi, stk w !! t' = Some (lo, hi) -> strangers t stack (stack + stack_bytes) t' lo hi) ->
      Thread t m1 = Ok m2 -> StackAllocate ThreadBegin ThreadFinish t func arg stack m2 = Ok m3 ->
      step w (mkWorld (mk (pc (cpu w)) (rs (cpu w)) m3) (current w) (<[t := new_ctx func arg stack m3]> (parked w))
                (<[t := (stack, stack + stack_bytes)]> (stk w)))
  | Deletes w t :                       (** a finished thread *)
      is_Some (parked w !! t) -> step w (mkWorld (cpu w) (current w) (delete t (parked w)) (delete t (stk w))).

(** The first thread, alone. *)
Definition starts (w : world) : Prop :=
  parked w = ∅ /\ is_Some (mem (cpu w) !! eax_save) /\
  exists lo hi, stk w = {[current w := (lo, hi)]} /\ home (mem (cpu w)) (current w) lo hi.

(** [t] is parked with [c]. *)
Record parks (m : memory) (t lo hi : Z) (c : ctx) : Prop := {
  pk_suspended : suspended m t c;
  pk_esp : lo + 4 <= r_esp (c_regs c) /\ r_esp (c_regs c) + 4 <= hi;
  pk_slot : is_Some (m !! r_esp (c_regs c));
  pk_stack : forall a, lo <= a < hi -> m !! a = c_mem c !! a;
}.
Record Inv (w : world) : Prop := {
  inv_save : is_Some (mem (cpu w) !! eax_save);
  inv_current : is_Some (stk w !! current w) /\ parked w !! current w = None;
  inv_home : forall t lo hi, stk w !! t = Some (lo, hi) -> home (mem (cpu w)) t lo hi;
  inv_apart : forall t lo hi t' lo' hi', stk w !! t = Some (lo, hi) -> stk w !! t' = Some (lo', hi') -> t <> t' -> strangers t lo hi t' lo' hi';
  inv_parked : forall t c, parked w !! t = Some c -> exists lo hi, stk w !! t = Some (lo, hi) /\ parks (mem (cpu w)) t lo hi c;
}.

Lemma home_grows m m' t lo hi : home m t lo hi -> grows m m' -> home m' t lo hi.
Proof. intros [] Hg. split; try done; eapply mapped_grows; done. Qed.

Lemma strangers_sym t lo hi t' lo' hi' : strangers t lo hi t' lo' hi' -> strangers t' lo' hi' t lo hi.
Proof. unfold apart. intros []. split; unfold apart in *; lia. Qed.

(** A thread whose object and stack do not change stays parked. *)
Lemma parks_frame m m' t lo hi c : home m t lo hi -> parks m t lo hi c -> (forall a, belongs t lo hi a -> m' !! a = m !! a) -> parks m' t lo hi c.
Proof.
  intros Hh [[] He Hs Hk] Ha. assert (forall k, 0 <= k < 36 -> m' !! (t + k) = m !! (t + k)) as Ho.
  { intros k Hk'. apply Ha. left. unfold in_object, object_size, MachineStateSize. lia. }
  split; [split; rewrite ?Ho by (offsets; lia); try done | done | |].
  - rewrite Ha by (right; lia). done.
  - rewrite Ha by (right; lia). done.
  - intros a Hla. rewrite Ha by (by right). by apply Hk.
Qed.

Lemma starts_Inv w : starts w -> Inv w.
Proof.
  intros (Hp & He & lo & hi & Hs & Hh). split.
  - done.
  - rewrite Hs, Hp, lookup_singleton_eq. done.
  - intros t lo' hi'. rewrite Hs. intros [<- [= <- <-]]%lookup_singleton_Some. done.
  - intros t ? ? t' ? ?. rewrite Hs. intros [<- _]%lookup_singleton_Some [<- _]%lookup_singleton_Some. done.
  - intros t c. by rewrite Hp.
Qed.

(** The layout of two threads is the one a switch between them needs. *)
Lemma separate_homes m t1 lo1 hi1 t2 lo2 hi2 sp sp2 : home m t1 lo1 hi1 -> home m t2 lo2 hi2 -> strangers t1 lo1 hi1 t2 lo2 hi2 ->
  lo1 <= sp -> sp + 12 <= hi1 -> lo2 + 4 <= sp2 -> sp2 + 4 <= hi2 -> separate t1 sp t2 sp2.
Proof.
  intros [] [] [] H1 H2 H3 H4. pose proof object_36.
  split; first [lia | match goal with
    | H : apart _ _ _ _ |- _ => solve [apply (apart_within _ _ _ _ _ _ _ _ H); lia]
    | H : apart _ _ _ _ |- _ => solve [apply (apart_within _ _ _ _ _ _ _ _ (apart_sym _ _ _ _ H)); lia]
    end].
Qed.

(** What a switch does in such a world. *)
Lemma switch_parked w next ra c : Inv w -> at_switch w next ra -> parked w !! next = Some c ->
  exists s' lo hi, run 27 (cpu w) = Ok s' /\ pc s' = resolve (c_pc c) /\ rs s' = c_regs c /\
    stk w !! next = Some (lo, hi) /\ grows (mem (cpu w)) (mem s') /\ suspended (mem s') (current w) (caller (cpu w) ra) /\
    (forall t lo' hi' a, stk w !! t = Some (lo', hi') -> belongs t lo' hi' a -> ~ in_object (current w) a -> a <> r_esp (c_regs c) ->
       mem s' !! a = mem (cpu w) !! a) /\
    (forall a, lo <= a < hi -> a <> r_esp (c_regs c) -> mem s' !! a = c_mem c !! a).
Proof.
  intros [He [_ Hcp] Hh Hap Hpk] [Hpc (lo1 & hi1 & Hs1 & Hl1 & Hl2) Hra Ho Hn] Hc.
  destruct (Hpk _ _ Hc) as (lo & hi & Hs2 & [Hsu [Hl3 Hl4] Hslot Hk]).
  assert (current w <> next) as Hne by (intros Heq; rewrite Heq, Hc in Hcp; done).
  pose proof (Hh _ _ _ Hs1) as H1. pose proof (Hh _ _ _ Hs2) as H2. pose proof (Hap _ _ _ _ _ _ Hs1 Hs2 Hne) as H12.
  destruct (switch_runs (current w) next ra (rs (cpu w)) (mem (cpu w)) c) as (m' & E & Hsu' & Hg & Hm); try done.
  { by eapply separate_homes. }
  { intros x Hx. apply (ho_mapped _ _ _ _ H1). unfold object_size, MachineStateSize. lia. }
  assert (forall t lo' hi' a, stk w !! t = Some (lo', hi') -> belongs t lo' hi' a -> a <> eax_save) as Hsave.
  { intros t lo' hi' a Ht Ha ->. destruct (Hh _ _ _ Ht). unfold belongs, in_object, apart in *. lia. }
  exists (mk (resolve (c_pc c)) (c_regs c) m'), lo, hi. split_and!; try done.
  - rewrite <- E. destruct (cpu w) as [p r m]. cbn in *. by rewrite Hpc.
  - intros t lo' hi' a Ht Ha Hna Hsp. apply Hm; [| by eapply Hsave | done].
    unfold in_object, object_size, MachineStateSize in Hna. lia.
  - intros a Ha Hsp. cbn [mem]. rewrite <- Hk by done. apply Hm; [| eapply Hsave; [exact Hs2 | by right] | done].
    destruct H12. unfold apart, object_size, MachineStateSize in *. lia.
Qed.

Lemma parked_homes w t c : Inv w -> parked w !! t = Some c -> t <> current w.
Proof. intros [_ [_ Hc] _ _ _] Ht ->. by rewrite Hc in Ht. Qed.

(** The words of one thread do not belong to another. *)
Lemma belongs_once t lo hi t' lo' hi' a : strangers t lo hi t' lo' hi' -> belongs t lo hi a -> belongs t' lo' hi' a -> False.
Proof. intros []. unfold belongs, in_object, apart in *. lia. Qed.

Lemma Computes_Inv w s' : Inv w -> grows (mem (cpu w)) (mem s') ->
  (forall t lo hi a, stk w !! t = Some (lo, hi) -> t <> current w -> belongs t lo hi a -> mem s' !! a = mem (cpu w) !! a) ->
  Inv (mkWorld s' (current w) (parked w) (stk w)).
Proof.
  intros Hi Hg Hf. destruct (Hi) as [He Hc Hh Hap Hpk]. split; cbn [cpu current parked stk mem]; try done.
  - by apply Hg.
  - intros t lo hi Ht. eapply home_grows; [by apply Hh | done].
  - intros t c Ht. destruct (Hpk _ _ Ht) as (lo & hi & Hs & Hp). exists lo, hi. split; [done |].
    eapply parks_frame; [by apply Hh | done |]. intros a Ha. eapply Hf; [done | by eapply parked_homes | done].
Qed.

Lemma Switches_Inv w next ra s' : Inv w -> at_switch w next ra -> is_Some (parked w !! next) -> run 27 (cpu w) = Ok s' ->
  Inv (mkWorld s' next (<[current w := caller (cpu w) ra]> (delete next (parked w))) (stk w)).
Proof.
  intros Hi Ha [c Hc] E. destruct (switch_parked w next ra c Hi Ha Hc) as (s1 & lo & hi & E' & _ & _ & Hs & Hg & Hsu & Hm & _).
  rewrite E in E'. injection E' as <-. pose proof (parked_homes _ _ _ Hi Hc) as Hne. destruct (Hi) as [He Hcur Hh Hap Hpk].
  destruct Ha as [_ (lo1 & hi1 & Hs1 & Hl1 & Hl2) _ Ho _]. destruct (Hpk _ _ Hc) as (lo2 & hi2 & Hs2 & [_ [Hl3 Hl4] _ _]).
  assert (forall t lo' hi' a, stk w !! t = Some (lo', hi') -> t <> current w -> t <> next -> belongs t lo' hi' a -> mem s' !! a = mem (cpu w) !! a) as Hothers.
  { intros t lo' hi' a Ht H1 H2 Hb. eapply Hm; [done | done | |].
    - intros Hin. eapply (belongs_once t); [by eapply (Hap t _ _ (current w)) | done | by left].
    - intros ->. eapply (belongs_once t); [by eapply (Hap t _ _ next) | done | right; lia]. }
  split; cbn [cpu current parked stk mem].
  - by apply Hg.
  - split; [done |]. rewrite lookup_insert_ne by done. by rewrite lookup_delete_eq.
  - intros t lo' hi' Ht. eapply home_grows; [by apply Hh | done].
  - done.
  - intros t c' [[<- <-] | [Hnt [Hnn Ht]%lookup_delete_Some]]%lookup_insert_Some.
    + exists lo1, hi1. split; [done |]. destruct (Hap _ _ _ _ _ _ Hs1 Hs2 (not_eq_sym Hne)). destruct (Hh _ _ _ Hs1).
      split; cbn [caller c_regs c_mem]; [done | | | ].
      * destruct (rs (cpu w)). cbn in *. lia.
      * destruct (rs (cpu w)). cbn in *. apply Hg. by eexists.
      * intros a Hla. eapply Hm; [exact Hs1 | by right | |]; unfold in_object, apart in *; lia.
    + destruct (Hpk _ _ Ht) as (lo' & hi' & Hs' & Hp'). exists lo', hi'. split; [done |].
      eapply parks_frame; [by apply Hh | done |]. intros a. by apply Hothers.
Qed.

Lemma Forks_Inv w t func arg stack m1 m2 m3 : Inv w -> stk w !! t = None -> grows (mem (cpu w)) m1 ->
  (forall a, ~ belongs t stack (stack + stack_bytes) a -> m1 !! a = mem (cpu w) !! a) -> home m1 t stack (stack + stack_bytes) ->
  (forall t' lo hi, stk w !! t' = Some (lo, hi) -> strangers t stack (stack + stack_bytes) t' lo hi) ->
  Thread t m1 = Ok m2 -> StackAllocate ThreadBegin ThreadFinish t func arg stack m2 = Ok m3 ->
  Inv (mkWorld (mk (pc (cpu w)) (rs (cpu w)) m3) (current w) (<[t := new_ctx func arg stack m3]> (parked w))
         (<[t := (stack, stack + stack_bytes)]> (stk w))).
Proof.
  intros [He [Hc Hcp] Hh Hap Hpk] Hn Hg1 Hm1 H1 Hst E2 E3. destruct (H1).
  destruct (Thread_spec t m1 ho_mapped0) as (m2' & E2' & Hg2 & Hz & Ho2). rewrite E2 in E2'. injection E2' as <-.
  destruct (StackAllocate_spec t func arg stack m2) as (m3' & E3' & Hg3 & Hsu & _ & Ho3); try tauto; try (by eapply mapped_grows).
  rewrite E3 in E3'. injection E3' as <-.
  assert (grows (mem (cpu w)) m3) as Hg.
  { etrans; [exact Hg1 |]. by etrans. }
  assert (forall t' lo hi a, stk w !! t' = Some (lo, hi) -> belongs t' lo hi a -> m3 !! a = mem (cpu w) !! a) as Hframe.
  { intros t' lo hi a Ht Ha. assert (~ belongs t stack (stack + stack_bytes) a) as Hb by (intros Hb; by eapply belongs_once; [by eapply Hst | | ]).
    rewrite Ho3, Ho2, Hm1; try done; unfold belongs in Hb; tauto || lia. }
  assert (current w <> t) as Hct by (intros Heq; rewrite Heq, Hn in Hc; by destruct Hc).
  split; cbn [cpu current parked stk mem].
  - by apply Hg.
  - by rewrite !lookup_insert_ne by done.
  - intros t' lo hi [[<- [= <- <-]] | [_ Ht]]%lookup_insert_Some; [by eapply home_grows; [| etrans] |]. eapply home_grows; [by apply Hh | done].
  - intros t' lo hi t'' lo' hi' [[<- [= <- <-]] | [_ Ht]]%lookup_insert_Some [[<- [= <- <-]] | [_ Ht']]%lookup_insert_Some Hne; try done.
    + by apply Hst.
    + by apply strangers_sym, Hst.
    + by eapply Hap.
  - intros t' c [[<- <-] | [Hne Ht]]%lookup_insert_Some.
    + exists stack, (stack + stack_bytes). rewrite lookup_insert_eq. split; [done |]. unfold new_ctx, new_regs, stack_bytes, StackSize in *.
      split; cbn [c_regs c_mem r_esp]; [done | lia | | done].
      apply Hg3, Hg2, ho_mapped'0; [lia | by apply (multiple_of_4 _ (8 * 1024 - 4)); lia].
    + destruct (Hpk _ _ Ht) as (lo & hi & Hs & Hp). exists lo, hi. rewrite lookup_insert_ne by done. split; [done |].
      eapply parks_frame; [by apply Hh | done |]. intros a. by apply Hframe.
Qed.

Lemma step_Inv w w' : step w w' -> Inv w -> Inv w'.
Proof.
  destruct 1 as [w s' Hg Hf | w next ra s' Ha Hn E | w t func arg stack m1 m2 m3 | w t [c Hc]]; intros Hi.
  - by apply Computes_Inv.
  - by eapply Switches_Inv.
  - by eapply Forks_Inv.
  - pose proof (parked_homes _ _ _ Hi Hc) as Hne. destruct Hi as [He [Hcur Hcp] Hh Hap Hpk]. split; cbn [cpu current parked stk].
    + done.
    + rewrite !lookup_delete_ne by done. done.
    + intros t' lo hi [_ Ht]%lookup_delete_Some. by apply Hh.
    + intros t' lo hi t'' lo' hi' [_ Ht]%lookup_delete_Some [_ Ht']%lookup_delete_Some. by apply Hap.
    + intros t' c' [Hne' Ht]%lookup_delete_Some. destruct (Hpk _ _ Ht) as (lo & hi & ? & ?). exists lo, hi.
      by rewrite lookup_delete_ne.
Qed.

Definition reachable (w : world) : Prop := exists w0, starts w0 /\ rtc step w0 w.
Lemma reachable_Inv w : reachable w -> Inv w.
Proof. intros (w0 & H0 & Hr). apply starts_Inv in H0. induction Hr; eauto using step_Inv. Qed.

(** The running thread can call SWITCH(current, next) from [ra] when its stack
    pointer is [sp]. *)
Definition calls (sp ra t1 t2 : Z) (m : memory) : memory := <[sp := ra]> (<[sp + 4 := t1]> (<[sp + 8 := t2]> m)).
Definition call_switch (w : world) (r : regs) (next ra : Z) : world :=
  mkWorld (mk (In SWITCH 0) r (calls (r_esp r) ra (current w) next (mem (cpu w)))) (current w) (parked w) (stk w).

Lemma call_switch_reachable w r next ra lo hi : reachable w -> stk w !! current w = Some (lo, hi) -> lo <= r_esp r -> r_esp r + 12 <= hi ->
  reachable (call_switch w r next ra) /\ at_switch (call_switch w r next ra) next ra.
Proof.
  intros Hr Hs H0 H1. pose proof (reachable_Inv w Hr) as Hi. split.
  - destruct Hr as (w0 & Hw & Hr). exists w0. split; [exact Hw |]. eapply rtc_r; [exact Hr |]. apply Computes; cbn [cpu mem call_switch]; unfold calls.
    + intros a Ha. do 3 (apply lookup_insert_is_Some'; right). done.
    + intros t lo' hi' a Ht Hne Hb. assert (~ belongs (current w) lo hi a) as Hn
        by (intros Hb'; eapply belongs_once; [by apply (inv_apart _ Hi _ _ _ _ _ _ Ht Hs) | done | done]).
      unfold belongs in Hn. by rewrite !lookup_insert_ne by lia.
  - split; cbn [cpu pc rs mem current stk call_switch]; unfold calls; [done | by exists lo, hi | ..].
    + by rewrite lookup_insert_eq.
    + by rewrite lookup_insert_ne, lookup_insert_eq by lia.
    + by rewrite !lookup_insert_ne, lookup_insert_eq by lia.
Qed.

(** C6: The kernel state of a thread survives: whatever the threads of a kernel do
    to their own objects and stacks, however they are forked, switched and deleted,
    when the running thread calls SWITCH for one that is not running, SWITCH does
    not fault, and that thread goes on from where it called SWITCH (or, when it is
    new, from ThreadRoot), with all its registers as they were, and its stack as it
    was but for the argument slot of its call; and what the caller goes on with,
    when its turn comes, is what it has now. *)
Theorem kernel_state_survives w next ra c : reachable w -> at_switch w next ra -> parked w !! next = Some c ->
  exists s' lo hi, run 27 (cpu w) = Ok s' /\ pc s' = resolve (c_pc c) /\ rs s' = c_regs c /\
    stk w !! next = Some (lo, hi) /\ (forall a, lo <= a < hi -> a <> r_esp (c_regs c) -> mem s' !! a = c_mem c !! a) /\
    reachable (mkWorld s' next (<[current w := caller (cpu w) ra]> (delete next (parked w))) (stk w)).
Proof.
  intros Hr Ha Hc. destruct (switch_parked w next ra c (reachable_Inv w Hr) Ha Hc) as (s' & lo & hi & E & Hp & Hrs & Hs & _ & _ & _ & Hk).
  exists s', lo, hi. split_and!; try done. destruct Hr as (w0 & H0 & Hr). exists w0. split; [done |].
  eapply rtc_r; [exact Hr |]. by apply (Switches w next ra s').
Qed.

(** ** What a new thread runs *)

(** The assembler puts instructions at different addresses. *)
Context (label_inj : forall p q, p ∈ points -> q ∈ points -> label p.1 p.2 = label q.1 q.2 -> p = q).

Lemma resolve_label b i : (b, i) ∈ points -> resolve (label b i) = In b i.
Proof using label_inj.
  intros Hp. unfold resolve. destruct (list_find _ points) as [[j [b' i']] |] eqn:E.
  - apply list_find_Some in E as (Hj & Hl & _). cbn in Hl.
    by specialize (label_inj (b', i') (b, i) (list_elem_of_lookup_2 _ _ _ Hj) Hp Hl) as [= -> ->].
  - apply list_find_None in E. by eapply Forall_forall in E; [| exact Hp].
Qed.

Lemma thread_root_point i : (i < length ThreadRoot_code)%nat -> (ThreadRoot, i) ∈ points.
Proof. intros Hi. apply elem_of_app. right. apply list_elem_of_fmap. exists i. split; [done |]. apply elem_of_seq. lia. Qed.

(** C++ code that is called returns as the calling convention says: to the return
    address, which it pops, with the registers that belong to its caller, and with
    the stack of its caller, up to [top], but for its [nargs] arguments. *)
Record returns (nargs top : Z) (s s' : state) : Prop := {
  rt_pc : exists ra, mem s !! r_esp (rs s) = Some ra /\ pc s' = resolve ra;
  rt_esp : r_esp (rs s') = r_esp (rs s) + 4;
  rt_ebx : r_ebx (rs s') = r_ebx (rs s);
  rt_esi : r_esi (rs s') = r_esi (rs s);
  rt_edi : r_edi (rs s') = r_edi (rs s);
  rt_ebp : r_ebp (rs s') = r_ebp (rs s);
  rt_stack : forall a, r_esp (rs s) + 4 + 4 * nargs <= a < top -> mem s' !! a = mem s !! a;
  rt_mapped : grows (mem s) (mem s');
}.

Lemma run_app n k s s' : run n s = Ok s' -> run (n + k) s = run k s'.
Proof using Type.
  revert s. induction n as [| n IH]; intros s; cbn.
  - by intros [= ->].
  - destruct (pc s) as [b i | a] eqn:E; [| intros [= <-]; by destruct k; cbn; rewrite ?E].
    destruct (exec b i (rs s) (mem s)); cbn; [apply IH | done].
Qed.

(** The first four instructions; [top] is the stack pointer they start with. *)
Lemma thread_root_starts func arg stack m : 0 <= stack -> stack + stack_bytes <= 2 ^ 32 -> mapped m stack (stack + stack_bytes) ->
  let top := stack + 32752 in
  run 4 (mk (In ThreadRoot 0) (new_regs func arg stack) m) =
    Ok (mk (resolve ThreadBegin) (mkRegs 0 0 ThreadBegin arg func ThreadFinish (top - 4) (top - 12))
          (<[top - 12 := label ThreadRoot 4]> (<[top - 8 := arg]> (<[top - 4 := 0]> m)))).
Proof using Type.
  intros H0 H1 Hm top. unfold stack_bytes, StackSize in *. change (4 * (8 * 1024)) with 32768 in *.
  assert (forall k, k = 4 \/ k = 8 \/ k = 12 -> is_Some (m !! (top - k))) as Hw.
  { intros k Hk. apply Hm; [unfold top; lia |].
    destruct Hk as [-> | [-> | ->]]; [apply (multiple_of_4 _ 8187) | apply (multiple_of_4 _ 8186) | apply (multiple_of_4 _ 8185)]; unfold top; lia. }
  unfold new_regs. change (stack + 4 * (StackSize - 4)) with top.
  erewrite run_instr; [| apply exec_push; [reflexivity |]]; cbn [get set r_esp]; rewrite ?(u32_id (top - 4)) by (unfold is_u32, top; lia); [| auto].
  erewrite run_instr; [| apply exec_move; reflexivity]; cbn [get set r_esp].
  erewrite run_instr; [| apply exec_push; [reflexivity |]]; cbn [get set r_esp]; replace (top - 4 - 4) with (top - 8) by lia;
    rewrite ?(u32_id (top - 8)) by (unfold is_u32, top; lia); [| apply lookup_insert_is_Some'; auto].
  erewrite run_instr; [| apply exec_call; [reflexivity |]]; cbn [get set r_esp]; replace (top - 8 - 4) with (top - 12) by lia;
    rewrite ?(u32_id (top - 12)) by (unfold is_u32, top; lia); [| do 2 (apply lookup_insert_is_Some'; right); auto].
  cbn. reflexivity.
Qed.

(** A call of ThreadRoot that another call has returned to. *)
Lemma thread_root_calls i x s : pc s = In ThreadRoot i -> ThreadRoot_code !! i = Some (call x) -> 4 <= r_esp (rs s) < 2 ^ 32 ->
  is_Some (mem s !! (r_esp (rs s) - 4)) ->
  run 1 s = Ok (mk (resolve (get x (rs s))) (set esp (r_esp (rs s) - 4) (rs s)) (<[r_esp (rs s) - 4 := label ThreadRoot (S i)]> (mem s))).
Proof using Type.
  intros Hp Hc He Hm. destruct s as [p r m]. cbn [pc rs mem] in *. subst p.
  erewrite run_instr; [| apply exec_call; [exact Hc |]]; cbn [get]; rewrite u32_id by (unfold is_u32; lia); done.
Qed.

(** C7: A new thread runs ThreadBegin, then its procedure on its argument, then
    ThreadFinish: when SWITCH gives it the processor, four instructions of
    ThreadRoot lead to ThreadBegin; when that returns, to the procedure, with the
    argument where the calling convention wants it; and when that returns, to
    ThreadFinish.  No instruction in between faults, and the return address of the
    procedure is still there. *)
Theorem forked_thread_runs w t func arg stack m0 ra : reachable w -> at_switch w t ra -> parked w !! t = Some (new_ctx func arg stack m0) ->
  stk w !! t = Some (stack, stack + stack_bytes) ->
  resolve ThreadBegin = At ThreadBegin -> resolve func = At func -> resolve ThreadFinish = At ThreadFinish ->
  exists s0, run 31 (cpu w) = Ok s0 /\ pc s0 = At ThreadBegin /\
    forall s1, returns 0 (stack + stack_bytes) s0 s1 ->
    exists s2, run 1 s1 = Ok s2 /\ pc s2 = At func /\ mem s2 !! (r_esp (rs s2) + 4) = Some arg /\
      forall s3, returns 1 (stack + stack_bytes) s2 s3 ->
      exists s4, run 1 s3 = Ok s4 /\ pc s4 = At ThreadFinish.
Proof using label_inj.
  intros Hr Ha Hc Hs Hb Hf Hfi. pose proof (reachable_Inv _ Hr) as Hi.
  destruct (switch_parked w t ra _ Hi Ha Hc) as (s & lo & hi & E & Hp & Hrs & Hs' & Hg & _).
  rewrite Hs in Hs'. injection Hs' as <- <-. destruct (inv_home _ Hi _ _ _ Hs) as [_ [H0 H1] _ _ _ _ Hm].
  apply (mapped_grows _ _ _ _ Hm) in Hg. clear Hm. destruct s as [p r m]. cbn in Hp, Hrs, Hg. subst p r.
  rewrite resolve_label in E by (apply thread_root_point; cbn; lia). set (top := stack + 32752).
  assert (stack + stack_bytes = top + 16) as Htop by (unfold top, stack_bytes, StackSize; lia).
  assert (12 <= top - 12) as H12 by (unfold top; lia).
  eexists. split; [change 31%nat with (27 + 4)%nat; rewrite (run_app 27 4 _ _ E); by apply thread_root_starts |]. fold top. split; [exact Hb |].
  intros s1 [(ra1 & Hra1 & Hp1) He1 _ Hsi1 Hdi1 _ Hst1 Hg1]. cbn [rs mem r_esp r_esi r_edi] in *.
  rewrite lookup_insert_eq in Hra1. injection Hra1 as <-. rewrite resolve_label in Hp1 by (apply thread_root_point; cbn; lia).
  assert (mem s1 !! (top - 8) = Some arg) as Harg.
  { rewrite Hst1, lookup_insert_ne, lookup_insert_eq by lia. done. }
  assert (is_Some (mem s1 !! (top - 12))) as Hslot by (apply Hg1, lookup_insert_is_Some'; by left).
  eexists. split; [apply (thread_root_calls 4 InitialPC); [done | done | lia |] |].
  { rewrite He1. by replace (top - 12 + 4 - 4) with (top - 12) by lia. }
  cbn [InitialPC get]. rewrite Hsi1, He1. replace (top - 12 + 4 - 4) with (top - 12) by lia.
  destruct s1 as [p1 [a1 b1 c1 d1 si1 di1 bp1 sp1] m1]. cbn [pc rs mem set r_esp r_edi r_esi] in *. split_and!; [exact Hf | |].
  { rewrite lookup_insert_ne by lia. by replace (top - 12 + 4) with (top - 8) by lia. }
  intros s3 [(ra3 & Hra3 & Hp3) He3 _ _ Hdi3 _ _ Hg3]. cbn [rs mem r_esp r_edi] in *.
  rewrite lookup_insert_eq in Hra3. injection Hra3 as <-. rewrite resolve_label in Hp3 by (apply thread_root_point; cbn; lia).
  eexists. split; [apply (thread_root_calls 5 WhenDonePC); [done | done | lia |] |].
  { rewrite He3. replace (top - 12 + 4 - 4) with (top - 12) by lia. apply Hg3, lookup_insert_is_Some'. by left. }
  cbn [pc WhenDonePC get]. by rewrite Hdi3, Hdi1.
Qed.
End machine.

(** ** Two threads *)

Module SwitchDemo.

Definition label (b : block) (i : nat) : Z := match b with SWITCH => 1000 | ThreadRoot => 5000 end + 4 * Z.of_nat i.
Definition eax_save := 100.
Definition ThreadBegin := 7100.
Definition ThreadFinish := 7200.
Definition func := 7000.

Lemma label_inj p q : p ∈ points -> q ∈ points -> label p.1 p.2 = label q.1 q.2 -> p = q.
Proof.
  assert (forall p, p ∈ points -> (p.2 < 27)%nat) as Hlt.
  { intros r [Hr | Hr]%elem_of_app; apply list_elem_of_fmap in Hr as (i & -> & Hi%elem_of_seq); cbn in *; lia. }
  intros Hp%Hlt Hq%Hlt. destruct p as [[|] i], q as [[|] j]; unfold label; cbn [fst snd] in *; intros E; try lia; f_equal; lia.
Qed.

(** [n] words from [lo]. *)
Definition words (lo n : Z) : memory := list_to_map ((fun i => (lo + 4 * i, 0)) <$> seqZ 0 n).

Lemma words_lookup lo n i : 0 <= i < n -> words lo n !! (lo + 4 * i) = Some 0.
Proof.
  intros Hi. apply elem_of_list_to_map_1'.
  - intros y Hy. by apply list_elem_of_fmap in Hy as (j & [= _ ->] & _).
  - apply list_elem_of_fmap. exists i. split; [done |]. apply elem_of_seqZ. lia.
Qed.

Lemma words_mapped lo n : mapped (words lo n) lo (lo + 4 * n).
Proof.
  intros x Hx H4. apply Z.mod_divide in H4 as [k Hk]; [| done]. replace x with (lo + 4 * k) by lia.
  rewrite words_lookup by lia. done.
Qed.

Lemma mapped_union_l m m' a b : mapped m a b -> mapped (m ∪ m') a b.
Proof. intros Hm x Hx H4. apply lookup_union_is_Some. left. by apply Hm. Qed.
Lemma mapped_union_r m m' a b : mapped m' a b -> mapped (m ∪ m') a b.
Proof. intros Hm x Hx H4. apply lookup_union_is_Some. right. by apply Hm. Qed.

(** main, with its object at 2000 and a stack from 3000 to 3400. *)
Definition mem0 : memory := <[eax_save := 0]> (words 2000 76 ∪ words 3000 100).
Definition main_regs := mkRegs 1 2 3 4 5 6 7 3040.
Definition w0 : world := mkWorld (mk (At 7777) main_regs mem0) 2000 ∅ {[2000 := (3000, 3400)]}.

Lemma home_main : home eax_save mem0 2000 3000 3400.
Proof.
  assert (grows (words 2000 76 ∪ words 3000 100) mem0) as Hg by apply grows_insert.
  split; unfold apart, eax_save, object_size, MachineStateSize; try lia; (eapply mapped_grows; [| exact Hg]).
  - apply mapped_union_l, words_mapped.
  - apply mapped_union_r, (words_mapped 3000 100).
Qed.

(** It makes a thread at 10000, with its stack at 20000. *)
Definition mem1 : memory := mem0 ∪ (words 10000 76 ∪ words 20000 StackSize).
Definition ok (r : res memory) : memory := match r with Ok m => m | Fault _ => ∅ end.
Definition mem2 := ok (Thread 10000 mem1).
Definition mem3 := ok (StackAllocate label ThreadBegin ThreadFinish 10000 func 42 20000 mem2).

Lemma home_new : home eax_save mem1 10000 20000 (20000 + stack_bytes).
Proof.
  split; unfold apart, eax_save, object_size, MachineStateSize, stack_bytes, StackSize; try lia; apply mapped_union_r.
  - apply mapped_union_l, words_mapped.
  - apply mapped_union_r, (words_mapped 20000 (8 * 1024)).
Qed.

Lemma mem2_eq : Thread 10000 mem1 = Ok mem2 /\ grows mem1 mem2 /\ forall i, 0 <= i <= MachineStateSize -> mem2 !! (10000 + 4 * i) = Some 0.
Proof.
  destruct (Thread_spec 10000 mem1 (ho_mapped _ _ _ _ _ home_new)) as (m & E & Hg & Hz & _).
  unfold mem2. rewrite E. exact (conj eq_refl (conj Hg Hz)).
Qed.

Lemma mem3_eq : StackAllocate label ThreadBegin ThreadFinish 10000 func 42 20000 mem2 = Ok mem3 /\ grows mem2 mem3.
Proof.
  destruct mem2_eq as (_ & Hg & Hz). destruct home_new as [[H1 H2] [H3 H4] Ha _ _ Hm Hm'].
  destruct (StackAllocate_spec label ThreadBegin ThreadFinish 10000 func 42 20000 mem2 H1 H2 H3 H4 Ha
    (mapped_grows _ _ _ _ Hm Hg) (mapped_grows _ _ _ _ Hm' Hg) Hz) as (m & E & Hg' & _).
  unfold mem3. rewrite E. exact (conj eq_refl Hg').
Qed.

Definition w1 : world :=
  mkWorld (mk (At 7777) main_regs mem3) 2000 {[10000 := new_ctx label ThreadBegin ThreadFinish func 42 20000 mem3]}
    (<[10000 := (20000, 20000 + stack_bytes)]> {[2000 := (3000, 3400)]}).

Lemma reach1 : reachable label eax_save ThreadBegin ThreadFinish w1.
Proof.
  exists w0. split.
  - split; [done |]. split; [unfold w0, mem0; cbn; by rewrite lookup_insert_eq |]. exists 3000, 3400. split; [done | exact home_main].
  - apply rtc_once. apply (Forks label eax_save ThreadBegin ThreadFinish w0 10000 func 42 20000 mem1 mem2 mem3).
    + by vm_compute.
    + intros a Ha. apply lookup_union_is_Some. by left.
    + intros a Ha. cbn. unfold mem1. apply lookup_union_l. apply lookup_union_None.
      split; apply not_elem_of_list_to_map_1; intros Hin; apply list_elem_of_fmap in Hin as ([b v] & -> & Hin);
        apply list_elem_of_fmap in Hin as (i & [= -> ->] & Hi%elem_of_seqZ); apply Ha;
        unfold belongs, in_object, object_size, MachineStateSize, stack_bytes, StackSize in *; cbn [fst]; lia.
    + exact home_new.
    + intros t' lo hi. cbn. intros [<- [= <- <-]]%lookup_singleton_Some.
      split; unfold apart, object_size, MachineStateSize, stack_bytes, StackSize; lia.
    + apply mem2_eq.
    + apply mem3_eq.
Qed.

(** main calls SWITCH(main, new) from 7777. *)
Definition w2 : world := call_switch w1 main_regs 10000 7777.
Lemma reach2 : reachable label eax_save ThreadBegin ThreadFinish w2 /\ at_switch w2 10000 7777.
Proof.
  unfold w2. assert (3000 <= r_esp main_regs) as H0 by (cbn; lia). assert (r_esp main_regs + 12 <= 3400) as H1 by (cbn; lia).
  exact (call_switch_reachable label eax_save ThreadBegin ThreadFinish w1 main_regs 10000 7777 3000 3400 reach1 eq_refl H0 H1).
Qed.

(** The new thread runs, calls SWITCH from 7050 later, and main is back. *)
Lemma kernel_state_survives_witness : exists w s, reachable label eax_save ThreadBegin ThreadFinish w /\ current w = 10000 /\
  at_switch w 2000 7050 /\ run label eax_save 27 (cpu w) = Ok s /\ pc s = At 7777 /\ rs s = mkRegs 1 2 3 4 5 6 7 3044.
Proof.
  destruct (kernel_state_survives label eax_save ThreadBegin ThreadFinish w2 10000 7777 _ (proj1 reach2) (proj2 reach2) eq_refl)
    as (s1 & lo & hi & _ & _ & _ & _ & _ & Hr3).
  destruct (call_switch_reachable label eax_save ThreadBegin ThreadFinish _ (mkRegs 9 9 9 9 9 9 9 50000) 2000 7050 20000 (20000 + stack_bytes) Hr3 eq_refl)
    as [Hr4 Ha4]; [cbn; lia | cbn; unfold stack_bytes, StackSize; lia |].
  destruct (kernel_state_survives label eax_save ThreadBegin ThreadFinish _ 2000 7050 _ Hr4 Ha4 eq_refl) as (s & _ & _ & E & Hp & Hrs & _).
  eexists _, s. split; [exact Hr4 |]. split; [reflexivity |]. split; [exact Ha4 |]. split; [exact E |].
  split; [rewrite Hp; vm_compute; reflexivity | exact Hrs].
Defined.

Lemma forked_thread_runs_witness : exists s0, run label eax_save 31 (cpu w2) = Ok s0 /\ pc s0 = At ThreadBegin.
Proof.
  destruct (forked_thread_runs label eax_save ThreadBegin ThreadFinish label_inj w2 10000 func 42 20000 mem3 7777 (proj1 reach2) (proj2 reach2)
    eq_refl eq_refl) as (s0 & E & Hp & _); [vm_compute; reflexivity.. |]. exists s0. exact (conj E Hp).
Defined.
End SwitchDemo.
End Switch.
