(* ===== verification/Locks.v ===== *)
(** * Locks: threads/synch.cc, class Lock

    Mutual exclusion.  Threads use a lock through [Acquire] and [Release] only:
    their programs do not touch its semaphore, and neither do the devices.  Then
    the value of the semaphore, the threads that are past its [P] but have not yet
    recorded themselves, and the recorded holder always make one. *)

From S2P Require Import Prelude Lists Machine Interrupt AddrSpace Threads Sched.

Module Locks.
Import Machine Interrupt Threads Sched.

(** ** Programs that keep to the interface *)

Fixpoint source (sl : list nat) (i : instr) : bool :=
  match i with
  | Call_P s | Call_V s => negb (bool_decide (s ∈ sl))
  | Wait_P _ _ | In_Sleep _ | Set_Holder _ => false
  | Call_Fork body => forallb (source sl) body
  | _ => true
  end.
Definition sources (sl : list nat) (c : list instr) : Prop := Forall (fun i => source sl i = true) c.

Definition lock_sems (k : kernel) : list nat := semaphore <$> locks k.

(** Where a thread can be, between two calls or inside of one. *)
Inductive disc (sl : list nat) : list instr -> Prop :=
  | d_source c : sources sl c -> disc sl c
  | d_level lv c : disc sl c -> disc sl (Set_Level lv :: c)
  | d_holder l c : sources sl c -> disc sl (Set_Holder l :: c)
  | d_call l s c : sl !! l = Some s -> sources sl c -> disc sl (Call_P s :: Set_Holder l :: c)
  | d_wait l s old c : sl !! l = Some s -> sources sl c -> disc sl (Wait_P s old :: Set_Holder l :: c)
  | d_wait_other s old c : s ∉ sl -> sources sl c -> disc sl (Wait_P s old :: c)
  | d_sleep s old c : disc sl (Wait_P s old :: c) -> disc sl (In_Sleep false :: Wait_P s old :: c)
  | d_finish c : sources sl c -> disc sl (In_Sleep true :: c).

(** Past [P], on the way to record itself (perhaps after a time slice). *)
Fixpoint enters (l : nat) (c : list instr) : bool :=
  match c with
  | Set_Level _ :: c' => enters l c'
  | Set_Holder l' :: _ => bool_decide (l' = l)
  | _ => false
  end.
Definition entering (l : nat) (o : option Thread) : Prop :=
  match o with Some th => enters l (code th) = true | None => False end.
#[global] Instance entering_dec l o : Decision (entering l o).
Proof. destruct o; cbn; apply _. Defined.

Definition held (lk : Lock) : Z := match lockHolder lk with Some _ => 1 | None => 0 end.

(** Value, threads that enter, and holder. *)
Definition balance (k : kernel) (l : nat) : Z :=
  match locks k !! l with
  | Some lk => match sems k !! semaphore lk with
               | Some sem => value sem + Z.of_nat (count (entering l) (threads k)) + held lk
               | None => 0
               end
  | None => 0
  end.

Record lock_inv (k : kernel) : Prop := {
  li_apart : NoDup (lock_sems k);
  li_code t th : alive k t th -> disc (lock_sems k) (code th);
  li_balance l : (l < length (locks k))%nat -> balance k l = 1;
}.

Lemma sources_enters sl l c : sources sl c -> enters l c = false.
Proof. induction 1 as [| i c Hi _ IH]; [done |]. by destruct i. Qed.

Lemma disc_tail sl i c : disc sl (i :: c) -> disc sl c.
Proof.
  intros Hd. inversion Hd as [? H | | | | | | |]; subst; try done.
  - apply Forall_cons in H as [_ ?]. by constructor.
  - by apply d_source.
  - by apply d_holder.
  - by apply d_holder.
  - by apply d_source.
  - by apply d_source.
Qed.

(** The holder of a lock only changes by the current thread's own calls. *)
Definition changes (t : nat) (a b : option nat) : Prop :=
  b = a \/ (a = None /\ b = Some t) \/ (a = Some t /\ b = None).

(** What a step does to the locks. *)
Record lock_step (k k' : kernel) : Prop := {
  ls_sems : lock_sems k' = lock_sems k;
  ls_code t th' : alive k' t th' -> disc (lock_sems k) (code th');
  ls_lock l lk sem : locks k !! l = Some lk -> sems k !! semaphore lk = Some sem ->
    exists lk' sem', locks k' !! l = Some lk' /\ sems k' !! semaphore lk = Some sem' /\
      changes (currentThread k) (lockHolder lk) (lockHolder lk') /\
      value sem' + Z.of_nat (count (entering l) (threads k')) + held lk' =
      value sem + Z.of_nat (count (entering l) (threads k)) + held lk;
}.

Lemma lock_sems_lookup k l : lock_sems k !! l = semaphore <$> locks k !! l.
Proof. apply list_lookup_fmap. Qed.

Lemma lock_step_inv k k' : inv k -> lock_inv k -> lock_step k k' -> lock_inv k'.
Proof.
  intros Hi [Hnd _ Hb] [Hs Hc Hl]. split; rewrite ?Hs; [done | done |]. intros l Hlt.
  assert (length (locks k') = length (locks k)) as Hlen
    by (rewrite <- (length_fmap semaphore (locks k')), <- (length_fmap semaphore (locks k)); apply (f_equal length Hs)).
  destruct (lookup_lt_is_Some_2 (locks k) l) as [lk Hlk]; [lia |].
  destruct (lookup_lt_is_Some_2 (sems k) (semaphore lk)) as [sem Hsem]; [by eapply i_locks |].
  destruct (Hl l lk sem Hlk Hsem) as (lk' & sem' & Hlk' & Hsem' & _ & He).
  assert (semaphore lk' = semaphore lk) as Hsm.
  { pose proof (lock_sems_lookup k' l) as H1. rewrite Hs, lock_sems_lookup, Hlk, Hlk' in H1. by injection H1. }
  specialize (Hb l ltac:(lia)). unfold balance in *. rewrite Hlk, Hsem in Hb. rewrite Hlk', Hsm, Hsem'. lia.
Qed.

Lemma entering_units l u : (if decide (entering l (Some u)) then 1 else 0) = (if enters l (code u) then 1 else 0).
Proof. unfold entering. case_decide as E; [by rewrite E | by destruct (enters l (code u))]. Qed.

(** When only the current thread changed. *)
Lemma update_lock_step k lv th th' ss ls :
  lock_inv k -> alive k (currentThread k) th ->
  Forall2 (fun a b => semaphore b = semaphore a /\ changes (currentThread k) (lockHolder a) (lockHolder b)) (locks k) ls ->
  disc (lock_sems k) (code th') -> length ss = length (sems k) ->
  (forall l lk lk' sem sem', locks k !! l = Some lk -> ls !! l = Some lk' ->
     sems k !! semaphore lk = Some sem -> ss !! semaphore lk = Some sem' ->
     value sem' + (if enters l (code th') then 1 else 0) + held lk' =
       value sem + (if enters l (code th) then 1 else 0) + held lk) ->
  lock_step k (update k lv th' ss ls).
Proof.
  intros Hk Ha Hls Hd Hss Hb. split.
  - unfold lock_sems. cbn [update locks]. clear -Hls. induction Hls as [| a b la lb [Hab _] _ IH]; [done |].
    rewrite !fmap_cons. by rewrite IH, Hab.
  - intros t u Hu. apply (alive_set k (currentThread k)) in Hu as [[-> ->] | [Hne Hu]];
      [done | by apply (li_code _ Hk t) | by eapply alive_lt].
  - intros l lk sem Hlk Hsem. destruct (Forall2_lookup_l _ _ _ _ _ Hls Hlk) as (lk' & Hlk' & Hsm & Hch).
    destruct (lookup_lt_is_Some_2 ss (semaphore lk)) as [sem' Hsem']; [rewrite Hss; by eapply lookup_lt_Some |].
    exists lk', sem'. split_and!; [done | done | done |].
    pose proof (count_insert (entering l) (threads k) (currentThread k) (Some th) (Some th') Ha) as Hc.
    rewrite !entering_units in Hc. specialize (Hb l lk lk' sem sem' Hlk Hlk' Hsem Hsem').
    cbn [update threads]. lia.
Qed.

Lemma locks_kept t (ls : list Lock) :
  Forall2 (fun a b => semaphore b = semaphore a /\ changes t (lockHolder a) (lockHolder b)) ls ls.
Proof. induction ls; constructor; [by split; [| left] | done]. Qed.

(** When it only moves on. *)
Lemma move_lock_step k lv th th' :
  lock_inv k -> alive k (currentThread k) th -> disc (lock_sems k) (code th') ->
  (forall l, enters l (code th') = enters l (code th)) -> lock_step k (update k lv th' (sems k) (locks k)).
Proof.
  intros Hk Ha Hd He. apply (update_lock_step k lv th); [done | done | apply locks_kept | done | done |].
  intros l lk lk' sem sem' H1 H2 H3 H4. rewrite He. congruence.
Qed.

Lemma changes_trans t a b c : changes t a b -> changes t b c -> changes t a c.
Proof. unfold changes. naive_solver. Qed.

Lemma lock_step_trans k1 k2 k3 :
  currentThread k2 = currentThread k1 -> lock_step k1 k2 -> lock_step k2 k3 -> lock_step k1 k3.
Proof.
  intros Hc [Hs1 _ Hl1] [Hs2 Hc2 Hl2]. split; [congruence | by rewrite <- Hs1 |].
  intros l lk sem Hlk Hsem. destruct (Hl1 l lk sem Hlk Hsem) as (lk1 & sem1 & Hlk1 & Hsem1 & Hch1 & He1).
  assert (semaphore lk1 = semaphore lk) as Hsm.
  { pose proof (lock_sems_lookup k2 l) as H1. rewrite Hs1, lock_sems_lookup, Hlk, Hlk1 in H1. by injection H1. }
  rewrite <- Hsm in Hsem1. destruct (Hl2 l lk1 sem1 Hlk1 Hsem1) as (lk2 & sem2 & Hlk2 & Hsem2 & Hch2 & He2).
  exists lk2, sem2. rewrite <- Hsm. split_and!; [done | done | | lia].
  rewrite Hc in Hch2. by eapply changes_trans.
Qed.

(** When the threads keep their code, and their number. *)
Lemma frame_lock_step k k' :
  lock_inv k -> locks k' = locks k -> (forall t th', alive k' t th' -> exists u th, alive k u th /\ code th' = code th) ->
  (forall l, count (entering l) (threads k') = count (entering l) (threads k)) ->
  (forall i sem, i ∈ lock_sems k -> sems k !! i = Some sem -> exists sem', sems k' !! i = Some sem' /\ value sem' = value sem) ->
  lock_step k k'.
Proof.
  intros Hk Hl Ht Hc Hs. split.
  - unfold lock_sems. by rewrite Hl.
  - intros t th' (u & th & Ha & ->)%Ht. by eapply li_code.
  - intros l lk sem Hlk Hsem. destruct (Hs (semaphore lk) sem) as (sem' & Hsem' & Hv); [| done |].
    { unfold lock_sems. apply list_elem_of_fmap. exists lk. split; [done |]. by eapply list_elem_of_lookup_2. }
    exists lk, sem'. rewrite Hl, Hc, Hv. split_and!; [done | done | by left | done].
Qed.

(** *** Signalling *)

Lemma V_effect k s k' :
  inv k -> (s < length (sems k))%nat -> V k s = Ok k' ->
  locks k' = locks k /\ (forall t th', alive k' t th' -> exists th, alive k t th /\ code th' = code th) /\
  (forall l, count (entering l) (threads k') = count (entering l) (threads k)) /\
  (forall i sem, sems k !! i = Some sem -> exists sem', sems k' !! i = Some sem' /\
     value sem' = value sem + (if decide (i = s) then 1 else 0)).
Proof.
  intros Hi Hs HV. destruct (lookup_lt_is_Some_2 _ _ Hs) as [sem Hsem].
  assert (forall q i sem0, sems k !! i = Some sem0 -> exists sem', <[s := mkSem (value sem + 1) q]> (sems k) !! i = Some sem' /\
     value sem' = value sem0 + (if decide (i = s) then 1 else 0)) as Hsems.
  { intros q i sem0 H0. destruct (decide (i = s)) as [-> | Hne].
    - rewrite list_lookup_insert_eq by done. eexists. split; [done |]. cbn. congruence.
    - rewrite list_lookup_insert_ne by done. exists sem0. split; [done | lia]. }
  destruct (V_cases k s sem Hi Hsem) as [(_ & HV') | (t & q & th & _ & Ha & _ & _ & HV')];
    rewrite HV in HV'; injection HV' as ->; (split; [done |]); (split; [| split; [| apply Hsems]]).
  - intros t th Ha. by exists th.
  - done.
  - intros u w Hu. apply (alive_set k t) in Hu as [[-> ->] | [_ Hu]]; [by exists th | by exists w | by eapply alive_lt].
  - intros l. apply (count_insert_same _ _ _ (Some th)); done.
Qed.

Lemma V_other_lock_step k s k' :
  inv k -> lock_inv k -> (s < length (sems k))%nat -> s ∉ lock_sems k -> V k s = Ok k' -> lock_step k k'.
Proof.
  intros Hi Hk Hs Hn HV. destruct (V_effect k s k' Hi Hs HV) as (Hl & Ht & Hc & Hv).
  apply frame_lock_step; [done | done | | done |].
  - intros t th' (th & ? & ?)%Ht. by exists t, th.
  - intros i sem Hin Hsem. destruct (Hv i sem Hsem) as (sem' & ? & Hv'). exists sem'.
    rewrite decide_False in Hv' by congruence. split; [done | lia].
Qed.

(** [Release]: the unit goes from the holder to the semaphore. *)
Lemma Release_lock_step k th l k' :
  good k -> running k th -> lock_inv k -> (l < length (locks k))%nat -> Release k l = Ok k' -> lock_step k k'.
Proof.
  intros Hg Hr Hk Hl HR. pose proof (proj1 Hg) as Hi. destruct (lookup_lt_is_Some_2 _ _ Hl) as [lk Hlk].
  unfold Release in HR. rewrite Hlk in HR. cbn [deref mbind res_bind] in HR.
  destruct (bool_decide (lockHolder lk = Some (currentThread k))) eqn:Hh; [apply bool_decide_eq_true in Hh | done].
  cbn [ASSERT mbind res_bind] in HR. destruct (set_holder_good k th Hg Hr l None Hl) as (k1 & Hk1 & Hg1 & _ & Hss).
  rewrite Hk1 in HR. cbn [mbind res_bind] in HR. unfold set_holder in Hk1. rewrite Hlk in Hk1. injection Hk1 as Hk1.
  assert (sems k1 = sems k /\ threads k1 = threads k /\ locks k1 = <[l := mkLock (semaphore lk) None]> (locks k)) as (Hs1 & Ht1 & Hl1)
    by (by rewrite <- Hk1).
  destruct (V_effect k1 (semaphore lk) k' (proj1 Hg1)) as (Hl' & Ht' & Hc' & Hv'); [rewrite Hss; by eapply i_locks | done |].
  rewrite Hl1 in Hl'. rewrite Hs1 in Hv'. clear HR. split.
  - unfold lock_sems. rewrite Hl', list_fmap_insert. apply list_insert_id. by rewrite list_lookup_fmap, Hlk.
  - intros t th' Ha'. destruct (Ht' t th' Ha') as (th0 & Ha0 & ->). unfold alive in Ha0. rewrite Ht1 in Ha0. by eapply li_code.
  - intros l2 lk2 sem2 Hlk2 Hsem2. destruct (Hv' _ _ Hsem2) as (sem' & Hsem' & Hval).
    rewrite Hl', Hc', Ht1. destruct (decide (l2 = l)) as [-> | Hne].
    + pose proof (eq_trans (eq_sym Hlk) Hlk2) as [= <-]. rewrite list_lookup_insert_eq by done.
      eexists _, sem'. split_and!; [done | done | right; right; by split |]. rewrite Hval, decide_True by done.
      unfold held. rewrite Hh. cbn. lia.
    + rewrite list_lookup_insert_ne by done. exists lk2, sem'. split_and!; [done | done | by left |].
      rewrite Hval, decide_False; [lia |]. intros He. apply Hne.
      apply (NoDup_lookup (lock_sems k) l2 l (semaphore lk)); [by destruct Hk | |]; rewrite lock_sems_lookup.
      * rewrite Hlk2. cbn. by rewrite He.
      * by rewrite Hlk.
Qed.

(** *** Switching *)

Lemma switch_lock_step k th th' l n fin k' :
  inv k -> lock_inv k -> alive k (currentThread k) th -> disc (lock_sems k) (code th') ->
  (forall l, enters l (code th') = enters l (code th)) -> (fin = true -> forall l, enters l (code th') = false) ->
  switching (give k th' l) n fin -> Run (give k th' l) n fin = Ok k' -> lock_step k k'.
Proof.
  intros Hi Hk Ha Hd He Hf Hsw HR. destruct (Run_switches _ _ _ Hsw) as (k2 & HR2 & Hst).
  rewrite HR in HR2. injection HR2 as <-. pose proof (move_lock_step k IntOff th th' Hk Ha Hd He) as H1.
  eapply lock_step_trans; [| exact H1 |]; [done |]. pose proof (lock_step_inv _ _ Hi Hk H1) as Hk1.
  apply frame_lock_step; [done | by rewrite (st_locks _ _ _ _ Hst) | | |].
  - intros t u' Hu'. destruct (decide (t = n)) as [-> | Hne].
    + destruct (st_next _ _ _ _ Hst) as (nth & nth' & Hn & Hn' & _ & Hs). pose proof (alive_fun _ _ _ _ Hu' Hn') as ->.
      exists n, nth. split; [done | by destruct Hs].
    + destruct (st_back _ _ _ _ Hst t u' Hu' Hne) as (_ & u & Hu & _ & Hs). exists t, u. split; [done | by destruct Hs].
  - intros l2. rewrite (st_count _ _ _ _ Hst (entering l2)); [done | tauto | |].
    + intros u u' [Hc _ _] _. cbn. by rewrite Hc.
    + intros -> u Hu. assert (u = th') as ->; [| cbn; by rewrite Hf].
      apply (alive_set k (currentThread k)) in Hu as [[_ ->] | [? _]]; [done | done | by eapply alive_lt].
  - rewrite (st_sems _ _ _ _ Hst). intros i sem _ Hsem. by exists sem.
Qed.

Lemma Yield_lock_step k th k' : inv k -> running k th -> lock_inv k -> Yield k = Ok k' -> lock_step k k'.
Proof.
  intros Hi Hr Hk HY. pose proof (rn_alive _ _ Hr) as Ha. destruct (readyList k) as [| n l] eqn:Hl.
  - rewrite Yield_alone in HY by done. injection HY as <-. apply frame_lock_step; [done | done | | done | by eauto].
    intros t th' Ht. by exists t, th'.
  - rewrite (Yield_gives k th n l) in HY by done.
    apply (switch_lock_step k th (yielded k th) (l ++ [currentThread k]) n false); [done | done | done | | done | done | by apply Yield_switching | done].
    cbn. apply d_level. by eapply li_code.
Qed.

Lemma wake_up_lock_step k th fin c n l k' :
  inv k -> lock_inv k -> alive k (currentThread k) th -> code th = In_Sleep fin :: c -> readyList k = n :: l ->
  Run (give k (set_code th c) l) n fin = Ok k' -> lock_step k k'.
Proof.
  intros Hi Hk Ha Hc Hl HR. pose proof (li_code _ Hk _ _ Ha) as Hd. rewrite Hc in Hd.
  destruct (wake_up_switching k th fin c n l Hi Ha Hc Hl) as [Hsw _].
  assert (forall l, enters l c = false) as He.
  { intros l2. inversion Hd as [? H0 | | | | | | |]; subst; [| done | by eapply sources_enters].
    by apply Forall_cons in H0 as [? _]. }
  apply (switch_lock_step k th (set_code th c) l n fin); [done | done | done | by eapply disc_tail | | done | done | done].
  intros l2. rewrite Hc. cbn. apply He.
Qed.

(** *** The calls *)

Lemma fork_lock_step fresh k body :
  lock_inv k -> sources (lock_sems k) body -> lock_step k (forked fresh k body).
Proof.
  intros Hk Hb. split; [done | |].
  - intros t th' Ht. apply lookup_app_Some in Ht as [Ht | [_ Ht]]; [by eapply li_code |].
    apply list_lookup_singleton_Some in Ht as [_ [= <-]].
    cbn. apply d_level, d_source, Forall_app. by split; [| repeat constructor].
  - intros l lk sem Hlk Hsem. exists lk, sem. split_and!; [done | done | by left |].
    cbn [forked with_ready with_threads threads]. rewrite count_snoc; [done |]. cbn.
    by rewrite (sources_enters (lock_sems k)) by (apply Forall_app; by split; [| repeat constructor]).
Qed.

(** [P] takes the unit for the lock. *)
Lemma take_lock_step k th s old r sem :
  inv k -> lock_inv k -> alive k (currentThread k) th -> code th = Wait_P s old :: r -> sems k !! s = Some sem ->
  lock_step k (update k old (set_code th r) (taken k s sem) (locks k)).
Proof.
  intros Hi Hk Ha Hc Hs. pose proof (li_code _ Hk _ _ Ha) as Hd. rewrite Hc in Hd.
  apply (update_lock_step k old th); [done | done | apply locks_kept | by eapply disc_tail | by unfold taken; rewrite length_insert |].
  intros l lk lk' sm sm' Hlk Hlk' Hsm Hsm'. pose proof (eq_trans (eq_sym Hlk) Hlk') as [= <-]. rewrite Hc. cbn [set_code code enters].
  assert (lock_sems k !! l = Some (semaphore lk)) as Hsl by (by rewrite lock_sems_lookup, Hlk).
  unfold taken in Hsm'. destruct (decide (semaphore lk = s)) as [He | Hne].
  - rewrite He in *. rewrite Hs in Hsm. injection Hsm as <-. rewrite list_lookup_insert_eq in Hsm' by (by eapply lookup_lt_Some).
    injection Hsm' as <-. cbn [value]. inversion Hd as [? H0 | | | | l2 ? ? ? Hl2 | ? ? ? Hn | |]; subst.
    + by apply Forall_cons in H0 as [? _].
    + assert (l2 = l) as -> by (by eapply NoDup_lookup; [destruct Hk | |]). cbn [enters]. rewrite bool_decide_true by done. lia.
    + destruct Hn. by eapply list_elem_of_lookup_2.
  - rewrite list_lookup_insert_ne in Hsm' by done. pose proof (eq_trans (eq_sym Hsm) Hsm') as [= <-].
    inversion Hd as [? H0 | | | | l2 ? ? ? Hl2 | ? ? ? Hn Hr | |]; subst.
    + by apply Forall_cons in H0 as [? _].
    + cbn [enters]. rewrite bool_decide_false; [done |]. congruence.
    + by rewrite (sources_enters (lock_sems k)).
Qed.

(** Blocking in [P] touches only the queue. *)
Lemma block_lock_step k th s old r sem :
  lock_inv k -> alive k (currentThread k) th -> code th = Wait_P s old :: r -> sems k !! s = Some sem ->
  lock_step k (suspend k (blocked th s old r) (queued k s sem)).
Proof.
  intros Hk Ha Hc Hs. pose proof (li_code _ Hk _ _ Ha) as Hd. rewrite Hc in Hd.
  apply (update_lock_step k IntOff th); [done | done | apply locks_kept | by apply d_sleep | by unfold queued; rewrite length_insert |].
  intros l lk lk' sm sm' Hlk Hlk' Hsm Hsm'. pose proof (eq_trans (eq_sym Hlk) Hlk') as [= <-]. rewrite Hc. cbn.
  unfold queued in Hsm'. destruct (decide (semaphore lk = s)) as [He | Hne].
  - rewrite He in *. rewrite list_lookup_insert_eq in Hsm' by (by eapply lookup_lt_Some). injection Hsm' as <-. cbn.
    rewrite Hs in Hsm. by injection Hsm as <-.
  - rewrite list_lookup_insert_ne in Hsm' by done. congruence.
Qed.

(** A thread that enters finds the lock free. *)
Lemma enter_free k l lk th :
  inv k -> lock_inv k -> locks k !! l = Some lk -> alive k (currentThread k) th -> enters l (code th) = true ->
  lockHolder lk = None.
Proof.
  intros Hi Hk Hlk Ha He. destruct (lookup_lt_is_Some_2 (sems k) (semaphore lk)) as [sem Hsem]; [by eapply i_locks |].
  pose proof (li_balance _ Hk l (lookup_lt_Some _ _ _ Hlk)) as Hb. unfold balance in Hb. rewrite Hlk, Hsem in Hb.
  pose proof (si_value _ _ _ (i_sems _ Hi _ _ Hsem)).
  pose proof (count_insert (entering l) (threads k) (currentThread k) (Some th) None Ha) as Hc.
  rewrite entering_units, He, (decide_False (P := entering l None)) in Hc by (by intros []).
  unfold held in Hb. destruct (lockHolder lk); [lia | done].
Qed.

Lemma holder_lock_step k th l r lk :
  inv k -> lock_inv k -> alive k (currentThread k) th -> code th = Set_Holder l :: r -> locks k !! l = Some lk ->
  lock_step k (update k (level k) (set_code th r) (sems k) (<[l := mkLock (semaphore lk) (Some (currentThread k))]> (locks k))).
Proof.
  intros Hi Hk Ha Hc Hlk. pose proof (li_code _ Hk _ _ Ha) as Hd. rewrite Hc in Hd.
  assert (lockHolder lk = None) as Hfree by (apply (enter_free k l lk th); try done; rewrite Hc; cbn; by rewrite bool_decide_true).
  assert (sources (lock_sems k) r) as Hr by (inversion Hd as [? H0 | | | | | | |]; subst; [by apply Forall_cons in H0 as [? _] | done]).
  apply (update_lock_step k _ th); [done | done | | by eapply disc_tail | done |].
  - apply Forall2_same_length_lookup. split; [by rewrite length_insert |]. intros i a b Hia Hib.
    destruct (decide (i = l)) as [-> | Hne].
    + rewrite list_lookup_insert_eq in Hib by (by eapply lookup_lt_Some). injection Hib as <-.
      pose proof (eq_trans (eq_sym Hlk) Hia) as [= <-]. split; [done |]. right. by left.
    + rewrite list_lookup_insert_ne in Hib by done. pose proof (eq_trans (eq_sym Hia) Hib) as [= <-]. by split; [| left].
  - intros i a b sm sm' Hia Hib Hsm Hsm'. pose proof (eq_trans (eq_sym Hsm) Hsm') as [= <-].
    rewrite Hc. cbn [set_code code enters]. rewrite (sources_enters (lock_sems k)) by done.
    destruct (decide (i = l)) as [-> | Hne].
    + rewrite list_lookup_insert_eq in Hib by (by eapply lookup_lt_Some). injection Hib as <-.
      pose proof (eq_trans (eq_sym Hlk) Hia) as [= <-]. rewrite bool_decide_true by done. unfold held. rewrite Hfree. cbn. lia.
    + rewrite list_lookup_insert_ne in Hib by done. pose proof (eq_trans (eq_sym Hia) Hib) as [= <-].
      by rewrite bool_decide_false by congruence.
Qed.

(** A call of the interface leaves only calls of the interface. *)
Lemma disc_source sl i c : disc sl (i :: c) ->
  match i with
  | Call_P s => True
  | Set_Level _ | Wait_P _ _ | In_Sleep _ | Set_Holder _ => True
  | _ => source sl i = true /\ sources sl c
  end.
Proof. intros Hd. destruct i; try done; inversion Hd as [? H0 | | | | | | |]; subst; by apply Forall_cons in H0. Qed.

Lemma pop_lock_step k th i c :
  lock_inv k -> running k th -> code th = i :: c -> sources (lock_sems k) (i :: c) ->
  lock_step k (set_thread k (currentThread k) (set_code th c)).
Proof.
  intros Hk Hr Hc [Hi Hs]%Forall_cons. apply (move_lock_step k (level k) th); [done | apply Hr | by apply d_source |].
  intros l. rewrite Hc. cbn [set_code code]. rewrite !(sources_enters (lock_sems k)); [done | by apply Forall_cons | done].
Qed.

Lemma Finish_lock_step k th k' :
  lock_inv k -> running k th -> sources (lock_sems k) (code th) -> Finish k = Ok k' -> lock_step k k'.
Proof.
  intros Hk Hr Hs HF. unfold Finish, Sleep in HF. rewrite (thread_alive _ _ th) in HF by apply Hr. cbn in HF. injection HF as <-.
  apply (move_lock_step k IntOff th); [done | apply Hr | by apply d_finish |].
  intros l. cbn. by rewrite (sources_enters (lock_sems k)).
Qed.

Lemma P_lock_step k th s c k' :
  lock_inv k -> running k th -> code th = Call_P s :: c ->
  P (set_thread k (currentThread k) (set_code th c)) s = Ok k' -> lock_step k k'.
Proof.
  intros Hk Hr Hc HP. pose proof (li_code _ Hk _ _ (rn_alive _ _ Hr)) as Hd. rewrite Hc in Hd.
  unfold P in HP. rewrite (push_level _ (set_code th c)) in HP.
  2: { unfold alive. cbn. rewrite list_lookup_insert_eq; [done | by eapply alive_lt, Hr]. }
  unfold set_thread, with_threads, with_level in HP. cbn in HP. rewrite list_insert_insert_eq in HP. injection HP as <-.
  apply (move_lock_step k IntOff th); [done | apply Hr | |].
  - cbn. inversion Hd as [? H0 | | | | | | |]; subst; [| by apply d_wait].
    apply Forall_cons in H0 as [Hs ?]. apply d_wait_other; [| done]. cbn in Hs. by apply negb_true_iff, bool_decide_eq_false in Hs.
  - intros l. by rewrite Hc.
Qed.

Lemma Acquire_lock_step k th l k' :
  lock_inv k -> running k th -> sources (lock_sems k) (code th) -> Acquire k l = Ok k' -> lock_step k k'.
Proof.
  intros Hk Hr Hs HA. unfold Acquire in HA. destruct (locks k !! l) as [lk |] eqn:Hlk; [| done].
  cbn [deref mbind res_bind] in HA. rewrite (push_spec _ th) in HA by apply Hr. injection HA as <-.
  apply (move_lock_step k (level k) th); [done | apply Hr | |].
  - cbn. apply d_call; [| done]. by rewrite lock_sems_lookup, Hlk.
  - intros l2. cbn. by rewrite (sources_enters (lock_sems k)).
Qed.

Lemma exec_lock_step fresh k th k' :
  length fresh = 40%nat -> good k -> running k th -> lock_inv k -> exec fresh k = Some (Ok k') -> lock_step k k'.
Proof.
  intros Hf Hg Hr Hk. pose proof (proj1 Hg) as Hi. pose proof (rn_alive _ _ Hr) as Ha.
  pose proof (li_code _ Hk _ _ Ha) as Hd. unfold exec. rewrite Ha. destruct (code th) as [| i c] eqn:Hc.
  { intros [= HF]. apply (Finish_lock_step k th); [done | done | by rewrite Hc; apply Forall_nil | done]. }
  destruct (pop_good k th Hg Hr i c Hc) as (Hg' & Hr' & Hpl). cbn [tail].
  pose proof (disc_source _ _ _ Hd) as Hsrc. pose proof (pop_lock_step k th i c Hk Hr Hc) as Hpop.
  set (k1 := set_thread k (currentThread k) (set_code th c)) in *.
  assert (lock_step k k1 -> lock_inv k1) as Hk1 by (by apply lock_step_inv).
  assert (source (lock_sems k) i = true /\ sources (lock_sems k) c -> lock_step k k1) as Hpop'
    by (intros [? ?]; apply Hpop; by apply Forall_cons).
  assert (lock_step k k1 -> lock_step k1 k' -> lock_step k k') as Ht by (by apply lock_step_trans).
  destruct i; cbn [plain] in Hpl; try discriminate; try apply bool_decide_eq_true in Hpl; intros [= H];
    try (pose proof (Hpop' Hsrc) as H1; pose proof (Hk1 H1) as Hi1; apply Ht; [exact H1 |]; destruct Hsrc as [Hs Hcs]).
  - by apply (P_lock_step k th s c).
  - apply (V_other_lock_step k1 s); [apply Hg' | done | done | | done]. by apply negb_true_iff, bool_decide_eq_false in Hs.
  - by apply (Yield_lock_step k1 (set_code th c)); [apply Hg' | | |].
  - subst k'. apply (move_lock_step k l th); [done | done | by eapply disc_tail | intros l2; by rewrite Hc].
  - rewrite (Fork_forked fresh k1 _ body Hg' Hr' Hf Hpl) in H. injection H as <-. apply fork_lock_step; [done |].
    apply Forall_forall. intros j Hj. by apply (forallb_forall (source (lock_sems k)) body), list_elem_of_In.
  - by apply (Finish_lock_step k1 (set_code th c)).
  - by apply (Acquire_lock_step k1 (set_code th c) l).
  - destruct (lookup_lt_is_Some_2 _ _ Hpl) as [lk Hlk]. unfold set_holder in H.
    change (locks k1) with (locks k) in H. rewrite Hlk in H. injection H as <-. by apply (holder_lock_step k th).
  - by apply (Release_lock_step k1 (set_code th c) l).
  - subst k'. apply (move_lock_step k1 (level k1) (set_code th c)); [done | apply Hr' | by apply d_source | done].
Qed.

(** Devices do not touch the semaphores of locks. *)
Definition allowed (k : kernel) (e : event) : Prop :=
  valid k e /\ match e with Device s => s ∉ lock_sems k | _ => True end.

Lemma step_lock_step fresh k e k' :
  length fresh = 40%nat -> good k -> lock_inv k -> allowed k e -> step fresh k e = Some (Ok k') -> lock_step k k'.
Proof.
  intros Hf Hg Hk [Hv Hdev]. pose proof Hg as [Hi _]. destruct (current_cases k Hi) as (th & Ha & Hcase).
  destruct e as [| | s | m]; cbn [step].
  - destruct Hcase as [Hr | [(s & old & c & Hst & Hc) | (fin & c & Hc)]].
    + by apply (exec_lock_step fresh k th).
    + unfold exec. rewrite Ha, Hc. intros [= H].
      destruct (P_loop_cases k th s old c Hg Ha Hst Hc) as (sem & Hs & [(_ & E) | (_ & E)]);
        unfold popped in E; cbn [tail] in H; rewrite E in H; injection H as <-;
        [by apply block_lock_step | by apply take_lock_step].
    + rewrite (exec_sleep fresh k th fin c Hi Ha Hc). destruct (readyList k) as [| n l] eqn:Hl; [done |]. intros [= H].
      by apply (wake_up_lock_step k th fin c n l).
  - destruct (decide (level k = IntOn)) as [Hlv |]; [| done]. intros [= H].
    apply (Yield_lock_step k th); [done | by apply running_on | done | done].
  - destruct (_ || _); [| done]. intros [= H]. by apply (V_other_lock_step k s).
  - case_decide; [| done]. intros [= <-]. apply frame_lock_step; [done | done | | done | by eauto].
    intros t th' Ht. by exists t, th'.
Qed.

(** The states of a kernel that uses its locks through their interface. *)
Inductive runs (fresh : list Z) (k0 : kernel) : kernel -> Prop :=
  | runs_refl : runs fresh k0 k0
  | runs_step k e k' : runs fresh k0 k -> allowed k e -> step fresh k e = Some (Ok k') -> runs fresh k0 k'.

Lemma runs_inv fresh k0 k : length fresh = 40%nat -> good k0 -> lock_inv k0 -> runs fresh k0 k -> good k /\ lock_inv k.
Proof.
  intros Hf Hg Hk. induction 1 as [| k e k' _ [Hgk Hkk] Ha Hst]; [done |].
  destruct (step_fine fresh k e _ Hf Hgk (proj1 Ha) Hst) as [(k2 & [= <-] & Hg') | [? _]]; [| done].
  split; [done |]. eapply lock_step_inv; [apply Hgk | done | by eapply step_lock_step].
Qed.

(** Every lock with a semaphore of its own, that is 1. *)
Record fresh_locks (prog : list instr) (ss : list Semaphore) (ls : list Lock) : Prop := {
  fl_apart : NoDup (semaphore <$> ls);
  fl_free : Forall (fun lk => ss !! semaphore lk = Some (new_Semaphore 1) /\ lockHolder lk = None) ls;
  fl_source : sources (semaphore <$> ls) prog;
}.

Lemma Initialize_lock_inv fresh m prog ss ls : fresh_locks prog ss ls -> lock_inv (Initialize fresh m prog ss ls).
Proof.
  intros [Hnd Hfree Hsrc]. split; [done | |].
  - intros [| t] th Ha; [| done]. cbn in Ha. injection Ha as <-. by apply d_source.
  - intros l Hl. cbn in Hl. destruct (lookup_lt_is_Some_2 _ _ Hl) as [lk Hlk].
    destruct (proj1 (Forall_lookup _ _) Hfree l lk Hlk) as [Hs Hh]. unfold balance. cbn [Initialize locks sems threads].
    rewrite Hlk, Hs. unfold held, count. rewrite Hh, filter_cons_False, filter_nil; [done |].
    cbn. by rewrite (sources_enters (semaphore <$> ls)).
Qed.

(** C12: a lock is held by at most one thread, and only its holder gives it back.  Of
    the value of its semaphore, the threads that have passed [P] and are about to
    record themselves, and the recorded holder, exactly one is there at any time;
    so no [Acquire] returns while the lock is held, and a step leaves the holder as
    it is unless the lock is free and the current thread takes it, or the current
    thread is the holder and releases it. *)
Theorem lock_mutual_exclusion fresh m prog ss ls k l lk e k' :
  starts fresh m prog ss ls -> fresh_locks prog ss ls -> runs fresh (Initialize fresh m prog ss ls) k ->
  locks k !! l = Some lk -> allowed k e -> step fresh k e = Some (Ok k') ->
  (exists sem, sems k !! semaphore lk = Some sem /\
     ((value sem = 1 /\ lockHolder lk = None /\ count (entering l) (threads k) = 0%nat) \/
      (value sem = 0 /\ lockHolder lk = None /\ count (entering l) (threads k) = 1%nat) \/
      (value sem = 0 /\ lockHolder lk <> None /\ count (entering l) (threads k) = 0%nat))) /\
  exists lk', locks k' !! l = Some lk' /\
    (lockHolder lk' = lockHolder lk \/
     (lockHolder lk = None /\ lockHolder lk' = Some (currentThread k)) \/
     (lockHolder lk = Some (currentThread k) /\ lockHolder lk' = None)).
Proof.
  intros Hs Hfl Hr Hlk Ha Hst. pose proof (so_fresh _ _ _ _ _ Hs) as Hf.
  destruct (runs_inv fresh _ k Hf (Initialize_good _ _ _ _ _ Hs) (Initialize_lock_inv _ _ _ _ _ Hfl) Hr) as [Hg Hk].
  destruct (lookup_lt_is_Some_2 (sems k) (semaphore lk)) as [sem Hsem]; [by eapply i_locks; [apply Hg |] |].
  pose proof (li_balance _ Hk l (lookup_lt_Some _ _ _ Hlk)) as Hb. unfold balance, held in Hb. rewrite Hlk, Hsem in Hb.
  pose proof (si_value _ _ _ (i_sems _ (proj1 Hg) _ _ Hsem)) as Hv.
  destruct (ls_lock _ _ (step_lock_step fresh k e k' Hf Hg Hk Ha Hst) l lk sem Hlk Hsem) as (lk' & _ & Hlk' & _ & Hch & _).
  split; [| by exists lk']. exists sem. split; [done |]. destruct (lockHolder lk).
  - right. right. split_and!; [lia | done | lia].
  - destruct (decide (value sem = 1)); [left | right; left]; split_and!; try done; lia.
Qed.
End Locks.

(** ** Two threads and a lock *)
Module LocksDemo.
Import Machine Interrupt Threads Sched Locks.

Definition fresh : list Z := replicate 40 7.
Definition m0 : Machine.t := Machine.mk (replicate 40 0) [] None None 0.
Definition section : list instr := [Call_Acquire 0; Call_Yield; Call_Release 0].
Definition prog : list instr := Call_Fork section :: section.
Definition ss : list Semaphore := [new_Semaphore 1].
Definition ls : list Lock := [new_Lock 0].

Definition run (k : kernel) (es : list event) : option kernel :=
  foldl (fun o e => k ← o; match step fresh k e with Some (Ok k') => Some k' | _ => None end) (Some k) es.

Lemma run_dead es : foldl (fun o e => k ← o; match step fresh k e with Some (Ok k') => Some k' | _ => None end) None es = None.
Proof. by induction es. Qed.

Lemma run_runs k0 k es k' : Forall (eq Exec) es -> runs fresh k0 k -> run k es = Some k' -> runs fresh k0 k'.
Proof.
  revert k. induction es as [| e es IH]; intros k Hes Hr Hrun; [by injection Hrun as <- |].
  apply Forall_cons in Hes as [<- Hes]. unfold run in Hrun. simpl in Hrun.
  destruct (exec fresh k) as [[k2 |] |] eqn:Hs; [| by rewrite run_dead in Hrun ..].
  apply (IH k2); [done | | done]. by eapply (runs_step _ _ _ Exec).
Qed.

(** The main thread has the lock; the second one is in [P]. *)
Definition k0 : kernel := Initialize fresh m0 prog ss ls.
Definition k_held : kernel := Eval vm_compute in default k0 (run k0 (replicate 9 Exec)).
Definition k_next : kernel := Eval vm_compute in default k0 (run k_held [Exec]).

Lemma lock_mutual_exclusion_witness :
  lockHolder <$> locks k_held !! 0%nat = Some (Some 0%nat) /\ currentThread k_held = 1%nat /\
  exists lk', locks k_next !! 0%nat = Some lk' /\ lockHolder lk' = Some 0%nat.
Proof.
  split; [by vm_compute |]. split; [by vm_compute |].
  destruct (lock_mutual_exclusion fresh m0 prog ss ls k_held 0 (mkLock 0 (Some 0%nat)) Exec k_next) as (_ & lk' & Hlk' & Hc).
  - split; [done | done | | |]; repeat (apply Forall_cons; split); try apply Forall_nil; cbn; try done; split; try done; lia.
  - split; [repeat constructor; set_solver | |]; repeat (apply Forall_cons; split); try apply Forall_nil; done.
  - eapply (run_runs k0 k0 (replicate 9 Exec)); [by repeat constructor | constructor | by vm_compute].
  - by vm_compute.
  - by split.
  - by vm_compute.
  - exists lk'. split; [done |]. destruct Hc as [-> | [[? _] | [? _]]]; done.
Defined.
End LocksDemo.
