(* ===== verification/Hash.v ===== *)
(** * Hash: lib/hash.h, lib/hash.cc and the self tests of lib/libtest.cc

    The self-expanding hash table over the linked lists of [Lists].  The
    abstract view is a finite map from keys to items: [represents] relates the
    bucket array to it, and every operation is shown to be the map's. *)

From S2P Require Import Prelude Bitmap Lists.

Module HashTable.
Section HashTable.
Context {Key T : Type} `{Countable Key, EqDecision T}.
(** The two function pointers of the constructor. *)
Context (getKey : T -> Key) (hash : Key -> Z).

Definition InitialBuckets : Z := 4.
Definition ResizeRatio : Z := 3.
Definition IncreaseSizeBy : Z := 4.

Record t := mk {
  buckets : list (CList.t T);
  numBuckets : Z;
  numItems : Z;
}.

Definition set_bucket (h : t) (i : nat) (l : CList.t T) : t := mk (<[i := l]> (buckets h)) (numBuckets h) (numItems h).
Definition add_items (h : t) (d : Z) : t := mk (buckets h) (numBuckets h) (s32 (numItems h + d)).

Definition InitBuckets (sz numItems : Z) : t := mk (replicate (Z.to_nat sz) CList.create) sz numItems.
Definition create : t := InitBuckets InitialBuckets 0.

(** [int result = ( *hash)(key) % numBuckets], an unsigned remainder *)
Definition HashValue (h : t) (key : Key) : res nat :=
  if u32 (numBuckets h) =? 0 then Fault ArithFault
  else
    let result := s32 (u32 (hash key) mod u32 (numBuckets h)) in
    _ ← ASSERT ((0 <=? result) && (result <? numBuckets h));
    Ok (Z.to_nat result).

(** The iterator's walk over a bucket. *)
Fixpoint find_loop (n : nat) (l : CList.t T) (ptr : option positive) (key : Key) : res (option T) :=
  match ptr, n with
  | None, _ => Ok None
  | Some _, O => Fault OutOfFuel
  | Some _, S n' =>
      e ← CList.read l ptr;
      if decide (key = getKey (CList.item e)) then Ok (Some (CList.item e))
      else find_loop n' l (CList.next e) key
  end.

(** The item, or [None] for FALSE with NULL. *)
Definition FindInBucket (h : t) (bucket : nat) (key : Key) : res (option T) :=
  l ← deref (buckets h !! bucket);
  find_loop (CList.fuel l) l (CList.first l) key.

Definition Find (h : t) (key : Key) : res (option T) :=
  bucket ← HashValue h key;
  FindInBucket h bucket key.

Definition IsInTable (h : t) (key : Key) : res bool :=
  o ← Find h key; Ok (bool_decide (is_Some o)).
Definition IsEmpty (h : t) : bool := numItems h =? 0.

(** [buckets[HashValue(getKey(item))]->Append(item)] *)
Definition put (h : t) (x : T) : res t :=
  i ← HashValue h (getKey x);
  l ← deref (buckets h !! i);
  l ← CList.Append l x;
  Ok (set_bucket h i l).

(** The two inner loops of [SanityCheck]. *)
Fixpoint check_loop (n : nat) (h : t) (i : nat) (l : CList.t T) (ptr : option positive) : res unit :=
  match ptr, n with
  | None, _ => Ok tt
  | Some _, O => Fault OutOfFuel
  | Some _, S n' =>
      e ← CList.read l ptr;
      v ← HashValue h (getKey (CList.item e));
      _ ← ASSERT (bool_decide (i = v));
      check_loop n' h i l (CList.next e)
  end.

Definition SanityCheck (h : t) : res unit :=
  numFound ← forN (fun i numFound =>
      l ← deref (buckets h !! i);
      _ ← CList.SanityCheck l;
      _ ← check_loop (CList.fuel l) h i l (CList.first l);
      Ok (s32 (numFound + CList.NumInList l))) 0 (Z.to_nat (numBuckets h)) 0;
  ASSERT (numItems h =? numFound).

(** [while (!oldTable[i]->IsEmpty()) ...] *)
Fixpoint move_loop (n : nat) (l : CList.t T) (h : t) : res t :=
  if CList.IsEmpty l then Ok h
  else match n with
       | O => Fault OutOfFuel
       | S n' =>
           '(x, l) ← CList.RemoveFront l;
           h ← put h x;
           move_loop n' l h
       end.

Definition ReHash (h : t) : res t :=
  let oldTable := buckets h in
  let oldSize := numBuckets h in
  _ ← SanityCheck h;
  let h := InitBuckets (s32 (numBuckets h * IncreaseSizeBy)) (numItems h) in
  h ← forN (fun i h => l ← deref (oldTable !! i); move_loop (CList.fuel l) l h) 0 (Z.to_nat oldSize) h;
  _ ← SanityCheck h;
  Ok h.

Definition Insert (h : t) (x : T) : res t :=
  let key := getKey x in
  b ← IsInTable h key;
  _ ← ASSERT (negb b);
  h ← (if ResizeRatio <=? Z.quot (numItems h) (numBuckets h) then ReHash h else Ok h);
  h ← put h x;
  let h := add_items h 1 in
  b ← IsInTable h key;
  _ ← ASSERT b;
  Ok h.

Definition Remove (h : t) (key : Key) : res (T * t) :=
  bucket ← HashValue h key;
  found ← FindInBucket h bucket key;
  match found with
  | None => Fault AssertFailure
  | Some item =>
      l ← deref (buckets h !! bucket);
      l ← CList.Remove l item;
      let h := add_items (set_bucket h bucket l) (-1) in
      b ← IsInTable h key;
      _ ← ASSERT (negb b);
      Ok (item, h)
  end.

(** [Apply]: the items it calls its function on, in order. *)
Definition Apply (h : t) : res (list T) :=
  forN (fun i acc => l ← deref (buckets h !! i); xs ← CList.Apply l; Ok (acc ++ xs)) 0 (Z.to_nat (numBuckets h)) [].

(** The loop of [FindNextFullBucket]; [n] buckets remain. *)
Fixpoint next_full (n : nat) (h : t) (bucket : nat) : res nat :=
  match n with
  | O => Ok bucket
  | S n' =>
      l ← deref (buckets h !! bucket);
      if CList.IsEmpty l then next_full n' h (S bucket) else Ok bucket
  end.
Definition FindNextFullBucket (h : t) (bucket : nat) : res nat :=
  next_full (Z.to_nat (numBuckets h) - bucket) h bucket.

(** [HashIterator]: the bucket, and the list cell in it ([ListIterator]). *)
Record iterator := mkIter { bucket : nat; current : option positive }.

Definition iter_at (h : t) (b : nat) : res iterator :=
  if Z.of_nat b <? numBuckets h then l ← deref (buckets h !! b); Ok (mkIter b (CList.first l))
  else Ok (mkIter b None).
Definition iter_create (h : t) : res iterator := b ← FindNextFullBucket h 0; iter_at h b.
Definition IsDone (h : t) (it : iterator) : bool := Z.of_nat (bucket it) =? numBuckets h.
Definition Item (h : t) (it : iterator) : res T :=
  _ ← ASSERT (negb (IsDone h it));
  l ← deref (buckets h !! bucket it);
  e ← CList.read l (current it);
  Ok (CList.item e).
Definition Next (h : t) (it : iterator) : res iterator :=
  l ← deref (buckets h !! bucket it);
  e ← CList.read l (current it);
  match CList.next e with
  | Some p => Ok (mkIter (bucket it) (Some p))
  | None => b ← FindNextFullBucket h (S (bucket it)); iter_at h b
  end.

(** [for (; !iter.IsDone(); iter.Next()) ... iter.Item()], the items it sees. *)
Fixpoint iterate (n : nat) (h : t) (it : iterator) : res (list T) :=
  if IsDone h it then Ok []
  else match n with
       | O => Fault OutOfFuel
       | S n' => x ← Item h it; it ← Next h it; xs ← iterate n' h it; Ok (x :: xs)
       end.

Definition SelfTest (h : t) (p : list T) : res t :=
  it ← iter_create h;
  _ ← SanityCheck h;
  _ ← ASSERT (IsEmpty h);
  _ ← ASSERT (IsDone h it);
  h ← forN (fun i h =>
      x ← deref (p !! i);
      h ← Insert h x;
      b ← IsInTable h (getKey x);
      _ ← ASSERT b;
      _ ← ASSERT (negb (IsEmpty h));
      Ok h) 0 (length p) h;
  h ← forN (fun i h =>
      x ← deref (p !! i);
      '(y, h) ← Remove h (getKey x);
      _ ← ASSERT (bool_decide (y = x));
      Ok h) 0 (length p) h;
  _ ← ASSERT (IsEmpty h);
  _ ← SanityCheck h;
  Ok h.
End HashTable.
Arguments t : clear implicits.

(** ** The table as a finite map *)
Section Map.
Context {Key T : Type} `{Countable Key, EqDecision T}.
Context (getKey : T -> Key) (hash : Key -> Z).
Implicit Types (h : t T) (xss : list (list T)) (xs : list T) (x : T) (k : Key).

Definition index (n : nat) (k : Key) : nat := Z.to_nat (u32 (hash k) mod Z.of_nat n).

(** The buckets hold [xss]; what is in a bucket hashes to it. *)
Record holds h xss : Prop := {
  ho_buckets : Forall2 CList.rep (buckets h) xss;
  ho_num : numBuckets h = Z.of_nat (length xss);
  ho_range : 0 < numBuckets h < 2 ^ 31;
  ho_hash i xs x : xss !! i = Some xs -> x ∈ xs -> index (length xss) (getKey x) = i;
  ho_keys : NoDup (getKey <$> concat xss);
}.

Definition counted h xss : Prop :=
  numItems h = Z.of_nat (length (concat xss)) /\ Z.of_nat (length (concat xss)) < 2 ^ 30.

(** *** Buckets *)

Lemma index_lt n k : (0 < n)%nat -> (index n k < n)%nat.
Proof. intros Hn. unfold index. pose proof (Z.mod_pos_bound (u32 (hash k)) (Z.of_nat n)). lia. Qed.

Lemma holds_pos h xss : holds h xss -> (0 < length xss)%nat.
Proof. intros []. lia. Qed.

Lemma HashValue_spec h xss k : holds h xss -> HashValue hash h k = Ok (index (length xss) k).
Proof.
  intros [_ Hn Hr _ _]. unfold HashValue. rewrite (u32_id (numBuckets h)) by (unfold is_u32; lia).
  pose proof (Z.mod_pos_bound (u32 (hash k)) (numBuckets h) ltac:(lia)) as Hm.
  destruct (Z.eqb_spec (numBuckets h) 0); [lia |].
  rewrite s32_id by (unfold is_s32; lia). rewrite ASSERT_true by lia. cbn [mbind res_bind].
  unfold index. by rewrite <- Hn.
Qed.

Lemma holds_bucket h xss i xs : holds h xss -> xss !! i = Some xs ->
  exists l, buckets h !! i = Some l /\ CList.rep l xs.
Proof. intros [Hb _ _ _ _] Hi. by apply (Forall2_lookup_r _ _ _ _ _ Hb). Qed.

Lemma concat_lookup (xss : list (list T)) i xs : xss !! i = Some xs -> exists r,
  concat xss ≡ₚ xs ++ r /\ forall xs', concat (<[i := xs']> xss) ≡ₚ xs' ++ r.
Proof.
  intros Hi. apply list_elem_of_split_length in Hi as (l1 & l2 & -> & ->). exists (concat l1 ++ concat l2).
  assert (forall ys, concat (l1 ++ ys :: l2) ≡ₚ ys ++ concat l1 ++ concat l2) as Hp.
  { intros ys. rewrite concat_app. cbn [concat]. rewrite app_assoc, (Permutation_app_comm (concat l1) ys). by rewrite app_assoc. }
  split; [apply Hp |]. intros xs'. rewrite insert_app_r_alt by done. rewrite Nat.sub_diag. apply Hp.
Qed.

Lemma holds_items h xss i xs : holds h xss -> xss !! i = Some xs -> NoDup (getKey <$> xs).
Proof.
  intros Hh Hi. destruct (concat_lookup xss i xs Hi) as (r & Hp & _). pose proof (ho_keys _ _ Hh) as Hnd.
  rewrite Hp, fmap_app in Hnd. by apply NoDup_app in Hnd as [? _].
Qed.

(** A bucket changes. *)
Lemma holds_set h xss i xs xs' l' :
  holds h xss -> xss !! i = Some xs -> CList.rep l' xs' ->
  (forall x, x ∈ xs' -> index (length xss) (getKey x) = i) -> NoDup (getKey <$> concat (<[i := xs']> xss)) ->
  holds (set_bucket h i l') (<[i := xs']> xss).
Proof.
  intros [Hb Hn Hr Hx _] Hi Hl Hxs' Hnd. split; cbn [set_bucket buckets numBuckets]; rewrite ?length_insert; try done.
  - by apply Forall2_insert.
  - intros j ys y [(<- & <- & _) | [_ Hj]]%list_lookup_insert_Some; [by apply Hxs' | by apply (Hx j)].
Qed.

(** *** Lookup *)

Lemma table_find_loop_spec l key cs n p :
  CList.lseg (CList.heap l) p None cs -> (length cs <= n)%nat ->
  find_loop getKey n l p key = Ok (snd <$> list_find (fun x => key = getKey x) (CList.items cs)).
Proof.
  revert p n. induction cs as [| [b [y ky]] cs IH]; intros p n.
  - simpl. intros -> _. by destruct n.
  - rewrite CList.items_cons. simpl. intros (-> & m & Hb & Hs) Hn. destruct n as [| n]; [lia |]. simpl.
    rewrite (CList.read_Some _ _ _ Hb). simpl. destruct (decide (key = getKey y)) as [-> | Hne]; [done |].
    rewrite (IH _ n Hs) by lia. f_equal. by destruct (list_find _ _) as [[? ?] |].
Qed.

Lemma find_rep l xs key : CList.rep l xs ->
  find_loop getKey (CList.fuel l) l (CList.first l) key = Ok (snd <$> list_find (fun x => key = getKey x) xs).
Proof.
  intros (cs & Hc & <-). apply table_find_loop_spec; [by destruct Hc |]. unfold CList.fuel.
  pose proof (CList.lseg_length _ _ _ _ (CList.co_seg _ _ Hc) (CList.co_nodup _ _ Hc)). lia.
Qed.

(** What the table answers for a key. *)
Definition answer xss key : option T := snd <$> list_find (fun x => key = getKey x) (concat xss).

Lemma answer_Some xss key x : NoDup (getKey <$> concat xss) ->
  answer xss key = Some x <-> x ∈ concat xss /\ getKey x = key.
Proof.
  unfold answer. intros Hnd. split.
  - intros ([i y] & (Hi & Hk & _)%list_find_Some & ->)%fmap_Some. split; [by apply list_elem_of_lookup_2 in Hi | done].
  - intros [Hx Hk]. destruct (list_find (fun x => key = getKey x) (concat xss)) as [[i y] |] eqn:E; cbn.
    + apply list_find_Some in E as (Hi & Hy & _). f_equal. apply list_elem_of_lookup in Hx as [j Hj].
      apply (NoDup_lookup _ i j key) in Hnd as ->; [congruence | |]; rewrite list_lookup_fmap, ?Hi, ?Hj; cbn; congruence.
    + apply list_find_None in E. rewrite Forall_forall in E. by destruct (E x Hx).
Qed.

Lemma answer_bucket h xss key : holds h xss ->
  FindInBucket getKey h (index (length xss) key) key = Ok (answer xss key).
Proof.
  intros Hh. pose proof (index_lt (length xss) key (holds_pos _ _ Hh)) as Hlt.
  destruct (lookup_lt_is_Some_2 _ _ Hlt) as [xs Hi]. destruct (holds_bucket _ _ _ _ Hh Hi) as (l & Hl & Hr).
  unfold FindInBucket. rewrite Hl. cbn [deref mbind res_bind]. rewrite (find_rep l xs) by done. f_equal.
  pose proof (ho_keys _ _ Hh) as Hnd. apply option_eq. intros x. rewrite (answer_Some xss key x Hnd).
  assert (NoDup (getKey <$> concat [xs])) as Hndx by (cbn; rewrite app_nil_r; by eapply holds_items).
  pose proof (answer_Some [xs] key x Hndx) as Ha. unfold answer in Ha. cbn in Ha. rewrite app_nil_r in Ha. rewrite Ha.
  split; intros [Hx Hk]; (split; [| done]).
  - apply list_elem_of_In, in_concat. exists xs. split; apply list_elem_of_In; [by eapply list_elem_of_lookup_2 | done].
  - apply list_elem_of_In, in_concat in Hx as (ys & [j Hj]%list_elem_of_In%list_elem_of_lookup & Hy%list_elem_of_In).
    pose proof (ho_hash _ _ Hh j ys x Hj Hy) as Hix. rewrite Hk in Hix. congruence.
Qed.

Lemma table_Find_spec h xss key : holds h xss -> Find getKey hash h key = Ok (answer xss key).
Proof. intros Hh. unfold Find. rewrite (HashValue_spec h xss) by done. cbn [mbind res_bind]. by apply answer_bucket. Qed.

Lemma IsInTable_spec h xss key : holds h xss -> IsInTable getKey hash h key = Ok (bool_decide (is_Some (answer xss key))).
Proof. intros Hh. unfold IsInTable. by rewrite (table_Find_spec h xss). Qed.

(** *** Updates *)

Lemma put_spec h xss x : holds h xss -> getKey x ∉ getKey <$> concat xss ->
  exists h' xss', put getKey hash h x = Ok h' /\ holds h' xss' /\ concat xss' ≡ₚ x :: concat xss /\
    numItems h' = numItems h /\ numBuckets h' = numBuckets h.
Proof.
  intros Hh Hx. unfold put. rewrite (HashValue_spec h xss) by done. cbn [mbind res_bind].
  pose proof (index_lt (length xss) (getKey x) (holds_pos _ _ Hh)) as Hlt. set (i := index _ _) in *.
  destruct (lookup_lt_is_Some_2 _ _ Hlt) as [xs Hi]. destruct (holds_bucket _ _ _ _ Hh Hi) as (l & Hl & Hr).
  rewrite Hl. cbn [deref mbind res_bind]. destruct (concat_lookup xss i xs Hi) as (r & Hp & Hins).
  assert (x ∉ xs) as Hxs.
  { intros Hin. apply Hx. apply list_elem_of_fmap. exists x. split; [done |]. rewrite Hp. set_solver. }
  destruct (CList.Append_rep l x xs Hr Hxs) as (l' & -> & Hr'). cbn [mbind res_bind].
  assert (concat (<[i := xs ++ [x]]> xss) ≡ₚ x :: concat xss) as Hperm.
  { rewrite Hins, Hp, <- app_assoc. cbn. by rewrite <- Permutation_middle. }
  exists (set_bucket h i l'), (<[i := xs ++ [x]]> xss). split_and!; try done.
  apply (holds_set h xss i xs); try done.
  - intros y [Hy | ->%list_elem_of_singleton]%elem_of_app; [by apply (ho_hash _ _ Hh i xs) | done].
  - rewrite Hperm. cbn. apply NoDup_cons. split; [done | apply Hh].
Qed.

Lemma check_loop_spec h xss i l cs n p :
  holds h xss -> CList.lseg (CList.heap l) p None cs -> (length cs <= n)%nat ->
  (forall x, x ∈ CList.items cs -> index (length xss) (getKey x) = i) ->
  check_loop getKey hash n h i l p = Ok tt.
Proof.
  intros Hh. revert p n. induction cs as [| [b [y ky]] cs IH]; intros p n.
  - simpl. intros -> _ _. by destruct n.
  - intros (-> & m & Hb & Hs) Hn Hall. destruct n as [| n]; [simpl in Hn; lia |]. simpl.
    rewrite (CList.read_Some _ _ _ Hb). simpl. rewrite (HashValue_spec h xss) by done. simpl.
    rewrite (Hall y) by (rewrite CList.items_cons; by left). rewrite bool_decide_true by done. simpl.
    apply IH; [done | simpl in Hn; lia |]. intros x Hx. apply Hall. rewrite CList.items_cons. by right.
Qed.

Lemma length_concat_take xss i xs : xss !! i = Some xs ->
  length (concat (take (S i) xss)) = (length (concat (take i xss)) + length xs)%nat.
Proof. intros Hi. by rewrite (take_S_r _ _ _ Hi), concat_app, length_app; cbn; rewrite app_nil_r. Qed.

Lemma length_concat_take_le xss i : (length (concat (take i xss)) <= length (concat xss))%nat.
Proof. rewrite <- (take_drop i xss) at 2. rewrite concat_app, length_app. lia. Qed.

Lemma table_SanityCheck_spec h xss : holds h xss -> counted h xss -> SanityCheck getKey hash h = Ok tt.
Proof.
  intros Hh [Hc Hmax]. unfold SanityCheck. rewrite (ho_num _ _ Hh), Nat2Z.id.
  destruct (forN_ind (fun i f => f = Z.of_nat (length (concat (take i xss)))) (fun i numFound =>
      l ← deref (buckets h !! i); _ ← CList.SanityCheck l; _ ← check_loop getKey hash (CList.fuel l) h i l (CList.first l);
      Ok (s32 (numFound + CList.NumInList l))) 0 (length xss) 0) as (f & -> & ->).
  - done.
  - intros i f Hi ->. destruct (lookup_lt_is_Some_2 xss i) as [xs Hxs]; [lia |].
    destruct (holds_bucket _ _ _ _ Hh Hxs) as (l & Hl & cs & Hcs & Hit). rewrite Hl. cbn [deref mbind res_bind].
    rewrite (CList.SanityCheck_spec l cs) by done. cbn [mbind res_bind].
    rewrite (check_loop_spec h xss i l cs); [| done | by destruct Hcs | |].
    + cbn [mbind res_bind]. eexists. split; [done |]. unfold CList.NumInList. rewrite (CList.numInList_rep l xs) by (by exists cs).
      rewrite (length_concat_take xss i xs) by done. pose proof (length_concat_take_le xss (S i)) as Hle.
      rewrite (length_concat_take xss i xs) in Hle by done. rewrite u32_id, s32_id by (unfold is_s32, is_u32; lia). lia.
    + unfold CList.fuel. pose proof (CList.lseg_length _ _ _ _ (CList.co_seg _ _ Hcs) (CList.co_nodup _ _ Hcs)). lia.
    + rewrite Hit. intros x Hx. by apply (ho_hash _ _ Hh i xs).
  - cbn [mbind res_bind]. rewrite Hc, Nat.add_0_l, take_ge by done. by apply ASSERT_eqb.
Qed.

Lemma move_loop_spec n l xs h xss :
  CList.rep l xs -> (length xs <= n)%nat -> holds h xss -> NoDup (getKey <$> xs ++ concat xss) ->
  exists h' xss', move_loop getKey hash n l h = Ok h' /\ holds h' xss' /\ concat xss' ≡ₚ xs ++ concat xss /\
    numItems h' = numItems h /\ numBuckets h' = numBuckets h.
Proof.
  revert l xs h xss. induction n as [| n IH]; intros l xs h xss Hl Hn Hh Hnd; cbn [move_loop];
    rewrite (CList.IsEmpty_rep l xs Hl).
  { destruct xs; [| simpl in Hn; lia]. exists h, xss. by rewrite bool_decide_true. }
  destruct xs as [| x xs]; [exists h, xss; by rewrite bool_decide_true |]. rewrite bool_decide_false by done.
  destruct (CList.RemoveFront_rep l x xs Hl) as (l' & -> & Hl'). cbn [mbind res_bind].
  cbn in Hnd. apply NoDup_cons in Hnd as [Hx Hnd]. rewrite fmap_app in Hx.
  destruct (put_spec h xss x Hh) as (h1 & xss1 & -> & Hh1 & Hp1 & Hi1 & Hb1); [set_solver |]. cbn [mbind res_bind].
  destruct (IH l' xs h1 xss1 Hl') as (h2 & xss2 & -> & Hh2 & Hp2 & Hi2 & Hb2); [simpl in Hn; lia | done | |].
  - rewrite Hp1, <- Permutation_middle. cbn. rewrite fmap_app in Hnd |- *. apply NoDup_cons. by split.
  - exists h2, xss2. split_and!; [done | done | | congruence | congruence]. by rewrite Hp2, Hp1, <- Permutation_middle.
Qed.

Lemma InitBuckets_holds sz ni : 0 < sz < 2 ^ 31 -> holds (InitBuckets sz ni) (replicate (Z.to_nat sz) []).
Proof.
  intros Hsz. assert (concat (replicate (Z.to_nat sz) (@nil T)) = []) as Hc by (by induction (Z.to_nat sz)).
  split; cbn [InitBuckets buckets numBuckets]; rewrite ?length_replicate, ?Hc; try done; try lia.
  - apply Forall2_replicate. apply CList.rep_create.
  - intros i xs x [-> _]%lookup_replicate. by intros ?%elem_of_nil.
  - constructor.
Qed.

Lemma ReHash_spec h xss : holds h xss -> counted h xss -> numBuckets h < 2 ^ 29 ->
  exists h' xss', ReHash getKey hash h = Ok h' /\ holds h' xss' /\ concat xss' ≡ₚ concat xss /\ counted h' xss'.
Proof.
  intros Hh Hc Hb. unfold ReHash. rewrite (table_SanityCheck_spec h xss) by done. cbn [mbind res_bind].
  pose proof (ho_range _ _ Hh) as Hr. unfold IncreaseSizeBy. rewrite s32_id by (unfold is_s32; lia).
  set (h0 := InitBuckets _ _). rewrite (ho_num _ _ Hh), Nat2Z.id.
  assert (concat (replicate (Z.to_nat (numBuckets h * 4)) (@nil T)) = []) as Hc0 by (by induction (Z.to_nat (numBuckets h * 4))).
  destruct (forN_ind (fun i h1 => exists xss1, holds h1 xss1 /\ concat xss1 ≡ₚ concat (take i xss) /\ numItems h1 = numItems h)
    (fun i h1 => l ← deref (buckets h !! i); move_loop getKey hash (CList.fuel l) l h1) 0 (length xss) h0)
    as (h2 & -> & xss2 & Hh2 & Hp2 & Hi2).
  - exists (replicate (Z.to_nat (numBuckets h * 4)) []). split_and!; [apply InitBuckets_holds; lia | by rewrite Hc0 | done].
  - intros i h1 Hi (xss1 & Hh1 & Hp1 & Hi1). destruct (lookup_lt_is_Some_2 xss i) as [xs Hxs]; [lia |].
    destruct (holds_bucket _ _ _ _ Hh Hxs) as (l & Hl & Hrep). rewrite Hl. cbn [deref mbind res_bind].
    assert (concat (take (S i) xss) ≡ₚ xs ++ concat xss1) as Hps.
    { rewrite (take_S_r _ _ _ Hxs), concat_app. cbn. rewrite app_nil_r, Hp1. apply Permutation_app_comm. }
    destruct (move_loop_spec (CList.fuel l) l xs h1 xss1 Hrep) as (h2 & xss2 & -> & Hh2 & Hp2 & Hi2 & _); [| done | |].
    + destruct Hrep as (cs & Hcs & <-). unfold CList.fuel, CList.items. rewrite !length_fmap.
      pose proof (CList.lseg_length _ _ _ _ (CList.co_seg _ _ Hcs) (CList.co_nodup _ _ Hcs)). lia.
    + rewrite <- Hps. pose proof (ho_keys _ _ Hh) as Hnd. rewrite <- (take_drop (S i) xss), concat_app, fmap_app in Hnd.
      by apply NoDup_app in Hnd as [? _].
    + exists h2. split; [done |]. exists xss2. split_and!; [done | by rewrite Hp2, Hps | congruence].
  - rewrite Nat.add_0_l, take_ge in Hp2 by done. cbn [mbind res_bind].
    assert (counted h2 xss2) as Hc2 by (unfold counted; by rewrite Hi2, Hp2).
    rewrite (table_SanityCheck_spec h2 xss2) by done. cbn [mbind res_bind]. by exists h2, xss2.
Qed.

Lemma Insert_spec h xss x : holds h xss -> counted h xss -> numItems h < 2 ^ 30 - 1 -> answer xss (getKey x) = None ->
  exists h' xss', Insert getKey hash h x = Ok h' /\ holds h' xss' /\ counted h' xss' /\ concat xss' ≡ₚ x :: concat xss.
Proof.
  intros Hh Hc Hmax Ha. unfold Insert. rewrite (IsInTable_spec h xss) by done. cbn [mbind res_bind].
  rewrite Ha, bool_decide_false by (by intros []). cbn [negb ASSERT mbind res_bind].
  assert (getKey x ∉ getKey <$> concat xss) as Hx.
  { intros (y & Hy & Hin)%list_elem_of_fmap.
    pose proof (proj2 (answer_Some xss (getKey x) y (ho_keys _ _ Hh)) (conj Hin (eq_sym Hy))). congruence. }
  set (grown := if ResizeRatio <=? Z.quot (numItems h) (numBuckets h) then ReHash getKey hash h else Ok h).
  assert (exists h1 xss1, grown = Ok h1 /\ holds h1 xss1 /\ concat xss1 ≡ₚ concat xss /\ counted h1 xss1) as (h1 & xss1 & -> & Hh1 & Hp1 & Hc1).
  { unfold grown, ResizeRatio. destruct (Z.leb_spec 3 (Z.quot (numItems h) (numBuckets h))) as [Hq |]; [| by exists h, xss].
    apply ReHash_spec; [done | done |]. pose proof (ho_range _ _ Hh). destruct Hc as [Hc1 Hc2].
    rewrite Z.quot_div_nonneg in Hq by lia. pose proof (Z.mul_div_le (numItems h) (numBuckets h)). nia. }
  cbn [mbind res_bind].
  destruct (put_spec h1 xss1 x Hh1) as (h2 & xss2 & -> & Hh2 & Hp2 & Hi2 & Hb2); [by rewrite Hp1 |]. cbn [mbind res_bind].
  assert (concat xss2 ≡ₚ x :: concat xss) as Hp by (by rewrite Hp2, Hp1).
  assert (holds (add_items h2 1) xss2) as Hh3 by (by destruct Hh2).
  rewrite (IsInTable_spec (add_items h2 1) xss2) by done. cbn [mbind res_bind].
  rewrite (proj2 (answer_Some xss2 (getKey x) x (ho_keys _ _ Hh2))) by (rewrite Hp; split; [by left | done]).
  rewrite bool_decide_true by done. cbn [ASSERT mbind res_bind]. exists (add_items h2 1), xss2.
  split_and!; try done. destruct Hc as [Hc _], Hc1 as [Hc1 _]. unfold counted, add_items. cbn [numItems].
  rewrite Hi2, Hc1, Hp, Hp1. cbn [length]. rewrite s32_id by (unfold is_s32; lia). lia.
Qed.

Lemma table_Remove_spec h xss key x : holds h xss -> counted h xss -> answer xss key = Some x ->
  exists h' xss', Remove getKey hash h key = Ok (x, h') /\ holds h' xss' /\ counted h' xss' /\ concat xss ≡ₚ x :: concat xss'.
Proof.
  intros Hh Hc Ha. unfold Remove. rewrite (HashValue_spec h xss) by done. cbn [mbind res_bind].
  rewrite (answer_bucket h xss key Hh), Ha. cbn [mbind res_bind].
  pose proof (index_lt (length xss) key (holds_pos _ _ Hh)) as Hlt. set (i := index _ _) in *.
  destruct (lookup_lt_is_Some_2 _ _ Hlt) as [xs Hi]. destruct (holds_bucket _ _ _ _ Hh Hi) as (l & Hl & Hr).
  rewrite Hl. cbn [deref mbind res_bind]. destruct (concat_lookup xss i xs Hi) as (r & Hp & Hins).
  pose proof (ho_keys _ _ Hh) as Hnd. pose proof (proj1 (answer_Some xss key x Hnd) Ha) as [Hin Hk].
  assert (x ∈ xs) as Hxs.
  { apply list_elem_of_In, in_concat in Hin as (ys & [j Hj]%list_elem_of_In%list_elem_of_lookup & Hy%list_elem_of_In).
    pose proof (ho_hash _ _ Hh j ys x Hj Hy) as Hix. rewrite Hk in Hix. fold i in Hix. congruence. }
  destruct (CList.Remove_in l xs x Hr Hxs) as (l' & xs' & -> & Hr' & Hpx & Hnx).
  { eapply NoDup_fmap_1, holds_items; done. }
  cbn [mbind res_bind].
  assert (concat xss ≡ₚ x :: concat (<[i := xs']> xss)) as Hperm by (by rewrite Hins, Hp, Hpx).
  rewrite Hperm in Hnd. cbn in Hnd. apply NoDup_cons in Hnd as [Hkx Hnd'].
  assert (holds (add_items (set_bucket h i l') (-1)) (<[i := xs']> xss)) as Hh'.
  { destruct (holds_set h xss i xs xs' l' Hh Hi Hr'); [| done | by split].
    intros y Hy. apply (ho_hash _ _ Hh i xs); [done |]. rewrite Hpx. by right. }
  rewrite (IsInTable_spec _ (<[i := xs']> xss)) by done. cbn [mbind res_bind].
  rewrite bool_decide_false.
  2: { intros [y [Hy Hky]%(answer_Some _ _ _ Hnd')]. apply Hkx. apply list_elem_of_fmap. exists y. split; [congruence | done]. }
  cbn [negb ASSERT mbind res_bind]. eexists _, (<[i := xs']> xss). split_and!; try done.
  destruct Hc as [Hc Hmax]. unfold counted, add_items, set_bucket. cbn [numItems]. rewrite Hc.
  rewrite Hperm in Hmax |- *. cbn [length] in *. rewrite s32_id by (unfold is_s32; lia). lia.
Qed.

Lemma table_Apply_spec h xss : holds h xss -> Apply h = Ok (concat xss).
Proof.
  intros Hh. unfold Apply. rewrite (ho_num _ _ Hh), Nat2Z.id.
  destruct (forN_ind (fun i acc => acc = concat (take i xss))
    (fun i acc => l ← deref (buckets h !! i); xs ← CList.Apply l; Ok (acc ++ xs)) 0 (length xss) []) as (r & -> & ->).
  - done.
  - intros i acc Hi ->. destruct (lookup_lt_is_Some_2 xss i) as [xs Hxs]; [lia |].
    destruct (holds_bucket _ _ _ _ Hh Hxs) as (l & Hl & cs & Hcs & Hit). rewrite Hl. cbn [deref mbind res_bind].
    rewrite (CList.Apply_spec l cs) by done. cbn [mbind res_bind]. eexists. split; [done |].
    rewrite (take_S_r _ _ _ Hxs), concat_app, Hit. cbn. by rewrite app_nil_r.
  - by rewrite Nat.add_0_l, take_ge by done.
Qed.

(** *** The iterator *)

(** What is left to visit. *)
Definition left_to_visit h xss (it : iterator) (rest : list T) : Prop :=
  (bucket it = length xss /\ rest = []) \/
  exists l cs1 c cs2, buckets h !! bucket it = Some l /\ CList.cells_of l (cs1 ++ c :: cs2) /\ current it = Some c.1 /\
    (bucket it < length xss)%nat /\ rest = CList.items (c :: cs2) ++ concat (drop (S (bucket it)) xss).

Lemma next_full_spec h xss n b : holds h xss -> (b + n = length xss)%nat ->
  exists b', next_full n h b = Ok b' /\ (b' <= length xss)%nat /\ concat (drop b xss) = concat (drop b' xss) /\
    ((b' < length xss)%nat -> exists x xs, xss !! b' = Some (x :: xs)).
Proof.
  intros Hh. revert b. induction n as [| n IH]; intros b Hb; cbn [next_full].
  { exists b. split_and!; [done | lia | done | lia]. }
  destruct (lookup_lt_is_Some_2 xss b) as [xs Hxs]; [lia |].
  destruct (holds_bucket _ _ _ _ Hh Hxs) as (l & Hl & Hr). rewrite Hl. cbn [deref mbind res_bind].
  rewrite (CList.IsEmpty_rep l xs Hr). destruct xs as [| x xs].
  - rewrite bool_decide_true by done. destruct (IH (S b)) as (b' & -> & Hle & Hd & Hf); [lia |].
    exists b'. split_and!; try done. by rewrite (drop_S _ _ _ Hxs).
  - rewrite bool_decide_false by done. exists b. split_and!; [done | lia | done |]. by eauto.
Qed.

Lemma iter_at_spec h xss b : holds h xss -> (b <= length xss)%nat ->
  ((b < length xss)%nat -> exists x xs, xss !! b = Some (x :: xs)) ->
  exists it, iter_at h b = Ok it /\ left_to_visit h xss it (concat (drop b xss)).
Proof.
  intros Hh Hle Hf. unfold iter_at. rewrite (ho_num _ _ Hh). destruct (Z.ltb_spec (Z.of_nat b) (Z.of_nat (length xss))) as [Hlt | Hge].
  - destruct Hf as (x & xs & Hxs); [lia |]. destruct (holds_bucket _ _ _ _ Hh Hxs) as (l & Hl & [| c cs] & Hcs & Hit); [done |].
    rewrite Hl. cbn [deref mbind res_bind]. eexists. split; [done |]. right. exists l, [], c, cs. cbn [bucket current].
    destruct (CList.first_cell _ _ _ Hcs) as (-> & _). split_and!; [done | done | done | lia |].
    by rewrite (drop_S _ _ _ Hxs), <- Hit.
  - eexists. split; [done |]. left. cbn. split; [lia |]. by rewrite drop_ge by lia.
Qed.

Lemma FindNextFull_iter h xss b : holds h xss -> (b <= length xss)%nat ->
  exists it, (b' ← FindNextFullBucket h b; iter_at h b') = Ok it /\ left_to_visit h xss it (concat (drop b xss)).
Proof.
  intros Hh Hb. unfold FindNextFullBucket. rewrite (ho_num _ _ Hh), Nat2Z.id.
  destruct (next_full_spec h xss (length xss - b) b Hh) as (b' & -> & Hle & -> & Hf); [lia |]. by apply iter_at_spec.
Qed.

Lemma iterate_spec h xss n it rest : holds h xss -> left_to_visit h xss it rest -> (length rest <= n)%nat ->
  iterate n h it = Ok rest.
Proof.
  intros Hh. revert it rest. induction n as [| n IH]; intros it rest Hl Hn; cbn [iterate]; unfold IsDone; rewrite (ho_num _ _ Hh).
  { destruct Hl as [(-> & ->) | (l & cs1 & c & cs2 & _ & _ & _ & _ & ->)]; [by rewrite Z.eqb_refl | by cbn in Hn; lia]. }
  destruct Hl as [(-> & ->) | (l & cs1 & c & cs2 & Hb & Hcs & Hcur & Hlt & ->)]; [by rewrite Z.eqb_refl |].
  destruct (Z.eqb_spec (Z.of_nat (bucket it)) (Z.of_nat (length xss))); [lia |].
  pose proof (CList.co_seg _ _ Hcs) as (r & _ & Hseg)%CList.lseg_app. destruct c as [a [x kx]]. cbn in Hseg.
  destruct Hseg as (-> & nx & Ha & Hseg). unfold Item, IsDone. rewrite (ho_num _ _ Hh), ASSERT_true by (apply negb_true_iff, Z.eqb_neq; lia).
  cbn [mbind res_bind]. rewrite Hb, Hcur. cbn [deref mbind res_bind fst]. rewrite (CList.read_Some _ _ _ Ha). cbn [mbind res_bind].
  unfold Next. rewrite Hb, Hcur. cbn [deref mbind res_bind fst]. rewrite (CList.read_Some _ _ _ Ha). cbn [mbind res_bind CList.next].
  assert (exists it', match nx with Some p => Ok (mkIter (bucket it) (Some p))
      | None => b ← FindNextFullBucket h (S (bucket it)); iter_at h b end = Ok it' /\
    left_to_visit h xss it' (CList.items cs2 ++ concat (drop (S (bucket it)) xss))) as (it' & -> & Hl').
  { destruct cs2 as [| [a2 [x2 k2]] cs2].
    - cbn in Hseg. subst nx. apply FindNextFull_iter; [done | lia].
    - destruct Hseg as (-> & _). eexists. split; [done |]. right. exists l, (cs1 ++ [(a, (x, kx))]), (a2, (x2, k2)), cs2.
      rewrite <- app_assoc. by split_and!. }
  cbn [mbind res_bind]. rewrite (IH it' _ Hl'); [done |]. rewrite CList.items_cons in Hn. cbn in Hn. lia.
Qed.

(** *** The contract *)

(** The table is the map [m]. *)
Definition represents h (m : gmap Key T) : Prop :=
  exists xss, holds h xss /\ counted h xss /\ forall k, m !! k = answer xss k.

Lemma represents_create : represents create ∅.
Proof.
  exists (replicate 4 []). split_and!; [by apply (InitBuckets_holds 4) | done |]. intros k. by rewrite lookup_empty.
Qed.

Lemma answer_perm xss xss' x k : NoDup (getKey <$> concat xss') -> NoDup (getKey <$> concat xss) ->
  concat xss' ≡ₚ x :: concat xss ->
  answer xss' k = (if decide (k = getKey x) then Some x else answer xss k) /\ answer xss (getKey x) = None.
Proof using All.
  intros Hnd' Hnd Hp. assert (getKey x ∉ getKey <$> concat xss) as Hx.
  { rewrite Hp in Hnd'. by apply NoDup_cons in Hnd' as [? _]. }
  split.
  - apply option_eq. intros y. rewrite (answer_Some xss' k y Hnd'), Hp, elem_of_cons.
    destruct (decide (k = getKey x)) as [-> | Hne]; [| rewrite (answer_Some xss k y Hnd); intuition congruence].
    split; [| intros [= <-]; split; [by left | done]]. intros [[-> | Hy] Hk]; [done |]. destruct Hx. apply list_elem_of_fmap. by exists y.
  - destruct (answer xss (getKey x)) as [y |] eqn:E; [| done]. apply answer_Some in E as [Hy Hk]; [| done].
    destruct Hx. apply list_elem_of_fmap. by exists y.
Qed.

(** The items a walk sees are those of the map, each once. *)
Lemma answer_items xss (m : gmap Key T) : NoDup (getKey <$> concat xss) -> (forall k, m !! k = answer xss k) ->
  NoDup (concat xss) /\ forall x, x ∈ concat xss <-> m !! getKey x = Some x.
Proof.
  intros Hnd Hm. split; [by eapply NoDup_fmap_1 |]. intros x. rewrite Hm, answer_Some by done. tauto.
Qed.

Lemma represents_empty xss h (m : gmap Key T) : counted h xss -> NoDup (getKey <$> concat xss) ->
  (forall k, m !! k = answer xss k) -> IsEmpty h = bool_decide (m = ∅).
Proof.
  intros [Hc _] Hnd Hm. destruct (answer_items xss m Hnd Hm) as [_ Hit]. unfold IsEmpty. rewrite Hc.
  destruct (concat xss) as [| x xs] eqn:E; cbn [length].
  - rewrite bool_decide_true; [done |]. apply map_eq. intros k. rewrite Hm, lookup_empty. unfold answer. by rewrite E.
  - rewrite bool_decide_false; [by destruct xs |]. intros ->. assert (x ∈ x :: xs) as Hx%Hit by (by left). by rewrite lookup_empty in Hx.
Qed.

(** C33: the hash table is a finite map from keys to items, whatever the hash
    function: [Find] looks up; [Insert] adds a new key, growing and rehashing the
    table when it gets full, and fails its assertion for a present key; [Remove]
    takes a key out and returns its item, and fails its assertion for an absent
    key; [SanityCheck] passes; [Apply] and the iterator visit every item of the map
    exactly once. *)
Theorem hash_table_is_map h (m : gmap Key T) :
  represents h m -> numItems h < 2 ^ 30 - 1 ->
  (forall k, Find getKey hash h k = Ok (m !! k)) /\
  (forall x, match m !! getKey x with
             | Some _ => Insert getKey hash h x = Fault AssertFailure
             | None => exists h', Insert getKey hash h x = Ok h' /\ represents h' (<[getKey x := x]> m)
             end) /\
  (forall k, match m !! k with
             | Some x => exists h', Remove getKey hash h k = Ok (x, h') /\ represents h' (delete k m)
             | None => Remove getKey hash h k = Fault AssertFailure
             end) /\
  SanityCheck getKey hash h = Ok tt /\ IsEmpty h = bool_decide (m = ∅) /\
  exists xs, NoDup xs /\ (forall x, x ∈ xs <-> m !! getKey x = Some x) /\ Apply h = Ok xs /\
    exists it, iter_create h = Ok it /\ iterate (length xs) h it = Ok xs.
Proof.
  intros (xss & Hh & Hc & Hm) Hmax. pose proof (ho_keys _ _ Hh) as Hnd. split_and!.
  - intros k. by rewrite (table_Find_spec h xss), Hm.
  - intros x. rewrite Hm. destruct (answer xss (getKey x)) as [y |] eqn:Ha.
    + unfold Insert. rewrite (IsInTable_spec h xss), Ha by done. done.
    + destruct (Insert_spec h xss x Hh Hc Hmax Ha) as (h' & xss' & -> & Hh' & Hc' & Hp). exists h'. split; [done |].
      exists xss'. split_and!; [done | done |]. intros k.
      destruct (answer_perm xss xss' x k (ho_keys _ _ Hh') Hnd Hp) as [-> _].
      case_decide as Hk; [subst; by rewrite lookup_insert_eq | by rewrite lookup_insert_ne by done].
  - intros k. rewrite Hm. destruct (answer xss k) as [x |] eqn:Ha.
    + destruct (table_Remove_spec h xss k x Hh Hc Ha) as (h' & xss' & -> & Hh' & Hc' & Hp). exists h'. split; [done |].
      exists xss'. split_and!; [done | done |]. apply answer_Some in Ha as [_ <-]; [| done]. intros k.
      destruct (answer_perm xss' xss x k Hnd (ho_keys _ _ Hh') Hp) as [Hk Hx].
      destruct (decide (k = getKey x)) as [-> | Hne]; [by rewrite lookup_delete_eq | by rewrite lookup_delete_ne, Hm, Hk by done].
    + unfold Remove. rewrite (HashValue_spec h xss) by done. cbn [mbind res_bind]. by rewrite (answer_bucket h xss k Hh), Ha.
  - by apply (table_SanityCheck_spec h xss).
  - by apply (represents_empty xss).
  - destruct (answer_items xss m Hnd Hm) as [? ?]. exists (concat xss). split_and!; [done | done | by apply table_Apply_spec |].
    destruct (FindNextFull_iter h xss 0 Hh) as (it & E & Hl); [lia |]. exists it. split; [exact E |]. by apply (iterate_spec h xss).
Qed.
End Map.
End HashTable.

(** ** lib/libtest.cc *)
Module LibTest.

Definition IntCompare (x y : Z) : Z := if x <? y then -1 else if x =? y then 0 else 1.
Definition HashInt (key : Z) : Z := u32 key.

(** [atoi] of a string of decimal digits. *)
Definition HashKey (str : list Z) : Z := foldl (fun r c => r * 10 + (c - 48)) 0 str.

Definition listTestVector : list Z := [9; 5; 7].
Definition hashTestVector : list (list Z) :=
  [[48]; [49]; [50]; [51]; [52]; [53]; [54]; [55]; [56]; [57];
   [49; 48]; [49; 49]; [49; 50]; [49; 51]; [49; 52]].

(** The destructor of the hash table asserts that it is empty. *)
Definition LibSelfTest : res unit :=
  map ← Bitmap.create 200;
  _ ← Bitmap.SelfTest map;
  _ ← CList.SelfTest CList.Append CList.SanityCheck CList.create listTestVector;
  _ ← CList.SortedSelfTest IntCompare CList.create listTestVector;
  h ← HashTable.SelfTest HashKey HashInt HashTable.create hashTestVector;
  ASSERT (HashTable.IsEmpty h).

Example lib_self_test_runs : LibSelfTest = Ok tt.
Proof. vm_compute. reflexivity. Qed.

Lemma hash_table_is_map_witness :
  exists h, HashTable.Insert HashKey HashInt HashTable.create [55] = Ok h /\
    HashTable.represents HashKey HashInt h {[ 7 := [55] ]}.
Proof.
  destruct (HashTable.hash_table_is_map HashKey HashInt HashTable.create ∅ (HashTable.represents_create HashKey HashInt)) as (_ & Hi & _);
    [done |]. exact (Hi [55]).
Defined.
End LibTest.
