(* ===== verification/Syscalls.v ===== *)
(** * Syscalls: the numbers, characters and copies of userprog/ksyscall.h

    The console is the characters the keyboard will deliver and those the display
    has received; a character is a [char] of the host, -128..127.  Waiting for a
    key that never comes is [Blocked].  [UserMem] copies strings between a user
    program and the kernel. *)

From S2P Require Import Prelude Machine.

(** ** Numbers and characters on the console *)
Module Console.

Definition newline : Z := 10.
Definition minus : Z := 45.
Definition zero : Z := 48.
Definition is_digit (c : Z) : bool := (zero <=? c) && (c <=? 57).

(** [while (c == '\n') c = GetChar()] *)
Fixpoint skip_newlines (input : list Z) : res (Z * list Z) :=
  match input with
  | [] => Fault Blocked
  | c :: input' => if c =? newline then skip_newlines input' else Ok (c, input')
  end.

(** The loop of [SysReadNum] over the remaining characters. *)
Fixpoint num_loop (input : list Z) (valid : bool) (result : Z) : res (Z * list Z) :=
  match input with
  | [] => Fault Blocked
  | c :: input' =>
      if is_digit c && valid then num_loop input' valid (s32 (result * 10 + c - zero))
      else if negb (c =? newline) then num_loop input' false 0
      else Ok (result, input')
  end.

Definition SysReadNum (input : list Z) : res (Z * list Z) :=
  '(c, input) ← skip_newlines input;
  let negative := c =? minus in
  let digit := is_digit c in
  let result := if negative then 0 else if digit then c - zero else 0 in
  let valid := negative || digit in
  '(result, input) ← num_loop input valid result;
  Ok (if negative then s32 (result * -1) else result, input).

(** The loop of [SysPrintNum] that separates the digits, last one first;
    [arr] is the array from its last cell back. *)
Fixpoint digit_loop (n : nat) (number : Z) (arr : list Z) : res (list Z) :=
  match n with
  | O => Fault OutOfFuel
  | S n' =>
      let digit := Z.rem number 10 in
      let number := Z.quot number 10 in
      let arr := char_to_int ((digit + zero) mod 256) :: arr in
      if number =? 0 then Ok arr else digit_loop n' number arr
  end.

(** A 32-bit number has at most ten digits. *)
Definition max_digits : nat := 10.

(** The characters [SysPrintNum] puts on the display. *)
Definition SysPrintNum (number : Z) : res (list Z) :=
  let negative := number <? 0 in
  let number := if negative then s32 (- number) else number in
  arr ← digit_loop max_digits number [];
  Ok (if negative then minus :: arr else arr).

(** [SysReadChar]: the first character of a line. *)
Fixpoint skip_line (input : list Z) : res (list Z) :=
  match input with
  | [] => Fault Blocked
  | c :: input' => if c =? newline then Ok input' else skip_line input'
  end.

Definition SysReadChar (input : list Z) : res (Z * list Z) :=
  '(c, input) ← skip_newlines input;
  input ← skip_line input;
  Ok (c, input).

Definition SysPrintChar (reg : Z) : Z := char_to_int (reg mod 256).

Definition SysAdd (op1 op2 : Z) : Z := s32 (op1 + op2).

(** *** Decimal notation *)

(** The value of a string of digits after [r]. *)
Definition value (r : Z) (cs : list Z) : Z := foldl (fun r c => r * 10 + (c - zero)) r cs.

Lemma value_app r cs ds : value r (cs ++ ds) = value (value r cs) ds.
Proof. apply foldl_app. Qed.

Lemma is_digit_spec c : is_digit c = true <-> 48 <= c <= 57.
Proof. unfold is_digit, zero. rewrite andb_true_iff, !Z.leb_le. done. Qed.

Lemma value_grows r cs : 0 <= r -> Forall (fun c => is_digit c = true) cs -> r <= value r cs.
Proof.
  intros Hr Hd. revert r Hr. induction Hd as [|c cs Hc Hd IH]; intros r Hr; [done |].
  apply is_digit_spec in Hc. cbn. unfold zero in *. specialize (IH (r * 10 + (c - 48)) ltac:(lia)).
  unfold value, zero in IH. lia.
Qed.

Lemma num_loop_digits cs input r :
  Forall (fun c => is_digit c = true) cs -> 0 <= r -> value r cs < 2 ^ 31 ->
  num_loop (cs ++ input) true r = num_loop input true (value r cs).
Proof.
  intros Hd. revert r. induction Hd as [|c cs Hc Hd IH]; intros r Hr Hv; [done |].
  cbn [app num_loop]. rewrite Hc. cbn [andb]. cbn [value foldl] in Hv |- *. apply is_digit_spec in Hc.
  pose proof (value_grows (r * 10 + (c - zero)) cs ltac:(unfold zero in *; lia) Hd) as Hg.
  unfold value in *. rewrite s32_id by (unfold is_s32, zero in *; lia).
  replace (r * 10 + c - zero) with (r * 10 + (c - zero)) by lia. apply IH; [unfold zero in *; lia | done].
Qed.

Lemma digit_loop_S n number arr :
  digit_loop (S n) number arr =
  let arr := char_to_int ((Z.rem number 10 + zero) mod 256) :: arr in
  if Z.quot number 10 =? 0 then Ok arr else digit_loop n (Z.quot number 10) arr.
Proof. done. Qed.

(** The digits of [m], in front of what is there. *)
Lemma digit_loop_spec n m arr :
  0 <= m < 10 ^ Z.of_nat (S n) ->
  exists ds, digit_loop (S n) m arr = Ok (ds ++ arr) /\ ds <> [] /\
    Forall (fun c => is_digit c = true) ds /\ value 0 ds = m.
Proof.
  revert m arr. induction n as [|n IH]; intros m arr Hm; rewrite digit_loop_S; cbv zeta;
    rewrite Z.rem_mod_nonneg, Z.quot_div_nonneg by lia;
    pose proof (Z.mod_pos_bound m 10 ltac:(lia)) as Hd; pose proof (Z.div_mod m 10 ltac:(lia)) as Hdm.
  all: assert (char_to_int ((m mod 10 + zero) mod 256) = m mod 10 + zero) as ->
    by (unfold char_to_int, zero; rewrite Z.mod_small by lia; case_match; lia).
  all: assert (is_digit (m mod 10 + zero) = true) as Hdig by (apply is_digit_spec; unfold zero; lia).
  - change (10 ^ Z.of_nat 1) with 10 in Hm. rewrite Z.div_small by lia.
    exists [m mod 10 + zero]. split_and!; [done | done | by constructor |].
    cbn. unfold zero. rewrite Z.mod_small by lia. lia.
  - destruct (Z.eqb_spec (m / 10) 0) as [Hz|Hz].
    + exists [m mod 10 + zero]. split_and!; [done | done | by constructor |]. cbn. unfold zero. lia.
    + assert (0 <= m / 10 < 10 ^ Z.of_nat (S n)) as Hq.
      { replace (Z.of_nat (S (S n))) with (Z.of_nat (S n) + 1) in Hm by lia.
        rewrite Z.pow_add_r in Hm by lia. Z.div_mod_to_equations. lia. }
      destruct (IH (m / 10) ((m mod 10 + zero) :: arr) Hq) as (ds & E & Hne & Hf & Hv).
      exists (ds ++ [m mod 10 + zero]). rewrite E. split_and!.
      * by rewrite <- app_assoc.
      * by destruct ds.
      * apply Forall_app. split; [done | by constructor].
      * rewrite value_app, Hv. cbn. unfold zero. lia.
Qed.

Lemma read_digits ds rest :
  ds <> [] -> Forall (fun c => is_digit c = true) ds -> value 0 ds < 2 ^ 31 ->
  SysReadNum (ds ++ newline :: rest) = Ok (value 0 ds, rest) /\
  num_loop (ds ++ newline :: rest) true 0 = Ok (value 0 ds, rest).
Proof.
  intros Hne Hd Hv. split; [| by rewrite num_loop_digits].
  destruct ds as [|c ds]; [done |]. apply Forall_cons in Hd as [Hc Hd]. pose proof Hc as Hc'.
  apply is_digit_spec in Hc'. unfold SysReadNum. cbn [app skip_newlines].
  destruct (Z.eqb_spec c newline); [unfold newline in *; lia |]. cbn [mbind res_bind].
  destruct (Z.eqb_spec c minus); [unfold minus in *; lia |]. rewrite Hc. cbn [orb].
  cbn [value foldl] in Hv |- *. rewrite Z.mul_0_l, Z.add_0_l in *.
  rewrite (num_loop_digits ds _ (c - zero)) by (done || unfold zero; lia).
  cbn [num_loop]. change (is_digit newline) with false. cbn [andb negb Z.eqb]. by cbn.
Qed.

(** [ReadNum] reads back what [PrintNum] printed, for every 32-bit number
    but the least: the characters of the number, then a newline, give the number
    and leave the rest of the input. *)
Theorem print_read_num n rest :
  - 2 ^ 31 < n < 2 ^ 31 ->
  exists cs, SysPrintNum n = Ok cs /\ SysReadNum (cs ++ newline :: rest) = Ok (n, rest).
Proof.
  intros Hn. unfold SysPrintNum, max_digits. destruct (Z.ltb_spec n 0) as [Hneg|Hpos].
  - rewrite s32_id by (unfold is_s32; lia).
    destruct (digit_loop_spec 9 (- n) []) as (ds & -> & Hne & Hd & Hv); [cbn; lia |].
    rewrite app_nil_r. cbn [mbind res_bind]. exists (minus :: ds). split; [done |].
    unfold SysReadNum. cbn [app skip_newlines]. change (minus =? newline) with false. cbn [mbind res_bind].
    change (minus =? minus) with true. cbn [orb].
    destruct (read_digits ds rest Hne Hd ltac:(lia)) as [_ ->]. cbn [mbind res_bind].
    rewrite Hv. rewrite s32_id by (unfold is_s32; lia). do 2 f_equal. lia.
  - destruct (digit_loop_spec 9 n []) as (ds & -> & Hne & Hd & Hv); [cbn; lia |].
    rewrite app_nil_r. cbn [mbind res_bind]. exists ds. split; [done |].
    destruct (read_digits ds rest Hne Hd ltac:(lia)) as [-> _]. by rewrite Hv.
Qed.

Lemma print_read_num_witness :
  exists cs, SysPrintNum (-1205) = Ok cs /\ SysReadNum (cs ++ [newline; 65]) = Ok (-1205, [65]).
Proof. apply (print_read_num (-1205) [65]). split; reflexivity. Defined.

(** The least number has no negation of its width, so that its digits come
    out negative: [PrintNum] prints a minus sign and ten characters none of which
    is a digit. *)
Theorem print_least_num :
  exists ds, SysPrintNum (- 2 ^ 31) = Ok (minus :: ds) /\ length ds = 10%nat /\
    Forall (fun c => is_digit c = false) ds.
Proof.
  exists [46; 47; 44; 41; 44; 40; 45; 42; 44; 40].
  split; [vm_compute; reflexivity |]. split; [reflexivity |]. by repeat constructor.
Qed.
End Console.

(** ** Copying between user and system memory

    A fault on the way ends in the exception handler, which halts the machine:
    [Trap]. *)
Module UserMem.
Import Machine.

(** The loop of [User2System]; [kernelBuf] is the buffer so far. *)
Fixpoint u2s_loop (n i : nat) (m : Machine.t) (virtAddr : Z) (kernelBuf : list Z)
    : res (outcome (list Z)) :=
  match n with
  | O => Ok (Done kernelBuf m)
  | S n' =>
      r ← ReadMem m (s32 (virtAddr + Z.of_nat i)) 1;
      match r with
      | Trap which m => Ok (Trap which m)
      | Done oneChar m =>
          let kernelBuf := <[i := oneChar]> kernelBuf in
          if oneChar =? 0 then Ok (Done kernelBuf m) else u2s_loop n' (S i) m virtAddr kernelBuf
      end
  end.

(** [fresh] is what [new char[limit + 1]] holds. *)
Definition User2System (fresh : nat -> list Z) (m : Machine.t) (virtAddr limit : Z)
    : res (outcome (list Z)) :=
  if limit + 1 <? 0 then Fault MemoryFault
  else u2s_loop (Z.to_nat limit) 0 m virtAddr (fresh (Z.to_nat (limit + 1))).

(** The [do ... while] of [System2User]. *)
Fixpoint s2u_loop (n i : nat) (m : Machine.t) (virtAddr len : Z) (buffer : list Z)
    : res (outcome Z) :=
  match n with
  | O => Fault OutOfFuel
  | S n' =>
      oneChar ← deref (buffer !! i);
      r ← WriteMem m (s32 (virtAddr + Z.of_nat i)) 1 oneChar;
      match r with
      | Trap which m => Ok (Trap which m)
      | Done _ m =>
          if (Z.of_nat (S i) <? len) && negb (oneChar =? 0) then s2u_loop n' (S i) m virtAddr len buffer
          else Ok (Done (Z.of_nat (S i)) m)
      end
  end.

Definition System2User (m : Machine.t) (virtAddr len : Z) (buffer : list Z) : res (outcome Z) :=
  if len <? 0 then Ok (Done (-1) m)
  else if len =? 0 then Ok (Done len m)
  else s2u_loop (Z.to_nat len) 0 m virtAddr len buffer.

(** *** Characters of the user's memory *)

Definition is_char (c : Z) : Prop := -128 <= c < 128.

(** The character a load at [va] gives. *)
Definition user_char (m : Machine.t) (va : Z) : option Z :=
  if decide (expected_exception m va 1 false = NoException) then
    pa ← phys_addr m va; Some (value_of 1 (bytes_at m pa 1))
  else None.

Lemma user_char_same m m' va :
  same_view m m' -> mainMemory m' = mainMemory m -> user_char m' va = user_char m va.
Proof.
  intros [He Hp] Hm. unfold user_char, bytes_at. rewrite He, Hp. by rewrite Hm.
Qed.

Lemma same_view_refl m : same_view m m.
Proof. by split. Qed.
Lemma same_view_trans m1 m2 m3 : same_view m1 m2 -> same_view m2 m3 -> same_view m1 m3.
Proof. intros [H1 H2] [H3 H4]. split; intros; [by rewrite H3 | by rewrite H4]. Qed.

Lemma read_char m va c :
  wf m -> user_char m va = Some c ->
  exists m', ReadMem m va 1 = Ok (Done c m') /\ wf m' /\ same_view m m' /\ mainMemory m' = mainMemory m.
Proof.
  intros Hwf Hc. unfold user_char in Hc. case_decide as He; [| done].
  destruct (ReadMem_ok m va 1 Hwf ltac:(by left) He) as (pa & i & Hp & _ & _ & _ & E).
  rewrite Hp in Hc. injection Hc as <-. eexists. split; [exact E |].
  split_and!; [by apply wf_mark | apply same_view_mark | apply mark_mem].
Qed.

(** A byte that can be written can be read. *)
Lemma writable_readable m va :
  expected_exception m va 1 true = NoException -> expected_exception m va 1 false = NoException.
Proof.
  unfold expected_exception. cbv zeta. rewrite Z.mod_1_r. cbn [negb Z.eqb].
  destruct (page_entry m _) as [e|]; [| done]. rewrite andb_true_r, andb_false_r. by destruct (readOnly e).
Qed.

Lemma char_of_split c : is_char c -> value_of 1 (le_split 1 c) = c.
Proof.
  unfold is_char, value_of, char_to_int. intros Hc. cbn [le_split le_combine]. rewrite Z.mul_0_r, Z.add_0_r.
  destruct (decide (0 <= c)).
  - rewrite Z.mod_small by lia. case_match; lia.
  - replace (c mod 256) with (c + 256) by (apply (Z.mod_unique_pos _ _ (-1)); lia). case_match; lia.
Qed.

(** One character written: it is there, and no other byte changes. *)
Lemma write_char m va c :
  wf m -> expected_exception m va 1 true = NoException -> is_char c ->
  exists m' pa, WriteMem m va 1 c = Ok (Done tt m') /\ wf m' /\ same_view m m' /\
    phys_addr m va = Some pa /\ 0 <= pa /\ user_char m' va = Some c /\
    forall a, 0 <= a -> a <> pa -> bytes_at m' a 1 = bytes_at m a 1.
Proof.
  intros Hwf He Hc. destruct (WriteMem_ok m va 1 c Hwf ltac:(by left) He) as (pa & i & Hp & H0 & H1 & E).
  exists (write_bytes (mark true i m) pa (le_split 1 c)), pa.
  pose proof (same_view_mark true i m) as Hv. destruct (mark_mem true i m) as [Hm _].
  assert (Z.to_nat pa + length (le_split 1 c) <= length (mainMemory m))%nat as Hfit.
  { rewrite (wf_mem _ Hwf), length_le_split. lia. }
  split_and!; [done | | destruct Hv; by split | done | done | |].
  - apply wf_write_bytes; [by apply wf_mark | apply le_split_bytes].
  - unfold user_char. rewrite decide_True.
    2: { change (expected_exception (mark true i m) va 1 false = NoException). rewrite (sv_exception _ _ Hv).
         by apply writable_readable. }
    change (phys_addr (write_bytes _ _ _) va) with (phys_addr (mark true i m) va).
    rewrite (sv_phys _ _ Hv), Hp. cbn [mbind option_bind]. f_equal.
    unfold bytes_at, write_bytes. cbn [with_memory mainMemory]. rewrite Hm.
    change (Z.to_nat 1) with (length (le_split 1 c)). rewrite slice_inserts_eq by done. by apply char_of_split.
  - intros a Ha Hne. unfold bytes_at, write_bytes. cbn [with_memory mainMemory]. rewrite Hm.
    apply slice_inserts_ne; [done |]. rewrite length_le_split. lia.
Qed.

(** *** Strings *)

(** A C string without its end. *)
Definition is_cstring (s : list Z) : Prop := Forall (fun c => is_char c /\ c <> 0) s.

(** The bytes [va + i .. va + j] are addresses that can be written, and apart. *)
Record writable_range (m : Machine.t) (va : Z) (i j : nat) : Prop := {
  wr_s32 x : (i <= x <= j)%nat -> is_s32 (va + Z.of_nat x);
  wr_ok x : (i <= x <= j)%nat -> expected_exception m (va + Z.of_nat x) 1 true = NoException;
  wr_apart x y : (i <= x <= j)%nat -> (i <= y <= j)%nat ->
    phys_addr m (va + Z.of_nat x) = phys_addr m (va + Z.of_nat y) -> x = y;
}.

Lemma writable_next m m' va i j :
  same_view m m' -> writable_range m va i j -> writable_range m' va (S i) j.
Proof.
  intros [He Hp] [H1 H2 H3]. split.
  - intros x Hx. apply H1. lia.
  - intros x Hx. rewrite He. apply H2. lia.
  - intros x y Hx Hy. rewrite !Hp. apply H3; lia.
Qed.

(** No byte but those of the range changes. *)
Definition only_range (m m' : Machine.t) (va : Z) (i j : nat) : Prop :=
  forall a, 0 <= a -> (forall x, (i <= x <= j)%nat -> phys_addr m (va + Z.of_nat x) <> Some a) ->
    bytes_at m' a 1 = bytes_at m a 1.

(** The copy ends with [e]: at the end of the string, or at the length given. *)
Lemma s2u_loop_spec s e n i m va len buf junk :
  wf m -> is_cstring s -> is_char e -> (e = 0 \/ Z.of_nat (i + length s + 1) = len) ->
  drop i buf = s ++ e :: junk -> (length s < n)%nat ->
  Z.of_nat (i + length s) < len -> writable_range m va i (i + length s) ->
  exists m', s2u_loop n i m va len buf = Ok (Done (Z.of_nat (i + length s + 1)) m') /\ wf m' /\
    same_view m m' /\ only_range m m' va i (i + length s) /\
    forall j c, (s ++ [e]) !! j = Some c -> user_char m' (va + Z.of_nat (i + j)) = Some c.
Proof.
  intros Hwf Hs He. revert n i m Hwf. induction Hs as [|c s [Hc Hz] Hs IH]; intros n i m Hwf Hend Hb Hn Hlen Hr;
    (destruct n as [|n]; [cbn in Hn; lia |]); cbn [s2u_loop].
  all: assert (buf !! i = head (drop i buf)) as Hi by (rewrite head_lookup, lookup_drop; f_equal; lia).
  all: rewrite Hi, Hb; cbn [app head deref mbind res_bind];
    rewrite s32_id by (apply (wr_s32 _ _ _ _ Hr); lia).
  - destruct (write_char m (va + Z.of_nat i) e Hwf) as (m' & pa & -> & Hwf' & Hv & Hpa & Hpos & Hu & Ho);
      [apply (wr_ok _ _ _ _ Hr); lia | done |].
    cbn [mbind res_bind].
    assert ((Z.of_nat (S i) <? len) && negb (e =? 0) = false) as ->.
    { destruct Hend as [-> | <-]; [by rewrite andb_false_r |]. cbn [length].
      by rewrite (proj2 (Z.ltb_ge _ _)) by lia. }
    exists m'. split_and!; [do 2 f_equal; cbn; f_equal; lia | done | done | |].
    + intros a Ha Hx. apply Ho; [done |]. intros ->. apply (Hx i); [cbn; lia | done].
    + intros [|j] c Hj; [| by destruct j]. injection Hj as <-. by rewrite Nat.add_0_r.
  - cbn [length] in *.
    destruct (write_char m (va + Z.of_nat i) c Hwf) as (m1 & pa & -> & Hwf1 & Hv1 & Hpa & Hpos & Hu & Ho);
      [apply (wr_ok _ _ _ _ Hr); lia | done |].
    cbn [mbind res_bind]. destruct (Z.eqb_spec c 0); [done |]. rewrite (proj2 (Z.ltb_lt _ _)) by lia. cbn [negb andb].
    assert (writable_range m1 va (S i) (S i + length s)) as Hr1.
    { replace (S i + length s)%nat with (i + S (length s))%nat by lia. by apply (writable_next m). }
    assert (drop (S i) buf = s ++ e :: junk) as Hb1.
    { rewrite <- Nat.add_1_r, <- drop_drop, Hb. done. }
    destruct (IH n (S i) m1 Hwf1) as (m' & -> & Hwf' & Hv' & Ho' & Hu'); [destruct Hend; [by left | right; lia] | done | lia | lia | done |].
    exists m'. split_and!; [do 2 f_equal; lia | done | by apply (same_view_trans m m1) | |].
    + intros a Ha Hx. rewrite Ho'; [apply Ho; [done |] | done |].
      * intros ->. apply (Hx i); [lia | done].
      * intros x Hxr. rewrite (sv_phys _ _ Hv1). apply Hx. lia.
    + intros [|j] d Hj.
      * injection Hj as <-. rewrite Nat.add_0_r. rewrite <- Hu. unfold user_char.
        rewrite (sv_exception _ _ Hv'). case_decide; [| done]. rewrite (sv_phys _ _ Hv'), (sv_phys _ _ Hv1), Hpa.
        cbn [mbind option_bind]. do 2 f_equal. apply Ho'; [done |]. intros x Hx Hxp.
        rewrite (sv_phys _ _ Hv1), <- Hpa in Hxp. apply (wr_apart _ _ _ _ Hr) in Hxp; lia.
      * replace (i + S j)%nat with (S i + j)%nat by lia. by apply Hu'.
Qed.

Lemma u2s_loop_spec s n i m va buf :
  wf m -> is_cstring s -> (length s < n)%nat -> (i + length s < length buf)%nat ->
  (forall x, (i <= x <= i + length s)%nat -> is_s32 (va + Z.of_nat x)) ->
  (forall j c, (s ++ [0]) !! j = Some c -> user_char m (va + Z.of_nat (i + j)) = Some c) ->
  exists m', u2s_loop n i m va buf = Ok (Done (list_inserts i (s ++ [0]) buf) m') /\ wf m' /\
    same_view m m' /\ mainMemory m' = mainMemory m.
Proof.
  intros Hwf Hs. revert n i m buf Hwf. induction Hs as [|c s [Hc Hz] Hs IH]; intros n i m buf Hwf Hn Hb H32 Hu;
    (destruct n as [|n]; [cbn in Hn; lia |]); cbn [u2s_loop];
    rewrite s32_id by (apply H32; lia).
  - destruct (read_char m (va + Z.of_nat i) 0 Hwf) as (m' & -> & Hwf' & Hv & Hm).
    { rewrite <- (Nat.add_0_r i). by apply Hu. }
    cbn. by exists m'.
  - destruct (read_char m (va + Z.of_nat i) c Hwf) as (m1 & -> & Hwf1 & Hv1 & Hm1).
    { rewrite <- (Nat.add_0_r i). by apply Hu. }
    cbn [mbind res_bind]. destruct (Z.eqb_spec c 0); [done |]. cbn [length] in *.
    destruct (IH n (S i) m1 (<[i := c]> buf) Hwf1) as (m' & -> & Hwf' & Hv' & Hm').
    + lia.
    + rewrite length_insert. lia.
    + intros x Hx. apply H32. lia.
    + intros j d Hj. rewrite (user_char_same m m1) by done.
      replace (S i + j)%nat with (i + S j)%nat by lia. by apply Hu.
    + exists m'. split_and!; [| done | by apply (same_view_trans m m1) | congruence].
      do 2 f_equal. cbn [app list_inserts]. by rewrite list_insert_inserts_lt by lia.
Qed.

(** A string the kernel copies out to a user buffer is what it copies in
    from there: with room for the string and its end, every byte of the buffer
    writable and no two of them the same memory, [System2User] returns one more
    than the length and changes no byte outside the buffer, and [User2System]
    then returns a buffer that starts with the string and its end. *)
Theorem string_round_trip (fresh : nat -> list Z) m va len limit s junk :
  (forall n, length (fresh n) = n) -> wf m -> is_cstring s ->
  Z.of_nat (length s) < len -> Z.of_nat (length s) < limit -> writable_range m va 0 (length s) ->
  exists m1 m2 buf, System2User m va len (s ++ 0 :: junk) = Ok (Done (Z.of_nat (length s) + 1) m1) /\
    wf m1 /\ same_view m m1 /\ only_range m m1 va 0 (length s) /\
    User2System fresh m1 va limit = Ok (Done buf m2) /\ take (S (length s)) buf = s ++ [0] /\
    length buf = Z.to_nat (limit + 1) /\ wf m2 /\ mainMemory m2 = mainMemory m1.
Proof.
  intros Hf Hwf Hs Hlen Hlim Hr. unfold System2User, User2System.
  destruct (Z.ltb_spec len 0); [lia |]. destruct (Z.eqb_spec len 0); [lia |].
  destruct (Z.ltb_spec (limit + 1) 0); [lia |].
  destruct (s2u_loop_spec s 0 (Z.to_nat len) 0 m va len (s ++ 0 :: junk) junk Hwf Hs)
    as (m1 & -> & Hwf1 & Hv1 & Ho & Hu); [done | by left | done | lia | cbn; lia | done |].
  pose proof (Hf (Z.to_nat (limit + 1))) as Hfl.
  destruct (u2s_loop_spec s (Z.to_nat limit) 0 m1 va (fresh (Z.to_nat (limit + 1))) Hwf1 Hs)
    as (m2 & E2 & Hwf2 & Hv2 & Hm2); [lia | lia | intros x Hx; by apply (wr_s32 _ _ _ _ Hr) | done |].
  eexists m1, m2, _. cbn [Nat.add] in Ho.
  split_and!; [do 2 f_equal; lia | done | done | done | exact E2 | | | done | done].
  - assert (S (length s) = length (s ++ [0])) as -> by (rewrite length_app; cbn; lia).
    rewrite take_slice. apply slice_inserts_eq. rewrite length_app, Hfl. cbn. lia.
  - by rewrite length_inserts.
Qed.

(** "Hi" in the first page of the machine of Machine.v. *)
Lemma string_round_trip_witness :
  exists m1 m2 buf, System2User demo 8 5 [72; 105; 0; 1] = Ok (Done 3 m1) /\
    User2System (fun n => replicate n 7) m1 8 20 = Ok (Done buf m2) /\ take 3 buf = [72; 105; 0].
Proof.
  destruct (string_round_trip (fun n => replicate n 7) demo 8 5 20 [72; 105] [1]
    (fun n => length_replicate n 7) wf_demo) as (m1 & m2 & buf & E1 & _ & _ & _ & E2 & Hb & _).
  - by repeat constructor.
  - reflexivity.
  - reflexivity.
  - split.
    + intros x Hx. unfold is_s32. cbn in Hx. lia.
    + intros x Hx. cbn in Hx. destruct x as [|[|[|x]]]; [vm_compute; reflexivity.. | lia].
    + intros x y Hx Hy. cbn in Hx, Hy.
      destruct x as [|[|[|x]]]; [| | | lia]; (destruct y as [|[|[|y]]]; [| | | lia]); try done; by vm_compute.
  - exists m1, m2, buf. exact (conj E1 (conj E2 Hb)).
Defined.
End UserMem.
