(* ===== verification/FileCalls.v ===== *)
(** * FileCalls: the stub FileSystem of filesys.h and openfile.h, and the file and
      string system calls of userprog/ksyscall.h

    The kernel is built with FILESYS_STUB: a Nachos file is a file of the host.
    The host's directory is a map from names to contents; whether the host lets a
    new file be created is a parameter.  What the calls change of the kernel is
    the record [t]; a system call is a computation over it that can also fault, or
    end in the exception handler because of a bad user address ([Trapped]). *)

From S2P Require Import Prelude Machine Syscalls.

Module FileCalls.
Import Machine UserMem.

(** ** The kernel and its computations *)

(** [OpenFile]: the host file behind the descriptor, and the offset. *)
Record OpenFile := mkOpen { file : list Z; currentOffset : Z }.

Record t := mk {
  machine : Machine.t;
  input : list Z;                           (** what [GetChar] will deliver *)
  output : list Z;                          (** what [PutChar] has received *)
  files : gmap (list Z) (list Z);           (** the host's files *)
  openFiles : list (option OpenFile);
  type : list Z;
  idx : Z;
}.

Definition with_machine (k : t) m := mk m (input k) (output k) (files k) (openFiles k) (type k) (idx k).
Definition with_input (k : t) i := mk (machine k) i (output k) (files k) (openFiles k) (type k) (idx k).
Definition with_output (k : t) o := mk (machine k) (input k) o (files k) (openFiles k) (type k) (idx k).
Definition with_files (k : t) f := mk (machine k) (input k) (output k) f (openFiles k) (type k) (idx k).
Definition with_openFiles (k : t) o := mk (machine k) (input k) (output k) (files k) o (type k) (idx k).
Definition with_type (k : t) ty := mk (machine k) (input k) (output k) (files k) (openFiles k) ty (idx k).
Definition with_idx (k : t) i := mk (machine k) (input k) (output k) (files k) (openFiles k) (type k) i.

Inductive ret (A : Type) : Type :=
  | Returned (a : A) (k : t)
  | Trapped (which : ExceptionType) (k : t).
Arguments Returned {A} _ _.
Arguments Trapped {A} _ _.

Definition M (A : Type) : Type := t -> res (ret A).
#[export] Instance M_ret : MRet M := fun A a k => Ok (Returned a k).
#[export] Instance M_bind : MBind M := fun A B f m k =>
  match m k with
  | Ok (Returned a k') => f a k'
  | Ok (Trapped w k') => Ok (Trapped w k')
  | Fault e => Fault e
  end.

Definition fail {A} (e : fault) : M A := fun _ => Fault e.
Definition gets {A} (f : t -> A) : M A := fun k => Ok (Returned (f k) k).
Definition modify (f : t -> t) : M unit := fun k => Ok (Returned tt (f k)).
Definition lift {A} (r : res A) : M A := fun k =>
  match r with Ok a => Ok (Returned a k) | Fault e => Fault e end.
(** A computation on the machine. *)
Definition on_machine {A} (f : Machine.t -> res (outcome A)) : M A := fun k =>
  match f (machine k) with
  | Ok (Done a m) => Ok (Returned a (with_machine k m))
  | Ok (Trap w m) => Ok (Trapped w (with_machine k m))
  | Fault e => Fault e
  end.

Definition ReadReg (r : Z) : M Z := k ← gets machine; lift (ReadRegister k r).
Definition WriteReg (r v : Z) : M unit :=
  on_machine (fun m => m' ← WriteRegister m r v; Ok (Done tt m')).

Definition GetChar : M Z := i ← gets input;
  match i with [] => fail Blocked | c :: i' => _ ← modify (fun k => with_input k i'); mret c end.
Definition PutChar (c : Z) : M unit := modify (fun k => with_output k (output k ++ [c])).

(** An element of an array of the kernel; outside of it is a wild access. *)
Definition at_ {A} (l : list A) (i : Z) : res A := if i <? 0 then Fault MemoryFault else deref (l !! Z.to_nat i).
Definition openFile (i : Z) : M (option OpenFile) := o ← gets openFiles; lift (at_ o i).
Definition set_openFile (i : Z) (o : option OpenFile) : M unit :=
  _ ← openFile i; modify (fun k => with_openFiles k (<[Z.to_nat i := o]> (openFiles k))).
Definition set_type (i : Z) (ty : Z) : M unit :=
  l ← gets type; _ ← lift (at_ l i); modify (fun k => with_type k (<[Z.to_nat i := ty]> (type k))).

(** The string at the start of a buffer; without an end, its reader runs off it. *)
Fixpoint cstring (buf : list Z) : option (list Z) :=
  match buf with
  | [] => None
  | c :: buf' => if c =? 0 then Some [] else s ← cstring buf'; Some (c :: s)
  end.

(** [strcmp(buf, s) == 0] for a string [s] *)
Fixpoint same_string (buf s : list Z) : res bool :=
  match buf, s with
  | [], _ => Fault MemoryFault
  | c :: _, [] => Ok (c =? 0)
  | c :: buf', d :: s' => if c =? d then same_string buf' s' else Ok false
  end.

(** [buf[i] = c] *)
Definition poke (buf : list Z) (i : nat) (c : Z) : M (list Z) :=
  if decide (i < length buf)%nat then mret (<[i := c]> buf) else fail MemoryFault.

(** "stdin", "stdout" *)
Definition stdin_name : list Z := [115; 116; 100; 105; 110].
Definition stdout_name : list Z := [115; 116; 100; 111; 117; 116].

(** ** The host (lib/sysdep.cc over UNIX) *)
Section host.
(** Whether [open] with [O_CREAT] succeeds for a new name. *)
Context (creatable : list Z -> bool).
(** What [new char[n]] holds. *)
Context (fresh : nat -> list Z).

Definition OpenForWrite (name : list Z) : M (list Z) :=
  fs ← gets files;
  _ ← lift (ASSERT (bool_decide (is_Some (fs !! name)) || creatable name));
  _ ← modify (fun k => with_files k (<[name := []]> (files k)));
  mret name.

Definition OpenForReadWrite (name : list Z) (crashOnError : bool) : M (option (list Z)) :=
  fs ← gets files;
  let fd := if decide (is_Some (fs !! name)) then Some name else None in
  _ ← lift (ASSERT (negb crashOnError || bool_decide (is_Some fd)));
  mret fd.

Definition contents (name : list Z) : M (list Z) := fs ← gets files; lift (deref (fs !! name)).

(** [write] at a position: a gap is filled with zeros; writing nothing changes nothing. *)
Definition overwrite (c : list Z) (pos : nat) (bs : list Z) : list Z :=
  match bs with
  | [] => c
  | _ => let c' := c ++ replicate (pos - length c) 0 in take pos c' ++ bs ++ drop (pos + length bs) c'
  end.

(** [Lseek(file, position, 0); ReadPartial(file, into, numBytes)]; the host does not
    define what a negative count does. *)
Definition ReadAt (f : OpenFile) (numBytes position : Z) : M (list Z) :=
  _ ← lift (ASSERT (0 <=? position));
  if numBytes <? 0 then fail MemoryFault
  else c ← contents (file f); mret (slice (Z.to_nat position) (Z.to_nat numBytes) c).

(** [Lseek(file, position, 0); WriteFile(file, from, numBytes)] *)
Definition WriteAt (f : OpenFile) (from : list Z) (numBytes position : Z) : M Z :=
  _ ← lift (ASSERT (0 <=? position));
  if (numBytes <? 0) || (Z.of_nat (length from) <? numBytes) then fail MemoryFault
  else
    c ← contents (file f);
    _ ← modify (fun k => with_files k
          (<[file f := overwrite c (Z.to_nat position) (take (Z.to_nat numBytes) from)]> (files k)));
    mret numBytes.

(** [Read], [Write], [Seek] change the object in slot [i]. *)
Definition Read (i : Z) (f : OpenFile) (numBytes : Z) : M (list Z) :=
  into ← ReadAt f numBytes (currentOffset f);
  _ ← set_openFile i (Some (mkOpen (file f) (s32 (currentOffset f + Z.of_nat (length into)))));
  mret into.

Definition Write (i : Z) (f : OpenFile) (from : list Z) (numBytes : Z) : M Z :=
  numWritten ← WriteAt f from numBytes (currentOffset f);
  _ ← set_openFile i (Some (mkOpen (file f) (s32 (currentOffset f + numWritten))));
  mret numWritten.

Definition Seek (i : Z) (f : OpenFile) (pos : Z) : M Z :=
  _ ← lift (ASSERT (0 <=? pos));
  _ ← set_openFile i (Some (mkOpen (file f) pos));
  mret pos.

Definition Length (f : OpenFile) : M Z := c ← contents (file f); mret (s32 (Z.of_nat (length c))).

(** ** The stub FileSystem *)

Definition Create (name : list Z) : M bool := _ ← OpenForWrite name; mret true.

Definition Open (name : list Z) : M (option OpenFile) :=
  fd ← OpenForReadWrite name false;
  mret (match fd with None => None | Some f => Some (mkOpen f 0) end).

Fixpoint free_loop (n i : nat) (o : list (option OpenFile)) : res Z :=
  match n with
  | O => Ok (-1)
  | S n' =>
      f ← deref (o !! i);
      match f with None => Ok (Z.of_nat i) | Some _ => free_loop n' (S i) o end
  end.
Definition findFreeSlot : M Z := o ← gets openFiles; lift (free_loop 8 2 o).

(** [openFiles[idx++] = Open(name)] *)
Definition open_next (name : list Z) : M unit :=
  f ← Open name;
  i ← gets idx;
  _ ← modify (fun k => with_idx k (i + 1));
  set_openFile i f.

Definition FileSystem : M unit :=
  _ ← modify (fun k => with_idx (with_type (with_openFiles k (replicate 10 None)) (replicate 10 0)) 0);
  _ ← Create stdin_name;
  _ ← Create stdout_name;
  _ ← set_type 1 1;
  _ ← open_next stdin_name;
  open_next stdout_name.

(** ** System calls *)

Definition MAX_LENGTH : Z := 1000.

Definition user2system (virtAddr limit : Z) : M (list Z) :=
  on_machine (fun m => User2System fresh m virtAddr limit).
Definition system2user (virtAddr len : Z) (buffer : list Z) : M Z :=
  on_machine (fun m => System2User m virtAddr len buffer).

(** [new char[n]], for an int [n] *)
Definition new_chars (n : Z) : M (list Z) := if n <? 0 then fail MemoryFault else mret (fresh (Z.to_nat n)).

(** The loop that reads a line into a buffer; the index it ends at. *)
Fixpoint line_loop (n : nat) (i : nat) (sysBuff : list Z) : M (nat * list Z) :=
  match n with
  | O => mret (i, sysBuff)
  | S n' =>
      ch ← GetChar;
      if (ch =? 10) || (ch =? 0) then sysBuff ← poke sysBuff i 0; mret (i, sysBuff)
      else sysBuff ← poke sysBuff i ch; line_loop n' (S i) sysBuff
  end.

(** The loop that prints a buffer; the index it ends at. *)
Fixpoint print_loop (n : nat) (i : nat) (sysBuff : list Z) : M nat :=
  match n with
  | O => mret i
  | S n' =>
      c ← lift (deref (sysBuff !! i));
      if c =? 0 then mret i else _ ← PutChar c; print_loop n' (S i) sysBuff
  end.

Definition SysReadString : M unit :=
  addr ← ReadReg 4;
  length ← ReadReg 5;
  sysBuff ← new_chars (length + 1);
  '(i, sysBuff) ← line_loop (Z.to_nat length) 0 sysBuff;
  sysBuff ← poke sysBuff i 0;
  _ ← system2user addr length sysBuff;
  mret tt.

Definition SysPrintString : M unit :=
  addr ← ReadReg 4;
  sysBuff ← user2system addr MAX_LENGTH;
  _ ← print_loop (Z.to_nat MAX_LENGTH) 0 sysBuff;
  mret tt.

Definition SysCreateFile : M Z :=
  addr ← ReadReg 4;
  sysBuff ← user2system addr MAX_LENGTH;
  name ← lift (deref (cstring sysBuff));
  if decide (name = []) then mret (-1)
  else code ← Create name; mret (if code : bool then 0 else -1).

Definition SysOpen : M Z :=
  addr ← ReadReg 4;
  ty ← ReadReg 5;
  buf ← user2system addr 256;
  is_stdin ← lift (same_string buf stdin_name);
  if is_stdin : bool then mret 0 else
  is_stdout ← lift (same_string buf stdout_name);
  if is_stdout : bool then mret 1
  else
    freeSlot ← findFreeSlot;
    if freeSlot =? -1 then mret (-1)
    else
      _ ← set_type freeSlot ty;
      if (ty =? 0) || (ty =? 1) then
        name ← lift (deref (cstring buf));
        f ← Open name;
        _ ← set_openFile freeSlot f;
        match f with
        | Some _ => mret freeSlot
        | None => if ty =? 2 then mret 0 else if ty =? 3 then mret 1 else mret (-1)
        end
      else mret (-1).

Definition SysClose : M Z :=
  fileid ← ReadReg 4;
  if (0 <=? fileid) && (fileid <=? 9) then
    f ← openFile fileid;
    match f with
    | Some _ => _ ← set_openFile fileid None; mret 0
    | None => mret (-1)
    end
  else mret (-1).

Definition SysRead : M Z :=
  virtualAddr ← ReadReg 4;
  charcount ← ReadReg 5;
  openFileId ← ReadReg 6;
  if (9 <? openFileId) || (openFileId <? 0) then mret (-1)
  else
    f ← openFile openFileId;
    match f with
    | None => mret (-4)
    | Some f =>
        sysBuff ← new_chars (charcount + 1);
        if openFileId =? 0 then
          '(i, sysBuff) ← line_loop (Z.to_nat charcount) 0 sysBuff;
          sysBuff ← poke sysBuff i 0;
          _ ← system2user virtualAddr charcount sysBuff;
          mret (Z.of_nat i)
        else if openFileId =? 1 then mret (-2)
        else
          into ← Read openFileId f charcount;
          let size := Z.of_nat (length into) in
          if 0 <? size then
            _ ← system2user virtualAddr size (list_inserts 0 into sysBuff);
            mret size
          else mret (-3)
    end.

Definition SysWrite : M Z :=
  virtualAddr ← ReadReg 4;
  charcount ← ReadReg 5;
  openFileId ← ReadReg 6;
  if (9 <? openFileId) || (openFileId <? 0) then mret (-1)
  else
    f ← openFile openFileId;
    match f with
    | None => mret (-4)
    | Some f =>
        tys ← gets type;
        ty ← lift (at_ tys openFileId);
        if ty =? 1 then mret (-2)
        else
          sysBuff ← user2system virtualAddr (s32 (charcount + 1));
          if openFileId =? 1 then i ← print_loop (Z.to_nat MAX_LENGTH) 0 sysBuff; mret (Z.of_nat i)
          else if openFileId =? 0 then mret (-2)
          else Write openFileId f sysBuff charcount
    end.

Definition SysSeek : M Z :=
  pos ← ReadReg 4;
  id ← ReadReg 5;
  if (id <? 0) || (14 <? id) then mret (-1)
  else
    f ← openFile id;
    match f with
    | None => mret (-1)
    | Some f =>
        if (id =? 0) || (id =? 1) then mret (-1)
        else
          len ← Length f;
          let pos := if pos =? -1 then len else pos in
          if (len <? pos) || (pos <? 0) then mret (-1)
          else _ ← Seek id f pos; mret pos
    end.

(** ** A file is what was written *)

Lemma length_overwrite c pos bs : bs <> [] -> length (overwrite c pos bs) = Nat.max (length c) (pos + length bs).
Proof.
  destruct bs as [| b bs]; [done |]. intros _. unfold overwrite. cbn zeta.
  rewrite !length_app, length_take, length_drop, length_app, length_replicate. lia.
Qed.

Lemma slice_overwrite c pos bs : bs <> [] -> slice pos (length bs) (overwrite c pos bs) = bs.
Proof.
  destruct bs as [| b bs]; [done |]. intros _. unfold overwrite, slice. cbn zeta.
  rewrite drop_app_ge by (rewrite length_take, length_app, length_replicate; lia).
  rewrite length_take, length_app, length_replicate.
  replace (pos - (pos `min` (length c + (pos - length c))))%nat with 0%nat by lia.
  by rewrite drop_0, take_app_length.
Qed.

(** The registers of a call. *)
Definition args (k : t) (a b c : Z) : Prop :=
  ReadRegister (machine k) 4 = Ok a /\ ReadRegister (machine k) 5 = Ok b /\ ReadRegister (machine k) 6 = Ok c.

(** Slot [id] is an open file of [c]. *)
Record slot (k : t) (id : Z) (f : OpenFile) (c : list Z) : Prop := {
  sl_id : 2 <= id <= 9;
  sl_open : openFiles k !! Z.to_nat id = Some (Some f);
  sl_file : files k !! file f = Some c;
  sl_offset : 0 <= currentOffset f;
  sl_size : Z.of_nat (length c) < 2 ^ 31;
}.

Lemma at_Some {A} (l : list A) i x : 0 <= i -> l !! Z.to_nat i = Some x -> at_ l i = Ok x.
Proof. intros Hi Hx. unfold at_. destruct (Z.ltb_spec i 0); [lia |]. by rewrite Hx. Qed.

Lemma ReadReg_eq r v k : ReadRegister (machine k) r = Ok v -> ReadReg r k = Ok (Returned v k).
Proof. intros H. unfold ReadReg, mbind, M_bind, gets, lift. by rewrite H. Qed.

Lemma openFile_eq i o k : 0 <= i -> openFiles k !! Z.to_nat i = Some o -> openFile i k = Ok (Returned o k).
Proof. intros Hi Ho. unfold openFile, mbind, M_bind, gets, lift. by rewrite (at_Some _ _ o). Qed.

Lemma set_openFile_eq i o o' k : 0 <= i -> openFiles k !! Z.to_nat i = Some o' ->
  set_openFile i o k = Ok (Returned tt (with_openFiles k (<[Z.to_nat i := o]> (openFiles k)))).
Proof. intros Hi Ho. unfold set_openFile, mbind, M_bind at 1. by rewrite (openFile_eq _ o'). Qed.

Lemma contents_eq name c k : files k !! name = Some c -> contents name k = Ok (Returned c k).
Proof. intros H. unfold contents, mbind, M_bind, gets, lift. by rewrite H. Qed.

(** One step of a computation whose first part is known. *)
Lemma bind_eq {A B} (m : M A) (g : A -> M B) k a k' : m k = Ok (Returned a k') -> (m ≫= g) k = g a k'.
Proof. intros H. unfold mbind, M_bind. by rewrite H. Qed.

Context (Hfresh : forall n, length (fresh n) = n).
#[local] Set Default Proof Using "Type*".

Lemma user2system_eq k va limit s :
  wf (machine k) -> is_cstring s -> Z.of_nat (length s) < limit ->
  (forall x, (x <= length s)%nat -> is_s32 (va + Z.of_nat x)) ->
  (forall j ch, (s ++ [0]) !! j = Some ch -> user_char (machine k) (va + Z.of_nat j) = Some ch) ->
  exists m', user2system va limit k =
      Ok (Returned (list_inserts 0 (s ++ [0]) (fresh (Z.to_nat (limit + 1)))) (with_machine k m')) /\
    wf m' /\ same_view (machine k) m' /\ mainMemory m' = mainMemory (machine k).
Proof.
  intros Hwf Hs Hlim H32 Hu. unfold user2system, on_machine, User2System.
  destruct (Z.ltb_spec (limit + 1) 0); [lia |].
  destruct (u2s_loop_spec s (Z.to_nat limit) 0 (machine k) va (fresh (Z.to_nat (limit + 1))) Hwf Hs)
    as (m' & -> & ? & ? & ?); [lia | rewrite Hfresh; lia | intros x Hx; apply H32; lia | by apply Hu |].
  by exists m'.
Qed.

Lemma take_buffer s n : (length s < n)%nat -> take (length s) (list_inserts 0 (s ++ [0]) (fresh n)) = s.
Proof.
  intros Hn. assert (slice 0 (length s + 1) (list_inserts 0 (s ++ [0]) (fresh n)) = s ++ [0]) as H.
  { replace (length s + 1)%nat with (length (s ++ [0])) by (by rewrite length_app). apply slice_inserts_eq.
    rewrite Hfresh, length_app. cbn. lia. }
  unfold slice in H. rewrite drop_0 in H. apply (f_equal (take (length s))) in H.
  rewrite take_take, Nat.min_l in H by lia. by rewrite H, take_app_length.
Qed.

(** [SysWrite] to a file. *)
Lemma SysWrite_file k va id f c ty s :
  wf (machine k) -> args k va (Z.of_nat (length s)) id -> slot k id f c ->
  type k !! Z.to_nat id = Some ty -> ty <> 1 -> is_cstring s -> s <> [] ->
  currentOffset f + Z.of_nat (length s) < 2 ^ 31 - 1 ->
  (forall x, (x <= length s)%nat -> is_s32 (va + Z.of_nat x)) ->
  (forall j ch, (s ++ [0]) !! j = Some ch -> user_char (machine k) (va + Z.of_nat j) = Some ch) ->
  exists m', SysWrite k = Ok (Returned (Z.of_nat (length s))
      (mk m' (input k) (output k) (<[file f := overwrite c (Z.to_nat (currentOffset f)) s]> (files k))
         (<[Z.to_nat id := Some (mkOpen (file f) (currentOffset f + Z.of_nat (length s)))]> (openFiles k)) (type k) (idx k))) /\
    wf m' /\ same_view (machine k) m' /\ mainMemory m' = mainMemory (machine k).
Proof.
  intros Hwf (H4 & H5 & H6) [Hid Hof Hf Hoff Hsz] Hty Hty1 Hs Hne Hmax H32 Hu. unfold SysWrite.
  rewrite (bind_eq _ _ _ _ _ (ReadReg_eq _ _ _ H4)), (bind_eq _ _ _ _ _ (ReadReg_eq _ _ _ H5)), (bind_eq _ _ _ _ _ (ReadReg_eq _ _ _ H6)).
  destruct (Z.ltb_spec 9 id), (Z.ltb_spec id 0); try lia. cbn [orb].
  rewrite (bind_eq _ _ _ _ _ (openFile_eq id (Some f) k ltac:(lia) Hof)).
  rewrite (bind_eq (gets type) _ k (type k) k) by done.
  rewrite (bind_eq (lift (at_ (type k) id)) _ k ty k) by (unfold lift; by rewrite (at_Some _ _ ty) by (done || lia)).
  destruct (Z.eqb_spec ty 1); [done |]. rewrite s32_id by (unfold is_s32; lia).
  destruct (user2system_eq k va (Z.of_nat (length s) + 1) s Hwf Hs ltac:(lia) H32 Hu) as (m' & E & Hwf' & Hv & Hm).
  rewrite (bind_eq _ _ _ _ _ E). destruct (Z.eqb_spec id 1), (Z.eqb_spec id 0); try lia.
  exists m'. split; [| done]. unfold Write, WriteAt. set (buf := list_inserts _ _ _). set (k1 := with_machine k m').
  assert (length buf = Z.to_nat (Z.of_nat (length s) + 1 + 1)) as Hlb by (unfold buf; by rewrite length_inserts, Hfresh).
  assert (take (Z.to_nat (Z.of_nat (length s))) buf = s) as Htk by (rewrite Nat2Z.id; apply take_buffer; lia).
  unfold mbind, M_bind. unfold lift at 1. rewrite ASSERT_true by lia.
  destruct (Z.ltb_spec (Z.of_nat (length s)) 0), (Z.ltb_spec (Z.of_nat (length buf)) (Z.of_nat (length s))); try lia. cbn [orb].
  rewrite (contents_eq _ c k1) by done. unfold modify, mret, M_ret. rewrite Htk.
  rewrite (set_openFile_eq id _ (Some f)) by (done || lia). rewrite s32_id by (unfold is_s32; lia). done.
Qed.

(** [SysRead] from a file; the bytes that are there, none of them zero. *)
Lemma SysRead_file k va n id f c s :
  wf (machine k) -> args k va n id -> slot k id f c -> 0 <= n < 2 ^ 31 - 1 ->
  s = slice (Z.to_nat (currentOffset f)) (Z.to_nat n) c -> is_cstring s -> s <> [] ->
  currentOffset f + n < 2 ^ 31 -> writable_range (machine k) va 0 (length s - 1) ->
  exists m', SysRead k = Ok (Returned (Z.of_nat (length s))
      (mk m' (input k) (output k) (files k)
         (<[Z.to_nat id := Some (mkOpen (file f) (currentOffset f + Z.of_nat (length s)))]> (openFiles k)) (type k) (idx k))) /\
    wf m' /\ same_view (machine k) m' /\ only_range (machine k) m' va 0 (length s - 1) /\
    forall j ch, s !! j = Some ch -> user_char m' (va + Z.of_nat j) = Some ch.
Proof.
  intros Hwf (H4 & H5 & H6) [Hid Hof Hf Hoff Hsz] Hn Heq Hs Hne Hmax Hr. unfold SysRead.
  rewrite (bind_eq _ _ _ _ _ (ReadReg_eq _ _ _ H4)), (bind_eq _ _ _ _ _ (ReadReg_eq _ _ _ H5)), (bind_eq _ _ _ _ _ (ReadReg_eq _ _ _ H6)).
  destruct (Z.ltb_spec 9 id), (Z.ltb_spec id 0); try lia. cbn [orb].
  rewrite (bind_eq _ _ _ _ _ (openFile_eq id (Some f) k ltac:(lia) Hof)).
  rewrite (bind_eq (new_chars (n + 1)) _ k (fresh (Z.to_nat (n + 1))) k)
    by (unfold new_chars; destruct (Z.ltb_spec (n + 1) 0); [lia | done]).
  destruct (Z.eqb_spec id 1), (Z.eqb_spec id 0); try lia.
  assert (length s <= Z.to_nat n)%nat as Hls by (rewrite Heq; unfold slice; rewrite length_take; lia).
  destruct (exists_last Hne) as (s0 & e & Hse). assert (length s = S (length s0)) as Hl by (rewrite Hse, length_app; cbn; lia).
  assert (is_cstring s0 /\ is_char e) as [Hs0 He].
  { rewrite Hse in Hs. apply Forall_app in Hs as [? [[? _] _]%Forall_cons]. by split. }
  set (k1 := with_openFiles k (<[Z.to_nat id := Some (mkOpen (file f) (currentOffset f + Z.of_nat (length s)))]> (openFiles k))).
  rewrite (bind_eq (Read id f n) _ k s k1).
  2: { unfold Read, ReadAt, mbind, M_bind. unfold lift at 1. rewrite ASSERT_true by lia.
       destruct (Z.ltb_spec n 0); [lia |]. rewrite (contents_eq _ c k) by done. unfold mret, M_ret. rewrite <- Heq.
       rewrite (set_openFile_eq id _ (Some f)) by (done || lia). by rewrite s32_id by (unfold is_s32; lia). }
  destruct (Z.ltb_spec 0 (Z.of_nat (length s))); [| lia].
  set (buf := list_inserts 0 s (fresh (Z.to_nat (n + 1)))).
  assert (drop 0 buf = s0 ++ e :: drop (length s) (fresh (Z.to_nat (n + 1)))) as Hbuf.
  { rewrite drop_0. unfold buf. rewrite <- (take_drop (length s) (fresh (Z.to_nat (n + 1)))) at 1.
    rewrite list_inserts_0_r by (rewrite length_take, Hfresh; lia). rewrite Hse at 1. by rewrite <- app_assoc. }
  destruct (s2u_loop_spec s0 e (Z.to_nat (Z.of_nat (length s))) 0 (machine k) va (Z.of_nat (length s)) buf _ Hwf Hs0 He
    ltac:(right; lia) Hbuf) as (m' & E & Hwf' & Hv & Ho & Hu); [lia | lia | |].
  { by replace (0 + length s0)%nat with (length s - 1)%nat by lia. }
  rewrite (bind_eq (system2user va (Z.of_nat (length s)) buf) _ k1 (Z.of_nat (length s)) (with_machine k1 m')).
  2: { unfold system2user, on_machine, System2User. destruct (Z.ltb_spec (Z.of_nat (length s)) 0); [lia |].
       destruct (Z.eqb_spec (Z.of_nat (length s)) 0); [lia |]. change (machine k1) with (machine k). rewrite E.
       do 2 f_equal. lia. }
  exists m'. replace (length s - 1)%nat with (0 + length s0)%nat by lia. split_and!; try done. by rewrite Hse.
Qed.

Lemma SysSeek_file k pos id f c x :
  args k pos id x -> slot k id f c -> 0 <= pos <= Z.of_nat (length c) ->
  SysSeek k = Ok (Returned pos (with_openFiles k (<[Z.to_nat id := Some (mkOpen (file f) pos)]> (openFiles k)))).
Proof using Type.
  intros (H4 & H5 & _) [Hid Hof Hf Hoff Hsz] Hpos. unfold SysSeek.
  rewrite (bind_eq _ _ _ _ _ (ReadReg_eq _ _ _ H4)), (bind_eq _ _ _ _ _ (ReadReg_eq _ _ _ H5)).
  destruct (Z.ltb_spec id 0), (Z.ltb_spec 14 id); try lia. cbn [orb].
  rewrite (bind_eq _ _ _ _ _ (openFile_eq id (Some f) k ltac:(lia) Hof)).
  destruct (Z.eqb_spec id 0), (Z.eqb_spec id 1); try lia. cbn [orb].
  rewrite (bind_eq (Length f) _ k (Z.of_nat (length c)) k)
    by (unfold Length; rewrite (bind_eq _ _ _ _ _ (contents_eq _ c k Hf)), s32_id by (unfold is_s32; lia); done).
  destruct (Z.eqb_spec pos (-1)); [lia |]. destruct (Z.ltb_spec (Z.of_nat (length c)) pos), (Z.ltb_spec pos 0); try lia. cbn [orb].
  rewrite (bind_eq (Seek id f pos) _ k pos (with_openFiles k (<[Z.to_nat id := Some (mkOpen (file f) pos)]> (openFiles k)))); [done |].
  unfold Seek. rewrite (bind_eq (lift (ASSERT (0 <=? pos))) _ k tt k) by (unfold lift; by rewrite ASSERT_true by lia).
  by rewrite (bind_eq _ _ _ _ _ (set_openFile_eq id _ (Some f) k ltac:(lia) Hof)).
Qed.

(** *** The table of open files *)

Lemma cstring_eq s junk : is_cstring s -> cstring (s ++ 0 :: junk) = Some s.
Proof using Type.
  induction 1 as [| c s [_ Hc] _ IH]; [done |]. cbn [app cstring]. destruct (Z.eqb_spec c 0); [done |].
  rewrite IH. done.
Qed.

Lemma same_string_eq s junk d : is_cstring s -> is_cstring d -> same_string (s ++ 0 :: junk) d = Ok (bool_decide (s = d)).
Proof using Type.
  intros Hs. revert d. induction Hs as [| c s [_ Hc] _ IH]; intros d Hd; (destruct Hd as [| e d [_ He] Hd]; cbn [app same_string]).
  - done.
  - destruct (Z.eqb_spec 0 e); [congruence | done].
  - destruct (Z.eqb_spec c 0); [done |]. done.
  - destruct (Z.eqb_spec c e) as [-> | Hne].
    + rewrite (IH d Hd). f_equal. apply bool_decide_ext. split; [by intros -> | by intros [= ->]].
    + rewrite bool_decide_false; [done |]. congruence.
Qed.

Lemma buffer_eq s n : (length s < n)%nat -> exists junk, list_inserts 0 (s ++ [0]) (fresh n) = s ++ 0 :: junk.
Proof.
  intros Hn. exists (drop (S (length s)) (fresh n)). rewrite <- (take_drop (S (length s)) (fresh n)) at 1.
  rewrite list_inserts_0_r by (rewrite length_app, length_take, Hfresh; cbn [length]; lia). by rewrite <- app_assoc.
Qed.

(** The first free slot from 2 on. *)
Definition free_slot (o : list (option OpenFile)) : option nat :=
  (fun x => 2 + x.1)%nat <$> list_find (fun f => f = None) (drop 2 o).

Lemma free_loop_eq n i o : (i + n = length o)%nat ->
  free_loop n i o = Ok (from_option (fun x => Z.of_nat (i + x.1)) (-1) (list_find (fun f => f = None) (drop i o))).
Proof using Type.
  revert i. induction n as [| n IH]; intros i Hn; cbn [free_loop].
  { by rewrite drop_ge by lia. }
  destruct (lookup_lt_is_Some_2 o i) as [f Hf]; [lia |]. rewrite Hf, (drop_S _ _ _ Hf). cbn [deref mbind res_bind].
  destruct f as [f |]; simpl; [| by rewrite Nat.add_0_r]. rewrite IH by lia. f_equal.
  destruct (list_find _ _) as [[j ?] |]; cbn; [lia | done].
Qed.

Lemma findFreeSlot_eq k : length (openFiles k) = 10%nat ->
  findFreeSlot k = Ok (Returned (from_option Z.of_nat (-1) (free_slot (openFiles k))) k).
Proof using Type.
  intros Hl. unfold findFreeSlot, mbind, M_bind, gets, lift. rewrite free_loop_eq by lia. do 2 f_equal.
  unfold free_slot. by destruct (list_find _ _) as [[]|].
Qed.

Lemma free_slot_Some o i : free_slot o = Some i -> (2 <= i)%nat /\ o !! i = Some None /\
  forall j, (2 <= j < i)%nat -> o !! j <> Some None.
Proof using Type.
  unfold free_slot. intros ([j f] & (Hj & Hf & Hlt)%list_find_Some & ->)%fmap_Some. cbn [fst]. rewrite lookup_drop in Hj.
  split_and!; [lia | by rewrite Hj, Hf |]. intros x Hx Hn. apply (Hlt (x - 2)%nat None); [| lia | done].
  rewrite lookup_drop. by replace (2 + (x - 2))%nat with x by lia.
Qed.

(** What [Open] should do to the two tables: the result, the files and the types. *)
Definition open_result (k : t) (name : list Z) (ty : Z) : Z * list (option OpenFile) * list Z :=
  if decide (name = stdin_name) then (0, openFiles k, type k)
  else if decide (name = stdout_name) then (1, openFiles k, type k)
  else match free_slot (openFiles k) with
       | None => (-1, openFiles k, type k)
       | Some i =>
           if decide ((ty = 0 \/ ty = 1) /\ is_Some (files k !! name))
           then (Z.of_nat i, <[i := Some (mkOpen name 0)]> (openFiles k), <[i := ty]> (type k))
           else (-1, openFiles k, <[i := ty]> (type k))
       end.

Lemma set_type_eq i ty k : (i < length (type k))%nat ->
  set_type (Z.of_nat i) ty k = Ok (Returned tt (with_type k (<[i := ty]> (type k)))).
Proof using Type.
  intros [x Hx]%lookup_lt_is_Some_2. unfold set_type, mbind, M_bind, gets, lift.
  rewrite (at_Some _ _ x) by (lia || by rewrite Nat2Z.id). unfold modify. by rewrite Nat2Z.id.
Qed.

Lemma Open_eq k name : Open name k =
  Ok (Returned (if decide (is_Some (files k !! name)) then Some (mkOpen name 0) else None) k).
Proof using Type.
  unfold Open, OpenForReadWrite, mbind, M_bind, gets. cbn [negb]. unfold lift. cbn [orb ASSERT]. by case_decide.
Qed.

Lemma SysOpen_table k va ty name x :
  wf (machine k) -> args k va ty x -> length (openFiles k) = 10%nat -> length (type k) = 10%nat ->
  is_cstring name -> (length name < 256)%nat ->
  (forall x, (x <= length name)%nat -> is_s32 (va + Z.of_nat x)) ->
  (forall j ch, (name ++ [0]) !! j = Some ch -> user_char (machine k) (va + Z.of_nat j) = Some ch) ->
  exists m', SysOpen k = Ok (let '(r, o, tys) := open_result k name ty in
      Returned r (mk m' (input k) (output k) (files k) o tys (idx k))) /\
    wf m' /\ same_view (machine k) m' /\ mainMemory m' = mainMemory (machine k).
Proof.
  clear creatable.
  intros Hwf (H4 & H5 & _) Hlo Hlt Hn Hln H32 Hu. unfold SysOpen.
  rewrite (bind_eq _ _ _ _ _ (ReadReg_eq _ _ _ H4)), (bind_eq _ _ _ _ _ (ReadReg_eq _ _ _ H5)).
  destruct (user2system_eq k va 256 name Hwf Hn ltac:(lia) H32 Hu) as (m' & E & Hwf' & Hv & Hm).
  rewrite (bind_eq _ _ _ _ _ E). exists m'. split; [| done]. set (k1 := with_machine k m').
  destruct (buffer_eq name (Z.to_nat (256 + 1))) as (junk & ->); [lia |].
  assert (is_cstring stdin_name /\ is_cstring stdout_name) as [Hin Hout] by (split; by repeat constructor).
  rewrite (bind_eq (lift (same_string (name ++ 0 :: junk) stdin_name)) _ k1 (bool_decide (name = stdin_name)) k1)
    by (unfold lift; by rewrite same_string_eq).
  unfold open_result. destruct (decide (name = stdin_name)) as [Hsi | Hsi]; [by rewrite bool_decide_true by done |].
  rewrite bool_decide_false by done.
  rewrite (bind_eq (lift (same_string (name ++ 0 :: junk) stdout_name)) _ k1 (bool_decide (name = stdout_name)) k1)
    by (unfold lift; by rewrite same_string_eq).
  destruct (decide (name = stdout_name)) as [Hso | Hso]; [by rewrite bool_decide_true by done |].
  rewrite bool_decide_false by done. rewrite (bind_eq _ _ _ _ _ (findFreeSlot_eq k1 Hlo)).
  change (openFiles k1) with (openFiles k). destruct (free_slot (openFiles k)) as [i |] eqn:Hi; [| done]. cbn [from_option].
  destruct (free_slot_Some _ _ Hi) as (Hi2 & Hoi & _). pose proof (lookup_lt_Some _ _ _ Hoi) as Hil.
  destruct (Z.eqb_spec (Z.of_nat i) (-1)); [lia |].
  rewrite (bind_eq _ _ _ _ _ (set_type_eq i ty k1 ltac:(cbn; lia))). set (k2 := with_type k1 _).
  assert ((ty =? 0) || (ty =? 1) = bool_decide (ty = 0 \/ ty = 1)) as ->.
  { destruct (Z.eqb_spec ty 0), (Z.eqb_spec ty 1); symmetry; by (apply bool_decide_eq_true; auto) || (apply bool_decide_eq_false; tauto). }
  destruct (bool_decide_reflect (ty = 0 \/ ty = 1)) as [Hty | Hty]; [| by rewrite decide_False by tauto].
  rewrite (bind_eq (lift (deref (cstring (name ++ 0 :: junk)))) _ k2 name k2) by (unfold lift; by rewrite cstring_eq).
  rewrite (bind_eq _ _ _ _ _ (Open_eq k2 name)). change (files k2) with (files k).
  rewrite (bind_eq _ _ _ _ _ (set_openFile_eq (Z.of_nat i) _ None k2 ltac:(lia) ltac:(by rewrite Nat2Z.id))). rewrite Nat2Z.id.
  destruct (decide (is_Some (files k !! name))) as [Hex | Hex].
  - by rewrite decide_True by done.
  - rewrite decide_False by tauto. change (openFiles k2) with (openFiles k). rewrite list_insert_id by done.
    destruct (Z.eqb_spec ty 2), (Z.eqb_spec ty 3); try lia. done.
Qed.

Lemma SysClose_table k id a b o :
  args k id a b -> 0 <= id <= 9 -> openFiles k !! Z.to_nat id = Some o ->
  SysClose k = Ok (match o with
    | Some _ => Returned 0 (with_openFiles k (<[Z.to_nat id := None]> (openFiles k)))
    | None => Returned (-1) k end).
Proof using Type.
  intros (H4 & _ & _) Hid Ho. unfold SysClose. rewrite (bind_eq _ _ _ _ _ (ReadReg_eq _ _ _ H4)).
  destruct (Z.leb_spec 0 id), (Z.leb_spec id 9); try lia. cbn [andb].
  rewrite (bind_eq _ _ _ _ _ (openFile_eq id o k ltac:(lia) Ho)). destruct o as [f |]; [| done].
  by rewrite (bind_eq _ _ _ _ _ (set_openFile_eq id None (Some f) k ltac:(lia) Ho)).
Qed.

(** *** The contract of the file calls *)

(** C35: what a program writes to a file it reads back.  A string written with
    [Write] at the offset of an open file (not opened read-only) replaces exactly
    those bytes of the file, filling a gap with zeros, and moves the offset past
    them; after a [Seek] back, whatever else the program did to its memory and
    registers, [Read] returns the number of bytes and the user's buffer holds the
    same characters, with no other byte of memory changed. *)
Theorem write_seek_read k va id f c ty s :
  wf (machine k) -> args k va (Z.of_nat (length s)) id -> slot k id f c ->
  type k !! Z.to_nat id = Some ty -> ty <> 1 -> is_cstring s -> s <> [] ->
  currentOffset f + Z.of_nat (length s) < 2 ^ 31 - 1 ->
  (forall x, (x <= length s)%nat -> is_s32 (va + Z.of_nat x)) ->
  (forall j ch, (s ++ [0]) !! j = Some ch -> user_char (machine k) (va + Z.of_nat j) = Some ch) ->
  exists k1, SysWrite k = Ok (Returned (Z.of_nat (length s)) k1) /\
    files k1 = <[file f := overwrite c (Z.to_nat (currentOffset f)) s]> (files k) /\
    mainMemory (machine k1) = mainMemory (machine k) /\
    forall k2 x, files k2 = files k1 -> openFiles k2 = openFiles k1 -> args k2 (currentOffset f) id x ->
    exists k3, SysSeek k2 = Ok (Returned (currentOffset f) k3) /\
    forall k4 vb, files k4 = files k3 -> openFiles k4 = openFiles k3 ->
      wf (machine k4) -> args k4 vb (Z.of_nat (length s)) id -> writable_range (machine k4) vb 0 (length s - 1) ->
    exists k5, SysRead k4 = Ok (Returned (Z.of_nat (length s)) k5) /\
      (forall j ch, s !! j = Some ch -> user_char (machine k5) (vb + Z.of_nat j) = Some ch) /\
      only_range (machine k4) (machine k5) vb 0 (length s - 1) /\ files k5 = files k1.
Proof.
  intros Hwf Hargs Hsl Hty Hty1 Hs Hne Hmax H32 Hu. pose proof Hsl as [Hid Hof Hf Hoff Hsz].
  destruct (SysWrite_file k va id f c ty s Hwf Hargs Hsl Hty Hty1 Hs Hne Hmax H32 Hu) as (m1 & E1 & _ & _ & Hm1).
  eexists. split; [exact E1 |]. cbn [files openFiles machine]. split_and!; [done | done |]. intros k2 x Hf2 Ho2 Ha2.
  set (o := currentOffset f) in *. set (c' := overwrite c (Z.to_nat o) s) in *.
  pose proof (length_overwrite c (Z.to_nat o) s Hne) as Hlc. fold c' in Hlc.
  assert (slot k2 id (mkOpen (file f) (o + Z.of_nat (length s))) c') as Hsl2.
  { split; [done | | by rewrite Hf2, lookup_insert_eq | cbn; lia | lia].
    rewrite Ho2, list_lookup_insert_eq; [done | by eapply lookup_lt_Some]. }
  assert (0 <= o <= Z.of_nat (length c')) as Hseek by lia.
  eexists. split; [exact (SysSeek_file k2 o id _ c' x Ha2 Hsl2 Hseek) |].
  cbn [with_openFiles files openFiles file]. intros k4 vb Hf4 Ho4 Hwf4 Ha4 Hr4.
  assert (slot k4 id (mkOpen (file f) o) c') as Hsl4.
  { split; [done | | by rewrite Hf4, Hf2, lookup_insert_eq | cbn; lia | lia]. rewrite Ho4, Ho2, list_insert_insert_eq.
    rewrite list_lookup_insert_eq; [done | by eapply lookup_lt_Some]. }
  destruct (SysRead_file k4 vb (Z.of_nat (length s)) id (mkOpen (file f) o) c' s Hwf4 Ha4 Hsl4)
    as (m5 & E5 & _ & _ & Hr5 & Hu5); cbn [currentOffset]; try done; try lia.
  { symmetry. rewrite Nat2Z.id. by apply slice_overwrite. }
  eexists. split; [exact E5 |]. cbn. split_and!; [done | done | by rewrite Hf4, Hf2].
Qed.

(** The table of open files.  [Open] gives the reserved ids for the console
    names; otherwise, for an existing file and a legal type, the least free id from
    2 to 9, which it binds to the start of the file, and -1 when no id is free, the
    file does not exist or the type is illegal, leaving the open files as they are;
    no other file is affected, and closing the id gives the table back. *)
Theorem open_then_close k va ty name x :
  wf (machine k) -> args k va ty x -> length (openFiles k) = 10%nat -> length (type k) = 10%nat ->
  is_cstring name -> (length name < 256)%nat ->
  (forall x, (x <= length name)%nat -> is_s32 (va + Z.of_nat x)) ->
  (forall j ch, (name ++ [0]) !! j = Some ch -> user_char (machine k) (va + Z.of_nat j) = Some ch) ->
  exists r k', SysOpen k = Ok (Returned r k') /\ files k' = files k /\
    (r, openFiles k', type k') = open_result k name ty /\
    (name <> stdin_name -> name <> stdout_name ->
     (r = -1 /\ openFiles k' = openFiles k) \/
     (2 <= r <= 9 /\ openFiles k !! Z.to_nat r = Some None /\
      openFiles k' !! Z.to_nat r = Some (Some (mkOpen name 0)) /\
      (forall j, (2 <= j < Z.to_nat r)%nat -> openFiles k !! j <> Some None) /\
      (forall j, j <> Z.to_nat r -> openFiles k' !! j = openFiles k !! j) /\
      forall k2 a b, openFiles k2 = openFiles k' -> args k2 r a b ->
        SysClose k2 = Ok (Returned 0 (with_openFiles k2 (openFiles k))))).
Proof.
  intros Hwf Ha Hlo Hlt Hn Hln H32 Hu.
  destruct (SysOpen_table k va ty name x Hwf Ha Hlo Hlt Hn Hln H32 Hu) as (m' & E & _).
  unfold open_result in *. destruct (decide (name = stdin_name)); [by eexists _, _; split_and!; [exact E | | |] |].
  destruct (decide (name = stdout_name)); [by eexists _, _; split_and!; [exact E | | |] |].
  destruct (free_slot (openFiles k)) as [i |] eqn:Hi; [| eexists _, _; split_and!; [exact E | done | done | by left]].
  destruct (decide _); [| eexists _, _; split_and!; [exact E | done | done | by left]].
  eexists _, _. split_and!; [exact E | done | done |]. intros _ _. right. cbn [openFiles].
  destruct (free_slot_Some _ _ Hi) as (Hi2 & Hoi & Hleast). pose proof (lookup_lt_Some _ _ _ Hoi). rewrite Nat2Z.id.
  split_and!; [lia | lia | done | by rewrite list_lookup_insert_eq | done | |].
  - intros j Hj. by rewrite list_lookup_insert_ne by done.
  - intros k2 a' b' Ho2 Ha2.
    rewrite (SysClose_table k2 (Z.of_nat i) a' b' (Some (mkOpen name 0)) Ha2) by (lia || by rewrite Ho2, Nat2Z.id, list_lookup_insert_eq).
    by rewrite Ho2, Nat2Z.id, list_insert_insert_eq, list_insert_id.
Qed.

(** The entry the constructor gives the display is marked read-only: [Write] to the
    console always answers -2. *)
Lemma stdout_write_refused k va n f :
  args k va n 1 -> openFiles k !! 1%nat = Some (Some f) -> type k !! 1%nat = Some 1 ->
  SysWrite k = Ok (Returned (-2) k).
Proof using Type.
  intros (H4 & H5 & H6) Ho Ht. unfold SysWrite.
  rewrite (bind_eq _ _ _ _ _ (ReadReg_eq _ _ _ H4)), (bind_eq _ _ _ _ _ (ReadReg_eq _ _ _ H5)), (bind_eq _ _ _ _ _ (ReadReg_eq _ _ _ H6)).
  destruct (Z.ltb_spec 9 1), (Z.ltb_spec 1 0); try lia. cbn [orb]. rewrite (bind_eq _ _ _ _ _ (openFile_eq 1 (Some f) k ltac:(lia) Ho)).
  rewrite (bind_eq (gets type) _ k (type k) k) by done.
  by rewrite (bind_eq (lift (at_ (type k) 1)) _ k 1 k) by (unfold lift; by rewrite (at_Some _ _ 1)).
Qed.

(** [Seek] reads past the table for the ids 10 to 14. *)
Lemma seek_past_table k pos id x :
  args k pos id x -> 10 <= id <= 14 -> length (openFiles k) = 10%nat -> SysSeek k = Fault MemoryFault.
Proof using Type.
  intros (H4 & H5 & _) Hid Hl. unfold SysSeek.
  rewrite (bind_eq _ _ _ _ _ (ReadReg_eq _ _ _ H4)), (bind_eq _ _ _ _ _ (ReadReg_eq _ _ _ H5)).
  destruct (Z.ltb_spec id 0), (Z.ltb_spec 14 id); try lia. cbn [orb].
  unfold mbind, M_bind, openFile, mbind, M_bind, gets, lift, at_. destruct (Z.ltb_spec id 0); [lia |].
  by rewrite lookup_ge_None_2 by lia.
Qed.
End host.
End FileCalls.

(** ** A program with one file *)
Module FileDemo.
Import Machine UserMem FileCalls.

Definition fresh (n : nat) : list Z := replicate n 7.
Lemma fresh_length n : length (fresh n) = n.
Proof. apply length_replicate. Qed.

(** "Hi" at address 8 of the machine of Machine.v, and the arguments of a call. *)
Definition user (a b c : Z) : Machine.t :=
  Machine.mk (<[4%nat := a]> (<[5%nat := b]> (<[6%nat := c]> (replicate 40 0))))
    (list_inserts (Z.to_nat 392) [72; 105; 0] (mainMemory demo)) (tlb demo) (pageTable demo) (pageTableSize demo).

Lemma wf_user a b c : is_s32 a -> is_s32 b -> is_s32 c -> wf (user a b c).
Proof.
  intros Ha Hb Hc. destruct wf_demo as [_ Hs _ Hm Hby Ht]. split; cbn [user registers mainMemory].
  - by rewrite !length_insert.
  - by repeat apply Forall_insert.
  - exists 0. by rewrite !list_lookup_insert_ne by done.
  - by rewrite length_inserts.
  - apply Forall_list_inserts; [by repeat constructor | done].
  - exact Ht.
Qed.

Lemma user_string a b c j ch : ([72; 105] ++ [0]) !! j = Some ch -> user_char (user a b c) (8 + Z.of_nat j) = Some ch.
Proof. destruct j as [| [| [| j]]]; cbn [app lookup list_lookup]; [intros [= <-] .. | done]; by vm_compute. Qed.

Definition kernel (a b c : Z) : t :=
  mk (user a b c) [] [] (<[[97] := [1; 2; 3; 4]]> (<[[72; 105] := [9]]> ∅)) (replicate 2 (Some (mkOpen [115] 0)) ++ [Some (mkOpen [97] 1)] ++ replicate 7 None)
    [0; 1; 0; 0; 0; 0; 0; 0; 0; 0] 2.

Lemma write_seek_read_witness :
  exists k1, SysWrite fresh (kernel 8 2 2) = Ok (Returned 2 k1) /\ files k1 !! [97] = Some [1; 72; 105; 4].
Proof.
  destruct (write_seek_read fresh fresh_length (kernel 8 2 2) 8 2 (mkOpen [97] 1) [1; 2; 3; 4] 0 [72; 105])
    as (k1 & E & Hf & _).
  - by apply wf_user.
  - by split_and!; vm_compute.
  - split; [done | done | by vm_compute | done | done].
  - done.
  - done.
  - by repeat constructor.
  - done.
  - done.
  - intros x Hx. unfold is_s32. cbn in Hx. lia.
  - apply user_string.
  - exists k1. split; [exact E |]. rewrite Hf. by vm_compute.
Defined.

Lemma open_then_close_witness :
  exists k', SysOpen fresh (kernel 8 0 0) = Ok (Returned 3 k') /\ openFiles k' !! 3%nat = Some (Some (mkOpen [72; 105] 0)).
Proof.
  destruct (open_then_close fresh fresh_length (kernel 8 0 0) 8 0 [72; 105] 0) as (r & k' & E & _ & Hr & _).
  - by apply wf_user.
  - by split_and!; vm_compute.
  - done.
  - done.
  - by repeat constructor.
  - cbn. lia.
  - intros x Hx. unfold is_s32. cbn in Hx. lia.
  - apply user_string.
  - assert (open_result (kernel 8 0 0) [72; 105] 0 = (3,
      replicate 2 (Some (mkOpen [115] 0)) ++ [Some (mkOpen [97] 1); Some (mkOpen [72; 105] 0)] ++ replicate 6 None,
      [0; 1; 0; 0; 0; 0; 0; 0; 0; 0])) as Ho by (by vm_compute).
    rewrite Ho in Hr. injection Hr as Hr1 Hr2 _. exists k'. split; [by rewrite E, Hr1 | by rewrite Hr2].
Defined.
End FileDemo.
