(* ===== verification/Coff.v ===== *)
(** * Coff: coff2noff/coff.h, coff2noff.c

    The converter that makes the executables the kernel loads: it reads a COFF
    file of the MIPS compiler and writes a NOFF file, whose header says where each
    segment lies in the file and in the address space.  It is built for a 32-bit
    host ([-m32]) that is little-endian, and with RDATA, as the kernel is.  The
    header of a NOFF file and how the kernel loads one are in AddrSpace.v.

    The program is a computation over its two open files, which can end early
    ([exit(1)], after the output was removed). *)

From S2P Require Import Prelude Bitmap Machine AddrSpace FileCalls.

Module Coff.
Import Machine AddrSpace.

(** ** coff.h *)

Record filehdr := mkFilehdr {
  f_magic : Z;
  f_nscns : Z;
  f_timdat : Z;
  f_symptr : Z;
  f_nsyms : Z;
  f_opthdr : Z;
  f_flags : Z;
}.
Record aouthdr := mkAouthdr {
  magic : Z;
  vstamp : Z;
  sizes_and_starts : list Z;              (** [tsize] to [bss_start] *)
  masks_and_gp : list Z;                  (** [gprmask], [cprmask], [gp_value] *)
}.
Record scnhdr := mkScnhdr {
  s_name : list Z;
  s_paddr : Z;
  s_vaddr : Z;
  s_size : Z;
  s_scnptr : Z;
  s_relptr : Z;
  s_lnnoptr : Z;
  s_nreloc : Z;
  s_nlnno : Z;
  s_flags : Z;
}.

Definition MIPSELMAGIC : Z := 0x0162.
Definition OMAGIC : Z := 263.              (** 0407 *)

Definition sizeof_filehdr : Z := 20.
Definition sizeof_aouthdr : Z := 56.
Definition sizeof_scnhdr : Z := 40.

(** The fields at their offsets. *)
Definition ushort_at (bs : list Z) (i : nat) : Z := le_combine (slice i 2 bs).
Definition short_at (bs : list Z) (i : nat) : Z := let v := ushort_at bs i in if v <? 2 ^ 15 then v else v - 2 ^ 16.
Definition long_at (bs : list Z) (i : nat) : Z := s32 (le_combine (slice i 4 bs)).

Definition filehdr_of (bs : list Z) : filehdr :=
  mkFilehdr (ushort_at bs 0) (ushort_at bs 2) (long_at bs 4) (long_at bs 8) (long_at bs 12) (ushort_at bs 16) (ushort_at bs 18).
Definition aouthdr_of (bs : list Z) : aouthdr :=
  mkAouthdr (short_at bs 0) (short_at bs 2) (long_at bs <$> [4; 8; 12; 16; 20; 24; 28]%nat) (long_at bs <$> [32; 36; 40; 44; 48; 52]%nat).
Definition scnhdr_of (bs : list Z) : scnhdr :=
  mkScnhdr (slice 0 8 bs) (long_at bs 8) (long_at bs 12) (long_at bs 16) (long_at bs 20) (long_at bs 24) (long_at bs 28)
    (ushort_at bs 32) (ushort_at bs 34) (long_at bs 36).

(** ** The two files *)

(** [room]: what the host lets the output grow to. *)
Record io := mkIO {
  coffFile : list Z;
  inPos : Z;
  noffFile : list Z;
  outPos : Z;
  room : Z;
}.

(** [None]: [exit(1)]. *)
Definition M (A : Type) : Type := io -> res (option (A * io)).
#[export] Instance M_ret : MRet M := fun A a s => Ok (Some (a, s)).
#[export] Instance M_bind : MBind M := fun A B f m s =>
  match m s with
  | Ok (Some (a, s)) => f a s
  | Ok None => Ok None
  | Fault e => Fault e
  end.
Definition exit_1 {A} : M A := fun _ => Ok None.

(** [lseek] to before the start fails and moves nothing. *)
Definition lseek_in (offset : Z) : M unit := fun s =>
  Ok (Some (tt, if offset <? 0 then s else mkIO (coffFile s) offset (noffFile s) (outPos s) (room s))).
Definition lseek_out (offset : Z) : M unit := fun s =>
  Ok (Some (tt, if offset <? 0 then s else mkIO (coffFile s) (inPos s) (noffFile s) offset (room s))).

(** The host answers -1 to a negative count, which is what the program asks for
    when the count is -1. *)
Definition Read (nBytes : Z) : M (list Z) := fun s =>
  let buf := if nBytes <? 0 then [] else slice (Z.to_nat (inPos s)) (Z.to_nat nBytes) (coffFile s) in
  let answer := if nBytes <? 0 then -1 else Z.of_nat (length buf) in
  if negb (answer =? nBytes) then Ok None
  else Ok (Some (buf, mkIO (coffFile s) (inPos s + Z.of_nat (length buf)) (noffFile s) (outPos s) (room s))).
Definition Write (buf : list Z) (nBytes : Z) : M unit := fun s =>
  if nBytes <? 0 then if negb (-1 =? nBytes) then Ok None else Ok (Some (tt, s))
  else if room s <? outPos s + nBytes then Ok None
  else Ok (Some (tt, mkIO (coffFile s) (inPos s) (FileCalls.overwrite (noffFile s) (Z.to_nat (outPos s)) buf) (outPos s + nBytes) (room s))).

(** ** main *)

Definition WordToHost (word : Z) : Z := word.
Definition ShortToHost (shortword : Z) : Z := shortword.
Definition swap_section (s : scnhdr) : scnhdr :=
  mkScnhdr (s_name s) (WordToHost (s_paddr s)) (s_vaddr s) (WordToHost (s_size s)) (WordToHost (s_scnptr s))
    (s_relptr s) (s_lnnoptr s) (s_nreloc s) (s_nlnno s) (s_flags s).

(** [!strcmp(s_name, name)] *)
Definition named (name : list Z) (s : scnhdr) : bool := bool_decide (take (S (length name)) (s_name s) = name ++ [0]).
Definition dot_text : list Z := [46; 116; 101; 120; 116].
Definition dot_data : list Z := [46; 100; 97; 116; 97].
Definition dot_rdata : list Z := [46; 114; 100; 97; 116; 97].
Definition dot_bss : list Z := [46; 98; 115; 115].

Definition with_code (h : NoffHeader) s := mkNoff (noffMagic h) s (initData h) (readonlyData h) (uninitData h).
Definition with_initData (h : NoffHeader) s := mkNoff (noffMagic h) (code h) s (readonlyData h) (uninitData h).
Definition with_readonlyData (h : NoffHeader) s := mkNoff (noffMagic h) (code h) (initData h) s (uninitData h).
Definition with_uninitData (h : NoffHeader) s := mkNoff (noffMagic h) (code h) (initData h) (readonlyData h) s.
Definition sized (s : Segment) (n : Z) : Segment := mkSegment (virtualAddr s) (inFileAddr s) n.

(** [garbage]: what the header holds before it is set. *)
Definition init (garbage : NoffHeader) : NoffHeader :=
  mkNoff NOFFMAGIC (sized (code garbage) 0) (sized (initData garbage) 0) (sized (readonlyData garbage) 0) (sized (uninitData garbage) 0).

(** The contents of a section, to the end of the output. *)
Definition copy_in (s : scnhdr) : M unit :=
  _ ← lseek_in (s_scnptr s);
  buffer ← Read (s_size s);
  Write buffer (s_size s).

(** One turn of the loop over the sections, with the header and [inNoffFile]. *)
Definition load_section (s : scnhdr) (noffH : NoffHeader) (inNoffFile : Z) : M (NoffHeader * Z) :=
  let seg := mkSegment (s_paddr s) inNoffFile (s_size s) in
  let next := s32 (inNoffFile + s_size s) in
  if s_size s =? 0 then mret (noffH, inNoffFile)
  else if named dot_text s then _ ← copy_in s; mret (with_code noffH seg, next)
  else if named dot_data s then _ ← copy_in s; mret (with_initData noffH seg, next)
  else if named dot_rdata s then _ ← copy_in s; mret (with_readonlyData noffH seg, next)
  else if named dot_bss s then
    let u := uninitData noffH in
    if negb (size u =? 0) then
      if s_paddr s =? s32 (virtualAddr u + size u) then exit_1
      else mret (with_uninitData noffH (sized u (s32 (size u + s_size s))), inNoffFile)
    else mret (with_uninitData noffH (mkSegment (s_paddr s) (inFileAddr u) (s_size s)), inNoffFile)
  else exit_1.

Fixpoint load_sections (sections : list scnhdr) (noffH : NoffHeader) (inNoffFile : Z) : M NoffHeader :=
  match sections with
  | [] => mret noffH
  | s :: sections => '(noffH, inNoffFile) ← load_section s noffH inNoffFile; load_sections sections noffH inNoffFile
  end.

(** The header in memory. *)
Definition segment_words (s : Segment) : list Z := [virtualAddr s; inFileAddr s; size s].
Definition header_words (h : NoffHeader) : list Z :=
  noffMagic h :: segment_words (code h) ++ segment_words (initData h) ++ segment_words (readonlyData h) ++ segment_words (uninitData h).
Definition header_bytes (h : NoffHeader) : list Z := concat ((fun w => le_split 4 (u32 w)) <$> header_words h).

(** The sections one after the other in memory. *)
Definition section_headers (n : nat) (bs : list Z) : list scnhdr :=
  (fun i => scnhdr_of (slice (i * 40) 40 bs)) <$> seq 0 n.

Definition convert (garbage : NoffHeader) : M unit :=
  bs ← Read sizeof_filehdr;
  let fileh := filehdr_of bs in
  if negb (ShortToHost (f_magic fileh) =? MIPSELMAGIC) then exit_1
  else
    bs ← Read sizeof_aouthdr;
    let systemh := aouthdr_of bs in
    if negb (ShortToHost (magic systemh) =? OMAGIC) then exit_1
    else
      let numsections := ShortToHost (f_nscns fileh) in
      bs ← Read (numsections * sizeof_scnhdr);
      let sections := swap_section <$> section_headers (Z.to_nat numsections) bs in
      _ ← lseek_out (Z.of_nat HeaderSize);
      noffH ← load_sections sections (init garbage) (Z.of_nat HeaderSize);
      _ ← lseek_out 0;
      Write (header_bytes (SwapHeader noffH)) (Z.of_nat HeaderSize).

(** The files the program leaves: the NOFF file, when it ends with [exit(0)].
    [coff] is [None] when there is no such file. *)
Definition main (garbage : NoffHeader) (room : Z) (coff : option (list Z)) : res (option (list Z)) :=
  match coff with
  | None => Ok None
  | Some file =>
      match convert garbage (mkIO file 0 [] 0 room) with
      | Ok (Some (_, s)) => Ok (Some (noffFile s))
      | Ok None => Ok None
      | Fault e => Fault e
      end
  end.

(** ** What the converter promises *)

Inductive kind : Set := Text | Data | Rdata | Bss.
#[global] Instance kind_eq_dec : EqDecision kind.
Proof. solve_decision. Defined.

Definition kind_of (s : scnhdr) : option kind :=
  if named dot_text s then Some Text else if named dot_data s then Some Data
  else if named dot_rdata s then Some Rdata else if named dot_bss s then Some Bss else None.
Definition seg (k : kind) : NoffHeader -> Segment :=
  match k with Text => code | Data => initData | Rdata => readonlyData | Bss => uninitData end.

(** The sections of a COFF file, and the one of a kind that is not empty. *)
Definition nscns (file : list Z) : Z := f_nscns (filehdr_of (slice 0 20 file)).
Definition sections_of (file : list Z) : list scnhdr :=
  section_headers (Z.to_nat (nscns file)) (slice 76 (Z.to_nat (nscns file * 40)) file).
Definition filled (s : scnhdr) : Prop := s_size s <> 0.
#[global] Instance filled_dec s : Decision (filled s).
Proof. unfold filled. apply _. Defined.
Definition section_of (k : kind) (secs : list scnhdr) : option scnhdr :=
  head (filter (fun s => filled s /\ kind_of s = Some k) secs).

(** The bytes that are copied. *)
Definition copied (s : scnhdr) : Z := if decide (filled s /\ kind_of s <> Some Bss) then s_size s else 0.
Definition total_copied (secs : list scnhdr) : Z := foldr (fun s n => copied s + n) 0 secs.

(** A section has a known name, and its contents lie in the file. *)
Definition readable (file : list Z) (s : scnhdr) : Prop :=
  0 <= s_size s /\ is_Some (kind_of s) /\
  (kind_of s <> Some Bss -> 0 <= s_scnptr s /\ s_scnptr s + s_size s <= Z.of_nat (length file)).

Record convertible (file : list Z) (room : Z) : Prop := {
  cv_bytes : Forall is_byte file;
  cv_whole : 76 + nscns file * 40 <= Z.of_nat (length file);
  cv_magic : f_magic (filehdr_of (slice 0 20 file)) = MIPSELMAGIC;
  cv_omagic : magic (aouthdr_of (slice 20 56 file)) = OMAGIC;
  cv_sections : Forall (readable file) (filter filled (sections_of file));
  cv_once : NoDup (kind_of <$> filter filled (sections_of file));
  cv_small : 52 + total_copied (sections_of file) < 2 ^ 31;
  cv_room : 52 + total_copied (sections_of file) <= room;
}.

(** The segment [g] of the output [out] is the section [o] of [file]. *)
Definition seg_is (file out : list Z) (k : kind) (o : option scnhdr) (g : Segment) : Prop :=
  match o with
  | Some s =>
      virtualAddr g = s_paddr s /\ size g = s_size s /\
      (k <> Bss -> 52 <= inFileAddr g /\ inFileAddr g + size g <= Z.of_nat (length out) /\
         slice (Z.to_nat (inFileAddr g)) (Z.to_nat (size g)) out = slice (Z.to_nat (s_scnptr s)) (Z.to_nat (s_size s)) file)
  | None => size g = 0
  end.

(** ** Writing *)

Lemma lookup_overwrite c pos bs j : bs <> [] -> (j < pos \/ pos + length bs <= j)%nat -> (j < length c)%nat ->
  FileCalls.overwrite c pos bs !! j = c !! j.
Proof.
  destruct bs as [| b bs]; [done |]. intros _ Hj Hc. unfold FileCalls.overwrite. cbv zeta.
  set (c' := c ++ _). assert (c' !! j = c !! j) as <- by (unfold c'; by rewrite lookup_app_l).
  assert (pos <= length c')%nat as Hp by (unfold c'; rewrite length_app, length_replicate; lia).
  destruct Hj as [Hj | Hj].
  - rewrite lookup_app_l by (rewrite length_take; lia). by rewrite lookup_take_lt.
  - rewrite lookup_app_r by (rewrite length_take; lia). rewrite length_take_le by done.
    rewrite lookup_app_r by lia. rewrite lookup_drop. f_equal. lia.
Qed.

Lemma slice_overwrite_ne c pos bs i n : bs <> [] -> (i + n <= length c)%nat -> (i + n <= pos \/ pos + length bs <= i)%nat ->
  slice i n (FileCalls.overwrite c pos bs) = slice i n c.
Proof.
  intros Hb Hc Hd. apply list_eq. intros j. rewrite !lookup_slice. case_decide; [| done]. apply lookup_overwrite; [done | lia | lia].
Qed.

Lemma seg_is_overwrite file c pos bs k o g : seg_is file c k o g -> bs <> [] ->
  (pos = 0 /\ length bs = 52 \/ length c <= pos)%nat -> seg_is file (FileCalls.overwrite c pos bs) k o g.
Proof.
  destruct o as [s |]; [| done]. intros (Hv & Hs & Hc) Hb Hp. split; [done | split; [done |]]. intros Hk.
  destruct (Hc Hk) as (H0 & H1 & H2). split; [done |]. split.
  - rewrite FileCalls.length_overwrite by done. lia.
  - rewrite <- H2. destruct (decide (size g <= 0)) as [Hz | Hz].
    { replace (Z.to_nat (size g)) with 0%nat by lia. unfold slice. by rewrite !take_0. }
    apply slice_overwrite_ne; [done | lia | lia].
Qed.

(** ** The loop over the sections *)

(** Between two sections: the output ends at [a]. *)
Record between (file : list Z) (rm : Z) (a : Z) (s : io) : Prop := {
  bt_in : coffFile s = file;
  bt_out : outPos s = a;
  bt_room : room s = rm;
  bt_pos : 52 <= a;
  bt_end : Z.of_nat (length (noffFile s)) <= a;
}.

Section file.
Context (file : list Z) (rm : Z).

Lemma copy_in_ok sec a s : between file rm a s -> readable file sec -> filled sec -> kind_of sec <> Some Bss ->
  a + s_size sec <= rm ->
  let bs := slice (Z.to_nat (s_scnptr sec)) (Z.to_nat (s_size sec)) file in
  exists s', copy_in sec s = Ok (Some (tt, s')) /\ between file rm (a + s_size sec) s' /\
    length bs = Z.to_nat (s_size sec) /\ noffFile s' = FileCalls.overwrite (noffFile s) (Z.to_nat a) bs.
Proof.
  intros [Hin Hout Hr Hp He] (Hsz & _ & Hc) Hf Hk Hroom bs. destruct (Hc Hk) as [H0 H1]. unfold filled in Hf.
  assert (length bs = Z.to_nat (s_size sec)) as Hl by (apply length_slice; lia).
  unfold copy_in, lseek_in, Read, Write, mbind, M_bind. cbn [coffFile inPos noffFile outPos room].
  rewrite (proj2 (Z.ltb_ge (s_scnptr sec) 0)) by done. cbn [coffFile inPos noffFile outPos room].
  cbv zeta. rewrite !(proj2 (Z.ltb_ge (s_size sec) 0)), Hin by done. fold bs. rewrite !Hl, Z2Nat.id, Z.eqb_refl by done.
  cbn [negb coffFile inPos noffFile outPos room]. rewrite Hr, Hout, (proj2 (Z.ltb_ge _ _)) by lia.
  eexists. split; [reflexivity |]. split; [| done]. split; cbn; try done; try lia.
  assert (bs <> []) as Hb by (intros E; rewrite E in Hl; cbn in Hl; lia). rewrite FileCalls.length_overwrite by done. lia.
Qed.

Lemma copied_filled sec : filled sec -> copied sec = if decide (kind_of sec = Some Bss) then 0 else s_size sec.
Proof. intros Hf. unfold copied. repeat case_decide; naive_solver. Qed.

(** The contents of a section that is copied. *)
Lemma copied_seg sec a s s' k : between file rm a s -> readable file sec -> filled sec ->
  let bs := slice (Z.to_nat (s_scnptr sec)) (Z.to_nat (s_size sec)) file in
  length bs = Z.to_nat (s_size sec) -> noffFile s' = FileCalls.overwrite (noffFile s) (Z.to_nat a) bs ->
  seg_is file (noffFile s') k (Some sec) (mkSegment (s_paddr sec) a (s_size sec)) /\
  forall k' o g, seg_is file (noffFile s) k' o g -> seg_is file (noffFile s') k' o g.
Proof.
  intros [Hin Hout Hr Hp He] (Hsz & _) Hf bs Hl E. unfold filled in Hf.
  assert (bs <> []) as Hb by (intros E'; rewrite E' in Hl; cbn in Hl; lia). split.
  - split; [done | split; [done |]]. intros _. cbn [inFileAddr size]. rewrite E, FileCalls.length_overwrite by done.
    split; [done | split; [lia |]]. pose proof (FileCalls.slice_overwrite (noffFile s) (Z.to_nat a) bs Hb) as Es. rewrite Hl in Es. exact Es.
  - intros k' o g Hg. rewrite E. apply seg_is_overwrite; [done | done | right; lia].
Qed.

(** What one turn does for a section that is not empty. *)
Definition turn_ok (sec : scnhdr) (k : kind) (h : NoffHeader) (s : io) (a : Z) (h' : NoffHeader) (s' : io) : Prop :=
  load_section sec h a s = Ok (Some ((h', a + copied sec), s')) /\ between file rm (a + copied sec) s' /\
  seg_is file (noffFile s') k (Some sec) (seg k h') /\ noffMagic h' = noffMagic h /\
  forall k' o, k' <> k -> seg_is file (noffFile s) k' o (seg k' h) -> seg_is file (noffFile s') k' o (seg k' h').

Lemma kind_names sec k : kind_of sec = Some k ->
  named dot_text sec = bool_decide (k = Text) /\
  (k <> Text -> named dot_data sec = bool_decide (k = Data)) /\
  (k <> Text -> k <> Data -> named dot_rdata sec = bool_decide (k = Rdata)) /\
  (k = Bss -> named dot_bss sec = true).
Proof.
  unfold kind_of. destruct (named dot_text sec), (named dot_data sec), (named dot_rdata sec), (named dot_bss sec);
    intros [= <-]; done.
Qed.

Lemma load_section_ok sec k h a s : between file rm a s -> readable file sec -> filled sec -> kind_of sec = Some k ->
  a + copied sec < 2 ^ 31 -> a + copied sec <= rm -> size (seg k h) = 0 -> exists h' s', turn_ok sec k h s a h' s'.
Proof.
  intros Hb Hrd Hf Hk Hsm Hroom H0. destruct (kind_names sec k Hk) as (N1 & N2 & N3 & N4). unfold turn_ok.
  rewrite (copied_filled sec Hf) in *. pose proof (bt_pos _ _ _ _ Hb) as Hpos. pose proof (proj1 Hrd) as Hsz. unfold load_section.
  rewrite (proj2 (Z.eqb_neq (s_size sec) 0) Hf), N1. destruct (decide (k = Bss)) as [-> | Hnb].
  - rewrite decide_True by done. rewrite N2, N3, N4 by done. cbn [bool_decide decide_rel kind_eq_dec].
    rewrite !bool_decide_false by done. cbn [seg] in H0. rewrite H0. cbn [negb Z.eqb].
    rewrite Z.add_0_r. eexists _, s. split; [reflexivity | split; [done | split; [done | split; [done |]]]].
    intros [] o ?; done.
  - rewrite decide_False in * by congruence.
    destruct (copy_in_ok sec a s Hb Hrd Hf ltac:(congruence) Hroom) as (s' & Ec & Hb' & Hl & Eo).
    destruct (copied_seg sec a s s' k Hb Hrd Hf Hl Eo) as [Hseg Hoth].
    rewrite (s32_id (a + s_size sec)) by (unfold is_s32; lia).
    destruct k; [| | | done]; rewrite ?(bool_decide_true (_ = _)) by done; rewrite ?N2, ?N3 by done;
      rewrite ?bool_decide_false, ?bool_decide_true by done; unfold mbind, M_bind; rewrite Ec;
      (eexists _, s'; split; [reflexivity | split; [done | split; [exact Hseg | split; [done |]]]]);
      intros [] o ?; try done; apply Hoth.
Qed.

Lemma total_copied_cons sec secs : total_copied (sec :: secs) = copied sec + total_copied secs.
Proof. done. Qed.
Lemma copied_empty sec : ~ filled sec -> copied sec = 0.
Proof. intros Hf. unfold copied. by rewrite decide_False by tauto. Qed.

Lemma total_copied_pos secs : Forall (readable file) (filter filled secs) -> 0 <= total_copied secs.
Proof.
  induction secs as [| sec secs IH]; [done |]. rewrite total_copied_cons. destruct (decide (filled sec)) as [Hf | Hf].
  - rewrite filter_cons_True by done. intros [[Hs _] Hr]%Forall_cons. specialize (IH Hr). unfold copied. case_decide; lia.
  - rewrite filter_cons_False, copied_empty by done. intros Hr. specialize (IH Hr). lia.
Qed.

Lemma section_of_cons k sec secs : section_of k (sec :: secs) =
  if decide (filled sec /\ kind_of sec = Some k) then Some sec else section_of k secs.
Proof. unfold section_of. cbn. by case_decide. Qed.

Lemma load_sections_ok secs known h a s : between file rm a s -> Forall (readable file) (filter filled secs) ->
  NoDup (kind_of <$> filter filled secs) -> (forall k, seg_is file (noffFile s) k (known k) (seg k h)) ->
  (forall k sec, known k = Some sec -> Some k ∉ kind_of <$> filter filled secs) ->
  a + total_copied secs < 2 ^ 31 -> a + total_copied secs <= rm ->
  exists h' s', load_sections secs h a s = Ok (Some (h', s')) /\ between file rm (a + total_copied secs) s' /\
    noffMagic h' = noffMagic h /\
    forall k, seg_is file (noffFile s') k (match known k with Some x => Some x | None => section_of k secs end) (seg k h').
Proof.
  revert known h a s. induction secs as [| sec secs IH]; intros known h a s Hb Hr Hn Hk Hnew Hsm Hroom.
  { exists h, s. change (total_copied []) with 0 in *. rewrite Z.add_0_r. split_and!; [done | done | done |].
    intros k. specialize (Hk k). by destruct (known k). }
  rewrite total_copied_cons in *. destruct (decide (filled sec)) as [Hf | Hf].
  - rewrite filter_cons_True in Hr, Hn, Hnew by done. apply Forall_cons in Hr as [Hrd Hr].
    cbn [fmap list_fmap] in Hn, Hnew. apply NoDup_cons in Hn as [Hni Hn]. pose proof (total_copied_pos secs Hr) as Htp.
    destruct Hrd as (Hs0 & [k0 Ek0] & Hc0). assert (known k0 = None) as Hk0.
    { destruct (known k0) eqn:E; [| done]. destruct (Hnew k0 _ E). rewrite Ek0. apply list_elem_of_here. }
    assert (0 <= copied sec) as Hcp by (unfold copied; case_decide; lia).
    destruct (load_section_ok sec k0 h a s Hb ltac:(by split_and!; eauto) Hf Ek0 ltac:(lia) ltac:(lia)) as (h1 & s1 & E1 & Hb1 & Hs1 & Hm1 & Ho1).
    { specialize (Hk k0). by rewrite Hk0 in Hk. }
    destruct (IH (fun k => if decide (k = k0) then Some sec else known k) h1 (a + copied sec) s1 Hb1 Hr Hn) as (h' & s' & E & Hb' & Hm & Hseg); [| | lia | lia |].
    + intros k. destruct (decide (k = k0)) as [-> | Hne]; [done | by apply Ho1].
    + intros k x. destruct (decide (k = k0)) as [-> | Hne]; [by rewrite <- Ek0 |].
      intros E Hin. apply (Hnew k x E). by apply list_elem_of_further.
    + exists h', s'. cbn [load_sections]. unfold mbind at 1, M_bind. rewrite E1, Z.add_assoc.
      split_and!; [exact E | done | congruence |]. intros k. specialize (Hseg k). rewrite section_of_cons.
      destruct (decide (k = k0)) as [-> | Hne]; [by rewrite Hk0, decide_True by done |].
      destruct (known k); [done |]. rewrite decide_False; [done |]. rewrite Ek0. naive_solver.
  - rewrite filter_cons_False in Hr, Hn, Hnew by done. rewrite copied_empty in * by done.
    destruct (IH known h a s Hb Hr Hn Hk Hnew) as (h' & s' & E & Hb' & Hm & Hseg); [lia | lia |].
    exists h', s'. cbn [load_sections]. rewrite Z.add_0_l. unfold mbind at 1, M_bind, load_section. unfold filled in Hf. rewrite (proj2 (Z.eqb_eq (s_size sec) 0)) by lia.
    split_and!; [exact E | done | done |]. intros k. specialize (Hseg k). rewrite section_of_cons, decide_False by tauto. done.
Qed.
End file.

(** ** The header in the file *)

Lemma length_header h : length (header_bytes h) = 52%nat.
Proof. unfold header_bytes, header_words, segment_words. cbn [fmap list_fmap app concat]. by rewrite !length_app, !length_le_split. Qed.

Lemma word_back buf h i w : slice 0 52 buf = header_bytes h -> header_words h !! i = Some w -> word_at buf i = s32 w.
Proof.
  intros Hb Hi. assert (i < 13)%nat as Hlt by exact (lookup_lt_Some _ _ _ Hi).
  unfold word_at. rewrite <- (slice_slice 0 52 (4 * i) 4), Hb by lia. unfold header_bytes.
  rewrite (slice_concat 4 _ i (le_split 4 (u32 w))).
  - rewrite le_combine_split. change (256 ^ Z.of_nat 4) with (2 ^ 32). rewrite Z.mod_small by apply u32_range. apply s32_u32.
  - apply Forall_fmap, Forall_true. intros x. apply length_le_split.
  - rewrite list_lookup_fmap, Hi. done.
Qed.

Lemma header_back buf h : slice 0 52 buf = header_bytes h ->
  noffMagic (header_of buf) = s32 (noffMagic h) /\
  forall k, seg k (header_of buf) = mkSegment (s32 (virtualAddr (seg k h))) (s32 (inFileAddr (seg k h))) (s32 (size (seg k h))).
Proof.
  intros Hb. split; [by apply (word_back buf h 0) |].
  intros []; unfold header_of, segment_at; cbn [seg code initData readonlyData uninitData]; f_equal; by apply (word_back buf h).
Qed.

Lemma seg_is_back file out k o g : (forall s, o = Some s -> is_s32 (s_paddr s) /\ is_s32 (s_size s) /\ 0 <= s_size s) ->
  Z.of_nat (length out) < 2 ^ 31 -> seg_is file out k o g ->
  seg_is file out k o (mkSegment (s32 (virtualAddr g)) (s32 (inFileAddr g)) (s32 (size g))).
Proof.
  destruct o as [s |]; cbn [seg_is virtualAddr inFileAddr size]; [| by intros _ _ ->].
  intros Hs Hl (Hv & Hz & Hc). destruct (Hs s eq_refl) as (H1 & H2 & H3). rewrite Hv, Hz, !s32_id by done.
  split; [done | split; [done |]]. intros Hk. destruct (Hc Hk) as (E0 & E1 & E2). rewrite Hz in *.
  rewrite s32_id by (unfold is_s32; lia). done.
Qed.

(** ** main *)

Lemma Read_ok n file pos out opos rm : 0 <= pos -> 0 <= n -> pos + n <= Z.of_nat (length file) ->
  Read n (mkIO file pos out opos rm) = Ok (Some (slice (Z.to_nat pos) (Z.to_nat n) file, mkIO file (pos + n) out opos rm)).
Proof.
  intros H0 Hn Hl. unfold Read. cbv zeta. rewrite !(proj2 (Z.ltb_ge n 0)) by done. cbn [coffFile inPos noffFile outPos room].
  rewrite length_slice, Z2Nat.id, Z.eqb_refl by lia. done.
Qed.

Lemma section_s32 n bs s : s ∈ section_headers n bs -> is_s32 (s_paddr s) /\ is_s32 (s_size s).
Proof. intros (i & -> & _)%list_elem_of_fmap. split; apply s32_range. Qed.

Lemma section_of_in k secs s : section_of k secs = Some s -> s ∈ filter filled secs /\ kind_of s = Some k.
Proof.
  unfold section_of. intros Hs%head_Some_elem_of. apply list_elem_of_filter in Hs as [[Hf Hk] Hs].
  split; [by apply list_elem_of_filter | done].
Qed.

Lemma swap_sections (secs : list scnhdr) : swap_section <$> secs = secs.
Proof. rewrite <- (list_fmap_id secs) at 2. apply list_fmap_ext. intros _ s _. by destruct s. Qed.

Lemma swap_header h : SwapHeader h = h.
Proof. by destruct h as [? [] [] [] []]. Qed.

Lemma nscns_pos file : Forall is_byte file -> 0 <= nscns file.
Proof. intros Hb. apply le_combine_range. by repeat apply Forall_slice. Qed.

Lemma convert_ok garbage rm file : convertible file rm ->
  exists out h, main garbage rm (Some file) = Ok (Some out) /\ slice 0 52 out = header_bytes h /\ noffMagic h = NOFFMAGIC /\
    52 <= Z.of_nat (length out) <= 52 + total_copied (sections_of file) /\
    forall k, seg_is file out k (section_of k (sections_of file)) (seg k h).
Proof.
  intros [Hby Hw Hmag Hom Hr Hn Hsm Hrm]. assert (0 <= nscns file) as Hns by (by apply nscns_pos).
  unfold main, convert, sizeof_filehdr, sizeof_aouthdr, sizeof_scnhdr, ShortToHost. unfold mbind, M_bind.
  rewrite Read_ok by lia. change (slice (Z.to_nat 0) (Z.to_nat 20) file) with (slice 0 20 file). fold (nscns file).
  rewrite Hmag. cbn [negb Z.eqb MIPSELMAGIC Pos.eqb Z.add]. rewrite Read_ok by lia.
  change (slice (Z.to_nat (0 + 20)) (Z.to_nat 56) file) with (slice 20 56 file). rewrite Hom. cbn [negb Z.eqb OMAGIC Pos.eqb].
  change (0 + 20 + 56) with 76. rewrite Read_ok by lia. change (Z.to_nat 76) with 76%nat. fold (sections_of file).
  rewrite swap_sections. unfold lseek_out at 1. change (Z.of_nat HeaderSize) with 52. change (52 <? 0) with false. cbn [coffFile inPos noffFile outPos room].
  set (s0 := mkIO file (76 + nscns file * 40) [] 52 rm).
  destruct (load_sections_ok file rm (sections_of file) (fun _ => None) (init garbage) 52 s0) as (h & s & E & Hb & Hm & Hseg);
    [by split; try done; cbn; lia | done | done | by intros [] | done | lia | lia |].
  rewrite E. destruct Hb as [Hin Hout Hroom Hp He]. unfold lseek_out, Write. change (Z.of_nat HeaderSize) with 52.
  cbn [Z.ltb Z.compare coffFile inPos noffFile outPos room].
  rewrite swap_header, Hroom, (proj2 (Z.ltb_ge _ _)) by lia. change (Z.to_nat 0) with 0%nat.
  eexists _, h. split; [reflexivity |]. cbn [noffFile].
  assert (header_bytes h <> []) as Hne by (intros E'; pose proof (length_header h) as L; by rewrite E' in L).
  rewrite FileCalls.length_overwrite, length_header by done. split_and!; [| done | lia | lia |].
  - rewrite <- (length_header h). by apply FileCalls.slice_overwrite.
  - intros k. apply seg_is_overwrite; [exact (Hseg k) | done | left; by rewrite length_header].
Qed.

(** The same of the header as it is read back. *)
Lemma convert_header garbage rm file : convertible file rm ->
  exists out, main garbage rm (Some file) = Ok (Some out) /\ 52 <= Z.of_nat (length out) <= 52 + total_copied (sections_of file) /\
    noffMagic (header_of (slice 0 HeaderSize out)) = NOFFMAGIC /\
    forall k, seg_is file out k (section_of k (sections_of file)) (seg k (header_of (slice 0 HeaderSize out))).
Proof.
  intros Hc. destruct (convert_ok garbage rm file Hc) as (out & h & E & Hh & Hm & Hl & Hseg). destruct Hc as [_ _ _ _ Hr _ Hsm _].
  exists out. destruct (header_back (slice 0 HeaderSize out) h) as [Em Es]; [by rewrite slice_slice |].
  split_and!; [done | lia | lia | by rewrite Em, Hm |]. intros k. rewrite Es.
  apply seg_is_back; [| lia | done]. intros sec Hsec. destruct (section_of_in _ _ _ Hsec) as [Hin' _].
  rewrite Forall_forall in Hr. pose proof (Hr _ Hin') as [H0 _]. apply list_elem_of_filter in Hin' as [_ Hin'].
  destruct (section_s32 _ _ _ Hin'). done.
Qed.

(** C25: A COFF file with the right magic numbers, whose sections have known names
    and contents inside the file, at most one of each name and with room for
    them, is converted: the NOFF file has its magic number and, for every kind of
    segment, the size and the address of the section of that kind, or no size
    when there is none; and what the file holds where the header says is, byte
    for byte, what the COFF file holds where its section header says. *)
Theorem coff_to_noff garbage rm file : convertible file rm ->
  exists out, main garbage rm (Some file) = Ok (Some out) /\
    noffMagic (header_of (slice 0 HeaderSize out)) = NOFFMAGIC /\
    forall k, seg_is file out k (section_of k (sections_of file)) (seg k (header_of (slice 0 HeaderSize out))).
Proof. intros Hc. destruct (convert_header garbage rm file Hc) as (out & ? & _ & ? & ?). by exists out. Qed.

(** ** What is refused *)

Lemma M_bind_inv {A B} (m : M A) (f : A -> M B) s r : (m ≫= f) s = Ok (Some r) ->
  exists a s', m s = Ok (Some (a, s')) /\ f a s' = Ok (Some r).
Proof. unfold mbind, M_bind. destruct (m s) as [[[a s'] |] |]; [eauto | done | done]. Qed.

Lemma Read_inv n s bs s' : Read n s = Ok (Some (bs, s')) ->
  (n = -1 /\ s' = s \/
   0 <= n /\ bs = slice (Z.to_nat (inPos s)) (Z.to_nat n) (coffFile s) /\ Z.of_nat (length bs) = n /\ inPos s' = inPos s + n) /\
  coffFile s' = coffFile s.
Proof.
  unfold Read. cbv zeta. destruct (Z.ltb_spec n 0).
  - destruct (Z.eqb_spec (-1) n) as [<- |]; [| done]. intros [= <- <-]. split; [left | done]. rewrite Z.add_0_r. by destruct s.
  - destruct (Z.eqb_spec (Z.of_nat (length (slice (Z.to_nat (inPos s)) (Z.to_nat n) (coffFile s)))) n) as [E |]; [| done].
    intros [= <- <-]. split; [right | done]. by rewrite E.
Qed.

(** What is read of a count that cannot be negative. *)
Lemma Read_inv_pos n s bs s' : Read n s = Ok (Some (bs, s')) -> n <> -1 ->
  0 <= n /\ bs = slice (Z.to_nat (inPos s)) (Z.to_nat n) (coffFile s) /\ Z.of_nat (length bs) = n /\
  coffFile s' = coffFile s /\ inPos s' = inPos s + n.
Proof. intros [[[? _] | (? & ? & ? & ?)] ?]%Read_inv ?; [done |]. by split_and!. Qed.

Lemma Write_inv bs n s u s' : Write bs n s = Ok (Some (u, s')) -> coffFile s' = coffFile s /\ inPos s' = inPos s.
Proof. unfold Write. repeat case_match; try done; by intros [= _ <-]. Qed.

(** The sections from the input position [pos] on: each that is not empty has a
    known name, and the contents of each that is copied are in the file.  A
    negative position is not moved to, so that the contents are read from where
    the input was; and of a size of -1 nothing is read. *)
Fixpoint contents_found (file : list Z) (pos : Z) (secs : list scnhdr) : Prop :=
  match secs with
  | [] => True
  | sec :: secs =>
      if decide (filled sec) then
        match kind_of sec with
        | None => False
        | Some Bss => contents_found file pos secs
        | Some _ =>
            let start := if s_scnptr sec <? 0 then pos else s_scnptr sec in
            (s_size sec = -1 \/ 0 <= s_size sec /\ start + s_size sec <= Z.of_nat (length file)) /\
            contents_found file (start + Z.max 0 (s_size sec)) secs
        end
      else contents_found file pos secs
  end.

#[global] Instance contents_found_dec file pos secs : Decision (contents_found file pos secs).
Proof.
  revert pos. induction secs as [| sec secs IH]; intros pos; cbn [contents_found]; [apply _ |].
  destruct (decide (filled sec)); [destruct (kind_of sec) as [[] |] |]; apply _.
Defined.

(** What the converter asks of a file. *)
Record acceptable (file : list Z) : Prop := {
  ac_magic : f_magic (filehdr_of (slice 0 20 file)) = MIPSELMAGIC;
  ac_omagic : magic (aouthdr_of (slice 20 56 file)) = OMAGIC;
  ac_headers : 76 + nscns file * 40 <= Z.of_nat (length file);
  ac_contents : contents_found file (76 + nscns file * 40) (sections_of file);
}.

Lemma copy_in_inv sec s u s' : copy_in sec s = Ok (Some (u, s')) -> filled sec -> 0 <= inPos s ->
  let start := if s_scnptr sec <? 0 then inPos s else s_scnptr sec in
  (s_size sec = -1 \/ 0 <= s_size sec /\ start + s_size sec <= Z.of_nat (length (coffFile s))) /\
  coffFile s' = coffFile s /\ inPos s' = start + Z.max 0 (s_size sec) /\ 0 <= start.
Proof.
  intros (? & s1 & E1 & (bs & s2 & E2 & [E3 E4]%Write_inv)%M_bind_inv)%M_bind_inv Hf Hp start.
  assert (inPos s1 = start /\ coffFile s1 = coffFile s /\ 0 <= start) as (H1 & H2 & H3).
  { injection E1 as _ <-. unfold start. destruct (Z.ltb_spec (s_scnptr sec) 0); by split_and!. }
  apply Read_inv in E2 as [[[Hm ->] | (H0 & Hbs & Hl & Hi)] Hc]; rewrite E3, E4, ?Hc, ?Hi, H2.
  - split_and!; [by left | done | lia | done].
  - rewrite H1 in *. rewrite Z.max_r by done. split_and!; try done. right. split; [done |]. unfold filled in Hf. rewrite H2 in Hbs.
    subst bs. unfold slice in Hl. rewrite length_take, length_drop in Hl. lia.
Qed.

Lemma load_section_inv sec h a s r s' : load_section sec h a s = Ok (Some (r, s')) -> filled sec -> 0 <= inPos s ->
  coffFile s' = coffFile s /\ exists k, kind_of sec = Some k /\
    if decide (k = Bss) then inPos s' = inPos s
    else let start := if s_scnptr sec <? 0 then inPos s else s_scnptr sec in
      (s_size sec = -1 \/ 0 <= s_size sec /\ start + s_size sec <= Z.of_nat (length (coffFile s))) /\
      inPos s' = start + Z.max 0 (s_size sec) /\ 0 <= start.
Proof.
  intros E Hf Hp. revert E. unfold load_section, kind_of. rewrite (proj2 (Z.eqb_neq (s_size sec) 0) Hf).
  assert (forall k (f : unit -> M (NoffHeader * Z)), k <> Bss -> (forall u s1 r1, f u s1 = Ok (Some r1) -> r1.2 = s1) ->
    (copy_in sec ≫= f) s = Ok (Some (r, s')) -> coffFile s' = coffFile s /\ exists k', Some k = Some k' /\
    if decide (k' = Bss) then inPos s' = inPos s
    else let start := if s_scnptr sec <? 0 then inPos s else s_scnptr sec in
      (s_size sec = -1 \/ 0 <= s_size sec /\ start + s_size sec <= Z.of_nat (length (coffFile s))) /\
      inPos s' = start + Z.max 0 (s_size sec) /\ 0 <= start) as Hcp.
  { intros k f Hk Hs (u & s1 & (? & ? & ? & ?)%copy_in_inv & E)%M_bind_inv; [| done..]. apply Hs in E. cbn in E. subst s'.
    split; [done |]. exists k. rewrite decide_False by done. by split_and!. }
  destruct (named dot_text sec); [apply Hcp; [done | by intros u s1 r1 [= <-]] |].
  destruct (named dot_data sec); [apply Hcp; [done | by intros u s1 r1 [= <-]] |].
  destruct (named dot_rdata sec); [apply Hcp; [done | by intros u s1 r1 [= <-]] |].
  destruct (named dot_bss sec); [| done]. intros E.
  assert (s' = s) as -> by (destruct (negb _); [destruct (_ =? _); [done |] |]; by injection E). split; [done | by exists Bss].
Qed.

Lemma load_sections_inv secs h a s r s' : load_sections secs h a s = Ok (Some (r, s')) -> 0 <= inPos s ->
  contents_found (coffFile s) (inPos s) secs.
Proof.
  revert h a s. induction secs as [| sec secs IH]; intros h a s; [done |]. cbn [load_sections contents_found].
  intros ([h1 a1] & s1 & E1 & E)%M_bind_inv Hp. destruct (decide (filled sec)) as [Hf | Hf].
  - apply load_section_inv in E1 as (Hc & k & -> & Hk); [| done..]. rewrite <- Hc. destruct k; cbn in Hk;
      [destruct Hk as (Hk & Hi & H0); rewrite Hc; split; [done |]; rewrite <- Hi, <- Hc; eapply IH; [exact E | rewrite Hi; lia].. |].
    rewrite <- Hk. eapply IH; [exact E | by rewrite Hk].
  - unfold load_section in E1. unfold filled in Hf. rewrite (proj2 (Z.eqb_eq (s_size sec) 0)) in E1 by lia.
    injection E1 as _ _ <-. by eapply IH.
Qed.

Lemma accepted garbage rm file out : Forall is_byte file -> main garbage rm (Some file) = Ok (Some out) -> acceptable file.
Proof.
  intros Hby. unfold main. destruct (convert _ _) as [[[u s'] |] |] eqn:E; [| done | done]. intros _. revert E. unfold convert.
  intros (bs1 & s1 & (_ & -> & _ & Hc1 & Hp1)%Read_inv_pos & E)%M_bind_inv; [| done]. cbn [inPos coffFile] in *. revert E.
  change (slice (Z.to_nat 0) (Z.to_nat sizeof_filehdr) file) with (slice 0 20 file). unfold ShortToHost. fold (nscns file).
  destruct (Z.eqb_spec (f_magic (filehdr_of (slice 0 20 file))) MIPSELMAGIC) as [Hm |]; [| done].
  intros (bs2 & s2 & (_ & -> & Hl2 & Hc2 & Hp2)%Read_inv_pos & E)%M_bind_inv; [| done]. rewrite Hp1, Hc1 in *. revert E.
  change (slice (Z.to_nat (0 + sizeof_filehdr)) (Z.to_nat sizeof_aouthdr) file) with (slice 20 56 file).
  destruct (Z.eqb_spec (magic (aouthdr_of (slice 20 56 file))) OMAGIC) as [Ho |]; [| done].
  pose proof (nscns_pos file Hby) as Hn0. change sizeof_scnhdr with 40.
  intros (bs3 & s3 & (Hn & -> & Hl & Hc3 & Hp3)%Read_inv_pos & E)%M_bind_inv; [| lia]. rewrite Hp2, Hc2 in *.
  change (0 + sizeof_filehdr + sizeof_aouthdr) with 76 in *. change (Z.to_nat 76) with 76%nat in *.
  fold (sections_of file) in E. rewrite swap_sections in E.
  apply M_bind_inv in E as (? & s4 & E4 & (h & s5 & Hs%load_sections_inv & _)%M_bind_inv);
    injection E4 as _ <-; change (Z.of_nat HeaderSize <? 0) with false in *; cbn [coffFile inPos] in *; [| rewrite Hp3; lia].
  rewrite Hc3, Hp3 in Hs. split; try done. unfold slice in Hl, Hl2. rewrite length_take, length_drop in Hl, Hl2.
  change (Z.to_nat (0 + sizeof_filehdr)) with 20%nat in Hl2. change (Z.to_nat sizeof_aouthdr) with 56%nat in Hl2.
  change sizeof_aouthdr with 56 in Hl2. lia.
Qed.

(** The program always ends. *)
Definition ends {A} (m : M A) : Prop := forall s, exists o, m s = Ok o.

Lemma ends_ret {A} (a : A) : ends (mret a).
Proof. intros s. by eexists. Qed.
Lemma ends_exit {A} : ends (@exit_1 A).
Proof. intros s. by eexists. Qed.
Lemma ends_bind {A B} (m : M A) (f : A -> M B) : ends m -> (forall a, ends (f a)) -> ends (m ≫= f).
Proof.
  intros Hm Hf s. unfold mbind, M_bind. destruct (Hm s) as [[[a s'] |] ->]; [apply Hf | by eexists].
Qed.
Lemma ends_lseek_in i : ends (lseek_in i).
Proof. intros s. by eexists. Qed.
Lemma ends_lseek_out i : ends (lseek_out i).
Proof. intros s. by eexists. Qed.
Lemma ends_Read n : ends (Read n).
Proof. intros s. unfold Read. cbv zeta. by destruct (negb _); eexists. Qed.
Lemma ends_Write bs n : ends (Write bs n).
Proof. intros s. unfold Write. repeat case_match; by eexists. Qed.

Create HintDb ends.
#[local] Hint Resolve ends_ret ends_exit ends_bind ends_lseek_in ends_lseek_out ends_Read ends_Write : ends.
#[local] Hint Extern 2 (ends (if ?b then _ else _)) => destruct b : ends.
#[local] Hint Extern 2 (ends (let '(_, _) := ?x in _)) => destruct x : ends.

Lemma ends_load_section sec h a : ends (load_section sec h a).
Proof. unfold load_section, copy_in. cbv zeta. auto 20 with ends. Qed.
#[local] Hint Resolve ends_load_section : ends.

Lemma ends_load_sections secs h a : ends (load_sections secs h a).
Proof. revert h a. induction secs as [| sec secs IH]; intros h a; cbn [load_sections]; auto with ends. Qed.
#[local] Hint Resolve ends_load_sections : ends.

Lemma ends_convert garbage : ends (convert garbage).
Proof. unfold convert. cbv zeta. auto 20 with ends. Qed.

(** C26: The converter ends on every file, whatever is in it and whatever room there
    is: with a NOFF file, or with status 1 and no output.  It makes one only from a
    file with both magic numbers that is long enough for its headers, in which
    every section that is not empty has one of the four names and, unless it is a
    .bss, its contents in the file from where it says, or from where the input was
    when it says a negative position; the one size that is not a size and goes
    through is -1.  From every other file it makes none. *)
Theorem coff_refused garbage rm file : Forall is_byte file ->
  (exists o, main garbage rm (Some file) = Ok o) /\ (~ acceptable file -> main garbage rm (Some file) = Ok None).
Proof.
  intros Hby. assert (exists o, main garbage rm (Some file) = Ok o) as [o Ho].
  { unfold main. destruct (ends_convert garbage (mkIO file 0 [] 0 rm)) as [[[u s] |] ->]; by eexists. }
  split; [by exists o |]. intros Hn. destruct o as [out |]; [| done]. destruct Hn. by apply (accepted garbage rm file out).
Qed.

(** ** From the COFF file to memory *)

Section load.
Context `{SlotMapLaws B}.
#[local] Set Default Proof Using "Type*".
Import SlotOps.

Definition bss_size (file : list Z) : Z :=
  match section_of Bss (sections_of file) with Some s => s_size s | None => 0 end.
Definition pages_needed (file : list Z) (text : scnhdr) : Z :=
  divRoundUp (u32 (s_size text + bss_size file + UserStackSize)) PageSize.

(** A program of code at address 0. *)
Record text_only (file : list Z) (rm : Z) (text : scnhdr) : Prop := {
  to_coff : convertible file rm;
  to_text : section_of Text (sections_of file) = Some text;
  to_start : s_paddr text = 0;
  to_data : section_of Data (sections_of file) = None;
  to_rdata : section_of Rdata (sections_of file) = None;
  to_fits : 52 + total_copied (sections_of file) + pages_needed file text * PageSize < 2 ^ 31;
}.

Lemma text_code_only garbage rm file text : text_only file rm text ->
  exists out h, main garbage rm (Some file) = Ok (Some out) /\ code_only out h /\
    divRoundUp (space_size h) PageSize = pages_needed file text /\
    slice (Z.to_nat (inFileAddr (code h))) (Z.to_nat (s_size text)) out =
      slice (Z.to_nat (s_scnptr text)) (Z.to_nat (s_size text)) file.
Proof.
  intros [Hc Ht Hst Hd Hrd Hf]. destruct (convert_header garbage rm file Hc) as (out & E & Hl & Hm & Hseg).
  destruct (section_of_in _ _ _ Ht) as [Hin Hk]. pose proof (cv_sections _ _ Hc) as Hr. rewrite Forall_forall in Hr.
  pose proof (Hr _ Hin) as (Hs & _). apply list_elem_of_filter in Hin as [Hne _]. unfold filled in Hne.
  set (h := header_of (slice 0 HeaderSize out)) in *.
  pose proof (Hseg Text) as Htx. pose proof (Hseg Data) as Hda. pose proof (Hseg Rdata) as Hra. pose proof (Hseg Bss) as Hbs.
  rewrite Ht in Htx. rewrite Hd in Hda. rewrite Hrd in Hra. cbn [seg_is seg] in Htx, Hda, Hra.
  destruct Htx as (Hva & Hsz & Hct). destruct (Hct ltac:(done)) as (Ha & Hb & Hsl). rewrite Hsz in Hsl.
  assert (size (uninitData h) = bss_size file) as Hu.
  { unfold bss_size. destruct (section_of Bss _); [by destruct Hbs as (_ & ? & _) | exact Hbs]. }
  assert (divRoundUp (space_size h) PageSize = pages_needed file text) as Hp.
  { unfold space_size, pages_needed. rewrite Hsz, Hda, Hra, Hu. do 2 f_equal. lia. }
  exists out, h. split; [exact E | split; [| split; [exact Hp | exact Hsl]]].
  split; try done; try lia. unfold HeaderSize. lia.
Qed.

(** C24: From the compiler's output to memory: a COFF program of code at address 0
    is converted, and loading the NOFF file, with the loader's lock free and a frame
    map of any size, answers FALSE, changing nothing, when it needs more pages than
    the map has free bits; it writes outside memory when it needs more than there
    are free frames in memory, which the kernel's map of 256 bits for 128 frames
    does not prevent; otherwise its page table maps
    page [i] to the [i]-th of as many frames, distinct and free before, byte [j]
    of the program is in its page what byte [j] of the section is in the COFF
    file, and no byte of any other frame changes. *)
Theorem coff_program_loads garbage garbage' rm file text s (k : kernel B) :
  text_only file rm text -> length garbage' = HeaderSize ->
  mem_ok (machine k) -> slots_wf (gPhysPageBitMap k) -> addrLock k = 1 ->
  exists out, main garbage rm (Some file) = Ok (Some out) /\
  let np := pages_needed file text in
  if decide (Z.of_nat (count_clear (slots (gPhysPageBitMap k))) < np) then
    Load garbage' s k (Some out) = Ok (false, mk (pageTable s) 0, k)
  else if decide (Z.of_nat (free_frames (gPhysPageBitMap k)) < np) then Load garbage' s k (Some out) = Fault MemoryFault
  else exists ks bm mem,
    Load garbage' s k (Some out) =
      Ok (true, mk (Some (table_of 0 ks)) np, mkKernel (with_memory (machine k) mem) bm 1) /\
    Z.of_nat (length ks) = np /\ clear_slots (gPhysPageBitMap k) ks /\
    slots bm = set_slots true ks (slots (gPhysPageBitMap k)) /\
    (forall j f b, (j < Z.to_nat (s_size text))%nat -> ks !! (j / 128)%nat = Some f ->
       file !! (Z.to_nat (s_scnptr text) + j)%nat = Some b -> mem !! (f * 128 + j mod 128)%nat = Some b) /\
    forall a, frame_of a ∉ ks -> mem !! a = mainMemory (machine k) !! a.
Proof.
  intros Hto Hg Hm Hfr Hlock. destruct (text_code_only garbage rm file text Hto) as (out & h & E & Hco & Hp & Hsl).
  exists out. split; [exact E |]. cbv zeta. rewrite (Load_header garbage' s k out h Hg Hco), <- Hp.
  pose proof (load_pages_image s k out h Hco Hm Hfr Hlock) as Himg. cbv zeta in Himg. case_decide; [done |]. case_decide; [done |].
  destruct Himg as (ks & bm & mem & -> & Hl & Hcl & Hs & Hpg & Hsame). exists ks, bm, mem. split_and!; try done.
  intros j f b Hj Hf Hb. pose proof (Nat.mod_upper_bound j 128 ltac:(done)) as Hmod. rewrite (Hpg _ f _ Hf Hmod). f_equal.
  pose proof (Nat.div_mod_eq j 128) as Hdm. replace (_ + j / 128 * 128 + j mod 128)%nat with (Z.to_nat (inFileAddr (code h)) + j)%nat by lia.
  assert (slice (Z.to_nat (s_scnptr text)) (Z.to_nat (s_size text)) file !! j = Some b) as Hb'.
  { by rewrite lookup_slice, decide_True. }
  rewrite <- Hsl, lookup_slice, decide_True in Hb' by done. by rewrite Hb'.
Qed.
End load.

(** ** Where it is not what the comments say *)

(** A second .bss section that starts where the first ends is refused, although
    the program means to check that they are contiguous; any other is taken as if
    it started there. *)
Lemma contiguous_bss_refused sec h a s : filled sec -> kind_of sec = Some Bss -> size (uninitData h) <> 0 ->
  load_section sec h a s =
    if s_paddr sec =? s32 (virtualAddr (uninitData h) + size (uninitData h)) then Ok None
    else Ok (Some ((with_uninitData h (sized (uninitData h) (s32 (size (uninitData h) + s_size sec))), a), s)).
Proof.
  intros Hf Hk Hne. destruct (kind_names sec Bss Hk) as (N1 & N2 & N3 & N4). unfold load_section.
  rewrite (proj2 (Z.eqb_neq _ _) Hf), N1, N2, N3, N4 by done. rewrite !bool_decide_false by done.
  rewrite (proj2 (Z.eqb_neq _ _) Hne). cbn [negb]. by destruct (_ =? _).
Qed.

(** ** Instances *)
Module CoffDemo.

Definition long (v : Z) : list Z := le_split 4 v.
Definition short (v : Z) : list Z := le_split 2 v.
Definition header (n : Z) : list Z := short MIPSELMAGIC ++ short n ++ replicate 16 0 ++ short OMAGIC ++ replicate 54 0.
Definition section (name : list Z) (paddr size scnptr : Z) : list Z :=
  take 8 (name ++ replicate 8 0) ++ long paddr ++ long paddr ++ long size ++ long scnptr ++ replicate 16 0.

(** Ten bytes of code and a .bss of 200. *)
Definition program : list Z :=
  header 3 ++ section dot_text 0 10 196 ++ section dot_data 16 0 0 ++ section dot_bss 16 200 0 ++ replicate 10 7.
(** And one with all four. *)
Definition program4 : list Z :=
  header 4 ++ section dot_text 0 8 236 ++ section dot_rdata 8 2 244 ++ section dot_data 16 4 246 ++ section dot_bss 20 200 0 ++
  replicate 8 7 ++ [1; 2; 3; 4; 5; 6].
Definition junk_header : NoffHeader := header_of (replicate 52 9).
Definition code_section : scnhdr := mkScnhdr (dot_text ++ [0; 0; 0]) 0 0 10 196 0 0 0 0 0.

#[local] Instance readable_dec file sec : Decision (readable file sec).
Proof. unfold readable. apply _. Defined.

Ltac by_evaluation := first [apply (bool_decide_unpack _); vm_compute; reflexivity | vm_compute; congruence].

Lemma program4_convertible : convertible program4 1000.
Proof. split; by_evaluation. Qed.

Lemma program_text_only : text_only program 1000 code_section.
Proof. split; [split; by_evaluation | vm_compute; reflexivity ..]. Qed.

Lemma coff_to_noff_witness : exists out, main junk_header 1000 (Some program4) = Ok (Some out) /\
  noffMagic (header_of (slice 0 HeaderSize out)) = NOFFMAGIC.
Proof. destruct (coff_to_noff junk_header 1000 program4 program4_convertible) as (out & E & Hm & _). exists out. exact (conj E Hm). Defined.

(** The file without its last byte is refused. *)
Definition short_file : list Z := take (length program4 - 1) program4.

Lemma short_not_acceptable : ~ acceptable short_file.
Proof.
  intros [_ _ _ Hc]. revert Hc. apply (bool_decide_eq_false_1 _). vm_compute. reflexivity.
Qed.

Lemma coff_refused_witness : main junk_header 1000 (Some short_file) = Ok None.
Proof. apply (coff_refused junk_header 1000 short_file); [by_evaluation | exact short_not_acceptable]. Defined.

Lemma coff_program_loads_witness : exists out, main junk_header 1000 (Some program) = Ok (Some out) /\
  exists s k', Load SpaceDemo.junk SpaceDemo.blank SpaceDemo.first_kernel (Some out) = Ok (true, s, k').
Proof.
  destruct (coff_program_loads junk_header SpaceDemo.junk 1000 program code_section SpaceDemo.blank SpaceDemo.first_kernel
    program_text_only eq_refl SpaceDemo.create_mem SpaceDemo.first_frames eq_refl) as (out & E & Hl).
  exists out. split; [exact E |]. cbv zeta in Hl. rewrite !decide_False in Hl by (vm_compute; discriminate).
  destruct Hl as (ks & bm & mem & -> & _). by eexists _, _.
Defined.
End CoffDemo.
End Coff.
