(* ===== verification/SemTable.v ===== *)
(** * SemTable: threads/sem.h, sem.cc, threads/stable.h, stable.cc, and the semaphore
      calls of userprog/ksyscall.h

    The semaphores user programs share by name: a table of ten slots, its free
    slots in a bitmap (seen through [SlotMap]), each with a semaphore of the
    kernel of Threads.v.  A name given by a program is the buffer [User2System]
    filled; the table keeps the string.  The abstract table is a finite map from
    names to semaphores. *)

From S2P Require Import Prelude Bitmap Lists Machine Interrupt AddrSpace Threads Sched Syscalls FileCalls.

Module Sem.

Record t := mk { name : list Z; sem : nat }.

(** [Sem::Sem]: [strcpy] into [char name[50]], and a new semaphore. *)
Definition create (k : Threads.kernel) (na : list Z) (i : Z) : res (t * Threads.kernel) :=
  nm ← deref (FileCalls.cstring na);
  if (50 <=? length nm)%nat then Fault MemoryFault
  else Ok (mk nm (length (Threads.sems k)),
           Threads.with_sems k (Threads.sems k ++ [Threads.new_Semaphore i])).

Definition wait (k : Threads.kernel) (s : t) : res Threads.kernel := Threads.P k (sem s).
Definition signal (k : Threads.kernel) (s : t) : res Threads.kernel := Threads.V k (sem s).
End Sem.

Module STable.
Import Machine Interrupt Threads Sched UserMem.

Definition MAX_SEMAPHORE : Z := 10.
Definition MAX_FILE_LENGTH : Z := 32.

Section table.
Context {B : Type} `{SlotMap B}.

Record t := mk { bm : B; semTab : list (option Sem.t) }.

(** [STable::STable], with its new bitmap *)
Definition create (bm : B) : t := mk bm (replicate (Z.to_nat MAX_SEMAPHORE) None).

(** The loop over the slots in use, up to the one of the name. *)
Fixpoint search (n : nat) (i : nat) (st : t) (name : list Z) : res (option Sem.t) :=
  match n with
  | O => Ok None
  | S n' =>
      b ← slot_test (bm st) (Z.of_nat i);
      if b : bool then
        s ← deref (semTab st !! i);
        s ← deref s;
        eq ← FileCalls.same_string name (Sem.name s);
        if eq : bool then Ok (Some s) else search n' (S i) st name
      else search n' (S i) st name
  end.

Definition lookup_name (st : t) (name : list Z) : res (option Sem.t) :=
  search (Z.to_nat MAX_SEMAPHORE) 0 st name.

Definition FindFreeSlot (st : t) : res (Z * t) :=
  '(id, b) ← slot_find_and_set (bm st); Ok (id, mk b (semTab st)).

Definition Create (st : t) (k : kernel) (name : list Z) (init : Z) : res (Z * t * kernel) :=
  found ← lookup_name st name;
  match found with
  | Some _ => Ok (-1, st, k)
  | None =>
      '(id, st) ← FindFreeSlot st;
      if id <? 0 then Ok (-1, st, k)
      else
        '(s, k) ← Sem.create k name init;
        _ ← deref (semTab st !! Z.to_nat id);
        Ok (0, mk (bm st) (<[Z.to_nat id := Some s]> (semTab st)), k)
  end.

Definition Wait (st : t) (k : kernel) (name : list Z) : res (Z * kernel) :=
  found ← lookup_name st name;
  match found with
  | Some s => k ← Sem.wait k s; Ok (0, k)
  | None => Ok (-1, k)
  end.

Definition Signal (st : t) (k : kernel) (name : list Z) : res (Z * kernel) :=
  found ← lookup_name st name;
  match found with
  | Some s => k ← Sem.signal k s; Ok (0, k)
  | None => Ok (-1, k)
  end.

(** ** System calls

    What they work on, and how they end: with the value for [r2], or in the
    exception handler because of a bad address.  The value is final even if the
    thread still has to get through [P]. *)
Inductive ended : Type :=
  | Returned (v : Z) (st : t) (k : kernel)
  | Trapped (which : ExceptionType) (st : t) (k : kernel).

(** [User2System(virtAddr, MAX_FILE_LENGTH + 1)] *)
Definition with_name (fresh : nat -> list Z) (st : t) (k : kernel) (virtAddr : Z)
    (f : kernel -> list Z -> res ended) : res ended :=
  r ← UserMem.User2System fresh (machine k) virtAddr (MAX_FILE_LENGTH + 1);
  match r with
  | Done name m => f (with_machine k m) name
  | Trap which m => Ok (Trapped which st (with_machine k m))
  end.

Definition SysCreateSemaphore (fresh : nat -> list Z) (st : t) (k : kernel) : res ended :=
  virtAddr ← ReadRegister (machine k) 4;
  semval ← ReadRegister (machine k) 5;
  with_name fresh st k virtAddr (fun k name =>
    '(r, st, k) ← Create st k name semval; Ok (Returned r st k)).

Definition SysWait (fresh : nat -> list Z) (st : t) (k : kernel) : res ended :=
  virtAddr ← ReadRegister (machine k) 4;
  with_name fresh st k virtAddr (fun k name => '(r, k) ← Wait st k name; Ok (Returned r st k)).

Definition SysSignal (fresh : nat -> list Z) (st : t) (k : kernel) : res ended :=
  virtAddr ← ReadRegister (machine k) 4;
  with_name fresh st k virtAddr (fun k name => '(r, k) ← Signal st k name; Ok (Returned r st k)).
End table.
Arguments t : clear implicits.
Arguments ended : clear implicits.

(** ** The table as a map *)

(** The semaphores of the slots in use. *)
Fixpoint entries (used : list bool) (tab : list (option Sem.t)) : list (list Z * nat) :=
  match used, tab with
  | true :: us, Some s :: ts => (Sem.name s, Sem.sem s) :: entries us ts
  | _ :: us, _ :: ts => entries us ts
  | _, _ => []
  end.

(** A slot in use holds a semaphore. *)
Definition filled (used : list bool) (tab : list (option Sem.t)) : Prop :=
  Forall2 (fun (b : bool) o => b = true -> is_Some o) used tab.

Lemma filled_insert used tab i s :
  filled used tab -> filled (<[i := true]> used) (<[i := Some s]> tab).
Proof. intros Hf. by apply Forall2_insert. Qed.

Lemma entries_insert used tab i s :
  filled used tab -> used !! i = Some false ->
  Permutation (entries (<[i := true]> used) (<[i := Some s]> tab)) ((Sem.name s, Sem.sem s) :: entries used tab).
Proof.
  intros Hf. revert i. induction Hf as [| b o us ts Hb Hf IH]; intros [| i] Hi; [done | done | |].
  - by injection Hi as ->.
  - cbn [insert list_insert entries]. specialize (IH i Hi). cbn in IH. destruct b, o; [| done ..].
    rewrite IH. apply perm_swap.
Qed.

Lemma entries_count used tab : filled used tab -> (length (entries used tab) + count_clear used = length used)%nat.
Proof.
  induction 1 as [| b o us ts Hb _ IH]; [done |]. cbn [entries count_clear length].
  destruct b; [destruct (Hb eq_refl) as [s ->]; cbn [length]; lia | destruct o; lia].
Qed.

Section spec.
Context {B : Type} `{SlotMapLaws B}.
#[local] Set Default Proof Using "Type*".

Record represents (st : t B) (k : kernel) (m : gmap (list Z) nat) : Prop := {
  rp_wf : slots_wf (bm st);
  rp_slots : length (slots (bm st)) = Z.to_nat MAX_SEMAPHORE;
  rp_filled : filled (slots (bm st)) (semTab st);
  rp_names : NoDup (entries (slots (bm st)) (semTab st)).*1;
  rp_cstrings : Forall is_cstring (entries (slots (bm st)) (semTab st)).*1;
  rp_map : m = list_to_map (entries (slots (bm st)) (semTab st));
  rp_own : NoDup (entries (slots (bm st)) (semTab st)).*2;
  rp_sems : Forall (fun s => (s < length (sems k))%nat) (entries (slots (bm st)) (semTab st)).*2;
}.

Definition find (l : list (list Z * nat)) (name : list Z) : option Sem.t :=
  s ← (list_to_map l : gmap (list Z) nat) !! name; Some (Sem.mk name s).

Lemma search_spec st n i nm junk us ts :
  slots_wf (bm st) -> drop i (slots (bm st)) = us -> drop i (semTab st) = ts -> length us = n ->
  is_cstring nm -> filled us ts -> Forall is_cstring (entries us ts).*1 ->
  search n i st (nm ++ 0 :: junk) = Ok (find (entries us ts) nm).
Proof.
  intros Hwf Hu Ht Hl Hn Hf. revert n i Hu Ht Hl. induction Hf as [| b o us ts Hb Hf IH]; intros n i Hu Ht <- Hc; [done |].
  cbn [length search]. assert (slots (bm st) !! i = Some b) as Hbi by (by rewrite <- (Nat.add_0_r i), <- lookup_drop, Hu).
  assert (semTab st !! i = Some o) as Hoi by (by rewrite <- (Nat.add_0_r i), <- lookup_drop, Ht).
  assert (drop (S i) (slots (bm st)) = us /\ drop (S i) (semTab st) = ts) as [Hu' Ht'].
  { rewrite <- (Nat.add_1_r i), <- !drop_drop, Hu, Ht. done. }
  rewrite (slot_test_law _ _ b) by done. cbn [mbind res_bind]. destruct b; [| destruct o; by apply IH].
  destruct (Hb eq_refl) as [s ->]. rewrite Hoi. cbn [deref mbind res_bind entries] in *.
  apply Forall_cons in Hc as [Hs Hc]. rewrite FileCalls.same_string_eq by done. cbn [mbind res_bind].
  unfold find. cbn [list_to_map foldr fst snd]. destruct (decide (nm = Sem.name s)) as [-> | Hne].
  - rewrite bool_decide_true by done. rewrite lookup_insert_eq. by destruct s.
  - rewrite bool_decide_false by done. rewrite lookup_insert_ne by done. by apply IH.
Qed.

Lemma lookup_name_spec st k m nm junk :
  represents st k m -> is_cstring nm -> lookup_name st (nm ++ 0 :: junk) = Ok (s ← m !! nm; Some (Sem.mk nm s)).
Proof.
  intros [Hwf Hl Hf _ Hc -> _ _] Hn. unfold lookup_name. by rewrite (search_spec st _ 0 nm junk _ _ Hwf eq_refl eq_refl Hl).
Qed.

Lemma represents_sems st k k' m :
  (length (sems k) <= length (sems k'))%nat -> represents st k m -> represents st k' m.
Proof.
  intros Hle [? ? ? ? ? ? ? Hs]. split; try done. eapply Forall_impl; [exact Hs |]. cbn. intros; lia.
Qed.

Lemma represents_size st k m : represents st k m -> (size m + count_clear (slots (bm st)) = 10)%nat.
Proof.
  intros [_ Hl Hf Hn _ -> _ _]. change 10%nat with (Z.to_nat MAX_SEMAPHORE). rewrite <- Hl, <- (entries_count _ _ Hf). f_equal.
  rewrite <- (length_map_to_list (M := gmap (list Z))). by rewrite map_to_list_to_map.
Qed.

Lemma starts_empty b k :
  slots_wf b -> slots b = replicate (Z.to_nat MAX_SEMAPHORE) false -> represents (create b) k ∅.
Proof. intros Hwf Hs. split; cbn [create bm semTab]; rewrite ?Hs; first [done | by repeat constructor]. Qed.

(** [Create] of a name that is not there. *)
Lemma new_name st k m nm junk init i :
  represents st k m -> is_cstring nm -> (length nm < 50)%nat -> m !! nm = None ->
  first_clear (slots (bm st)) = Some i ->
  exists st', Create st k (nm ++ 0 :: junk) init = Ok (0, st', with_sems k (sems k ++ [new_Semaphore init])) /\
    represents st' (with_sems k (sems k ++ [new_Semaphore init])) (<[nm := length (sems k)]> m).
Proof.
  intros Hr Hn Hln Hm Hi. unfold Create. rewrite (lookup_name_spec st k m) by done. rewrite Hm. cbn [mbind option_bind res_bind].
  unfold FindFreeSlot. destruct Hr as [Hwf Hl Hf Hnm Hcs -> Hown Hss]. pose proof (slot_find_law _ Hwf) as Hfind.
  destruct (Bitmap.first_clear_Some _ _ Hi) as [Hifree _]. rewrite Hi in Hfind. destruct Hfind as (b & -> & Hwf' & Hsl). cbn [mbind res_bind].
  destruct (Z.ltb_spec (Z.of_nat i) 0); [lia |]. unfold Sem.create. rewrite FileCalls.cstring_eq by done. cbn [deref mbind res_bind].
  destruct (Nat.leb_spec 50 (length nm)); [lia |]. cbn [mbind res_bind semTab bm]. rewrite Nat2Z.id.
  assert (i < length (semTab st))%nat as Hit by (rewrite <- (Forall2_length _ _ _ Hf); by eapply lookup_lt_Some).
  destruct (lookup_lt_is_Some_2 _ _ Hit) as [o ->]. cbn [deref mbind res_bind]. eexists. split; [done |].
  pose proof (entries_insert (slots (bm st)) (semTab st) i (Sem.mk nm (length (sems k))) Hf Hifree) as Hp. cbn [Sem.name Sem.sem] in Hp.
  assert (nm ∉ (entries (slots (bm st)) (semTab st)).*1) as Hnin by (by apply not_elem_of_list_to_map).
  assert (length (sems k) ∉ (entries (slots (bm st)) (semTab st)).*2) as Hlin
    by (intros Hin; apply (proj1 (Forall_forall _ _) Hss) in Hin; lia).
  assert (NoDup (entries (<[i := true]> (slots (bm st))) (<[i := Some (Sem.mk nm (length (sems k)))]> (semTab st))).*1) as Hnd.
  { rewrite Hp. by apply NoDup_cons. }
  split; cbn [bm semTab]; rewrite ?Hsl; try done.
  - by rewrite length_insert.
  - by apply filled_insert.
  - rewrite Hp. by apply Forall_cons.
  - rewrite (list_to_map_proper _ _ Hnd Hp). done.
  - rewrite Hp. by apply NoDup_cons.
  - rewrite Hp. cbn [with_sems sems fmap list_fmap snd]. rewrite length_app. cbn [length]. apply Forall_cons. split; [lia |].
    eapply Forall_impl; [exact Hss |]. cbn. intros; lia.
Qed.

(** A name that is in the table. *)
Lemma taken_name st k m nm junk s :
  represents st k m -> is_cstring nm -> m !! nm = Some s ->
  (s < length (sems k))%nat /\ (forall nm', m !! nm' = Some s -> nm' = nm) /\
  (forall init, Create st k (nm ++ 0 :: junk) init = Ok (-1, st, k)) /\
  Wait st k (nm ++ 0 :: junk) = (k' ← P k s; Ok (0, k')) /\
  Signal st k (nm ++ 0 :: junk) = (k' ← V k s; Ok (0, k')).
Proof.
  intros Hr Hn Hm. unfold Create, Wait, Signal. rewrite (lookup_name_spec st k m), Hm by done.
  pose proof Hr as [_ _ _ Hnd _ -> Hown Hss]. apply elem_of_list_to_map in Hm; [| done]. split; [| split; [| done]].
  - apply (proj1 (Forall_forall _ _) Hss). apply list_elem_of_fmap. by exists (nm, s).
  - intros nm' Hm'. apply elem_of_list_to_map in Hm'; [| done].
    apply list_elem_of_lookup in Hm as [i Hi], Hm' as [j Hj].
    assert (i = j) as -> by (eapply (NoDup_lookup _ i j s Hown); by rewrite list_lookup_fmap, ?Hi, ?Hj). congruence.
Qed.

(** A name that is not. *)
Lemma missing_name st k m nm junk init :
  represents st k m -> is_cstring nm -> (length nm < 50)%nat -> m !! nm = None ->
  Wait st k (nm ++ 0 :: junk) = Ok (-1, k) /\ Signal st k (nm ++ 0 :: junk) = Ok (-1, k) /\
  if decide (size m = 10%nat) then Create st k (nm ++ 0 :: junk) init = Ok (-1, st, k)
  else exists st', Create st k (nm ++ 0 :: junk) init = Ok (0, st', with_sems k (sems k ++ [new_Semaphore init])) /\
         represents st' (with_sems k (sems k ++ [new_Semaphore init])) (<[nm := length (sems k)]> m).
Proof.
  intros Hr Hn Hln Hm. unfold Wait, Signal. rewrite (lookup_name_spec st k m), Hm by done.
  split; [done |]. split; [done |]. pose proof (represents_size st k m Hr) as Hsz.
  destruct (first_clear (slots (bm st))) as [i |] eqn:Hi.
  - rewrite decide_False; [by eapply new_name |]. destruct (Bitmap.first_clear_Some _ _ Hi) as [Hfree _].
    apply Bitmap.count_clear_insert in Hfree. lia.
  - pose proof (slot_find_law _ (rp_wf _ _ _ Hr)) as Hfind. rewrite Hi in Hfind.
    apply Bitmap.first_clear_None, Bitmap.count_clear_full in Hi. rewrite decide_True by lia.
    unfold Create. rewrite (lookup_name_spec st k m), Hm by done. cbn [mbind option_bind res_bind].
    unfold FindFreeSlot. rewrite Hfind. by destruct st.
Qed.

(** The table of semaphores is a map from names to semaphores, with room for
    ten.  [Create] of a name that is taken, or with ten names in the table, is -1
    and changes nothing; of a new one it is 0, adds a new semaphore with the given
    value to the kernel, and the map has it.  [Wait] and [Signal] are [P] and [V] of
    the semaphore of the name, which no other name has, and -1 for a name that is
    not there. *)
Theorem semaphore_table_is_map st k m nm junk init :
  represents st k m -> is_cstring nm -> (length nm < 50)%nat ->
  match m !! nm with
  | Some s => (s < length (sems k))%nat /\ (forall nm', m !! nm' = Some s -> nm' = nm) /\
      Create st k (nm ++ 0 :: junk) init = Ok (-1, st, k) /\
      Wait st k (nm ++ 0 :: junk) = (k' ← P k s; Ok (0, k')) /\
      Signal st k (nm ++ 0 :: junk) = (k' ← V k s; Ok (0, k'))
  | None =>
      Wait st k (nm ++ 0 :: junk) = Ok (-1, k) /\ Signal st k (nm ++ 0 :: junk) = Ok (-1, k) /\
      if decide (size m = 10%nat) then Create st k (nm ++ 0 :: junk) init = Ok (-1, st, k)
      else exists st', Create st k (nm ++ 0 :: junk) init = Ok (0, st', with_sems k (sems k ++ [new_Semaphore init])) /\
             represents st' (with_sems k (sems k ++ [new_Semaphore init])) (<[nm := length (sems k)]> m)
  end.
Proof.
  intros Hr Hn Hln. destruct (m !! nm) as [s |] eqn:Hm; [| by apply missing_name].
  destruct (taken_name st k m nm junk s Hr Hn Hm) as (? & ? & ? & ? & ?). by split_and!.
Qed.
End spec.

(** ** A new semaphore does not disturb the others *)

Section Grow.
#[local] Set Default Proof Using "Type".
Context (k : kernel) (i : Z).

Definition grown : kernel := with_sems k (sems k ++ [new_Semaphore i]).

Lemma plain_mono ns ns' nl : (ns <= ns')%nat -> forall j, plain ns nl j = true -> plain ns' nl j = true.
Proof.
  intros Hle. fix IH 1. intros [s | s old | s | | l | fin | body | | l | l | l | sp]; cbn [plain]; try done.
  - rewrite !bool_decide_eq_true. lia.
  - rewrite !bool_decide_eq_true. lia.
  - induction body as [| j body IHb]; cbn [forallb]; [done |]. rewrite !andb_true_iff. intros [Hj Hb].
    split; [by apply IH | by apply IHb].
Qed.

Lemma shape_mono ns ns' nl c : (ns <= ns')%nat -> shape ns nl c -> shape ns' nl c.
Proof.
  intros Hle. assert (forall c, program ns nl c -> program ns' nl c) as Hp
    by (intros c' H; eapply Forall_impl; [exact H | cbn; intros j; by apply plain_mono]).
  destruct c as [| [s | s old | s | | l | [] | body | | l | l | l | sp] c]; cbn [shape]; try apply Hp.
  - intros [? ?]. split; [lia | by apply Hp].
  - destruct c as [| [] c]; try apply Hp. intros [? ?]. split; [lia | by apply Hp].
Qed.

Lemma grown_lookup s sem : sems grown !! s = Some sem ->
  sems k !! s = Some sem \/ (s = length (sems k) /\ sem = new_Semaphore i).
Proof.
  cbn. intros [? | [Hge Hl]]%lookup_app_Some; [by left | right].
  apply list_lookup_singleton_Some in Hl as [? <-]. split; [lia | done].
Qed.

Lemma grow_good : 0 <= i -> good k -> good grown.
Proof.
  intros Hi [Hk Hw].
  assert (forall s sem, sems k !! s = Some sem -> sems grown !! s = Some sem) as Hfw
    by (intros s sem H; cbn; by apply lookup_app_l_Some).
  assert (length (sems k) <= length (sems grown))%nat as Hle by (cbn; rewrite length_app; lia).
  split.
  - destruct Hk as [Hr Hra Ht Hs Hc Hd Hm Hl]. split; try done.
    + intros t th Ha. destruct (Ht t th Ha) as [? ? ? Hb ? ? Hsh ? ?]. split; try done.
      * intros HB. specialize (Hb HB). destruct (waits_on th); [| done]. destruct Hb as (sem & ? & ?). exists sem. by split; [apply Hfw |].
      * by eapply shape_mono.
    + intros s sem [H | [-> ->]]%grown_lookup; [destruct (Hs s sem H); by split |].
      split; [done | constructor |]. by intros t ?%elem_of_nil.
    + intros l lk Hlk. specialize (Hl l lk Hlk). lia.
  - intros s sem [H | [-> ->]]%grown_lookup Hq; [| done]. by apply (Hw s sem H).
Qed.
End Grow.

(** ** The system calls *)

Section calls.
Context {B : Type} `{SlotMapLaws B}.
Context (fresh : nat -> list Z) (Hfresh : forall n, length (fresh n) = n).
#[local] Set Default Proof Using "Type*".

Lemma P_sems k s k' : P k s = Ok k' -> length (sems k') = length (sems k).
Proof using Type. unfold P, push. intros HP. inv_ok. done. Qed.

Lemma V_sems k s k' : inv k -> (s < length (sems k))%nat -> V k s = Ok k' -> length (sems k') = length (sems k).
Proof using Type.
  intros Hi [sem Hs]%lookup_lt_is_Some_2 HV.
  destruct (V_cases k s sem Hi Hs) as [(_ & E) | (t & q & th & _ & _ & _ & _ & E)]; rewrite HV in E; injection E as ->;
    apply length_insert.
Qed.

(** The string at [va] in user memory. *)
Record user_name (m : Machine.t) (va : Z) (nm : list Z) : Prop := {
  un_cstring : is_cstring nm;
  un_length : (length nm <= Z.to_nat MAX_FILE_LENGTH)%nat;
  un_s32 x : (x <= length nm)%nat -> is_s32 (va + Z.of_nat x);
  un_chars j c : (nm ++ [0]) !! j = Some c -> user_char m (va + Z.of_nat j) = Some c;
}.

Lemma with_name_spec (st : t B) k th va nm :
  good k -> running k th -> Machine.wf (machine k) -> user_name (machine k) va nm ->
  exists m junk, (forall f, with_name fresh st k va f = f (with_machine k m) (nm ++ 0 :: junk)) /\
    good (with_machine k m) /\ running (with_machine k m) th.
Proof.
  intros Hg [? ? ?] Hwf [Hn Hl H32 Hu]. change (Z.to_nat MAX_FILE_LENGTH) with 32%nat in Hl.
  destruct (u2s_loop_spec nm 33 0 (machine k) va (fresh 34) Hwf Hn) as (m & E & Hwfm & _).
  - lia.
  - rewrite Hfresh. lia.
  - intros x Hx. apply H32. lia.
  - by apply Hu.
  - destruct (FileCalls.buffer_eq fresh Hfresh nm 34) as (junk & Hj); [lia |]. rewrite Hj in E.
    exists m, junk. split; [| split; [by apply machine_good; [destruct Hwfm |] | done]].
    intros f. unfold with_name, User2System. change (MAX_FILE_LENGTH + 1 + 1 <? 0) with false.
    change (Z.to_nat (MAX_FILE_LENGTH + 1)) with 33%nat. change (Z.to_nat (MAX_FILE_LENGTH + 1 + 1)) with 34%nat. by rewrite E.
Qed.

(** [V]: the value is one more, and who waited first is ready. *)
Record signalled (k : kernel) (s : nat) (sem : Semaphore) (k' : kernel) : Prop := {
  sg_sems : sems k' = <[s := mkSem (value sem + 1) (tail (queue sem))]> (sems k);
  sg_ready : readyList k' = readyList k ++ take 1 (queue sem);
  sg_threads t th : alive k t th -> alive k' t (if decide (head (queue sem) = Some t) then set_status th READY else th);
  sg_current : currentThread k' = currentThread k;
  sg_level : level k' = level k;
}.

(** [P]: the thread took a unit and goes on; or there was none, and it sleeps as the last
    in the queue, with the loop of [P] still to do when it wakes up. *)
Record waited (k : kernel) (th : Thread) (s : nat) (sem : Semaphore) (k' : kernel) : Prop := {
  wt_ready : readyList k' = readyList k;
  wt_current : currentThread k' = currentThread k;
  wt_sems : sems k' = <[s := if decide (value sem = 0) then mkSem 0 (queue sem ++ [currentThread k])
                             else mkSem (value sem - 1) (queue sem)]> (sems k);
  wt_threads : threads k' = if decide (value sem = 0) then
      <[currentThread k := Some (set_code (set_status th BLOCKED) (In_Sleep false :: Wait_P s (level k) :: code th))]> (threads k)
    else threads k;
  wt_level : level k' = if decide (value sem = 0) then IntOff else level k;
}.

Lemma V_signals k s sem : good k -> sems k !! s = Some sem -> exists k', V k s = Ok k' /\ good k' /\ signalled k s sem k'.
Proof using Type.
  intros Hg Hs. destruct (V_good k s Hg (lookup_lt_Some _ _ _ Hs)) as (k' & HV & Hg'). exists k'. split; [done |]. split; [done |].
  destruct (V_cases k s sem (proj1 Hg) Hs) as [(Hq & E) | (t & q & th & -> & Ha & _ & _ & E)]; rewrite HV in E; injection E as ->.
  - split; cbn; rewrite ?Hq; try done. by rewrite app_nil_r.
  - split; cbn; try done. intros u w Hu. unfold alive. cbn. case_decide as Hd.
    + injection Hd as ->. rewrite list_lookup_insert_eq by (by eapply alive_lt). by rewrite (alive_fun _ _ _ _ Hu Ha).
    + rewrite list_lookup_insert_ne; [done | congruence].
Qed.

(** [P] up to its loop, and the loop, which nothing can come before. *)
Lemma P_waits k th s sem : good k -> running k th -> sems k !! s = Some sem ->
  exists k', P k s = Ok k' /\ good k' /\ forall fr, (forall e, e <> Exec -> step fr k' e = None) /\
    exists k2, step fr k' Exec = Some (Ok k2) /\ good k2 /\ waited k th s sem k2.
Proof using Type.
  intros Hg Hr Hs. pose proof Hr as [Ha Hrun _]. pose proof (alive_lt _ _ _ Ha) as Hlt.
  destruct (P_good k th Hg Hr s (lookup_lt_Some _ _ _ Hs)) as (k' & HP & Hg'). exists k'. split; [done |]. split; [done |].
  unfold P in HP. rewrite (push_level k th) in HP by done. injection HP as <-. set (th' := set_code th _) in *. set (k' := with_level _ _) in *.
  assert (alive k' (currentThread k') th') as Ha' by (unfold alive; cbn; by rewrite list_lookup_insert_eq).
  intros fr. split.
  - intros [| | d | m] He; [done | done | | ]; cbn [step].
    + unfold idle. by rewrite Ha'.
    + by rewrite decide_False by (by intros [? _]).
  - destruct (P_loop_good k' th' s (level k) (code th) Hg' Ha' Hrun eq_refl) as (k2 & HL & Hg2). exists k2.
    assert (threads (popped k' th' (code th)) = threads k) as Hth.
    { cbn. rewrite list_insert_insert_eq, list_insert_id; [done |]. unfold th'. by destruct th. }
    split; [| split; [done |]].
    + cbn [step]. unfold exec. rewrite Ha'. cbn [th' code set_code app]. by rewrite <- HL.
    + destruct (P_loop_cases k' th' s (level k) (code th) Hg' Ha' Hrun eq_refl) as (sem' & Hs' & Hc).
      assert (sem' = sem) as -> by (cbn in Hs'; congruence).
      destruct Hc as [(Hz & E) | (Hz & E)]; rewrite HL in E; injection E as ->; split;
        [done | done | | | | done | done | | |]; (first [rewrite decide_True by done | rewrite decide_False by done]); cbn; try done.
      * unfold queued. by rewrite Hz.
      * by rewrite list_insert_insert_eq.
Qed.

(** C11: the semaphore calls of a user program, for a string of at most 32 characters it
    can read.  [CreateSemaphore] with a value that is not negative returns -1, and changes
    nothing, exactly when the name is taken or ten names are; otherwise it returns 0 and
    the name has a new semaphore of that value.  [Signal] returns -1 when there is no such
    name; otherwise it returns 0 and the semaphore of the name, and no other, has one unit
    more, and the thread that waited first is at the end of the ready list.  [Wait]
    returns -1 when there is no such name; otherwise its value will be 0, and the next
    thing that happens in the kernel is that the thread takes a unit from the semaphore of
    the name, if it has one, or else goes to sleep at the end of its queue, to try again
    when it is woken up.  The table stays a map, and the scheduler in a good state, in
    which no wakeup is lost. *)
Theorem semaphore_calls_safe (st : t B) k th m va nm :
  good k -> running k th -> Machine.wf (machine k) -> represents st k m ->
  ReadRegister (machine k) 4 = Ok va -> user_name (machine k) va nm ->
  (forall semval, ReadRegister (machine k) 5 = Ok semval -> 0 <= semval ->
   exists r st' k' m', SysCreateSemaphore fresh st k = Ok (Returned r st' k') /\ good k' /\ represents st' k' m' /\
     ((r = -1 /\ m' = m /\ sems k' = sems k /\ (is_Some (m !! nm) \/ size m = 10%nat)) \/
      (r = 0 /\ m !! nm = None /\ m' = <[nm := length (sems k)]> m /\ sems k' = sems k ++ [new_Semaphore semval]))) /\
  (exists r k', SysSignal fresh st k = Ok (Returned r st k') /\ good k' /\ represents st k' m /\
     match m !! nm with
     | None => r = -1 /\ sems k' = sems k /\ threads k' = threads k
     | Some s => r = 0 /\ exists sem, sems k !! s = Some sem /\ signalled k s sem k'
     end) /\
  (exists r k', SysWait fresh st k = Ok (Returned r st k') /\ good k' /\ represents st k' m /\
     match m !! nm with
     | None => r = -1 /\ sems k' = sems k /\ threads k' = threads k
     | Some s => r = 0 /\ exists sem, sems k !! s = Some sem /\ forall fr,
         (forall e, e <> Exec -> step fr k' e = None) /\
         exists k2, step fr k' Exec = Some (Ok k2) /\ good k2 /\ waited k th s sem k2
     end).
Proof.
  intros Hg Hrun Hwf Hr H4 Hun. destruct (with_name_spec st k th va nm Hg Hrun Hwf Hun) as (mc & junk & Hname & Hg' & Hrun').
  unfold SysCreateSemaphore, SysWait, SysSignal. rewrite H4. cbn [mbind res_bind]. rewrite !Hname.
  set (k1 := with_machine k mc) in *. assert (represents st k1 m) as Hr1 by (by apply (represents_sems st k)).
  assert (length nm < 50)%nat as Hln by (pose proof (un_length _ _ _ Hun) as Hl; change (Z.to_nat MAX_FILE_LENGTH) with 32%nat in Hl; lia).
  pose proof (un_cstring _ _ _ Hun) as Hcs. destruct (m !! nm) as [s |] eqn:Hm.
  - destruct (taken_name st k1 m nm junk s Hr1 Hcs Hm) as (Hs & _ & HC & -> & ->). cbn [mbind res_bind]. split.
    { intros semval -> _. cbn [mbind res_bind]. rewrite Hname, HC. cbn [mbind res_bind]. exists (-1), st, k1, m.
      split_and!; [done | done | done |]. left. split_and!; [done | done | done |]. left. by exists s. }
    destruct (lookup_lt_is_Some_2 _ _ Hs) as [sem Hsem].
    destruct (V_signals k1 s sem Hg' Hsem) as (kv & HV & Hgv & Hsg), (P_waits k1 th s sem Hg' Hrun' Hsem) as (kp & HP & Hgp & Hwt).
    pose proof (P_sems _ _ _ HP) as Hlp. pose proof (V_sems _ _ _ (proj1 Hg') Hs HV) as Hlv. rewrite HV, HP. cbn [mbind res_bind].
    split; eexists 0, _; (split; [done |]); (split; [done |]); (split; [eapply represents_sems; [| exact Hr1]; lia |]);
      (split; [done |]); exists sem; (split; [done |]).
    + by destruct Hsg.
    + intros fr. destruct (Hwt fr) as (Hne & k2 & He & Hg2 & Hw). split; [done |]. exists k2. split; [done |]. split; [done |]. by destruct Hw.
  - destruct (missing_name st k1 m nm junk 0 Hr1 Hcs Hln Hm) as (-> & -> & _). cbn [mbind res_bind].
    split; [| split; exists (-1), k1; by split_and!].
    intros semval -> Hval. cbn [mbind res_bind]. rewrite Hname. destruct (missing_name st k1 m nm junk semval Hr1 Hcs Hln Hm) as (_ & _ & Hc). case_decide as Hsz.
    + rewrite Hc. cbn [mbind res_bind]. exists (-1), st, k1, m. split_and!; [done | done | done |]. left. split_and!; [done | done | done | by right].
    + destruct Hc as (st' & -> & Hr'). cbn [mbind res_bind]. eexists 0, st', _, _.
      split_and!; [done | by apply grow_good | exact Hr' |]. right. by split_and!.
Qed.
End calls.
End STable.

(** ** A program that makes a semaphore *)
Module SemDemo.
Import Machine Threads Sched UserMem STable.

Definition bm0 : Bitmap.t := Eval vm_compute in match Bitmap.create MAX_SEMAPHORE with Ok b => b | Fault _ => Bitmap.mk 0 0 [] end.
Definition st0 : STable.t Bitmap.t := STable.create bm0.
Definition name : list Z := [72; 105].

(** The kernel runs the main thread; its program has "Hi" at address 8. *)
Definition fresh_registers : list Z := replicate 40 7.
Definition k0 : kernel := Initialize fresh_registers (FileDemo.user 8 1 0) [] [] [].
Definition th0 : Thread := mkThread true None RUNNING fresh_registers None [].

Lemma bitmap_created : Bitmap.create MAX_SEMAPHORE = Ok bm0.
Proof. by vm_compute. Qed.

Lemma demo_table : represents st0 k0 ∅.
Proof.
  apply starts_empty; [| by vm_compute].
  destruct (Bitmap.create_spec MAX_SEMAPHORE) as (b & E & Hwf & _); [done |].
  rewrite bitmap_created in E. by injection E as <-.
Qed.

Lemma good_start : good k0.
Proof. apply Initialize_good. split; try done; by constructor. Qed.

Lemma semaphore_table_is_map_witness :
  exists st', Create st0 k0 (name ++ [0]) 1 = Ok (0, st', with_sems k0 [new_Semaphore 1]) /\
    Create st' (with_sems k0 [new_Semaphore 1]) (name ++ [0]) 5 = Ok (-1, st', with_sems k0 [new_Semaphore 1]).
Proof.
  assert (is_cstring name) as Hn by (by repeat constructor).
  pose proof (semaphore_table_is_map st0 k0 ∅ name [] 1 demo_table Hn ltac:(cbn; lia)) as Ht.
  rewrite lookup_empty, decide_False in Ht by (by vm_compute). destruct Ht as (_ & _ & st' & E & Hr). exists st'. split; [exact E |].
  pose proof (semaphore_table_is_map st' _ _ name [] 5 Hr Hn ltac:(cbn; lia)) as Ht.
  rewrite lookup_insert_eq in Ht. by destruct Ht as (_ & _ & ? & _).
Defined.

Lemma semaphore_calls_safe_witness :
  exists r st' k', SysCreateSemaphore FileDemo.fresh st0 k0 = Ok (Returned r st' k') /\ good k'.
Proof.
  destruct (semaphore_calls_safe FileDemo.fresh FileDemo.fresh_length st0 k0 th0 ∅ 8 name) as [Hc _].
  - apply good_start.
  - by split.
  - by apply FileDemo.wf_user.
  - apply demo_table.
  - by vm_compute.
  - split.
    + by repeat constructor.
    + change (2 <= 32)%nat. lia.
    + intros x Hx. cbn in Hx. unfold is_s32. lia.
    + apply FileDemo.user_string.
  - destruct (Hc 1) as (r & st' & k' & m' & E & Hg & _); [by vm_compute | done |]. exists r, st', k'. exact (conj E Hg).
Defined.
End SemDemo.
