(* ===== verification/Exceptions.v ===== *)
(** * Exceptions: userprog/exception.cc

    The entry point of the kernel for a user program.  The calls on numbers,
    characters, strings and files run here to the end; the calls that make, join
    or block processes are handed to the scheduler ([Process]) with the state
    they find.  The random number and the process id are arguments. *)

From S2P Require Import Prelude Machine Syscalls FileCalls.

Module Exceptions.
Import Machine FileCalls.

Definition SC_Halt : Z := 0.
Definition SC_Exit : Z := 1.
Definition SC_Exec : Z := 2.
Definition SC_Join : Z := 3.
Definition SC_Seek : Z := 9.
Definition SC_Add : Z := 42.
Definition SC_ReadNum : Z := 43.
Definition SC_PrintNum : Z := 44.
Definition SC_ReadChar : Z := 45.
Definition SC_PrintChar : Z := 46.
Definition SC_RandomNum : Z := 47.
Definition SC_ReadString : Z := 48.
Definition SC_PrintString : Z := 49.
Definition SC_CreateFile : Z := 50.
Definition SC_OpenFile : Z := 51.
Definition SC_CloseFile : Z := 52.
Definition SC_ReadFile : Z := 53.
Definition SC_WriteFile : Z := 54.
Definition SC_CreateSemaphore : Z := 55.
Definition SC_Wait : Z := 56.
Definition SC_Signal : Z := 57.
Definition SC_GetPID : Z := 58.

(** ** The console calls on the kernel's state *)

Definition read_console {A} (f : list Z -> res (A * list Z)) : M A :=
  i ← gets input;
  '(a, i') ← lift (f i);
  _ ← modify (fun k => with_input k i');
  mret a.
Definition print (cs : list Z) : M unit := modify (fun k => with_output k (output k ++ cs)).

Section handler.
Context (creatable : list Z -> bool) (fresh : nat -> list Z) (random processID : Z).

(** A call without a result leaves [r2]. *)
Definition result (call : M Z) : M (option Z) := r ← call; mret (Some r).
Definition no_result (call : M unit) : M (option Z) := _ ← call; mret None.

(** The cases of the inner switch that end in [ModifyReturnPoint(); return]. *)
Definition local_call (ty : Z) : option (M (option Z)) :=
  if ty =? SC_Add then Some (result (a ← ReadReg 4; b ← ReadReg 5; mret (Console.SysAdd a b)))
  else if ty =? SC_ReadNum then Some (result (read_console Console.SysReadNum))
  else if ty =? SC_PrintNum then Some (no_result (n ← ReadReg 4; cs ← lift (Console.SysPrintNum n); print cs))
  else if ty =? SC_ReadChar then Some (result (read_console Console.SysReadChar))
  else if ty =? SC_PrintChar then Some (no_result (r ← ReadReg 4; print [Console.SysPrintChar r]))
  else if ty =? SC_RandomNum then Some (result (mret random))
  else if ty =? SC_ReadString then Some (no_result (SysReadString fresh))
  else if ty =? SC_PrintString then Some (no_result (SysPrintString fresh))
  else if ty =? SC_CreateFile then Some (result (SysCreateFile creatable fresh))
  else if ty =? SC_OpenFile then Some (result (SysOpen fresh))
  else if ty =? SC_CloseFile then Some (result SysClose)
  else if ty =? SC_ReadFile then Some (result (SysRead fresh))
  else if ty =? SC_WriteFile then Some (result (SysWrite fresh))
  else if ty =? SC_Seek then Some (result SysSeek)
  else if ty =? SC_GetPID then Some (result (mret processID))
  else None.

Definition process_call (ty : Z) : bool :=
  bool_decide (ty ∈ [SC_Exec; SC_Join; SC_Exit; SC_CreateSemaphore; SC_Wait; SC_Signal]).

Definition ModifyReturnPoint : M unit :=
  pc ← ReadReg PCReg;
  _ ← WriteReg PrevPCReg pc;
  pc ← ReadReg PCReg;
  _ ← WriteReg PCReg (s32 (pc + 4));
  pc ← ReadReg PCReg;
  WriteReg NextPCReg (s32 (pc + 4)).

(** The result to [r2], and back to the program. *)
Definition finish_call (call : M (option Z)) : M unit :=
  r ← call;
  _ ← match r with Some v => WriteReg 2 v | None => mret tt end;
  ModifyReturnPoint.

Inductive handled : Type :=
  | Resume (k : t)
  | Halted                          (** [SysHalt] *)
  | Process (ty : Z) (k : t).

(** The cases of the outer switch other than system calls; the end of the function
    is [ASSERTNOTREACHED]. *)
Definition fault_case (which : ExceptionType) (k : t) : res handled :=
  match which with
  | PageFaultException | ReadOnlyException | BusErrorException | AddressErrorException
  | OverflowException | IllegalInstrException => Ok Halted
  | NoException => Ok (Resume k)
  | _ => Fault AssertFailure
  end.

Definition ExceptionHandler (which : ExceptionType) (k : t) : res handled :=
  ty ← ReadRegister (machine k) 2;
  match which with
  | SyscallException =>
      if ty =? SC_Halt then Ok Halted
      else match local_call ty with
           | Some call =>
               r ← finish_call call k;
               match r with
               | Returned _ k' => Ok (Resume k')
               | Trapped w k' => fault_case w k'      (** the handler is entered again *)
               end
           | None => if process_call ty then Ok (Process ty k) else Fault AssertFailure
           end
  | _ => fault_case which k
  end.
End handler.

(** ** What the calls do to the machine

    A relation between the machine before and after that accesses of bytes keep:
    [kept] when a computation goes on, [kept_trap] when it meets an exception. *)
Definition promised {A} (R : relation Machine.t) (T : ExceptionType -> relation Machine.t) (m : Machine.t) (r : res (outcome A)) : Prop :=
  match r with Ok (Done _ m') => R m m' | Ok (Trap w m') => T w m m' | Fault _ => True end.

Record promise : Type := {
  kept : relation Machine.t;
  kept_trap : ExceptionType -> relation Machine.t;
  kept_refl m : kept m m;
  kept_trans m1 m2 m3 : kept m1 m2 -> kept m2 m3 -> kept m1 m3;
  kept_then_trap m1 m2 w m3 : kept m1 m2 -> kept_trap w m2 m3 -> kept_trap w m1 m3;
  kept_read m va : is_s32 va -> promised kept kept_trap m (ReadMem m va 1);
  kept_write m va v : is_s32 va -> promised kept kept_trap m (WriteMem m va 1 v);
}.

Class Keeps (p : promise) {A} (c : M A) : Prop :=
  keeps k r : c k = Ok r ->
    match r with
    | Returned _ k' => kept p (machine k) (machine k')
    | Trapped w k' => kept_trap p w (machine k) (machine k')
    end.

Section keeps.
Context (p : promise).

#[export] Instance keeps_ret {A} (a : A) : Keeps p (mret a).
Proof. intros k r [= <-]. apply kept_refl. Qed.

#[export] Instance keeps_bind {A B} (c : M A) (f : A -> M B) : Keeps p c -> (forall a, Keeps p (f a)) -> Keeps p (c ≫= f).
Proof.
  intros Hc Hf k r H. unfold mbind, M_bind in H. destruct (c k) as [[a k1 | w k1] | e] eqn:E; try done; apply Hc in E.
  - pose proof (Hf a k1 r H) as H2. destruct r; [by eapply kept_trans | by eapply kept_then_trap].
  - by injection H as <-.
Qed.

#[export] Instance keeps_gets {A} (f : t -> A) : Keeps p (gets f).
Proof. intros k r [= <-]. apply kept_refl. Qed.
#[export] Instance keeps_lift {A} (r : res A) : Keeps p (lift r).
Proof. intros k r'. unfold lift. destruct r; intros [= <-]; apply kept_refl. Qed.
#[export] Instance keeps_fail {A} e : Keeps p (@fail A e).
Proof. by intros k r. Qed.
#[export] Instance keeps_if {A} (b : bool) (c d : M A) : Keeps p c -> Keeps p d -> Keeps p (if b then c else d).
Proof. by destruct b. Qed.
#[export] Instance keeps_decide {A} P (dec : Decision P) (c d : M A) : Keeps p c -> Keeps p d -> Keeps p (if decide P then c else d).
Proof. by destruct (decide P). Qed.
#[export] Instance keeps_option {A B} (o : option A) (f : A -> M B) (c : M B) :
  (forall a, Keeps p (f a)) -> Keeps p c -> Keeps p (match o with Some a => f a | None => c end).
Proof. by destruct o. Qed.
#[export] Instance keeps_list {A B} (l : list A) (f : A -> list A -> M B) (c : M B) :
  (forall a l', Keeps p (f a l')) -> Keeps p c -> Keeps p (match l with [] => c | a :: l' => f a l' end).
Proof. by destruct l. Qed.
#[export] Instance keeps_pair {A B C} (x : A * B) (f : A -> B -> M C) :
  (forall a b, Keeps p (f a b)) -> Keeps p (let '(a, b) := x in f a b).
Proof. by destruct x. Qed.

(** An update that leaves the machine alone. *)
Lemma keeps_modify (f : t -> t) : (forall k, machine (f k) = machine k) -> Keeps p (modify f).
Proof. intros Hf k r [= <-]. rewrite Hf. apply kept_refl. Qed.

Lemma keeps_on_machine {A} (f : Machine.t -> res (outcome A)) :
  (forall m, promised (kept p) (kept_trap p) m (f m)) -> Keeps p (on_machine f).
Proof.
  intros Hf k r. unfold on_machine. pose proof (Hf (machine k)) as H.
  destruct (f (machine k)) as [[a m | w m] | e]; intros [= <-]; exact H.
Qed.

(** What comes after a promised access. *)
Lemma promised_then {A B} m (r : res (outcome A)) (f : A -> Machine.t -> res (outcome B)) :
  promised (kept p) (kept_trap p) m r -> (forall a m', promised (kept p) (kept_trap p) m' (f a m')) ->
  promised (kept p) (kept_trap p) m (o ← r; match o with Trap w m' => Ok (Trap w m') | Done a m' => f a m' end).
Proof.
  intros Hr Hf. destruct r as [[a m1 | w m1] |]; [| done | done]. cbn [mbind res_bind] in *. specialize (Hf a m1).
  destruct (f a m1) as [[b m2 | w m2] |]; cbn in *; [by eapply kept_trans | by eapply kept_then_trap | done].
Qed.

Lemma u2s_loop_kept n i m va buf : promised (kept p) (kept_trap p) m (UserMem.u2s_loop n i m va buf).
Proof.
  revert i m buf. induction n as [| n IH]; intros i m buf; cbn [UserMem.u2s_loop]; [apply kept_refl |].
  apply promised_then; [apply kept_read, s32_range |]. intros c m1. destruct (c =? 0); [apply kept_refl | apply IH].
Qed.

Lemma s2u_loop_kept n i m va len buf : promised (kept p) (kept_trap p) m (UserMem.s2u_loop n i m va len buf).
Proof.
  revert i m. induction n as [| n IH]; intros i m; cbn [UserMem.s2u_loop]; [done |].
  destruct (deref _) as [c |]; [| done]. cbn [mbind res_bind].
  apply promised_then; [apply kept_write, s32_range |]. intros _ m1. destruct (_ && _); [apply IH | apply kept_refl].
Qed.

#[export] Instance keeps_user2system fresh va limit : Keeps p (user2system fresh va limit).
Proof. apply keeps_on_machine. intros m. unfold UserMem.User2System. case_match; [done | apply u2s_loop_kept]. Qed.

#[export] Instance keeps_system2user va len buf : Keeps p (system2user va len buf).
Proof. apply keeps_on_machine. intros m. unfold UserMem.System2User. do 2 (case_match; [apply kept_refl |]). apply s2u_loop_kept. Qed.
End keeps.
#[export] Hint Extern 1 (Keeps _ (modify _)) => apply keeps_modify; reflexivity : typeclass_instances.

(** The computations the calls are made of. *)
#[local] Ltac keeps := intros; autounfold with sys; typeclasses eauto.
Create HintDb sys.
#[export] Hint Unfold ReadReg GetChar PutChar openFile set_openFile set_type poke contents : sys.

#[export] Instance keeps_ReadReg p r : Keeps p (ReadReg r).
Proof. keeps. Qed.
#[export] Instance keeps_GetChar p : Keeps p GetChar.
Proof. keeps. Qed.
#[export] Instance keeps_PutChar p c : Keeps p (PutChar c).
Proof. keeps. Qed.
#[export] Instance keeps_openFile p i : Keeps p (openFile i).
Proof. keeps. Qed.
#[export] Instance keeps_set_openFile p i o : Keeps p (set_openFile i o).
Proof. keeps. Qed.
#[export] Instance keeps_set_type p i ty : Keeps p (set_type i ty).
Proof. keeps. Qed.
#[export] Instance keeps_poke p buf i c : Keeps p (poke buf i c).
Proof. keeps. Qed.
#[export] Instance keeps_line_loop p n i buf : Keeps p (line_loop n i buf).
Proof. revert i buf. induction n; intros i buf; cbn [line_loop]; typeclasses eauto. Qed.
#[export] Instance keeps_print_loop p n i buf : Keeps p (print_loop n i buf).
Proof. revert i. induction n; intros i; cbn [print_loop]; typeclasses eauto. Qed.

#[export] Hint Unfold Read ReadAt Write WriteAt Seek Length Create OpenForWrite Open OpenForReadWrite findFreeSlot
  new_chars SysReadString SysPrintString SysCreateFile SysOpen SysClose SysRead SysWrite SysSeek
  read_console print result no_result : sys.

(** The registers, up to an exception. *)
Lemma Translate_registers m va size w e pa m' : Translate m va size w = Ok (e, pa, m') -> registers m' = registers m.
Proof.
  unfold Translate. intros H. repeat (case_match; inv_ok; try done); by destruct (decide _); inv_ok.
Qed.

Definition registers_same : relation Machine.t := fun m m' => registers m' = registers m.
Definition no_exception : ExceptionType -> relation Machine.t := fun w _ _ => w <> NoException.

Lemma registers_read m va : promised registers_same no_exception m (ReadMem m va 1).
Proof.
  unfold ReadMem. destruct (Translate m va 1 false) as [[[e pa] m1] |] eqn:E; [| done]. apply Translate_registers in E.
  cbn [mbind res_bind]. destruct (bool_decide_reflect (e = NoException)) as [He | He]; cbn [negb].
  - destruct (load _ _ _); [exact E | done].
  - unfold raise. by destruct (RaiseException _ _ _).
Qed.

Lemma registers_write m va v : promised registers_same no_exception m (WriteMem m va 1 v).
Proof.
  unfold WriteMem. destruct (Translate m va 1 true) as [[[e pa] m1] |] eqn:E; [| done]. apply Translate_registers in E.
  cbn [mbind res_bind]. destruct (bool_decide_reflect (e = NoException)) as [He | He]; cbn [negb].
  - unfold store. case_match; [done | exact E].
  - unfold raise. by destruct (RaiseException _ _ _).
Qed.

Definition registers_kept : promise.
Proof.
  refine {| kept := registers_same; kept_trap := no_exception |}; unfold registers_same; try (intros; congruence); try done.
  - intros m va _. apply registers_read.
  - intros m va v _. apply registers_write.
Defined.

Section contract.
Context (creatable : list Z -> bool) (fresh : nat -> list Z) (random processID : Z).

Lemma local_call_keeps p ty call : local_call creatable fresh random processID ty = Some call -> Keeps p call.
Proof.
  unfold local_call. intros H. repeat (case_match; [injection H as <-; keeps |]). done.
Qed.

(** The last part of every call. *)
Lemma ReadRegister_eq m r : wf m -> 0 <= r < 40 -> ReadRegister m r = Ok (RegVal m r).
Proof using Type. intros Hwf Hr. unfold ReadRegister. rewrite ASSERT_true by (unfold NumTotalRegs; lia). by apply reg_eq. Qed.

(** The registers after the return point was set. *)
Definition return_point (rs : list Z) (pc : Z) : list Z :=
  <[Z.to_nat NextPCReg := s32 (s32 (pc + 4) + 4)]> (<[Z.to_nat PCReg := s32 (pc + 4)]> (<[Z.to_nat PrevPCReg := pc]> rs)).

Lemma return_point_spec rs pc : length rs = 40%nat ->
  return_point rs pc !!! 34%nat = s32 (pc + 4) /\ return_point rs pc !!! 35%nat = s32 (pc + 8) /\
  return_point rs pc !!! 36%nat = pc /\
  forall n, n <> 34%nat -> n <> 35%nat -> n <> 36%nat -> return_point rs pc !!! n = rs !!! n.
Proof using Type.
  intros Hl. unfold return_point. change (Z.to_nat PCReg) with 34%nat. change (Z.to_nat NextPCReg) with 35%nat.
  change (Z.to_nat PrevPCReg) with 36%nat. split_and!.
  - by rewrite list_lookup_total_insert_ne, list_lookup_total_insert_eq by (rewrite ?length_insert; lia).
  - rewrite list_lookup_total_insert_eq by (rewrite ?length_insert; lia). rewrite s32_add_l. f_equal. lia.
  - by rewrite !list_lookup_total_insert_ne, list_lookup_total_insert_eq by (rewrite ?length_insert; lia).
  - intros n H1 H2 H3. by rewrite !list_lookup_total_insert_ne by done.
Qed.

Lemma ModifyReturnPoint_eq k : length (registers (machine k)) = 40%nat ->
  ModifyReturnPoint k = Ok (Returned tt
    (with_machine k (with_registers (machine k) (return_point (registers (machine k)) (RegVal (machine k) PCReg))))).
Proof using Type.
  intros Hl. destruct k as [m i o fs ofs ty ix], m as [rs mem tb pt sz]. cbn in Hl.
  do 40 (destruct rs as [| ? rs]; [done |]). destruct rs; [| done]. reflexivity.
Qed.

Lemma WriteReg2_eq v k : length (registers (machine k)) = 40%nat ->
  WriteReg 2 v k = Ok (Returned tt (with_machine k (with_registers (machine k) (<[2%nat := v]> (registers (machine k)))))).
Proof using Type.
  intros Hl. unfold WriteReg, on_machine, WriteRegister, set_reg. cbn [ASSERT mbind res_bind]. rewrite Hl. done.
Qed.

(** The registers when the program goes on. *)
Definition resumed (rs : list Z) (pc : Z) (r : option Z) : list Z :=
  return_point (match r with Some v => <[2%nat := v]> rs | None => rs end) pc.

Lemma finish_call_eq call k u k' : Keeps registers_kept call -> wf (machine k) -> finish_call call k = Ok (Returned u k') ->
  exists r k1, call k = Ok (Returned r k1) /\
    k' = with_machine k1 (with_registers (machine k1) (resumed (registers (machine k)) (RegVal (machine k) PCReg) r)).
Proof using Type.
  intros Hc Hwf. unfold finish_call, mbind, M_bind at 1. destruct (call k) as [[r k1 | w k1] |] eqn:E; try done.
  apply Hc in E. pose proof (wf_regs _ Hwf) as Hl. intros H. exists r, k1. split; [done |].
  destruct r as [v |]; unfold mbind, M_bind in H; [rewrite WriteReg2_eq in H by congruence | unfold mret, M_ret in H];
    rewrite ModifyReturnPoint_eq in H by (cbn; rewrite ?length_insert; congruence); injection H as _ <-.
  - unfold resumed. cbn. rewrite E. do 2 f_equal. unfold RegVal. cbn. by rewrite list_lookup_total_insert_ne by done.
  - unfold resumed, RegVal. by rewrite E.
Qed.

(** C20: how a system call returns.  If the handler lets the program go on after a
    system call, the call was one of those it knows and ran to its end; the program
    continues at the instruction after the system call ([PCReg] and [NextPCReg] move
    on by one instruction, [PrevPCReg] is the old one), [r2] holds the result of a
    call that has one, every other register is what it was, and the rest of the
    machine and the kernel is what the call left.  A call that meets a bad user
    address, and every other exception of a program, stops the machine. *)
Theorem syscall_returns k k' :
  wf (machine k) ->
  ExceptionHandler creatable fresh random processID SyscallException k = Ok (Resume k') ->
  (exists call r k1, local_call creatable fresh random processID (RegVal (machine k) 2) = Some call /\
     call k = Ok (Returned r k1) /\
     k' = with_machine k1 (with_registers (machine k1) (registers (machine k'))) /\
     RegVal (machine k') PCReg = s32 (RegVal (machine k) PCReg + 4) /\
     RegVal (machine k') NextPCReg = s32 (RegVal (machine k) PCReg + 8) /\
     RegVal (machine k') PrevPCReg = RegVal (machine k) PCReg /\
     RegVal (machine k') 2 = from_option id (RegVal (machine k) 2) r /\
     forall n, 0 <= n < 40 -> n ∉ [2; PCReg; NextPCReg; PrevPCReg] -> RegVal (machine k') n = RegVal (machine k) n) /\
  forall which, which ∈ [PageFaultException; ReadOnlyException; BusErrorException; AddressErrorException;
                         OverflowException; IllegalInstrException] ->
    ExceptionHandler creatable fresh random processID which k = Ok Halted.
Proof using Type.
  intros Hwf. unfold ExceptionHandler. rewrite (ReadRegister_eq _ 2) by (done || lia). cbn [mbind res_bind].
  destruct (_ =? SC_Halt); [done |]. destruct (local_call _ _ _ _ _) as [call |] eqn:Hcall; [| by case_match].
  destruct (finish_call call k) as [[u k2 | w k2] |] eqn:E; [| | done].
  2: { cbn [mbind res_bind]. intros H. exfalso. unfold finish_call in E. apply (local_call_keeps registers_kept) in Hcall.
       pose proof (wf_regs _ Hwf) as Hl. unfold mbind, M_bind in E. destruct (call k) as [[r k1 | w1 k1] |] eqn:Ec; [| | done].
       - apply Hcall in Ec. destruct r; [rewrite WriteReg2_eq in E by congruence | unfold mret, M_ret in E];
           by rewrite ModifyReturnPoint_eq in E by (cbn; rewrite ?length_insert; congruence).
       - injection E as -> ->. apply Hcall in Ec. by destruct w. }
  cbn [mbind res_bind]. intros [= <-]. split.
  - destruct (finish_call_eq call k u k2 (local_call_keeps registers_kept _ _ Hcall) Hwf E) as (r & k1 & Hk & ->). exists call, r, k1.
    set (rs := match r with Some v => <[2%nat := v]> (registers (machine k)) | None => registers (machine k) end).
    pose proof (wf_regs _ Hwf) as Hl. assert (length rs = 40%nat) as Hlr by (unfold rs; by destruct r; rewrite ?length_insert).
    destruct (return_point_spec rs (RegVal (machine k) PCReg) Hlr) as (H34 & H35 & H36 & Hother).
    split_and!; [done | done | done | exact H34 | exact H35 | exact H36 | |].
    + etrans; [by apply (Hother 2%nat) |]. unfold rs. destruct r; [| done]. by rewrite list_lookup_total_insert_eq by (rewrite Hl; lia).
    + intros n Hn Hnn. rewrite !not_elem_of_cons in Hnn. destruct Hnn as (H2 & Hpc & Hnpc & Hppc & _).
      unfold PCReg, NextPCReg, PrevPCReg in *. etrans; [apply (Hother (Z.to_nat n)); lia |]. unfold rs. destruct r; [| done].
      by rewrite list_lookup_total_insert_ne by lia.
  - intros which Hw. repeat (apply elem_of_cons in Hw as [-> | Hw]; [done |]). by apply elem_of_nil in Hw.
Qed.
End contract.
End Exceptions.

(** ** A program that adds *)
Module ExceptionDemo.
Import Machine FileCalls Exceptions.

Definition adder : Machine.t :=
  with_registers demo (<[2%nat := SC_Add]> (<[4%nat := 20]> (<[5%nat := 22]> (<[34%nat := 128]> (replicate 40 0))))).

Lemma wf_adder : wf adder.
Proof.
  destruct wf_demo as [_ _ _ Hm Hb Ht]. split; [done | | by exists 0 | done | done | done].
  clear. unfold adder. cbn [with_registers registers].
  do 4 (apply Forall_insert; [| by unfold is_s32; vm_compute]). by apply Forall_replicate.
Qed.

Definition kernel : t := mk adder [] [] ∅ (replicate 10 None) (replicate 10 0) 0.

Lemma syscall_returns_witness :
  exists k', ExceptionHandler (fun _ => true) (fun n => replicate n 7) 0 0 SyscallException kernel = Ok (Resume k') /\
    RegVal (machine k') PCReg = 132 /\ RegVal (machine k') 2 = 42.
Proof.
  eexists. split; [reflexivity |].
  destruct (syscall_returns (fun _ => true) (fun n => replicate n 7) 0 0 kernel _ wf_adder eq_refl)
    as ((call & r & k1 & Hcall & Hk & _ & Hpc & _ & _ & H2 & _) & _).
  split; [exact Hpc |]. rewrite H2. injection Hcall as <-. by injection Hk as <- _.
Defined.
End ExceptionDemo.
