(* ===== verification/UserMode.v ===== *)
(** * UserMode: a program at work, mipssim.cc [Machine::Run] and machine.cc
      [Machine::RaiseException]

    A program runs by one instruction after the other, and the exceptions of an
    instruction enter the kernel (Exceptions.v), which lets it go on or not.  The
    clock ticks after every instruction; what runs then is in TimeSlices.v, and that
    the program does not notice it in TimeSharing.v. *)

From S2P Require Import Prelude Machine Mips Bitmap AddrSpace Syscalls FileCalls Coff Exceptions.

Module UserMode.
Import Machine Mips FileCalls Exceptions.

(** ** Running *)

Section run.
(** For the call that is made with [n] turns to go. *)
Context (creatable : list Z -> bool) (fresh : nat -> nat -> list Z) (random : nat -> Z) (processID : Z).

Definition turn (n : nat) (k : t) : res handled :=
  o ← OneInstruction (machine k);
  match o with
  | Done _ m => Ok (Resume (with_machine k m))
  | Trap which m => ExceptionHandler creatable (fresh n) (random n) processID which (with_machine k m)
  end.

(** [for (;;)], up to [n] turns. *)
Fixpoint Run (n : nat) (k : t) : res handled :=
  match n with
  | O => Ok (Resume k)
  | S n =>
      h ← turn n k;
      match h with Resume k => Run n k | _ => Ok h end
  end.
End run.

(** ** What a program can reach *)

Definition frames (m : Machine.t) : list Z := (fun e => s32 (physicalPage e)) <$> table m.

(** A page table up to the bits that translation sets. *)
Definition untouched (e : TranslationEntry) : TranslationEntry :=
  mkEntry (virtualPage e) (physicalPage e) (valid e) (readOnly e) false false.
Definition pages (m : Machine.t) : option (list TranslationEntry) :=
  match pageTable m with Some pt => Some (untouched <$> pt) | None => None end.

(** The tables are the same up to those bits, and no byte of another frame
    changes. *)
Record confined (m m' : Machine.t) : Prop := {
  cf_frames : frames m' = frames m;
  cf_pages : pages m' = pages m;
  cf_limit : pageTableSize m' = pageTableSize m;
  cf_registers : length (registers m') = length (registers m);
  cf_tlb : tlb m = None -> tlb m' = None;
  cf_size : length (mainMemory m') = length (mainMemory m);
  cf_other a : Z.of_nat a / PageSize ∉ frames m -> mainMemory m' !! a = mainMemory m !! a;
}.

#[global] Instance confined_preorder : PreOrder confined.
Proof.
  split; [by split |]. intros m1 m2 m3 [F1 P1 L1 R1 T1 S1 O1] [F2 P2 L2 R2 T2 S2 O2]. split; [congruence.. | auto | congruence |].
  intros a Ha. rewrite O2 by (by rewrite F1). by apply O1.
Qed.

Lemma confined_registers m rs : length rs = length (registers m) -> confined m (with_registers m rs).
Proof. by split. Qed.

Lemma set_reg_confined m n v m' : set_reg m n v = Ok m' -> confined m m'.
Proof. unfold set_reg. case_match; [done |]. intros [= <-]. apply confined_registers, length_insert. Qed.

(** A result is confined when it is a fault, or the machine it leaves is. *)
Definition stays {A} (m : Machine.t) (r : res (outcome A)) : Prop := promised confined (fun _ => confined) m r.
Definition stays_t (m : Machine.t) (r : res Machine.t) : Prop := match r with Ok m' => confined m m' | Fault _ => True end.

Lemma stays_set_reg m n v : stays_t m (set_reg m n v).
Proof. unfold stays_t. destruct (set_reg m n v) eqn:E; [by eapply set_reg_confined | done]. Qed.

Lemma stays_pure {A B} m (c : res B) (f : B -> res (outcome A)) : (forall b, stays m (f b)) -> stays m (c ≫= f).
Proof. intros Hf. destruct c; [apply Hf | done]. Qed.
Lemma stays_t_pure {B} m (c : res B) (f : B -> res Machine.t) : (forall b, stays_t m (f b)) -> stays_t m (c ≫= f).
Proof. intros Hf. destruct c; [apply Hf | done]. Qed.

Lemma stays_from {A} m m1 (r : res (outcome A)) : confined m m1 -> stays m1 r -> stays m r.
Proof. unfold stays, promised. intros H. repeat case_match; intros; try done; etrans; eassumption. Qed.
Lemma stays_t_from m m1 r : confined m m1 -> stays_t m1 r -> stays_t m r.
Proof. unfold stays_t. intros H. case_match; intros; [etrans; eassumption | done]. Qed.

Lemma stays_after {A} m c (f : Machine.t -> res (outcome A)) : stays_t m c -> (forall m', stays m' (f m')) -> stays m (c ≫= f).
Proof. intros Hc Hf. destruct c as [m1 |]; [| done]. by eapply stays_from. Qed.
Lemma stays_t_after m c (f : Machine.t -> res Machine.t) : stays_t m c -> (forall m', stays_t m' (f m')) -> stays_t m (c ≫= f).
Proof. intros Hc Hf. destruct c as [m1 |]; [| done]. by eapply stays_t_from. Qed.

Lemma stays_on_done {A B} m (c : res (outcome A)) (f : A -> Machine.t -> res (outcome B)) :
  stays m c -> (forall a m', stays m' (f a m')) -> stays m (on_done c f).
Proof. intros Hc Hf. unfold on_done. destruct c as [[a m1 | w m1] |]; [exact (stays_from m m1 _ Hc (Hf a m1)) | exact Hc | done]. Qed.

Lemma stays_Done {A} m (a : A) : stays m (Ok (Done a m)).
Proof. exact (reflexivity m). Qed.

Lemma stays_Fault {A} m e : stays m (Fault e : res (outcome A)).
Proof. done. Qed.

Lemma stays_DelayedLoad m r v : stays_t m (DelayedLoad m r v).
Proof.
  unfold DelayedLoad. do 2 (apply stays_t_pure; intros ?). do 3 (apply stays_t_after; [apply stays_set_reg | intros ?]). apply stays_set_reg.
Qed.

Lemma stays_raise {A} m w v : stays m (@raise A m w v).
Proof.
  unfold raise, RaiseException. apply stays_after; [| done]. apply stays_t_after; [apply stays_set_reg |]. intros m'. apply stays_DelayedLoad.
Qed.

(** ** Accesses *)

Lemma check_entry_frame e offset size w pa : size = 1 \/ size = 2 \/ size = 4 -> 0 <= offset -> offset + size <= PageSize ->
  check_entry e offset size w = Ok (NoException, pa) -> pa = s32 (physicalPage e) * PageSize + offset /\ 0 <= s32 (physicalPage e).
Proof.
  intros Hs H0 H1. rewrite check_entry_spec by lia. destruct (readOnly e && w); [done |]. case_decide; [| done]. intros [= <-]. lia.
Qed.

Lemma frames_touch w (i : nat) e (tb : list TranslationEntry) : tb !! i = Some e ->
  (fun e => s32 (physicalPage e)) <$> <[i := touch w e]> tb = (fun e => s32 (physicalPage e)) <$> tb.
Proof. intros He. rewrite list_fmap_insert. apply list_insert_id. by rewrite list_lookup_fmap, He. Qed.

Lemma untouched_touch w (i : nat) e (tb : list TranslationEntry) : tb !! i = Some e ->
  untouched <$> <[i := touch w e]> tb = untouched <$> tb.
Proof. intros He. rewrite list_fmap_insert. apply list_insert_id. by rewrite list_lookup_fmap, He. Qed.

(** What a translation leaves as it is. *)
Record translated (m m' : Machine.t) : Prop := {
  tr_frames : frames m' = frames m;
  tr_pages : pages m' = pages m;
  tr_limit : pageTableSize m' = pageTableSize m;
  tr_registers : registers m' = registers m;
  tr_memory : mainMemory m' = mainMemory m;
  tr_tlb : tlb m = None -> tlb m' = None;
}.

Ltac no_access := intros [= <- <- <-]; by split.

(** A translation that succeeds leads into a frame of the table. *)
Lemma Translate_frame m va size w e pa m' : size = 1 \/ size = 2 \/ size = 4 -> Translate m va size w = Ok (e, pa, m') ->
  translated m m' /\ (e = NoException -> exists f, f ∈ frames m /\ 0 <= f /\ f * PageSize <= pa /\ pa + size <= (f + 1) * PageSize).
Proof.
  intros Hs. unfold Translate. rewrite misaligned_spec by done. destruct (Z.eqb_spec (va mod size) 0) as [Ha |]; cbn [negb]; [| no_access].
  destruct (offset_fits va size Hs Ha) as [Ho0 Ho1].
  destruct (ASSERT (bool_decide _ || _)); cbn [mbind res_bind]; [| done]. destruct (ASSERT (negb _ || _)); cbn [mbind res_bind]; [| done].
  assert (forall tb i e0 ex pa0, tb !! i = Some e0 -> table m = tb -> check_entry e0 (u32 va mod PageSize) size w = Ok (ex, pa0) ->
    ex = NoException -> exists f, f ∈ frames m /\ 0 <= f /\ f * PageSize <= pa0 /\ pa0 + size <= (f + 1) * PageSize) as Hin.
  { intros tb i e0 ex pa0 Hi Ht Hc ->. apply check_entry_frame in Hc as [-> Hf]; [| done..]. exists (s32 (physicalPage e0)). split_and!; [| lia..].
    unfold frames. rewrite Ht. apply list_elem_of_fmap. exists e0. split; [done | by eapply list_elem_of_lookup_2]. }
  destruct (tlb m) as [tb |] eqn:Etb.
  - destruct (tlb_search _ _ _ _) as [[i |] |]; cbn [mbind res_bind]; [| no_access | done].
    destruct (tb !! i) as [e0 |] eqn:Hi; cbn [deref mbind res_bind]; [| done].
    destruct (check_entry _ _ _ _) as [[ex pa0] |] eqn:Hc; cbn [mbind res_bind]; [| done].
    assert (table m = tb) as Ht by (unfold table; by rewrite Etb).
    case_decide as He; intros [= <- <- <-]; (split; [| by eapply Hin]); [| done].
    split; try done; [| congruence]. unfold frames. rewrite Ht. unfold table. cbn. by apply frames_touch.
  - destruct (pageTable m) as [pt |] eqn:Ept; cbn [deref mbind res_bind]; [| done]. case_match; [no_access |].
    destruct (pt !! _) as [e0 |] eqn:Hi; cbn [deref mbind res_bind]; [| done]. destruct (valid e0); cbn [negb]; [| no_access].
    destruct (check_entry _ _ _ _) as [[ex pa0] |] eqn:Hc; cbn [mbind res_bind]; [| done].
    assert (table m = pt) as Ht by (unfold table; by rewrite Etb, Ept).
    case_decide as He; intros [= <- <- <-]; (split; [| by eapply Hin]); [| done]. split; try done.
    + unfold frames. rewrite Ht. unfold table. cbn. rewrite Etb. cbn. by apply frames_touch.
    + unfold pages. cbn. rewrite Ept. f_equal. by apply untouched_touch.
Qed.

Lemma confined_translate m m' : translated m m' -> confined m m'.
Proof. intros [Hf Hp Hl Hr Hm Ht]. split; [done.. | by rewrite Hr | done | by rewrite Hm | by intros; rewrite Hm]. Qed.

Lemma confined_store m pa bs m' f : store m pa bs = Ok m' -> f ∈ frames m -> 0 <= f -> f * PageSize <= pa ->
  pa + Z.of_nat (length bs) <= (f + 1) * PageSize -> confined m m'.
Proof.
  intros Hst Hf H0 H1 H2. unfold store in Hst. destruct ((pa <? 0) || _) eqn:E; [done |]. injection Hst as <-.
  apply orb_false_iff in E as [E1%Z.ltb_ge E2%Z.ltb_ge]. split; [done.. | cbn; by rewrite length_inserts |].
  intros a Ha. cbn. rewrite lookup_inserts by lia. rewrite decide_False; [done |]. intros [Ha1 Ha2]. apply Ha.
  replace (Z.of_nat a / PageSize) with f; [done |]. unfold PageSize in *. apply (Z.div_unique (Z.of_nat a) 128 f (Z.of_nat a - 128 * f)); lia.
Qed.

Lemma stays_ReadMem m va size : size = 1 \/ size = 2 \/ size = 4 -> stays m (ReadMem m va size).
Proof.
  intros Hs. unfold ReadMem. destruct (Translate m va size false) as [[[e pa] m1] |] eqn:E; [| done].
  destruct (Translate_frame _ _ _ _ _ _ _ Hs E) as [Ht _]. cbn [mbind res_bind]. apply (stays_from _ m1); [by apply confined_translate |].
  case_match; [apply stays_raise |]. destruct Hs as [-> | [-> | ->]]; apply stays_pure; intros bs; apply stays_Done.
Qed.

Lemma stays_WriteMem m va size v : size = 1 \/ size = 2 \/ size = 4 -> stays m (WriteMem m va size v).
Proof.
  intros Hs. unfold WriteMem. destruct (Translate m va size true) as [[[e pa] m1] |] eqn:E; [| done].
  destruct (Translate_frame _ _ _ _ _ _ _ Hs E) as [Ht Hin]. cbn [mbind res_bind].
  apply (stays_from _ m1); [by apply confined_translate |]. destruct (bool_decide_reflect (e = NoException)) as [He |]; cbn [negb]; [| apply stays_raise].
  destruct (Hin He) as (f & Hfm & H0 & H1 & H2). rewrite <- (tr_frames _ _ Ht) in Hfm.
  assert (forall bs, Z.of_nat (length bs) = size -> stays_t m1 (store m1 pa bs)) as Hst.
  { intros bs Hl. unfold stays_t. destruct (store m1 pa bs) eqn:Est; [| done]. by apply (confined_store m1 pa bs _ f); rewrite ?Hl. }
  destruct Hs as [-> | [-> | ->]]; (apply stays_after; [by apply Hst | intros m2; apply stays_Done]).
Qed.

(** ** Instructions *)

Create HintDb stays.
#[local] Hint Resolve stays_set_reg stays_raise stays_Done stays_Fault stays_DelayedLoad : stays.
#[local] Hint Extern 1 (stays _ (ReadMem _ _ _)) => apply stays_ReadMem; auto : stays.
#[local] Hint Extern 1 (stays _ (WriteMem _ _ _ _)) => apply stays_WriteMem; auto : stays.
#[local] Hint Extern 2 (stays _ (if ?b then _ else _)) => destruct b : stays.
#[local] Hint Extern 2 (stays _ (let '(_, _) := ?x in _)) => destruct x : stays.
#[local] Hint Extern 3 (stays _ (on_done _ _)) => apply stays_on_done; [| intros ? ?] : stays.
#[local] Hint Extern 4 (stays _ (set_reg _ _ _ ≫= _)) => apply stays_after; [| intros ?] : stays.
#[local] Hint Extern 5 (stays _ (_ ≫= _)) => apply stays_pure; intros ? : stays.
#[local] Hint Extern 5 (stays_t _ (_ ≫= _)) => apply stays_t_pure; intros ? : stays.

Ltac by_parts := cbv zeta; eauto 20 with stays nocore.

Lemma stays_branch m i pc b : stays m (branch m i pc b).
Proof. unfold branch, finish. by_parts. Qed.
Lemma stays_assign m n v pc : stays m (assign m n v pc).
Proof. unfold assign, finish. by_parts. Qed.
Lemma stays_set_hi_lo m a b pc : stays m (set_hi_lo m a b pc).
Proof. unfold set_hi_lo, finish. by_parts. Qed.
Lemma stays_link m r : stays_t m (link m r).
Proof. unfold link. by_parts. Qed.
#[local] Hint Resolve stays_branch stays_assign stays_set_hi_lo stays_link : stays.
#[local] Hint Extern 4 (stays _ (link _ _ ≫= _)) => apply stays_after; [apply stays_link | intros ?] : stays.
#[local] Hint Unfold exec_ADD exec_ADDI exec_SUB exec_BEQ exec_BNE exec_BGEZ exec_BGTZ exec_BLEZ exec_BLTZ exec_DIV exec_DIVU
  exec_J exec_JR address exec_LB exec_LH exec_LW exec_LWL exec_LWR exec_store exec_SWL exec_SWR exec_MULT op_rd op_rt move finish : stays.

Lemma stays_Execute_late m i pc : stays m (Execute_late m i pc).
Proof. unfold Execute_late. destruct (opCode i); try exact I; autounfold with stays; by_parts. Qed.
#[local] Hint Resolve stays_Execute_late : stays.

Lemma stays_Execute m i pc : stays m (Execute m i pc).
Proof. unfold Execute. destruct (opCode i); try apply stays_Execute_late; autounfold with stays; by_parts. Qed.
#[local] Hint Resolve stays_Execute : stays.

Lemma stays_advance m pc r v : stays_t m (advance m pc r v).
Proof.
  unfold advance. apply stays_t_after; [apply stays_DelayedLoad |]. intros m1. apply stays_t_pure. intros ?.
  apply stays_t_after; [apply stays_set_reg |]. intros m2. apply stays_t_pure. intros ?.
  apply stays_t_after; [apply stays_set_reg |]. intros m3. apply stays_set_reg.
Qed.

(** No instruction writes outside the frames of the page table. *)
Lemma stays_OneInstruction m : stays m (OneInstruction m).
Proof.
  unfold OneInstruction. apply stays_pure. intros pc. apply stays_on_done; [apply stays_ReadMem; auto |]. intros raw m1.
  apply stays_pure. intros i. apply stays_pure. intros npc. apply stays_on_done; [apply stays_Execute |]. intros [[pa r] v] m2.
  apply stays_after; [apply stays_advance |]. intros m3. apply stays_Done.
Qed.

(** ** System calls *)

Definition frames_kept : promise.
Proof.
  refine {| kept := confined; kept_trap := fun _ => confined |}; try (intros; etrans; eassumption).
  - intros m. reflexivity.
  - intros m va _. apply stays_ReadMem. auto.
  - intros m va v _. apply stays_WriteMem. auto.
Defined.

#[local] Instance WriteReg_kept r v : Keeps frames_kept (WriteReg r v).
Proof.
  intros k x. unfold WriteReg, on_machine. destruct (WriteRegister (machine k) r v) as [m |] eqn:E; [| done]. cbn. intros [= <-].
  unfold WriteRegister in E. destruct (ASSERT _); [| done]. by apply set_reg_confined in E.
Qed.

Section program.
Context (creatable : list Z -> bool) (fresh : nat -> nat -> list Z) (random : nat -> Z) (processID : Z).

(** The kernel when the program goes on or a call for the scheduler is made. *)
Definition left_by (h : handled) : option t :=
  match h with Resume k | Process _ k => Some k | Halted => None end.

Lemma handler_confined n w k h k' : ExceptionHandler creatable (fresh n) (random n) processID w k = Ok h -> left_by h = Some k' ->
  confined (machine k) (machine k').
Proof.
  intros H Hl. unfold ExceptionHandler in H. destruct (ReadRegister _ _) as [ty |]; [| done]. cbn [mbind res_bind] in H.
  assert (forall w k1, fault_case w k1 = Ok h -> k' = k1) as Hfc.
  { intros w1 k1. unfold fault_case. destruct w1; intros [= <-]; cbn in Hl; congruence. }
  destruct w; try (by apply Hfc in H as ->). destruct (ty =? SC_Halt); [by injection H as <- |].
  destruct (local_call _ _ _ _ _) as [call |] eqn:Hc.
  - assert (Keeps frames_kept (finish_call call)) as Hk.
    { pose proof (local_call_keeps creatable (fresh n) (random n) processID frames_kept ty call Hc). unfold finish_call, ModifyReturnPoint. apply _. }
    destruct (finish_call call k) as [r |] eqn:E; [| done]. apply Hk in E. cbn [mbind res_bind] in H.
    destruct r as [u k1 | w1 k1]; [by injection H as <-; injection Hl as <- | by apply Hfc in H as ->].
  - destruct (process_call ty); [| done]. injection H as <-. by injection Hl as <-.
Qed.

Lemma turn_confined n k h k' : turn creatable fresh random processID n k = Ok h -> left_by h = Some k' -> confined (machine k) (machine k').
Proof.
  unfold turn. pose proof (stays_OneInstruction (machine k)) as Hs. intros H Hl.
  destruct (OneInstruction (machine k)) as [[u m | w m] |]; [| | done]; cbn [mbind res_bind] in H.
  - injection H as <-. by injection Hl as <-.
  - etrans; [exact Hs |]. exact (handler_confined n w (with_machine k m) h k' H Hl).
Qed.

Lemma run_confined n k h k' : Run creatable fresh random processID n k = Ok h -> left_by h = Some k' -> confined (machine k) (machine k').
Proof.
  revert k. induction n as [| n IH]; intros k H Hl; cbn [Run] in H.
  - injection H as <-. by injection Hl as <-.
  - destruct (turn _ _ _ _ n k) as [h1 |] eqn:Ht; [| done]. cbn [mbind res_bind] in H.
    destruct h1 as [k1 | | ty k1]; [etrans; [exact (turn_confined n k _ k1 Ht eq_refl) | by apply IH] | by injection H as <- |].
    injection H as <-. exact (turn_confined n k _ k' Ht Hl).
Qed.

(** A translation in another space. *)
Lemma Translate_restored b m m' va size w e pa m1 : tlb m = None -> tlb m' = None ->
  Translate (AddrSpace.RestoreState b m) va size w = Ok (e, pa, m1) ->
  mainMemory m1 = mainMemory m /\ exists m2, Translate (AddrSpace.RestoreState b m') va size w = Ok (e, pa, m2) /\ mainMemory m2 = mainMemory m'.
Proof.
  intros Ht Ht'. unfold Translate, AddrSpace.RestoreState. cbn [tlb pageTable pageTableSize]. rewrite Ht, Ht'.
  case_match; [intros [= <- <- <-]; split; [done | by eexists] |]. destruct (ASSERT (bool_decide _ || _)); cbn [mbind res_bind]; [| done].
  destruct (ASSERT (negb _ || _)); cbn [mbind res_bind]; [| done]. destruct (AddrSpace.pageTable b) as [pt |]; cbn [deref mbind res_bind]; [| done].
  case_match; [intros [= <- <- <-]; split; [done | by eexists] |]. destruct (pt !! _) as [e0 |]; cbn [deref mbind res_bind]; [| done].
  case_match; [intros [= <- <- <-]; split; [done | by eexists] |]. destruct (check_entry _ _ _ _) as [[ex pa0] |]; cbn [mbind res_bind]; [| done].
  case_decide; intros [= <- <- <-]; (split; [done | by eexists]).
Qed.

Lemma same_load m m' pa n f bs : length (mainMemory m') = length (mainMemory m) ->
  (forall a, Z.of_nat a / PageSize = f -> mainMemory m' !! a = mainMemory m !! a) ->
  0 <= f -> f * PageSize <= pa -> pa + Z.of_nat n <= (f + 1) * PageSize -> load m pa n = Ok bs -> load m' pa n = Ok bs.
Proof.
  intros Hl Ha H0 H1 H2. unfold load. rewrite Hl. case_match; [done |]. intros [= <-]. f_equal. apply list_eq. intros j.
  rewrite !lookup_slice. case_decide; [| done]. apply Ha. unfold PageSize in *.
  symmetry. apply (Z.div_unique _ 128 f (Z.of_nat (Z.to_nat pa + j) - 128 * f)); lia.
Qed.

(** C19: Between two calls for the scheduler a program cannot touch another process:
    after any number of instructions and of the fifteen system calls that
    Exceptions.v serves, up to the point where it goes on, or enters one of the six
    calls that leave it ([Exec], [Join], [Exit], [CreateSemaphore], [Wait],
    [Signal]), its page table names the frames it named, no byte of any other frame
    has changed, and a load of any other space that shares no frame with it gives
    the value it gave.  What those six calls do then is not in it, and [Exec] can
    write another process's frames ([load_overwrites_neighbour]); nor are the ticks
    and switches between the instructions (TimeSlices.v, TimeSharing.v). *)
Theorem program_confined n k h k' b : Run creatable fresh random processID n k = Ok h -> left_by h = Some k' ->
  tlb (machine k) = None -> (forall f, AddrSpace.uses_frame b f -> f ∉ frames (machine k)) ->
  frames (machine k') = frames (machine k) /\
  (forall a, Z.of_nat a / PageSize ∉ frames (machine k) -> mainMemory (machine k') !! a = mainMemory (machine k) !! a) /\
  forall va size x m, size = 1 \/ size = 2 \/ size = 4 ->
    ReadMem (AddrSpace.RestoreState b (machine k)) va size = Ok (Done x m) ->
    exists m', ReadMem (AddrSpace.RestoreState b (machine k')) va size = Ok (Done x m').
Proof.
  intros Hr Hl Ht Hb. destruct (run_confined n k h k' Hr Hl) as [Hf _ _ _ Ht' Hs Ho]. split_and!; [done | done |].
  intros va size x m Hz. unfold ReadMem.
  destruct (Translate (AddrSpace.RestoreState b (machine k)) va size false) as [[[e pa] m1] |] eqn:E; [| done].
  destruct (Translate_restored b _ (machine k') va size false e pa m1 Ht (Ht' Ht) E) as (Hm1 & m2 & E2 & Hm2). rewrite E2. cbn [mbind res_bind].
  destruct (bool_decide_reflect (e = NoException)) as [He |]; cbn [negb]; [| unfold raise; by destruct (RaiseException _ _ _)].
  destruct (Translate_frame _ _ _ _ _ _ _ Hz E) as [_ Hin]. destruct (Hin He) as (f & Hfb & H0 & H1 & H2).
  assert (forall j bs, Z.of_nat j = size -> load m1 pa j = Ok bs -> load m2 pa j = Ok bs) as Hload.
  { intros j bs Hj. apply (same_load m1 m2 pa j f); rewrite ?Hm1, ?Hm2, ?Hj; try done. intros a Ha. apply Ho. rewrite Ha. apply Hb.
    unfold frames, table, AddrSpace.RestoreState in Hfb. cbn in Hfb. rewrite Ht in Hfb.
    apply list_elem_of_fmap in Hfb as (e0 & -> & Hin0). destruct (AddrSpace.pageTable b) as [pt |] eqn:Ept; [| by apply not_elem_of_nil in Hin0].
    by exists pt, e0. }
  destruct Hz as [-> | [-> | ->]];
    (destruct (load m1 pa _) as [bs |] eqn:El; [| done]; apply Hload in El; [| done]; rewrite El; intros [= <- <-]; by eexists).
Qed.
End program.
End UserMode.

(** ** From the compiler to the screen *)

Module UserModeDemo.
Import Machine FileCalls Exceptions UserMode.

(** [PrintChar('H'); PrintChar('i'); Halt();] *)
Definition program : list Z :=
  [0x2402002e; 0x24040048; 0x0000000c; 0x2402002e; 0x24040069; 0x0000000c; 0x24020000; 0x0000000c].
Definition coff : list Z :=
  Coff.CoffDemo.header 1 ++ Coff.CoffDemo.section Coff.dot_text 0 32 116 ++ concat (le_split 4 <$> program).

(** The machine with the program loaded, at its first instruction. *)
Definition booted : res Machine.t :=
  out ← Coff.main Coff.CoffDemo.junk_header 1000 (Some coff);
  '(_, s, k) ← AddrSpace.Load AddrSpace.SpaceDemo.junk AddrSpace.SpaceDemo.blank AddrSpace.SpaceDemo.fresh_kernel out;
  AddrSpace.InitRegisters s (AddrSpace.RestoreState s (AddrSpace.machine k)).
Definition kernel : t :=
  mk (match booted with Ok m => m | Fault _ => Machine.create end) [] [] ∅ (replicate 10 None) (replicate 10 0) 0.
#[local] Notation run n := (Run (fun _ => true) (fun _ len => replicate len 7) (fun _ => 0) 0 n%nat kernel).

(** The two characters are out after six instructions, and the eighth halts. *)
Example says_hi : match run 6 with Ok (Resume k) => output k = [72; 105] | _ => False end /\ run 8 = Ok Halted.
Proof. by vm_compute. Qed.

(** A space of one page, in the last frame. *)
Definition other : AddrSpace.t := AddrSpace.mk (Some [mkEntry 0 127 true false false false]) 1.

Lemma other_apart f : AddrSpace.uses_frame other f -> f ∉ frames (machine kernel).
Proof.
  intros (pt & e & [= <-] & ->%list_elem_of_singleton & <-). apply (bool_decide_unpack _). vm_compute. reflexivity.
Qed.

(** The kernel after six instructions. *)
Definition resumes (r : res handled) : bool := match r with Ok (Resume _) => true | _ => false end.
Definition state_of (r : res handled) : t := match r with Ok (Resume k) => k | _ => kernel end.
Lemma resumes_Ok r : resumes r = true -> r = Ok (Resume (state_of r)).
Proof. by destruct r as [[] |]. Qed.
Lemma run_six : run 6 = Ok (Resume (state_of (run 6))).
Proof. apply resumes_Ok. vm_compute. reflexivity. Qed.
Lemma kernel_tlb : tlb (machine kernel) = None.
Proof. vm_compute. reflexivity. Qed.
Lemma kernel_frames : frames (machine kernel) = [0; 1; 2; 3; 4; 5; 6; 7; 8].
Proof. vm_compute. reflexivity. Qed.

Lemma program_confined_witness : exists k', run 6 = Ok (Resume k') /\ frames (machine k') = [0; 1; 2; 3; 4; 5; 6; 7; 8].
Proof.
  exists (state_of (run 6)). split; [exact run_six |]. rewrite <- kernel_frames.
  exact (proj1 (program_confined (fun _ => true) (fun _ n => replicate n 7) (fun _ => 0) 0 6 kernel _ _ other run_six eq_refl kernel_tlb other_apart)).
Defined.
End UserModeDemo.
