(* ===== verification/TimeSharing.v ===== *)
(** * TimeSharing: programs that share the processor, mipssim.cc [Machine::Run]
      with the clock of interrupt.cc and the switches of scheduler.cc

    What a program does depends only on its registers, its page table and the
    frames of memory its page table names ([agree], [alike_OneInstruction]), and
    it changes only those ([confined] of UserMode.v).  A run of the kernel of
    Threads.v in which the programs of several threads execute real instructions,
    with time slices, device interrupts and kernel code of any thread in between,
    is therefore for each program a run of its own. *)

From S2P Require Import Prelude Machine Mips Interrupt AddrSpace Threads Sched FileCalls Exceptions UserMode.

(** ** What a program depends on *)
Module Locality.
Import Machine Mips UserMode.

(** Two machines that are the same to the program that runs on them. *)
Record agree (m m' : Machine.t) : Prop := {
  ag_registers : registers m' = registers m;
  ag_pages : pages m' = pages m;
  ag_size : pageTableSize m' = pageTableSize m;
  ag_tlb : tlb m = None;
  ag_tlb' : tlb m' = None;
  ag_length : length (mainMemory m') = length (mainMemory m);
  ag_bytes a : Z.of_nat a / PageSize ∈ frames m -> mainMemory m' !! a = mainMemory m !! a;
}.

Lemma frames_pages m m' : tlb m = None -> tlb m' = None -> pages m' = pages m -> frames m' = frames m.
Proof.
  intros H H' Hp. unfold frames, table. rewrite H, H'. unfold pages in Hp.
  assert (forall tb, (fun e => s32 (physicalPage e)) <$> tb = (fun e => s32 (physicalPage e)) <$> (untouched <$> tb)) as Hu
    by (intros tb; rewrite <- list_fmap_compose; by apply list_fmap_ext).
  destruct (pageTable m') as [tb' |], (pageTable m) as [tb |]; cbn in Hp; try done. injection Hp as Hp. cbn. by rewrite (Hu tb'), (Hu tb), Hp.
Qed.

Lemma agree_frames m m' : agree m m' -> frames m' = frames m.
Proof. intros []. by apply frames_pages. Qed.

Lemma agree_refl m : tlb m = None -> agree m m.
Proof. by split. Qed.
Lemma agree_sym m m' : agree m m' -> agree m' m.
Proof. intros H. pose proof (agree_frames m m' H) as Hf. destruct H as [? ? ? ? ? ? Hb]. split; try congruence. intros a. rewrite Hf. intros Ha. by rewrite Hb. Qed.
Lemma agree_trans m1 m2 m3 : agree m1 m2 -> agree m2 m3 -> agree m1 m3.
Proof.
  intros H1 H2. pose proof (agree_frames m1 m2 H1) as Hf. destruct H1 as [? ? ? ? ? ? Hb1], H2 as [? ? ? ? ? ? Hb2].
  split; try congruence. intros a Ha. rewrite Hb2 by (by rewrite Hf). by apply Hb1.
Qed.

(** ** The same code on two such machines *)

Definition alike {A} (r r' : res (outcome A)) : Prop :=
  match r, r' with
  | Ok (Done a m), Ok (Done a' m') => a' = a /\ agree m m'
  | Ok (Trap w m), Ok (Trap w' m') => w' = w /\ agree m m'
  | Fault e, Fault e' => e' = e
  | _, _ => False
  end.
Definition alike_t (r r' : res Machine.t) : Prop :=
  match r, r' with Ok m, Ok m' => agree m m' | Fault e, Fault e' => e' = e | _, _ => False end.

Lemma alike_pure {A B} (c c' : res B) (f f' : B -> res (outcome A)) :
  c' = c -> (forall b, alike (f b) (f' b)) -> alike (c ≫= f) (c' ≫= f').
Proof. intros -> Hf. destruct c; [apply Hf | done]. Qed.
Lemma alike_t_pure {B} (c c' : res B) (f f' : B -> res Machine.t) :
  c' = c -> (forall b, alike_t (f b) (f' b)) -> alike_t (c ≫= f) (c' ≫= f').
Proof. intros -> Hf. destruct c; [apply Hf | done]. Qed.
Lemma alike_after {A} c c' (f f' : Machine.t -> res (outcome A)) :
  alike_t c c' -> (forall m m', agree m m' -> alike (f m) (f' m')) -> alike (c ≫= f) (c' ≫= f').
Proof. intros Hc Hf. destruct c, c'; try done. by apply Hf. Qed.
Lemma alike_t_after c c' (f f' : Machine.t -> res Machine.t) :
  alike_t c c' -> (forall m m', agree m m' -> alike_t (f m) (f' m')) -> alike_t (c ≫= f) (c' ≫= f').
Proof. intros Hc Hf. destruct c, c'; try done. by apply Hf. Qed.
Lemma alike_on_done {A B} (c c' : res (outcome A)) (f f' : A -> Machine.t -> res (outcome B)) :
  alike c c' -> (forall a m m', agree m m' -> alike (f a m) (f' a m')) -> alike (on_done c f) (on_done c' f').
Proof.
  intros Hc Hf. unfold on_done. destruct c as [[a m | w m] |], c' as [[a' m' | w' m'] |]; try done.
  destruct Hc as [-> Hm]. by apply Hf.
Qed.
Lemma alike_Done {A} (a : A) m m' : agree m m' -> alike (Ok (Done a m)) (Ok (Done a m')).
Proof. done. Qed.
Lemma alike_Fault {A} e : alike (Fault e : res (outcome A)) (Fault e).
Proof. done. Qed.
Lemma alike_Ok m m' : agree m m' -> alike_t (Ok m) (Ok m').
Proof. done. Qed.

Lemma reg_agree m m' n : agree m m' -> reg m' n = reg m n.
Proof. intros H. unfold reg. by rewrite (ag_registers _ _ H). Qed.

Lemma agree_with_registers m m' rs : agree m m' -> agree (with_registers m rs) (with_registers m' rs).
Proof. intros []. by split. Qed.

Lemma alike_set_reg m m' n v : agree m m' -> alike_t (set_reg m n v) (set_reg m' n v).
Proof.
  intros H. unfold set_reg. rewrite (ag_registers _ _ H). case_match; [done |]. by apply agree_with_registers.
Qed.

Lemma alike_DelayedLoad m m' r v : agree m m' -> alike_t (DelayedLoad m r v) (DelayedLoad m' r v).
Proof.
  intros H. unfold DelayedLoad. do 2 (apply alike_t_pure; [by apply reg_agree | intros ?]).
  do 3 (apply alike_t_after; [by apply alike_set_reg | clear dependent m; clear dependent m'; intros m m' H]). by apply alike_set_reg.
Qed.

Lemma alike_raise {A} m m' w v : agree m m' -> alike (@raise A m w v) (@raise A m' w v).
Proof.
  intros H. unfold raise, RaiseException. apply alike_after; [| by intros].
  apply alike_t_after; [by apply alike_set_reg |]. intros. by apply alike_DelayedLoad.
Qed.

(** ** Accesses *)

Lemma pages_cases m m' : pages m' = pages m ->
  (pageTable m = None /\ pageTable m' = None) \/
  exists pt pt', pageTable m = Some pt /\ pageTable m' = Some pt' /\ untouched <$> pt' = untouched <$> pt.
Proof.
  unfold pages. destruct (pageTable m') as [pt' |], (pageTable m) as [pt |]; cbn; intros [=]; [right | by left]. by exists pt, pt'.
Qed.

Lemma untouched_lookup (pt pt' : list TranslationEntry) (i : nat) : untouched <$> pt' = untouched <$> pt ->
  (pt !! i = None /\ pt' !! i = None) \/ exists e e', pt !! i = Some e /\ pt' !! i = Some e' /\ untouched e' = untouched e.
Proof.
  intros H. assert (untouched <$> pt' !! i = untouched <$> pt !! i) as Hi by (by rewrite <- !list_lookup_fmap, H).
  destruct (pt !! i) as [e |], (pt' !! i) as [e' |]; cbn in Hi; try done; [right | by left]. apply (inj Some) in Hi. by exists e, e'.
Qed.

Lemma check_entry_untouched e e' offset size w : untouched e' = untouched e -> check_entry e' offset size w = check_entry e offset size w.
Proof. intros [=Hv Hp Hva Hro]. unfold check_entry. by rewrite Hp, Hro. Qed.

Lemma alike_Translate m m' va size w : agree m m' ->
  match Translate m va size w, Translate m' va size w with
  | Ok (e, pa, m1), Ok (e', pa', m1') => e' = e /\ pa' = pa /\ agree m1 m1'
  | Fault f, Fault f' => f' = f
  | _, _ => False
  end.
Proof.
  intros H. pose proof H as [Hr Hp Hs Ht Ht' Hl Hb]. unfold Translate. destruct ((size =? 4) && _ || _); [by split_and! |]. rewrite Ht, Ht', Hs.
  destruct (pages_cases m m' Hp) as [[-> ->] | (pt & pt' & Hpt & Hpt' & Hu)]; [done |]. rewrite Hpt, Hpt'. cbn [deref mbind res_bind].
  rewrite !(bool_decide_true (None = None)), !(bool_decide_false (Some _ = None)) by done. cbn [ASSERT orb negb mbind res_bind].
  destruct (pageTableSize m <=? _); [cbn; by split_and! |].
  destruct (untouched_lookup pt pt' (Z.to_nat (u32 va / PageSize)) Hu) as [[-> ->] | (e & e' & Hi & -> & He)]; [done | rewrite Hi].
  cbn [deref mbind res_bind]. assert (valid e' = valid e) as -> by (by injection He). destruct (valid e); cbn [negb]; [| cbn; by split_and!].
  rewrite (check_entry_untouched e e') by done. destruct (check_entry _ _ _ _) as [[ex pa] |]; cbn [mbind res_bind]; [| done].
  case_decide; [| cbn; by split_and!]. split_and!; [done | done |].
  assert (pages (with_pageTable m' (Some (<[Z.to_nat (u32 va / PageSize):=touch w e']> pt')))
    = pages (with_pageTable m (Some (<[Z.to_nat (u32 va / PageSize):=touch w e]> pt)))) as Hpg.
  { unfold pages. cbn. rewrite !list_fmap_insert, Hu. injection He as ? ? ? ?. do 2 f_equal. unfold touch, untouched. cbn. by f_equal. }
  split; try done. intros a Ha. apply Hb. revert Ha. unfold frames, table. cbn. rewrite Ht, Hpt. cbn. by rewrite frames_touch.
Qed.

Lemma load_agree m m' pa n f : agree m m' -> f ∈ frames m -> 0 <= f -> f * PageSize <= pa -> pa + Z.of_nat n <= (f + 1) * PageSize ->
  load m' pa n = load m pa n.
Proof.
  intros H Hf H0 H1 H2. unfold load. rewrite (ag_length _ _ H). case_match; [done |]. f_equal. apply list_eq. intros j.
  rewrite !lookup_slice. case_decide; [| done]. apply (ag_bytes _ _ H).
  replace (Z.of_nat (Z.to_nat pa + j) / PageSize) with f; [done |]. unfold PageSize in *.
  apply (Z.div_unique _ 128 f (Z.of_nat (Z.to_nat pa + j) - 128 * f)); lia.
Qed.

Lemma alike_store m m' pa bs : agree m m' -> alike_t (store m pa bs) (store m' pa bs).
Proof.
  intros H. unfold store. rewrite (ag_length _ _ H). destruct ((pa <? 0) || _) eqn:E; [done |].
  apply orb_false_iff in E as [E1%Z.ltb_ge E2%Z.ltb_ge]. destruct H as [? ? ? ? ? Hl Hb]. split; try done; cbn; [by rewrite !length_inserts |].
  intros a Ha. rewrite !lookup_inserts by (rewrite ?Hl; lia). case_decide; [done | by apply Hb].
Qed.

(** What translation finds, on both machines. *)
Lemma alike_ReadMem m m' va size : size = 1 \/ size = 2 \/ size = 4 -> agree m m' -> alike (ReadMem m va size) (ReadMem m' va size).
Proof.
  intros Hs H. unfold ReadMem. pose proof (alike_Translate m m' va size false H) as Ha.
  destruct (Translate m va size false) as [[[e pa] m1] |] eqn:E, (Translate m' va size false) as [[[e' pa'] m1'] |]; try done.
  destruct Ha as (-> & -> & Hm). cbn [mbind res_bind]. destruct (bool_decide_reflect (e = NoException)) as [He |]; cbn [negb]; [| by apply alike_raise].
  destruct (Translate_frame _ _ _ _ _ _ _ Hs E) as [Htr Hin]. destruct (Hin He) as (f & Hfm & H0 & H1 & H2). rewrite <- (tr_frames _ _ Htr) in Hfm.
  destruct Hs as [-> | [-> | ->]]; (apply alike_pure; [by apply (load_agree m1 m1' pa _ f) | by intros]).
Qed.

Lemma alike_WriteMem m m' va size v : size = 1 \/ size = 2 \/ size = 4 -> agree m m' -> alike (WriteMem m va size v) (WriteMem m' va size v).
Proof.
  intros Hs H. unfold WriteMem. pose proof (alike_Translate m m' va size true H) as Ha.
  destruct (Translate m va size true) as [[[e pa] m1] |], (Translate m' va size true) as [[[e' pa'] m1'] |]; try done.
  destruct Ha as (-> & -> & Hm). cbn [mbind res_bind]. destruct (negb _); [by apply alike_raise |].
  destruct Hs as [-> | [-> | ->]]; (apply alike_after; [by apply alike_store | by intros]).
Qed.

(** ** Instructions *)

Create HintDb alike.
#[local] Hint Resolve alike_set_reg alike_raise alike_Done alike_Fault alike_Ok alike_DelayedLoad reg_agree : alike.
#[local] Hint Extern 1 (alike (ReadMem _ _ _) _) => apply alike_ReadMem; auto : alike.
#[local] Hint Extern 1 (alike (WriteMem _ _ _ _) _) => apply alike_WriteMem; auto : alike.
#[local] Hint Extern 2 (alike (if ?b then _ else _) _) => destruct b : alike.
#[local] Hint Extern 2 (alike (let '(_, _) := ?x in _) _) => destruct x : alike.
#[local] Hint Extern 3 (alike (on_done _ _) _) => apply alike_on_done; [| intros ? ? ? ?] : alike.
#[local] Hint Extern 4 (alike (set_reg _ _ _ ≫= _) _) => apply alike_after; [| intros ? ? ?] : alike.
#[local] Hint Extern 5 (alike (_ ≫= _) _) => apply alike_pure; [| intros ?] : alike.
#[local] Hint Extern 5 (alike_t (_ ≫= _) _) => apply alike_t_pure; [| intros ?] : alike.

Ltac by_parts := cbv zeta; eauto 20 with alike nocore.

Lemma alike_branch m m' i pc b : agree m m' -> alike (branch m i pc b) (branch m' i pc b).
Proof. intros. unfold branch, finish. by_parts. Qed.
Lemma alike_assign m m' n v pc : agree m m' -> alike (assign m n v pc) (assign m' n v pc).
Proof. intros. unfold assign, finish. by_parts. Qed.
Lemma alike_set_hi_lo m m' a b pc : agree m m' -> alike (set_hi_lo m a b pc) (set_hi_lo m' a b pc).
Proof. intros. unfold set_hi_lo, finish. by_parts. Qed.
Lemma alike_link m m' r : agree m m' -> alike_t (link m r) (link m' r).
Proof. intros. unfold link. by_parts. Qed.
Lemma address_agree m m' i : agree m m' -> address m' i = address m i.
Proof. intros H. unfold address. by rewrite (reg_agree m m'). Qed.
Lemma pending_agree m m' r : agree m m' -> Mips.pending m' r = Mips.pending m r.
Proof. intros H. unfold Mips.pending. by rewrite !(reg_agree m m'). Qed.
#[local] Hint Resolve alike_branch alike_assign alike_set_hi_lo alike_link address_agree pending_agree : alike.
#[local] Hint Extern 4 (alike (link _ _ ≫= _) _) => apply alike_after; [| intros ? ? ?] : alike.
#[local] Hint Unfold exec_ADD exec_ADDI exec_SUB exec_BEQ exec_BNE exec_BGEZ exec_BGTZ exec_BLEZ exec_BLTZ exec_DIV exec_DIVU
  exec_J exec_JR exec_LB exec_LH exec_LW exec_LWL exec_LWR exec_store exec_SWL exec_SWR exec_MULT op_rd op_rt move finish : alike.

Lemma alike_Execute_late m m' i pc : agree m m' -> alike (Execute_late m i pc) (Execute_late m' i pc).
Proof. intros. unfold Execute_late. destruct (opCode i); try done; autounfold with alike; by_parts. Qed.

Lemma alike_Execute m m' i pc : agree m m' -> alike (Execute m i pc) (Execute m' i pc).
Proof. intros. unfold Execute. destruct (opCode i); first [by apply alike_Execute_late | autounfold with alike; by_parts]. Qed.

Lemma alike_advance m m' pc r v : agree m m' -> alike_t (advance m pc r v) (advance m' pc r v).
Proof.
  intros H. unfold advance. apply alike_t_after; [by apply alike_DelayedLoad |]. intros m1 m1' H1.
  do 2 (apply alike_t_pure; [by apply reg_agree | intros ?];
    apply alike_t_after; [by apply alike_set_reg |]; clear dependent m1; clear dependent m1'; intros m1 m1' H1).
  by apply alike_set_reg.
Qed.

(** An instruction does the same to two machines the program cannot tell apart. *)
Lemma alike_OneInstruction m m' : agree m m' -> alike (OneInstruction m) (OneInstruction m').
Proof.
  intros H. unfold OneInstruction. apply alike_pure; [by apply reg_agree |]. intros pc.
  apply alike_on_done; [apply alike_ReadMem; auto |]. intros raw m1 m1' H1.
  apply alike_pure; [done |]. intros i. apply alike_pure; [by apply reg_agree |]. intros npc.
  apply alike_on_done; [by apply alike_Execute |]. intros [[pa r] v] m2 m2' H2.
  apply alike_after; [by apply alike_advance |]. intros m3 m3' H3. by apply alike_Done.
Qed.
End Locality.

(** ** Kernel code between two instructions *)
Module TimeSharing.
Import Machine Mips Interrupt Threads Sched UserMode Locality.

(** What a program is for its processor: its registers, its page table, and the
    memory. *)
Definition view (k : kernel) (t : nat) (th : Thread) (sp : AddrSpace.t) : Machine.t :=
  Machine.mk (if decide (t = currentThread k) then registers (machine k) else userRegisters th)
    (mainMemory (machine k)) (tlb (machine k)) (AddrSpace.pageTable sp) (AddrSpace.numPages sp).

(** No program is changed, and none appears. *)
Definition seen (k k' : kernel) : Prop :=
  forall t th' sp, alive k' t th' -> space th' = Some sp ->
    exists th, alive k t th /\ space th = Some sp /\ view k' t th' sp = view k t th sp.

(** *** Without a switch *)
Record quiet (k k' : kernel) : Prop := {
  qt_current : currentThread k' = currentThread k;
  qt_machine : machine k' = machine k;
  qt_threads t th' : alive k' t th' -> space th' = None \/ exists th, alive k t th /\ user_same th th';
}.

#[local] Instance quiet_preorder : PreOrder quiet.
Proof.
  split.
  - intros k. split; [done | done |]. intros t th Ha. right. by exists th.
  - intros k1 k2 k3 [C1 M1 T1] [C2 M2 T2]. split; [congruence | congruence |]. intros t th3 H3.
    destruct (T2 t th3 H3) as [? | (th2 & H2 & Hu2)]; [by left |].
    destruct (T1 t th2 H2) as [Hn | (th1 & H1 & Hu1)]; [left; destruct Hu2; congruence | right].
    exists th1. split; [done | by eapply user_same_trans].
Qed.

Lemma quiet_seen k k' : quiet k k' -> seen k k'.
Proof.
  intros [Hc Hm Ht] t th' sp Ha Hsp. destruct (Ht t th' Ha) as [? | (th & Ha0 & [Hr Hs])]; [congruence |].
  exists th. split_and!; [done | congruence |]. unfold view. by rewrite Hc, Hm, Hr.
Qed.

Lemma quiet_eq k k' : currentThread k' = currentThread k -> machine k' = machine k -> threads k' = threads k -> quiet k k'.
Proof. intros Hc Hm Ht. split; [done | done |]. intros t th Ha. right. exists th. unfold alive in *. split; [congruence | done]. Qed.

Lemma thread_Ok k t th : thread k t = Ok th -> alive k t th.
Proof. unfold thread, alive. destruct (threads k !! t) as [[] |]; cbn; congruence. Qed.

Lemma quiet_set k k' t th th' : currentThread k' = currentThread k -> machine k' = machine k ->
  thread k t = Ok th -> user_same th th' -> threads k' = <[t := Some th']> (threads k) -> quiet k k'.
Proof.
  intros Hc Hm Ha%thread_Ok Hu Ht. split; [done | done |]. intros u w. unfold alive. rewrite Ht. intros Hw. right.
  destruct (decide (u = t)) as [-> | Hne].
  - rewrite list_lookup_insert_eq in Hw by (by eapply alive_lt). injection Hw as <-. by exists th.
  - rewrite list_lookup_insert_ne in Hw by done. by exists w.
Qed.

Ltac one_thread := eapply quiet_set; [done | done | eassumption | | reflexivity]; by split.

Lemma ReadyToRun_quiet k t k' : ReadyToRun k t = Ok k' -> quiet k k'.
Proof. unfold ReadyToRun. intros H. inv_ok. one_thread. Qed.

Lemma push_quiet k is_ k' : push k is_ = Ok k' -> quiet k k'.
Proof. unfold push. intros H. inv_ok. one_thread. Qed.

Lemma Sleep_quiet k fin k' : Sleep k fin = Ok k' -> quiet k k'.
Proof. unfold Sleep. intros H. inv_ok. one_thread. Qed.

Lemma set_holder_quiet k l h k' : set_holder k l h = Ok k' -> quiet k k'.
Proof. unfold set_holder. intros H. inv_ok. by apply quiet_eq. Qed.

Lemma V_quiet k s k' : V k s = Ok k' -> quiet k k'.
Proof.
  unfold V. intros H. inv_ok. destruct (queue a) as [| u q].
  - inv_ok. by apply quiet_eq.
  - inv_ok. destruct a1 as [v l]. inv_ok. trans (with_level k IntOff); [by apply quiet_eq |].
    etrans; [by eapply ReadyToRun_quiet | by apply quiet_eq].
Qed.

Lemma P_loop_quiet k s l k' : P_loop k s l = Ok k' -> quiet k k'.
Proof.
  unfold P_loop. intros H. inv_ok. case_match; inv_ok; [| by apply quiet_eq].
  match goal with H : push ?k1 _ = _ |- _ => trans k1; [by apply quiet_eq |] end.
  etrans; [by eapply push_quiet | by eapply Sleep_quiet].
Qed.

Lemma Release_quiet k l k' : Release k l = Ok k' -> quiet k k'.
Proof. unfold Release. intros H. inv_ok. etrans; [by eapply set_holder_quiet | by eapply V_quiet]. Qed.

Lemma Fork_quiet fresh k body k' : Fork fresh k body = Ok k' -> quiet k k'.
Proof.
  unfold Fork. intros H. inv_ok. etrans; [| etrans; [eapply ReadyToRun_quiet; eassumption | by apply quiet_eq]].
  split; [done | done |]. intros t th. unfold alive. cbn. intros [Ht | [_ Ht]]%lookup_app_Some; [right; by exists th |].
  apply list_lookup_singleton_Some in Ht as [_ [= <-]]. by left.
Qed.

(** *** With a switch *)

Lemma loaded_same m th : mainMemory (loaded m th) = mainMemory m /\ tlb (loaded m th) = tlb m.
Proof. unfold loaded. by destruct (space th). Qed.
Lemma loaded_space m th sp : space th = Some sp ->
  registers (loaded m th) = userRegisters th /\ pageTable (loaded m th) = AddrSpace.pageTable sp /\
  pageTableSize (loaded m th) = AddrSpace.numPages sp.
Proof. unfold loaded. by intros ->. Qed.
Lemma saved_space m th : space (saved m th) = space th.
Proof. unfold saved. by destruct (space th) eqn:E. Qed.
Lemma saved_registers m th sp : space th = Some sp -> userRegisters (saved m th) = registers m.
Proof. unfold saved. by intros ->. Qed.

(** The page table of the machine is the current program's. *)
Definition installed (k : kernel) : Prop :=
  forall th sp, alive k (currentThread k) th -> space th = Some sp ->
    pages (machine k) = pages (view k (currentThread k) th sp) /\ pageTableSize (machine k) = AddrSpace.numPages sp.

Lemma gives_seen k k' : gives k k' -> seen k k' /\ installed k' /\ tlb (machine k') = tlb (machine k).
Proof.
  intros (th & th' & l & n & fin & Ha & [Hur Hus] & Hsw & HR). pose proof (alive_lt _ _ _ Ha) as Hlt.
  assert (alive (give k th' l) (currentThread k) th') as Hg
    by (unfold alive; cbn; by rewrite list_lookup_insert_eq).
  destruct (sw_threads _ _ _ Hsw _ _ Hg) as (_ & _ & Hr & _ & _ & Hu & Hs & _).
  destruct (decide (n = currentThread k)) as [-> | Hne].
  - destruct fin.
    { destruct (sw_current _ _ _ Hsw) as (w & Hw & Hf). destruct (Hf eq_refl) as [Hb _].
      pose proof (alive_fun _ _ _ _ Hg Hw) as <-. assert (status th' = READY); [| congruence]. apply Hr. by left. }
    change (currentThread k) with (currentThread (give k th' l)) in HR at 1.
    rewrite (Run_self (give k th' l) th') in HR by (try done; by destruct Hsw). injection HR as <-. cbn [give threads machine currentThread].
    rewrite list_insert_insert_eq. set (th1 := saved (machine k) th').
    destruct (loaded_same (machine k) th1) as [Hm Ht]. split; [| split; [| exact Ht]].
    + intros t w sp Hw Hsp. unfold alive in Hw. cbn in Hw. unfold view. cbn. rewrite Hm, Ht.
      destruct (decide (t = currentThread k)) as [-> | Hne].
      * rewrite list_lookup_insert_eq in Hw by done. injection Hw as <-. cbn in Hsp. pose proof Hsp as Hsp'. unfold th1 in Hsp'. rewrite saved_space in Hsp'.
        exists th. split_and!; [done | congruence |]. destruct (loaded_space (machine k) th1 sp Hsp) as [-> _]. unfold th1. by rewrite (saved_registers _ _ sp).
      * rewrite list_lookup_insert_ne in Hw by done. by exists w.
    + intros w sp Hw Hsp. unfold alive in Hw. cbn in Hw. rewrite list_lookup_insert_eq in Hw by done. injection Hw as <-.
      destruct (loaded_space (machine k) th1 sp Hsp) as (_ & Hp & Hn). unfold pages. cbn. by rewrite Hp.
  - destruct (sw_alive _ _ _ Hsw n ltac:(by left)) as [nth Hnth]. destruct (sw_threads _ _ _ Hsw _ _ Hnth) as (_ & _ & _ & _ & _ & Hun & Hsn & _).
    rewrite (Run_other (give k th' l) n fin th' nth) in HR by (try done; by destruct Hsw). injection HR as <-. cbn [give threads machine currentThread].
    assert (alive k n nth) as Hn by (unfold alive in Hnth |- *; cbn in Hnth; by rewrite list_lookup_insert_ne in Hnth).
    pose proof (alive_lt _ _ _ Hn) as Hltn. destruct (loaded_same (machine k) nth) as [Hm Ht]. split; [| split; [| exact Ht]].
    + intros t w sp Hw Hsp. unfold alive in Hw. cbn in Hw. unfold view. cbn. rewrite Hm, Ht.
      destruct (decide (t = currentThread k)) as [-> | Hto].
      * rewrite list_lookup_insert_eq in Hw by (by rewrite !length_insert). destruct fin; [done |]. injection Hw as <-. rewrite saved_space in Hsp.
        rewrite (decide_False _ _ (not_eq_sym Hne)). exists th. split_and!; [done | congruence |]. by rewrite (saved_registers _ _ sp).
      * rewrite list_lookup_insert_ne in Hw by done. destruct (decide (t = n)) as [-> | Htn].
        -- rewrite list_lookup_insert_eq in Hw by (by rewrite length_insert). injection Hw as <-. exists nth.
           destruct (loaded_space (machine k) nth sp Hsp) as [-> _]. done.
        -- rewrite !list_lookup_insert_ne in Hw by done. by exists w.
    + intros w sp Hw Hsp. unfold alive in Hw. cbn in Hw. rewrite list_lookup_insert_ne, list_lookup_insert_eq in Hw by (try done; by rewrite length_insert).
      injection Hw as <-. destruct (loaded_space (machine k) nth sp Hsp) as (_ & Hp & Hnp). unfold pages. cbn. by rewrite Hp.
Qed.

(** *** Every step of the kernel *)

Lemma Yield_quiet k th k' : inv k -> running k th -> Yield k = Ok k' -> quiet k k' \/ gives k k'.
Proof.
  intros Hi Hr HY. destruct (readyList k) as [| n l] eqn:Hl.
  - rewrite Yield_alone in HY by done. injection HY as <-. by left.
  - right. rewrite (Yield_gives k th n l) in HY by done. exists th, (yielded k th), (l ++ [currentThread k]), n, false.
    split_and!; [apply Hr | done | by apply Yield_switching | done].
Qed.

(** The next call of the current thread makes it a user program. *)
Definition becomes_program (k : kernel) : Prop :=
  exists th sp r, alive k (currentThread k) th /\ code th = Set_Space sp :: r.

Lemma pop_quiet k th c : alive k (currentThread k) th -> quiet k (set_thread k (currentThread k) (set_code th c)).
Proof. intros Ha. eapply (quiet_set _ _ _ th); [done | done | by apply thread_alive | | reflexivity]. by split. Qed.

Lemma exec_running_quiet fresh k th k' : good k -> running k th -> ~ becomes_program k ->
  exec fresh k = Some (Ok k') -> quiet k k' \/ gives k k'.
Proof.
  intros Hg Hr Hb. pose proof (rn_alive _ _ Hr) as Ha. unfold exec. rewrite Ha. destruct (code th) as [| i c] eqn:Hc.
  { intros [= H]. left. unfold Finish in H. etrans; [| by eapply Sleep_quiet]. by apply quiet_eq. }
  destruct (pop_good k th Hg Hr i c Hc) as (Hg' & Hr' & Hpl). cbn [tail].
  pose proof (pop_quiet k th c Ha) as Hk. set (k1 := set_thread k (currentThread k) (set_code th c)) in *.
  destruct i; cbn [plain] in Hpl; try discriminate; intros [= H].
  3: { destruct (Yield_quiet k1 _ k' (proj1 Hg') Hr' H) as [Hq | (u & u' & l & n & fin & Hu & Hus & Hsw & HR)]; [left; by etrans | right].
    exists th, u', l, n, fin. pose proof (alive_fun _ _ _ _ Hu (rn_alive _ _ Hr')) as ->.
    assert (give k1 u' l = give k u' l) as E by (unfold give, k1; cbn; by rewrite list_insert_insert_eq).
    rewrite <- E. by split_and!. }
  all: left; etrans; [exact Hk |].
  - unfold P in H. etrans; [| by eapply push_quiet]. by apply quiet_eq.
  - by eapply V_quiet.
  - subst k'. by apply quiet_eq.
  - by eapply Fork_quiet.
  - unfold Finish in H. etrans; [| by eapply Sleep_quiet]. by apply quiet_eq.
  - unfold Acquire in H. inv_ok. by eapply push_quiet.
  - by eapply set_holder_quiet.
  - by eapply Release_quiet.
  - destruct Hb. by exists th, sp, c.
Qed.

(** Steps of the kernel: a call of the current thread, a time slice, a device. *)
Definition of_kernel (e : event) : Prop := match e with User _ => False | _ => True end.

Lemma kernel_step fresh k e k' : good k -> valid k e -> of_kernel e -> (e = Exec -> ~ becomes_program k) ->
  step fresh k e = Some (Ok k') -> quiet k k' \/ gives k k'.
Proof.
  intros Hg Hv Hk Hb. pose proof Hg as [Hi _]. destruct (current_cases k Hi) as (th & Ha & Hcase).
  destruct e as [| | s | m]; cbn [step].
  - destruct Hcase as [Hr | [(s & old & c & Hst & Hc) | (fin & c & Hc)]].
    + apply (exec_running_quiet fresh k th); [done | done | by apply Hb].
    + unfold exec. rewrite Ha, Hc. intros [= H]. left. etrans; [by apply (pop_quiet k th c) | by eapply P_loop_quiet].
    + rewrite (exec_sleep fresh k th fin c Hi Ha Hc). destruct (readyList k) as [| n l] eqn:Hl; [done |]. intros [= H]. right.
      exists th, (set_code th c), l, n, fin. split_and!; [done | done | by apply wake_up_switching | done].
  - destruct (decide (level k = IntOn)) as [Hlv |]; [| done]. intros [= H].
    apply (Yield_quiet k th); [done | by apply running_on | done].
  - destruct (_ || _); [| done]. intros [= H]. left. by eapply V_quiet.
  - done.
Qed.

(** ** The runs of the system *)

(** What happens to a program: an instruction (which may end in an exception),
    the completion of a pending load when an interrupt handler runs, and what the
    kernel writes to its registers and its memory to answer a call. *)
Inductive action : Type :=
  | Instr
  | Settle
  | Served (x : Machine.t).

(** What the kernel wrote, on a machine with other contents elsewhere. *)
Definition answered (m x : Machine.t) : Machine.t :=
  Machine.mk (registers x) (imap (fun a b => if decide (Z.of_nat a / PageSize ∈ frames m) then mainMemory x !!! a else b) (mainMemory m))
    (tlb m) (pageTable x) (pageTableSize x).

(** A program by itself. *)
Definition alone (a : action) (m : Machine.t) : res Machine.t :=
  match a with
  | Instr => o ← OneInstruction m; Ok (match o with Done _ m' | Trap _ m' => m' end)
  | Settle => DelayedLoad m 0 0
  | Served x => Ok (answered m x)
  end.

Fixpoint lives (tr : list action) (m : Machine.t) : res Machine.t :=
  match tr with [] => Ok m | a :: tr => m ← alone a m; lives tr m end.

(** The program of the current thread at work; the kernel answers it within its
    frames. *)
Definition acts (k : kernel) (a : action) (m : Machine.t) : Prop :=
  match a with Served x => m = x /\ confined (machine k) x | _ => alone a (machine k) = Ok m end.

Definition has_program (k : kernel) : Prop :=
  exists th sp, alive k (currentThread k) th /\ space th = Some sp.

(** One turn of the system.  A handler completes the pending load whoever runs. *)
Inductive turn (fresh : list Z) (k : kernel) : option action -> kernel -> Prop :=
  | turn_program a m : acts k a m -> a = Settle \/ has_program k -> turn fresh k (Some a) (with_machine k m)
  | turn_kernel e k' : of_kernel e -> valid k e -> (e = Exec -> ~ becomes_program k) ->
      step fresh k e = Some (Ok k') -> turn fresh k None k'.

(** Several turns, with what happened to which thread. *)
Inductive shared (fresh : list Z) (k0 : kernel) : list (nat * action) -> kernel -> Prop :=
  | shared_refl : shared fresh k0 [] k0
  | shared_turn tr k a k' : shared fresh k0 tr k -> turn fresh k a k' ->
      shared fresh k0 (match a with Some a => tr ++ [(currentThread k, a)] | None => tr end) k'.

Lemma shared_trans fresh k0 tr k1 tr' k2 : shared fresh k0 tr k1 -> shared fresh k1 tr' k2 -> shared fresh k0 (tr ++ tr') k2.
Proof.
  intros H1 H2. induction H2 as [| tr' k a k' _ IH Ht]; [by rewrite app_nil_r |].
  pose proof (shared_turn fresh k0 _ k a k' IH Ht) as H. destruct a; [by rewrite app_assoc | done].
Qed.

Definition of_thread (t : nat) (tr : list (nat * action)) : list action := snd <$> filter (fun x => x.1 = t) tr.

(** The programs have their own frames. *)
Record sharing (k : kernel) : Prop := {
  sh_good : good k;
  sh_tlb : tlb (machine k) = None;
  sh_installed : installed k;
  sh_apart t u th uh sp uq f : alive k t th -> alive k u uh -> t <> u -> space th = Some sp -> space uh = Some uq ->
    AddrSpace.uses_frame sp f -> ~ AddrSpace.uses_frame uq f;
}.

(** *** What a turn does to each program *)

Lemma answered_agree m s x : agree m s -> confined m x -> agree x (answered s x).
Proof.
  intros Ha Hc. pose proof (agree_frames m s Ha) as Hfs. destruct Ha as [_ _ _ Ht Ht' Hl Hb], Hc as [Hf _ _ _ Hxt Hxs _].
  split; try done; [by apply Hxt | cbn; rewrite length_imap; congruence |]. intros a Hin. cbn. rewrite list_lookup_imap, Hfs.
  destruct (mainMemory s !! a) as [b |] eqn:E; cbn.
  - rewrite decide_True by (by rewrite <- Hf). symmetry. apply list_lookup_lookup_total_lt. apply lookup_lt_Some in E. lia.
  - apply lookup_ge_None in E. symmetry. apply lookup_ge_None. lia.
Qed.

Lemma set_reg_memory m n v m' : set_reg m n v = Ok m' -> mainMemory m' = mainMemory m.
Proof. unfold set_reg. case_match; [done |]. by intros [= <-]. Qed.

Lemma DelayedLoad_memory m r v m' : DelayedLoad m r v = Ok m' -> mainMemory m' = mainMemory m.
Proof.
  unfold DelayedLoad. intros H. inv_ok. repeat match goal with E : set_reg _ _ _ = Ok _ |- _ => apply set_reg_memory in E end. congruence.
Qed.

Lemma acts_confined k a m : acts k a m -> confined (machine k) m.
Proof.
  destruct a as [| | x]; cbn [acts alone].
  - pose proof (stays_OneInstruction (machine k)) as Hs. destruct (OneInstruction (machine k)) as [[u m' | w m'] |]; by intros [= <-].
  - pose proof (stays_DelayedLoad (machine k) 0 0) as Hs. intros E. by rewrite E in Hs.
  - by intros [-> ?].
Qed.

(** A program alone does what the current program does. *)
Lemma acts_alone k a m s : acts k a m -> agree (machine k) s -> exists s', alone a s = Ok s' /\ agree m s'.
Proof.
  intros Ha Hs. destruct a as [| | x]; cbn [acts alone] in *.
  - pose proof (alike_OneInstruction _ _ Hs) as Hl. destruct (OneInstruction (machine k)) as [[[] m1 | w m1] |]; [injection Ha as <-.. | done];
      (destruct (OneInstruction s) as [[[] s' | w' s'] |]; try done; destruct Hl as [_ Hl]; by exists s').
  - pose proof (alike_DelayedLoad _ _ 0 0 Hs) as Hl. rewrite Ha in Hl. destruct (DelayedLoad s 0 0) as [s' |]; [| done]. by exists s'.
  - destruct Ha as [-> Hc]. eexists. split; [done | by eapply answered_agree].
Qed.

Lemma view_frames k t th sp f : tlb (machine k) = None -> f ∈ frames (view k t th sp) -> AddrSpace.uses_frame sp f.
Proof.
  intros Ht. unfold frames, table, view. cbn. rewrite Ht. intros (e & -> & He)%list_elem_of_fmap.
  destruct (AddrSpace.pageTable sp) as [pt |] eqn:Ep; cbn in He; [by exists pt, e | by apply elem_of_nil in He].
Qed.

Section turns.
#[local] Set Default Proof Using "Type*".
Context (fresh : list Z) (Hfresh : length fresh = 40%nat).
Implicit Types k : kernel.

Lemma current_agrees k th sp : sharing k -> alive k (currentThread k) th -> space th = Some sp ->
  agree (machine k) (view k (currentThread k) th sp).
Proof.
  intros [_ Ht Hi _] Ha Hsp. destruct (Hi th sp Ha Hsp) as [Hp Hn]. split; try done. cbn. by rewrite decide_True.
Qed.

Lemma other_agrees k a m t th sp : sharing k -> acts k a m -> a = Settle \/ has_program k ->
  t <> currentThread k -> alive k t th -> space th = Some sp ->
  agree (view k t th sp) (view (with_machine k m) t th sp).
Proof.
  intros Hsh Ha Hu Hne Hth Hsp. pose proof (acts_confined k a m Ha) as [_ _ _ _ Ht Hs Ho]. pose proof (sh_tlb k Hsh) as Htlb.
  split; try done; [cbn; by rewrite !decide_False | by apply Ht |]. intros b Hb. cbn.
  destruct Hu as [-> | (ch & cp & Hc & Hcp)]; [by rewrite (DelayedLoad_memory _ _ _ _ Ha) |]. apply Ho.
  rewrite <- (agree_frames _ _ (current_agrees k ch cp Hsh Hc Hcp)). intros Hin.
  apply view_frames in Hin; [| done]. apply view_frames in Hb; [| done].
  by apply (sh_apart k Hsh t (currentThread k) th ch sp cp (Z.of_nat b / PageSize)).
Qed.

Definition label k (a : option action) : list (nat * action) := match a with Some a => [(currentThread k, a)] | None => [] end.

Lemma turn_tracks k a k' t th' sp : sharing k -> turn fresh k a k' -> alive k' t th' -> space th' = Some sp ->
  exists th, alive k t th /\ space th = Some sp /\
    forall s, agree (view k t th sp) s -> exists s', lives (of_thread t (label k a)) s = Ok s' /\ agree (view k' t th' sp) s'.
Proof.
  intros Hsh Hturn Hth Hsp. pose proof (sh_good k Hsh) as Hg. destruct Hturn as [a m Ha Hu | e k' Hk Hv Hb Hst].
  - exists th'. split_and!; [done | done |]. intros s Hs. unfold of_thread, label. rewrite filter_cons, filter_nil. cbn [fst].
    case_decide as Hc; cbn.
    + subst t. pose proof (current_agrees k th' sp Hsh Hth Hsp) as Hcur.
      destruct (acts_alone k a m s Ha (agree_trans _ _ _ Hcur Hs)) as (s' & Hal & Hs').
      exists s'. split; [by rewrite Hal |].
      destruct (acts_confined k a m Ha) as [_ Hp Hl _ Ht _ _]. pose proof (sh_tlb k Hsh) as Htlb.
      apply (agree_trans _ m); [| done]. apply agree_sym. split; try (by cbn; rewrite ?decide_True); [| | by apply Ht | by apply Ht].
      * destruct (sh_installed k Hsh th' sp Hth Hsp) as [Hpg _]. by rewrite Hp, Hpg.
      * destruct (sh_installed k Hsh th' sp Hth Hsp) as [_ Hn]. by rewrite Hl, Hn.
    + exists s. split; [done |]. apply (agree_trans _ (view k t th' sp)); [| done]. apply agree_sym. by eapply other_agrees.
  - assert (seen k k') as Hse.
    { destruct (kernel_step fresh k e k' Hg Hv Hk Hb Hst) as [Hq | Hgv]; [by apply quiet_seen | by apply gives_seen]. }
    destruct (Hse t th' sp Hth Hsp) as (th & ? & ? & Hvw). exists th. split_and!; [done | done |].
    intros s Hs. exists s. by rewrite Hvw.
Qed.

Lemma quiet_installed k k' : quiet k k' -> installed k -> installed k'.
Proof.
  intros [Hc Hm Hth] Hi th sp. rewrite Hc. intros Ha Hsp. destruct (Hth _ th Ha) as [? | (th0 & Ha0 & [_ Hs])]; [congruence |].
  rewrite Hm. apply (Hi th0 sp Ha0). congruence.
Qed.

Lemma seen_apart k k' t u th uh sp uq f : sharing k -> seen k k' -> alive k' t th -> alive k' u uh -> t <> u ->
  space th = Some sp -> space uh = Some uq -> AddrSpace.uses_frame sp f -> ~ AddrSpace.uses_frame uq f.
Proof.
  intros Hsh Hse Ht Hu Hne Hst Hsu. destruct (Hse t th sp Ht Hst) as (th0 & Ht0 & Hst0 & _), (Hse u uh uq Hu Hsu) as (uh0 & Hu0 & Hsu0 & _).
  by apply (sh_apart k Hsh t u th0 uh0).
Qed.

Lemma turn_sharing k a k' : sharing k -> turn fresh k a k' -> sharing k'.
Proof.
  intros Hsh Hturn. pose proof Hsh as [Hg Ht Hi Hap]. destruct Hturn as [a m Ha Hu | e k' Hk Hv Hb Hst].
  - destruct (acts_confined k a m Ha) as [_ Hp Hl Hr Htm _ _]. split; [| by apply Htm | | exact Hap].
    + apply machine_good; [| done]. destruct Hg as [[] _]. congruence.
    + intros th sp Hth Hsp. destruct (Hi th sp Hth Hsp) as [Hpg Hn]. cbn [machine with_machine]. by rewrite Hp, Hl, Hpg.
  - assert (good k') as Hg'.
    { destruct (step_fine fresh k e _ Hfresh Hg Hv Hst) as [(? & [= <-] & ?) | [? _]]; done. }
    destruct (kernel_step fresh k e k' Hg Hv Hk Hb Hst) as [Hq | Hgv].
    + split; [done | by rewrite (qt_machine _ _ Hq) | by eapply quiet_installed |].
      intros t u th uh sp uq f. apply (seen_apart k k'); [done | by apply quiet_seen].
    + destruct (gives_seen k k' Hgv) as (Hse & Hi' & Ht'). split; [done | by rewrite Ht' | done |].
      intros t u th uh sp uq f. by apply (seen_apart k k').
Qed.

Lemma shared_sharing k0 tr k : sharing k0 -> shared fresh k0 tr k -> sharing k.
Proof. intros H0. induction 1 as [| tr k a k' _ IH Ht]; [done | by eapply turn_sharing]. Qed.

Lemma of_thread_app t tr tr' : of_thread t (tr ++ tr') = of_thread t tr ++ of_thread t tr'.
Proof. unfold of_thread. by rewrite filter_app, fmap_app. Qed.

Lemma lives_app tr tr' m m1 : lives tr m = Ok m1 -> lives (tr ++ tr') m = lives tr' m1.
Proof.
  revert m. induction tr as [| a tr IH]; intros m; cbn [lives app]; [by intros [= <-] |].
  destruct (alone a m) as [m' |]; [| done]. cbn [mbind res_bind]. apply IH.
Qed.

(** A turn of UserMode.v, which runs a program and the calls that need no
    scheduler, is an instruction here, and an answer when it made a call. *)
Lemma user_turn_shared creatable garbage random processID n (u u' : FileCalls.FileCalls.t) h k :
  UserMode.turn creatable garbage random processID n u = Ok h -> left_by h = Some u' ->
  FileCalls.FileCalls.machine u = machine k -> has_program k ->
  exists tr, shared fresh k tr (with_machine k (FileCalls.FileCalls.machine u')) /\
    (tr = [(currentThread k, Instr)] \/ tr = [(currentThread k, Instr); (currentThread k, Served (FileCalls.FileCalls.machine u'))]).
Proof.
  intros Ht Hl Hm Hp. unfold UserMode.turn in Ht. rewrite Hm in Ht. destruct (OneInstruction (machine k)) as [o |] eqn:Eo; [| done].
  cbn [mbind res_bind] in Ht.
  assert (shared fresh k [(currentThread k, Instr)] (with_machine k (match o with Done _ m | Trap _ m => m end))) as Hs.
  { apply (shared_turn fresh k [] k (Some Instr)); [constructor |]. apply turn_program; [| by right]. cbn [acts alone]. by rewrite Eo. }
  destruct o as [x m | w m].
  - injection Ht as <-. injection Hl as <-. eexists. split; [exact Hs | by left].
  - pose proof (handler_confined creatable garbage random processID n w _ h u' Ht Hl) as Hc. cbn in Hc.
    eexists. split; [| by right]. apply (shared_turn fresh k [_] _ (Some (Served (FileCalls.FileCalls.machine u'))) _ Hs).
    apply (turn_program fresh (with_machine k m) _ (FileCalls.FileCalls.machine u')); [by split | right; exact Hp].
Qed.

(** C4: time sharing is invisible.  Take a kernel in which each program has frames of
    its own, and any run of it in which the programs execute instructions, call
    the kernel and are answered, with time slices, device interrupts, switches and
    the kernel code of any thread between any two of these.  Then at the end every
    program has the registers, the page table and the memory it has when it runs
    alone, on a machine that only does what happened to this program: its own
    instructions, its own answers, and the completion of its pending loads where
    an interrupt was handled. *)
Theorem time_sharing_invisible k0 tr k t th sp :
  sharing k0 -> shared fresh k0 tr k -> alive k t th -> space th = Some sp ->
  exists th0, alive k0 t th0 /\ space th0 = Some sp /\
    exists m, lives (of_thread t tr) (view k0 t th0 sp) = Ok m /\ agree m (view k t th sp).
Proof.
  intros H0 Hr. revert t th sp. induction Hr as [| tr k a k' Hr IH Hturn]; intros t th sp Ha Hsp.
  - exists th. split_and!; [done | done |]. eexists. split; [done |]. apply agree_refl. apply (sh_tlb k0 H0).
  - pose proof (shared_sharing k0 tr k H0 Hr) as Hsh.
    destruct (turn_tracks k a k' t th sp Hsh Hturn Ha Hsp) as (th1 & Ha1 & Hsp1 & Hstep).
    destruct (IH t th1 sp Ha1 Hsp1) as (th0 & Ha0 & Hsp0 & m & Hl & Hag). exists th0. split_and!; [done | done |].
    destruct (Hstep m (agree_sym _ _ Hag)) as (m' & Hl' & Hag'). exists m'. split; [| by apply agree_sym].
    assert (of_thread t (match a with Some a => tr ++ [(currentThread k, a)] | None => tr end) = of_thread t tr ++ of_thread t (label k a)) as ->
      by (destruct a; cbn [label]; rewrite <- of_thread_app, ?app_nil_r; done).
    by rewrite (lives_app _ _ _ m).
Qed.
End turns.
End TimeSharing.

(** ** Two programs *)
Module TimeSharingDemo.
Import Machine Interrupt Threads Sched Locality TimeSharing.

Definition allowed (th : Thread) (e : event) : bool :=
  match e with Exec | TimeSlice => true | _ => false end && match code th with Set_Space _ :: _ => false | _ => true end.

(** A move of a run, as a function: an instruction or the completion of a load,
    or a step of the kernel. *)
Definition play (fresh : list Z) (k : kernel) (mv : action + event) : option (list (nat * action) * kernel) :=
  th ← threads k !! currentThread k ≫= id;
  match mv with
  | inl (Served _) => None
  | inl a => if bool_decide (is_Some (space th)) then
               match alone a (machine k) with Ok m => Some ([(currentThread k, a)], with_machine k m) | Fault _ => None end
             else None
  | inr e => if allowed th e then match step fresh k e with Some (Ok k') => Some ([], k') | _ => None end else None
  end.

Fixpoint plays (fresh : list Z) (tr : list (nat * action)) (k : kernel) (mvs : list (action + event)) : option (list (nat * action) * kernel) :=
  match mvs with
  | [] => Some (tr, k)
  | mv :: mvs => '(l, k) ← play fresh k mv; plays fresh (tr ++ l) k mvs
  end.

Lemma plays_shared fresh k0 mvs tr k tr' k' : shared fresh k0 tr k -> plays fresh tr k mvs = Some (tr', k') -> shared fresh k0 tr' k'.
Proof.
  revert tr k. induction mvs as [| mv mvs IH]; intros tr k Hs; cbn [plays]; [by intros [= <- <-] |].
  destruct (play fresh k mv) as [[l k1] |] eqn:E; [| done]. cbn. apply IH. unfold play in E.
  destruct (threads k !! currentThread k) as [[th |] |] eqn:Hth; cbn in E; try done. destruct mv as [a | e].
  - assert (l = [(currentThread k, a)] /\ acts k a (machine k1) /\ k1 = with_machine k (machine k1) /\ is_Some (space th)) as (-> & Ha & -> & sp & Hsp).
    { destruct a; try done; (case_bool_decide; [| done]); (destruct (alone _ _) eqn:Ea; [| done]); injection E as <- <-; by split_and!. }
    eapply (shared_turn _ _ _ k (Some a)); [done |]. apply turn_program; [done |]. right. by exists th, sp.
  - destruct (allowed th e) eqn:Eb; [| done]. unfold allowed in Eb. apply andb_true_iff in Eb as [He Hc].
    destruct (step fresh k e) as [[k2 |] |] eqn:Es; try done. injection E as <- <-. rewrite app_nil_r.
    eapply (shared_turn _ _ _ k None); [done |]. apply (turn_kernel _ _ e); [by destruct e | by destruct e | | done].
    intros _ (th1 & sp & r & Ha & Hc1). unfold alive in Ha. rewrite Hth in Ha. injection Ha as <-. by rewrite Hc1 in Hc.
Qed.

(** One page each: [addiu r8, r8, 5; sw r8, 64(r0); lw r9, 64(r0)], and the same
    with 7. *)
Definition code_of (n : Z) : list Z := concat (le_split 4 <$> [0x25080000 + n; 0xac080040; 0x8c090040]).
Definition page (n : Z) : list Z := code_of n ++ replicate 116 0.
Definition one_page (f : Z) : AddrSpace.t := AddrSpace.mk (Some [mkEntry 0 f true false false false]) 1.
Definition at_start (f : Z) : Machine.t :=
  AddrSpace.RestoreState (one_page f) (Machine.mk (<[35%nat := 4]> (replicate 40 0)) (page 5 ++ page 7) None None 0).
Definition main_program : list instr := [Call_Fork [Set_Space (one_page 1)]; Set_Space (one_page 0)].
Definition boot : kernel := Initialize SchedDemo.fresh (at_start 0) main_program [] [].
Definition k_start : kernel :=
  Eval vm_compute in default boot (SchedDemo.run boot [Exec; Exec; TimeSlice; Exec; Exec; User (at_start 1)]).

Lemma main_starts m : length (Machine.registers m) = 40%nat -> starts SchedDemo.fresh m main_program [] [].
Proof. split; [done | done | | apply Forall_nil | apply Forall_nil]; repeat (apply Forall_cons; split); try apply Forall_nil; done. Qed.

Lemma start_space t th : alive k_start t th -> space th = Some (one_page (Z.of_nat t)).
Proof. destruct t as [| [| t]]; intros [= <-]; done. Qed.

Lemma one_page_frame (n : nat) f : AddrSpace.uses_frame (one_page (Z.of_nat n)) f -> (n < 128)%nat -> f = Z.of_nat n.
Proof.
  intros (pt & e & [= <-] & ->%list_elem_of_singleton & <-) Hn. cbn. apply s32_id. unfold is_s32. lia.
Qed.

Lemma start_sharing : sharing k_start.
Proof.
  split.
  - apply (reaches_good SchedDemo.fresh boot); [done | by apply Initialize_good, main_starts |].
    apply (SchedDemo.run_reaches boot boot [Exec; Exec; TimeSlice; Exec; Exec; User (at_start 1)]);
      [by repeat constructor | constructor | by vm_compute].
  - done.
  - intros th sp Ha Hsp. injection Ha as <-. injection Hsp as <-. done.
  - intros t u th uh sp uq f Ht Hu Hne Hst Hsu Hf Hf2.
    pose proof (alive_lt _ _ _ Ht). pose proof (alive_lt _ _ _ Hu). cbn in *.
    pose proof (start_space t th Ht) as E1. pose proof (start_space u uh Hu) as E2. rewrite E1 in Hst. rewrite E2 in Hsu.
    injection Hst as <-. injection Hsu as <-. apply one_page_frame in Hf; [| lia]. apply one_page_frame in Hf2; [lia | lia].
Qed.

(** Both programs run for a while, with two time slices. *)
Definition moves : list (action + event) :=
  [inl Instr; inl Instr; inl Settle; inr TimeSlice; inr Exec; inl Instr; inl Instr; inl Instr; inl Settle;
   inr TimeSlice; inr Exec; inl Instr; inl Settle].
Definition after : option (list (nat * action) * kernel) := Eval vm_compute in plays SchedDemo.fresh [] k_start moves.
Definition trace : list (nat * action) := default [] (fst <$> after).
Definition k_end : kernel := default k_start (snd <$> after).

Lemma played : shared SchedDemo.fresh k_start trace k_end.
Proof. apply (plays_shared SchedDemo.fresh k_start moves [] k_start); [constructor | by vm_compute]. Qed.

(** The second program, which ran before the switch and after, has stored and
    loaded its own 7. *)
Lemma time_sharing_invisible_witness :
  exists m th, lives [Instr; Instr; Settle; Instr; Settle] (at_start 1) = Ok m /\ alive k_end 1 th /\
    agree m (view k_end 1 th (one_page 1)) /\ Machine.registers m !! 8%nat = Some 7 /\ Machine.registers m !! 9%nat = Some 7.
Proof.
  destruct (threads k_end !! 1%nat) as [[th |] |] eqn:E; [| by vm_compute in E..].
  assert (space th = Some (one_page 1)) as Hsp by (vm_compute in E; injection E as <-; by vm_compute).
  destruct (time_sharing_invisible SchedDemo.fresh eq_refl k_start trace k_end 1 th (one_page 1) start_sharing played E Hsp)
    as (th0 & H0 & Hs0 & m & Hl & Hag).
  exists m, th. injection H0 as <-.
  assert (lives [Instr; Instr; Settle; Instr; Settle] (at_start 1) = Ok m) as Hm by exact Hl.
  split_and!; [exact Hm | exact E | exact Hag | |]; vm_compute in Hm; injection Hm as <-; done.
Defined.
End TimeSharingDemo.
