(* ===== verification/Processes.v ===== *)
(** * Processes: threads/pcb.h, pcb.cc, threads/ptable.h, ptable.cc, and the calls
      Exec, Join and Exit of userprog/ksyscall.h

    The table of processes.  Its operations wait for each other on semaphores, so
    an operation is a value of [proc]: code up to the next semaphore operation or
    [Fork], and what follows.  Inside such a piece nobody else runs: the kernel
    code only gives the processor away, or lets the clock tick, when it sets the
    interrupt level.  A semaphore is its value here; that [P] on a value other
    than 0 goes on, and otherwise waits for a [V], is what Sched.v shows of the
    queues.  A control block is an object with an address; the destructor frees
    its semaphores and ends the thread, so that the object itself stays. *)

From S2P Require Import Prelude Bitmap.

Module PTable.

Definition MAX_PROCESS : nat := 10.

(** [class PCB]; a semaphore that was deleted is [None]. *)
Record PCB := mkPCB {
  joinsem : option Z;
  exitsem : option Z;
  multex : option Z;
  exitcode : Z;
  numwait : Z;
  thread : bool;                 (** [thread != NULL] *)
  FileName : list Z;
  parentID : Z;
  boolBG : Z;
}.

Definition with_joinsem (x : PCB) v := mkPCB v (exitsem x) (multex x) (exitcode x) (numwait x) (thread x) (FileName x) (parentID x) (boolBG x).
Definition with_exitsem (x : PCB) v := mkPCB (joinsem x) v (multex x) (exitcode x) (numwait x) (thread x) (FileName x) (parentID x) (boolBG x).
Definition with_multex (x : PCB) v := mkPCB (joinsem x) (exitsem x) v (exitcode x) (numwait x) (thread x) (FileName x) (parentID x) (boolBG x).
Definition with_exitcode (x : PCB) v := mkPCB (joinsem x) (exitsem x) (multex x) v (numwait x) (thread x) (FileName x) (parentID x) (boolBG x).
Definition with_numwait (x : PCB) v := mkPCB (joinsem x) (exitsem x) (multex x) (exitcode x) v (thread x) (FileName x) (parentID x) (boolBG x).
Definition with_thread (x : PCB) v := mkPCB (joinsem x) (exitsem x) (multex x) (exitcode x) (numwait x) v (FileName x) (parentID x) (boolBG x).
Definition with_FileName (x : PCB) v := mkPCB (joinsem x) (exitsem x) (multex x) (exitcode x) (numwait x) (thread x) v (parentID x) (boolBG x).
Definition with_parentID (x : PCB) v := mkPCB (joinsem x) (exitsem x) (multex x) (exitcode x) (numwait x) (thread x) (FileName x) v (boolBG x).

Section table.
Context {B : Type} `{SlotMap B}.

(** [class PTable]: [pcb] holds addresses, [objs] is what is there. *)
Record t := mk { bm : B; pcb : list (option nat); objs : list PCB; bmsem : Z }.

Definition with_bm (s : t) b := mk b (pcb s) (objs s) (bmsem s).
Definition with_pcb (s : t) p := mk (bm s) p (objs s) (bmsem s).
Definition with_objs (s : t) o := mk (bm s) (pcb s) o (bmsem s).
Definition with_bmsem (s : t) v := mk (bm s) (pcb s) (objs s) v.

Inductive semref : Set := Bmsem | Joinsem (a : nat) | Exitsem (a : nat) | Multex (a : nat).

(** What a thread has to do. *)
Inductive proc : Type :=
  | User (r2 : Z)                       (** runs its program; [r2] is the last result *)
  | Code (f : t -> res (t * proc))
  | CallP (s : semref) (k : proc)
  | CallV (s : semref) (k : proc)
  | CallFork (processID : Z) (k : proc)
  | Gone                                (** [Finish] does not return *)
  | Halted.

(** [pcb[i]] as a pointer that is followed, and the object behind one *)
Definition pcb_at (s : t) (i : Z) : res nat :=
  if i <? 0 then Fault MemoryFault else o ← deref (pcb s !! Z.to_nat i); deref o.
Definition obj (s : t) (a : nat) : res PCB := deref (objs s !! a).
Definition set_obj (s : t) (a : nat) (x : PCB) : t := with_objs s (<[a := x]> (objs s)).

(** ** Semaphores *)

Definition sem_value (s : t) (r : semref) : res Z :=
  match r with
  | Bmsem => Ok (bmsem s)
  | Joinsem a => x ← obj s a; deref (joinsem x)
  | Exitsem a => x ← obj s a; deref (exitsem x)
  | Multex a => x ← obj s a; deref (multex x)
  end.
Definition set_sem (s : t) (r : semref) (v : Z) : res t :=
  match r with
  | Bmsem => Ok (with_bmsem s v)
  | Joinsem a => x ← obj s a; Ok (set_obj s a (with_joinsem x (Some v)))
  | Exitsem a => x ← obj s a; Ok (set_obj s a (with_exitsem x (Some v)))
  | Multex a => x ← obj s a; Ok (set_obj s a (with_multex x (Some v)))
  end.

(** ** Control blocks *)

(** [new PCB(id)] by a thread of the process [me] *)
Definition new_PCB (s : t) (id me : Z) : nat * t :=
  (length (objs s),
   with_objs s (objs s ++ [mkPCB (Some 0) (Some 0) (Some 1) 0 0 false [] (if id =? 0 then -1 else me) 0])).

(** [strcpy] into [char FileName[32]] *)
Definition SetFileName (x : PCB) (fn : list Z) : res PCB :=
  if (32 <=? length fn)%nat then Fault MemoryFault else Ok (with_FileName x fn).

Definition IncNumWait (a : nat) (k : proc) : proc :=
  CallP (Multex a) (Code (fun s =>
    x ← obj s a; Ok (set_obj s a (with_numwait x (s32 (numwait x + 1))), CallV (Multex a) k))).

Definition DecNumWait (a : nat) (k : proc) : proc :=
  CallP (Multex a) (Code (fun s =>
    x ← obj s a;
    Ok (if 0 <? numwait x then set_obj s a (with_numwait x (numwait x - 1)) else s, CallV (Multex a) k))).

Definition JoinWait (a : nat) (k : proc) : proc := CallP (Joinsem a) k.
Definition JoinRelease (a : nat) (k : proc) : proc := CallV (Joinsem a) k.
Definition ExitWait (a : nat) (k : proc) : proc := CallP (Exitsem a) k.
Definition ExitRelease (a : nat) (k : proc) : proc := CallV (Exitsem a) k.

(** [PCB::Exec] *)
Definition Exec (a : nat) (id me : Z) (k : Z -> proc) : proc :=
  CallP (Multex a) (Code (fun s =>
    x ← obj s a;
    Ok (set_obj s a (with_parentID (with_thread x true) me), CallFork id (CallV (Multex a) (k id))))).

(** [delete] of a control block: [~PCB] frees the semaphores, and ends the thread
    when there is one. *)
Definition delete_PCB (s : t) (a : nat) (k : proc) : res (t * proc) :=
  x ← obj s a;
  let s := set_obj s a (with_joinsem (with_exitsem (with_multex x None) None) None) in
  Ok (s, if thread x then Gone else k).

(** ** The table *)

(** [PTable::PTable(size)], with its new bitmap; the thread that makes it does not
    matter for process 0. *)
Definition main_name : list Z := [46; 46; 47; 116; 101; 115; 116; 47; 110; 103; 104; 105; 97; 108; 97].
Definition create (b : B) : res t :=
  b ← slot_mark b 0;
  let '(a, s) := new_PCB (mk b (replicate MAX_PROCESS None) [] 1) 0 0 in
  x ← obj s a;
  x ← SetFileName x main_name;
  Ok (set_obj (with_pcb s (<[0%nat := Some a]> (pcb s))) a (with_parentID x (-1))).

Definition GetFreeSlot (s : t) : res (Z * t) := '(i, b) ← slot_find_and_set (bm s); Ok (i, with_bm s b).
Definition IsExist (s : t) (pid : Z) : res bool := slot_test (bm s) pid.
Definition GetFileName (s : t) (id : Z) : res (list Z) := a ← pcb_at s id; x ← obj s a; Ok (FileName x).

Definition Remove (s : t) (pid : Z) (k : proc) : res (t * proc) :=
  b ← slot_clear (bm s) pid;
  let s := with_bm s b in
  o ← (if pid <? 0 then Fault MemoryFault else deref (pcb s !! Z.to_nat pid));
  match o with Some a => delete_PCB s a k | None => Ok (s, k) end.

(** The part of [ExecUpdate] between [P] and the control block's [Exec].  [itself]:
    whether [name] is the name of the calling thread; a thread made by [Exec] has
    as its name a buffer that was freed, so that this can be anything. *)
Definition exec_body (me : Z) (name : option (list Z)) (itself : bool) (s : t) : res (t * proc) :=
  let fails s := Ok (s, CallV Bmsem (User (-1))) in
  match name with
  | None => fails s
  | Some name =>
      if bool_decide (name = main_name) || itself then fails s
      else
        '(index, s) ← GetFreeSlot s;
        if index <? 0 then fails s
        else
          let '(a, s) := new_PCB s index me in
          _ ← deref (pcb s !! Z.to_nat index);
          let s := with_pcb s (<[Z.to_nat index := Some a]> (pcb s)) in
          x ← obj s a;
          x ← SetFileName x name;
          let s := set_obj s a (with_parentID x me) in
          Ok (s, Exec a index me (fun pid => CallV Bmsem (User pid)))
  end.
Definition ExecUpdate (me : Z) (name : option (list Z)) (itself : bool) : proc :=
  CallP Bmsem (Code (exec_body me name itself)).

(** [JoinUpdate]: after [IncNumWait], and after [JoinWait] *)
Definition join_collect (id : Z) : proc :=
  Code (fun s => a ← pcb_at s id; x ← obj s a; Ok (s, ExitRelease a (User (exitcode x)))).
Definition join_wait (id : Z) : proc :=
  Code (fun s => a ← pcb_at s id; Ok (s, JoinWait a (join_collect id))).
Definition JoinUpdate (me id : Z) : proc :=
  Code (fun s =>
    if id <? 0 then Ok (s, User (-1))
    else
      a ← pcb_at s id; x ← obj s a;
      if negb (me =? parentID x) then Ok (s, User (-1))
      else p ← pcb_at s (parentID x); Ok (s, IncNumWait p (join_wait id))).

(** [ExitUpdate]: after [ExitWait], after [JoinRelease], and after [DecNumWait]; [k]
    is what its caller does with the result. *)
Definition exit_remove (me ec : Z) (k : Z -> proc) : proc := Code (fun s => Remove s me (k ec)).
Definition exit_wait (me ec : Z) (k : Z -> proc) : proc :=
  Code (fun s => a ← pcb_at s me; Ok (s, ExitWait a (exit_remove me ec k))).
Definition exit_release (me ec : Z) (k : Z -> proc) : proc :=
  Code (fun s => a ← pcb_at s me; Ok (s, JoinRelease a (exit_wait me ec k))).
Definition ExitUpdate (me ec : Z) (k : Z -> proc) : proc :=
  Code (fun s =>
    if me =? 0 then Ok (s, Halted)
    else
      b ← IsExist s me;
      if negb b then Ok (s, k (-1))
      else
        a ← pcb_at s me; x ← obj s a;
        let s := set_obj s a (with_exitcode x ec) in
        x ← obj s a; p ← pcb_at s (parentID x);
        Ok (s, DecNumWait p (exit_release me ec k))).

(** ** System calls *)

(** [name] is what [User2System] gives, [opens] whether the file can be opened. *)
Definition SysExec (me : Z) (name : option (list Z)) (opens itself : bool) : proc :=
  match name with
  | None => User (-1)
  | Some _ => if opens then ExecUpdate me name itself else User (-1)
  end.
Definition SysJoin (me id : Z) : proc := JoinUpdate me id.
(** After [ExitUpdate] the thread finishes; nothing happens for a code that is not 0. *)
Definition SysExit (me exitCode r2 : Z) : proc :=
  if exitCode =? 0 then ExitUpdate me exitCode (fun _ => Gone) else User r2.

Inductive call : Type :=
  | Call_Exec (name : option (list Z)) (opens itself : bool)
  | Call_Join (id : Z)
  | Call_Exit (exitCode : Z)
  | Call_ExitUpdate (ec : Z).     (** the table's own operation, for any code *)

Definition enter (me r2 : Z) (c : call) : proc :=
  match c with
  | Call_Exec name opens itself => SysExec me name opens itself
  | Call_Join id => SysJoin me id
  | Call_Exit ec => SysExit me ec r2
  | Call_ExitUpdate ec => ExitUpdate me ec (fun _ => Gone)
  end.

(** ** The threads and the table *)

(** A thread has a process and something to do. *)
Record sys := mkSys { tab : t; threads : list (Z * proc) }.

Inductive event : Type := Run (th : nat) | Call (th : nat) (c : call).

(** A step of one thread; [None] when it has to wait, or the event does not apply. *)
Definition step (s : sys) (e : event) : option (res sys) :=
  match e with
  | Run th =>
      match threads s !! th with
      | Some (me, p) =>
          let go (T : t) (k : proc) := mkSys T (<[th := (me, k)]> (threads s)) in
          match p with
          | Code f => Some ('(T, k) ← f (tab s); Ok (go T k))
          | CallP r k =>
              match sem_value (tab s) r with
              | Ok v => if v =? 0 then None else Some (T ← set_sem (tab s) r (v - 1); Ok (go T k))
              | Fault e => Some (Fault e)
              end
          | CallV r k => Some (v ← sem_value (tab s) r; T ← set_sem (tab s) r (v + 1); Ok (go T k))
          | CallFork pid k => Some (Ok (mkSys (tab s) (<[th := (me, k)]> (threads s) ++ [(pid, User 0)])))
          | User _ | Gone | Halted => None
          end
      | None => None
      end
  | Call th c =>
      match threads s !! th with
      | Some (me, User r2) => Some (Ok (mkSys (tab s) (<[th := (me, enter me r2 c)]> (threads s))))
      | _ => None
      end
  end.

(** The kernel starts with the thread of process 0. *)
Definition start (b : B) : res sys := s ← create b; Ok (mkSys s [(0, User 0)]).
End table.
Arguments t : clear implicits.
Arguments proc : clear implicits.
Arguments sys : clear implicits.
End PTable.
