(* ===== verification/Joins.v ===== *)
(** * Joins: the process table does what Exec, Join and Exit promise

    Programs that join each child once, and exit when they have joined all, never
    make the table follow a pointer to something freed, whatever the interleaving;
    [Join] returns the exit code of the child.  The proof gives every thread a
    program point, every slot in use a view of its control block, and every child
    a state of the handshake between it and its parent. *)

From S2P Require Import Prelude Bitmap Processes.

Module Joins.
Import PTable.

(** ** The table, seen as a map *)

(** What the handshake needs of a control block. *)
Record view := mkV { adr : nat; jn : Z; ex : Z; code : Z; par : Z }.

Definition shows (x : PCB) (v : view) : Prop :=
  joinsem x = Some (jn v) /\ exitsem x = Some (ex v) /\ is_Some (multex x) /\ exitcode x = code v /\ parentID x = par v.

Section table.
Context {B : Type} `{SlotMapLaws B}.
#[local] Set Default Proof Using "Type*".

Record abs (T : t B) (V : gmap Z view) : Prop := {
  ab_wf : slots_wf (bm T);
  ab_slots : length (slots (bm T)) = MAX_PROCESS;
  ab_pcb : length (pcb T) = MAX_PROCESS;
  ab_view i v : V !! i = Some v -> 0 <= i /\ slots (bm T) !! Z.to_nat i = Some true /\
    pcb T !! Z.to_nat i = Some (Some (adr v)) /\ exists x, objs T !! adr v = Some x /\ shows x v;
  ab_used i : slots (bm T) !! i = Some true -> is_Some (V !! Z.of_nat i);
  ab_inj i i' v v' : V !! i = Some v -> V !! i' = Some v' -> adr v = adr v' -> i = i';
}.

Lemma pcb_at_spec T V i v : abs T V -> V !! i = Some v -> pcb_at T i = Ok (adr v).
Proof.
  intros Ha Hv. destruct (ab_view _ _ Ha i v Hv) as (H0' & _ & Hp & _). unfold pcb_at.
  destruct (Z.ltb_spec i 0); [lia |]. by rewrite Hp.
Qed.

Lemma obj_spec T V i v : abs T V -> V !! i = Some v -> exists x, obj T (adr v) = Ok x /\ shows x v.
Proof.
  intros Ha Hv. destruct (ab_view _ _ Ha i v Hv) as (_ & _ & _ & x & Hx & ?). exists x. unfold obj. by rewrite Hx.
Qed.

(** A control block changes. *)
Lemma abs_set_obj T V i v v' x :
  abs T V -> V !! i = Some v -> adr v' = adr v -> shows x v' -> abs (set_obj T (adr v) x) (<[i := v']> V).
Proof.
  intros Ha Hv Had Hx. pose proof Ha as [? ? ? Hview Hused Hinj]. split; cbn [set_obj with_objs with_bm bm pcb objs]; try done.
  - intros i' w Hw. destruct (decide (i' = i)) as [-> | Hne].
    + rewrite lookup_insert_eq in Hw. injection Hw as <-. destruct (Hview i v Hv) as (? & ? & ? & y & Hy & _).
      rewrite Had. split_and!; [done | done | done |]. exists x. split; [| done].
      rewrite list_lookup_insert_eq; [done | by eapply lookup_lt_Some].
    + rewrite lookup_insert_ne in Hw by done. destruct (Hview i' w Hw) as (? & ? & ? & y & ? & ?).
      split_and!; [done | done | done |]. exists y. rewrite list_lookup_insert_ne; [done |].
      intros He. by apply Hne, (Hinj i' i w v).
  - intros i' Hi'. rewrite lookup_insert_is_Some'. right. by apply Hused.
  - intros i1 i2 v1 v2 [[<- <-] | [Hn1 H1]]%lookup_insert_Some [[<- <-] | [Hn2 H2]]%lookup_insert_Some He; try done.
    + rewrite Had in He. by apply (Hinj i i2 v v2).
    + rewrite Had in He. by apply (Hinj i1 i v1 v).
    + by apply (Hinj i1 i2 v1 v2).
Qed.

(** One that shows the same. *)
Lemma abs_same T V i v x : abs T V -> V !! i = Some v -> shows x v -> abs (set_obj T (adr v) x) V.
Proof. intros Ha Hv Hx. rewrite <- (insert_id V i v Hv). by apply abs_set_obj. Qed.

Lemma abs_bmsem T V v : abs T V -> abs (with_bmsem T v) V.
Proof. intros []. by split. Qed.

(** The semaphores. *)
Lemma multex_spec T V i v : abs T V -> V !! i = Some v ->
  exists m, sem_value T (Multex (adr v)) = Ok m /\
    forall m', exists T', set_sem T (Multex (adr v)) m' = Ok T' /\ abs T' V.
Proof.
  intros Ha Hv. destruct (obj_spec T V i v Ha Hv) as (x & Hx & Hs). pose proof Hs as (? & ? & [m Hm] & ? & ?).
  exists m. cbn [sem_value set_sem]. rewrite Hx. cbn [mbind res_bind]. rewrite Hm. split; [done |].
  intros m'. eexists. split; [done |]. apply (abs_same T V i); [done | done |]. by split_and!.
Qed.

Lemma joinsem_spec T V i v m : abs T V -> V !! i = Some v ->
  sem_value T (Joinsem (adr v)) = Ok (jn v) /\
  exists T', set_sem T (Joinsem (adr v)) m = Ok T' /\ abs T' (<[i := mkV (adr v) m (ex v) (code v) (par v)]> V).
Proof.
  intros Ha Hv. destruct (obj_spec T V i v Ha Hv) as (x & Hx & Hs). pose proof Hs as (Hj & ? & ? & ? & ?).
  cbn [sem_value set_sem]. rewrite Hx. cbn [mbind res_bind]. rewrite Hj. split; [done |].
  eexists. split; [done |]. apply abs_set_obj; [done | done | done |]. by split_and!.
Qed.

Lemma exitsem_spec T V i v m : abs T V -> V !! i = Some v ->
  sem_value T (Exitsem (adr v)) = Ok (ex v) /\
  exists T', set_sem T (Exitsem (adr v)) m = Ok T' /\ abs T' (<[i := mkV (adr v) (jn v) m (code v) (par v)]> V).
Proof.
  intros Ha Hv. destruct (obj_spec T V i v Ha Hv) as (x & Hx & Hs). pose proof Hs as (? & He & ? & ? & ?).
  cbn [sem_value set_sem]. rewrite Hx. cbn [mbind res_bind]. rewrite He. split; [done |].
  eexists. split; [done |]. apply abs_set_obj; [done | done | done |]. by split_and!.
Qed.

Lemma IsExist_spec T V i v : abs T V -> V !! i = Some v -> IsExist T i = Ok true.
Proof.
  intros Ha Hv. destruct (ab_view _ _ Ha i v Hv) as (Hi & Hs & _). unfold IsExist.
  rewrite <- (Z2Nat.id i) by done. by apply slot_test_law; [destruct Ha |].
Qed.

(** A new control block in a free slot. *)
Lemma new_block T V me name :
  abs T V -> (length name < 32)%nat -> me <> -1 ->
  (GetFreeSlot T = Ok (-1, T)) \/
  exists i T1, GetFreeSlot T = Ok (i, T1) /\ 0 < i + 1 /\ V !! i = None /\
    let a := length (objs T1) in
    let T2 := snd (new_PCB T1 i me) in
    (exists o, pcb T2 !! Z.to_nat i = Some o) /\
    let T3 := with_pcb T2 (<[Z.to_nat i := Some a]> (pcb T2)) in
    exists x x', obj T3 a = Ok x /\ SetFileName x name = Ok x' /\
      abs (set_obj T3 a (with_parentID x' me)) (<[i := mkV a 0 0 0 me]> V).
Proof.
  intros Ha Hn Hme. pose proof Ha as [Hwf Hl Hp Hview Hused Hinj]. pose proof (slot_find_law _ Hwf) as Hf. unfold GetFreeSlot.
  destruct (first_clear (slots (bm T))) as [i |] eqn:Hi; [right | left; rewrite Hf; by destruct T].
  destruct Hf as (b & -> & Hwf' & Hsl). apply Bitmap.first_clear_Some in Hi as [Hi _]. pose proof (lookup_lt_Some _ _ _ Hi) as Hlt.
  exists (Z.of_nat i), (with_bm T b). split; [done |]. split; [lia |].
  assert (V !! Z.of_nat i = None) as HV.
  { destruct (V !! Z.of_nat i) as [v |] eqn:E; [| done]. destruct (Hview _ _ E) as (_ & Hc & _).
    rewrite Nat2Z.id in Hc. congruence. }
  split; [done |]. cbn [new_PCB fst snd with_bm with_objs with_pcb pcb objs]. rewrite Nat2Z.id.
  split; [apply lookup_lt_is_Some_2; lia |].
  eexists _, _. split; [unfold obj; cbn; by rewrite list_lookup_middle |].
  split; [unfold SetFileName; destruct (Nat.leb_spec 32 (length name)); [lia | done] |].
  assert (forall j v, V !! j = Some v -> adr v < length (objs T))%nat as Hfresh.
  { intros j v Hv. destruct (Hview _ _ Hv) as (_ & _ & _ & x & Hx & _). by eapply lookup_lt_Some. }
  split; cbn [set_obj with_objs with_pcb with_bm bm pcb objs].
  - done.
  - by rewrite Hsl, length_insert.
  - by rewrite length_insert.
  - intros j v [[<- <-] | [Hne Hv]]%lookup_insert_Some; cbn [adr].
    + rewrite Nat2Z.id, Hsl, !list_lookup_insert_eq; [| rewrite length_app; cbn; lia | lia | done].
      split_and!; [lia | done | done |]. eexists. split; [done |]. by split_and!.
    + destruct (Hview j v Hv) as (Hj & Hs & Hpj & x & Hx & ?). assert (i <> Z.to_nat j) by lia.
      rewrite Hsl, !list_lookup_insert_ne by (done || (pose proof (Hfresh j v Hv); lia)).
      split_and!; [done | done | done |]. exists x. split; [by apply lookup_app_l_Some | done].
  - rewrite Hsl. intros j Hj. rewrite lookup_insert_is_Some'. destruct (decide (j = i)) as [-> | Hne]; [by left |].
    rewrite list_lookup_insert_ne in Hj by done. right. by apply Hused.
  - intros i1 i2 v1 v2 [[<- <-] | [Hn1 H1]]%lookup_insert_Some [[<- <-] | [Hn2 H2]]%lookup_insert_Some He; cbn [adr] in He; try done.
    + pose proof (Hfresh _ _ H2). lia.
    + pose proof (Hfresh _ _ H1). lia.
    + by apply (Hinj i1 i2 v1 v2).
Qed.

(** [Remove], by a thread with a control block. *)
Lemma Remove_spec' T V i v :
  abs T V -> V !! i = Some v -> exists T', Remove T i Gone = Ok (T', Gone) /\ abs T' (delete i V).
Proof.
  intros Ha Hv. pose proof Ha as [Hwf Hl Hp Hview Hused Hinj]. destruct (Hview i v Hv) as (Hi & Hs & Hpi & x & Hx & _).
  pose proof (lookup_lt_Some _ _ _ Hs) as Hlt. destruct (slot_clear_law _ (Z.to_nat i) Hwf Hlt) as (b & Hb & Hwf' & Hsl).
  rewrite Z2Nat.id in Hb by done. unfold Remove. rewrite Hb. cbn [mbind res_bind]. destruct (Z.ltb_spec i 0); [lia |].
  cbn [with_bm pcb]. rewrite Hpi. cbn [deref mbind res_bind]. unfold delete_PCB, obj. cbn [with_bm objs]. rewrite Hx. cbn [deref mbind res_bind].
  eexists. split; [by destruct (thread x) |]. split; cbn [set_obj with_objs with_bm bm pcb objs]; try done.
  - by rewrite Hsl, length_insert.
  - intros j w [Hne Hw]%lookup_delete_Some. destruct (Hview j w Hw) as (Hj & Hsj & Hpj & y & Hy & ?).
    assert (Z.to_nat i <> Z.to_nat j) by lia. rewrite Hsl, list_lookup_insert_ne by done.
    split_and!; [done | done | done |]. exists y. rewrite list_lookup_insert_ne; [done |].
    intros He. by apply Hne, (Hinj i j v w).
  - rewrite Hsl. intros j [[? ?] | [Hne Hj]]%list_lookup_insert_Some; [naive_solver |].
    rewrite lookup_delete_ne by lia. by apply Hused.
  - intros i1 i2 v1 v2 [_ E1]%lookup_delete_Some [_ E2]%lookup_delete_Some. by apply Hinj.
Qed.
End table.

(** ** Program points *)

Inductive point : Type :=
  | PUser (r : Z)
  | PHalting (ec : Z)
  | PHalt
  | PExec (name : option (list Z)) (itself : bool)
  | PBody (name : option (list Z)) (itself : bool)
  | PDone (r : Z)                       (** [bmsem->V()] is left *)
  | PMade (i : Z) (a : nat)             (** [PCB::Exec], in order *)
  | PFill (i : Z) (a : nat)
  | PFork (i : Z) (a : nat)
  | PForked (i : Z) (a : nat)
  | PJoin (i : Z)                       (** [JoinUpdate], in order *)
  | PInc (i : Z) (p : nat)
  | PIncIn (i : Z) (p : nat)
  | PIncOut (i : Z) (p : nat)
  | PWait (i : Z)
  | PBlock (i : Z) (a : nat)
  | PCollect (i : Z)
  | PRelease (i : Z) (a : nat) (r : Z)
  | PExit (ec : Z)                      (** [ExitUpdate], in order *)
  | PDec (ec : Z) (p : nat)
  | PDecIn (ec : Z) (p : nat)
  | PDecOut (ec : Z) (p : nat)
  | PPost (ec : Z)
  | PPostIn (ec : Z) (a : nat)
  | PLinger (ec : Z)
  | PLingerIn (ec : Z) (a : nat)
  | PRemove (ec : Z).

Section points.
Context {B : Type} `{SlotMap B}.

(** What is left after a semaphore operation. *)
Definition rest (k : proc B) : proc B := match k with CallP _ k | CallV _ k => k | _ => Gone end.
Definition finish : Z -> proc B := fun _ => Gone.
Definition made (a : nat) (i me : Z) : proc B := Exec a i me (fun pid => CallV Bmsem (User pid)).

Definition denote (me : Z) (p : point) : proc B :=
  match p with
  | PUser r => User r
  | PHalting ec => ExitUpdate 0 ec finish
  | PHalt => Halted
  | PExec name itself => ExecUpdate me name itself
  | PBody name itself => rest (ExecUpdate me name itself)
  | PDone r => CallV Bmsem (User r)
  | PMade i a => made a i me
  | PFill i a => rest (made a i me)
  | PFork i a => CallFork i (CallV (Multex a) (CallV Bmsem (User i)))
  | PForked i a => CallV (Multex a) (CallV Bmsem (User i))
  | PJoin i => JoinUpdate me i
  | PInc i p => IncNumWait p (join_wait i)
  | PIncIn i p => rest (IncNumWait p (join_wait i))
  | PIncOut i p => CallV (Multex p) (join_wait i)
  | PWait i => join_wait i
  | PBlock i a => JoinWait a (join_collect i)
  | PCollect i => join_collect i
  | PRelease i a r => ExitRelease a (User r)
  | PExit ec => ExitUpdate me ec finish
  | PDec ec p => DecNumWait p (exit_release me ec finish)
  | PDecIn ec p => rest (DecNumWait p (exit_release me ec finish))
  | PDecOut ec p => CallV (Multex p) (exit_release me ec finish)
  | PPost ec => exit_release me ec finish
  | PPostIn ec a => JoinRelease a (exit_wait me ec finish)
  | PLinger ec => exit_wait me ec finish
  | PLingerIn ec a => ExitWait a (exit_remove me ec finish)
  | PRemove ec => exit_remove me ec finish
  end.

(** The threads of the processes that live. *)
Record at_points (ths : list (Z * proc B)) (P : gmap Z (nat * point)) : Prop := {
  ap_forth me th p : P !! me = Some (th, p) -> ths !! th = Some (me, denote me p);
  ap_back th me k : ths !! th = Some (me, k) -> k = Gone \/ exists p, P !! me = Some (th, p);
}.

Lemma points_move ths P me th p p' :
  at_points ths P -> P !! me = Some (th, p) ->
  at_points (<[th := (me, denote me p')]> ths) (<[me := (th, p')]> P).
Proof.
  intros [Hf Hb] Hp. pose proof (lookup_lt_Some _ _ _ (Hf _ _ _ Hp)) as Hlt. split.
  - intros me2 th2 p2 [[<- [= <- <-]] | [Hne Hp2]]%lookup_insert_Some; [by apply list_lookup_insert_eq |].
    rewrite list_lookup_insert_ne; [by apply Hf |]. intros ->.
    pose proof (Hf _ _ _ Hp) as E1. rewrite (Hf _ _ _ Hp2) in E1. congruence.
  - intros th2 me2 k [[<- [[= <- <-] _]] | [Hne Hk]]%list_lookup_insert_Some.
    + right. exists p'. apply lookup_insert_eq.
    + destruct (Hb th2 me2 k Hk) as [-> | [p2 Hp2]]; [by left | right].
      destruct (decide (me2 = me)) as [-> | Hme]; [congruence |]. exists p2. by rewrite lookup_insert_ne.
Qed.

Lemma points_end ths P me th p :
  at_points ths P -> P !! me = Some (th, p) -> at_points (<[th := (me, Gone)]> ths) (delete me P).
Proof.
  intros [Hf Hb] Hp. pose proof (lookup_lt_Some _ _ _ (Hf _ _ _ Hp)) as Hlt. split.
  - intros me2 th2 p2 [Hne Hp2]%lookup_delete_Some. rewrite list_lookup_insert_ne; [by apply Hf |]. intros ->.
    pose proof (Hf _ _ _ Hp) as E1. rewrite (Hf _ _ _ Hp2) in E1. congruence.
  - intros th2 me2 k [[<- [[= <- <-] _]] | [Hne Hk]]%list_lookup_insert_Some; [by left |].
    destruct (Hb th2 me2 k Hk) as [-> | [p2 Hp2]]; [by left | right].
    destruct (decide (me2 = me)) as [-> | Hme]; [congruence |]. exists p2. by rewrite lookup_delete_ne.
Qed.

Lemma points_fork ths P i : at_points ths P -> P !! i = None ->
  at_points (ths ++ [(i, User 0)]) (<[i := (length ths, PUser 0)]> P).
Proof.
  intros [Hf Hb] Hi. split.
  - intros me th p [[<- [= <- <-]] | [Hne Hp]]%lookup_insert_Some; [by apply list_lookup_middle |].
    apply lookup_app_l_Some. by apply Hf.
  - intros th me k [Hk | [Hge Hk]]%lookup_app_Some.
    + destruct (Hb th me k Hk) as [-> | [p Hp]]; [by left | right]. exists p.
      rewrite lookup_insert_ne; [done |]. congruence.
    + apply list_lookup_singleton_Some in Hk as [Hz [= <- <-]]. right. exists (PUser 0).
      rewrite lookup_insert_eq. do 2 f_equal. lia.
Qed.
End points.

(** ** The handshake of a child with its parent *)

Inductive stage : Set :=
  | Due          (** not joined yet *)
  | Joining
  | Collecting   (** its parent is past [JoinWait] *)
  | Collected.   (** and past [ExitRelease] *)
#[global] Instance stage_eq_dec : EqDecision stage.
Proof. solve_decision. Defined.

(** The process a thread deals with, and what it knows of it. *)
Inductive deal : Type :=
  | Makes (a : nat)
  | Made (a : nat)
  | Joins
  | Blocks (a : nat)
  | Collects
  | Releases (a : nat) (r : Z).
Definition target (p : point) : option (Z * deal) :=
  match p with
  | PMade i a | PFill i a | PFork i a => Some (i, Makes a)
  | PForked i a => Some (i, Made a)
  | PJoin i => if i <? 0 then None else Some (i, Joins)
  | PInc i _ | PIncIn i _ | PIncOut i _ | PWait i => Some (i, Joins)
  | PBlock i a => Some (i, Blocks a)
  | PCollect i => Some (i, Collects)
  | PRelease i a r => Some (i, Releases a r)
  | _ => None
  end.
Definition deal_stage (d : deal) : option stage :=
  match d with
  | Makes _ => None | Made _ => Some Due | Joins | Blocks _ => Some Joining | Collects | Releases _ _ => Some Collecting
  end.
Definition deal_ok (v : view) (d : deal) : Prop :=
  match d with
  | Makes a => adr v = a /\ jn v = 0 /\ ex v = 0
  | Made a | Blocks a => adr v = a
  | Joins | Collects => True
  | Releases a r => adr v = a /\ code v = r
  end.
Definition target_ok (V : gmap Z view) (G : gmap Z stage) (me : Z) (p : point) : Prop :=
  match target p with
  | Some (i, d) => i <> 0 /\ G !! i = deal_stage d /\ exists v, V !! i = Some v /\ par v = me /\ deal_ok v d
  | None => True
  end.

Definition short (name : option (list Z)) : Prop := match name with Some n => (length n < 32)%nat | None => True end.

(** What a thread knows of its own process. *)
Definition self_ok (V : gmap Z view) (me : Z) (p : point) : Prop :=
  match p with
  | PHalting _ => me = 0
  | PExec name _ | PBody name _ => short name
  | PInc _ q | PIncIn _ q | PIncOut _ q => exists v, V !! me = Some v /\ adr v = q
  | PExit _ => me <> 0
  | PDec ec q | PDecIn ec q | PDecOut ec q =>
      me <> 0 /\ exists v w, V !! me = Some v /\ code v = ec /\ V !! par v = Some w /\ adr w = q
  | PPost ec | PLinger ec | PRemove ec => me <> 0 /\ exists v, V !! me = Some v /\ code v = ec
  | PPostIn ec a | PLingerIn ec a => me <> 0 /\ exists v, V !! me = Some v /\ code v = ec /\ adr v = a
  | _ => True
  end.

(** Where a process is on its way out. *)
Definition leaving (p : point) : bool :=
  match p with
  | PExit _ | PDec _ _ | PDecIn _ _ | PDecOut _ _ | PPost _ | PPostIn _ _ | PLinger _ | PLingerIn _ _ | PRemove _ => true
  | _ => false
  end.
Definition lingers (p : point) : bool := match p with PLinger _ | PLingerIn _ _ => true | _ => false end.
Definition removes (p : point) : bool := match p with PRemove _ => true | _ => false end.

Definition handshake (g : stage) (v : view) (p : point) : Prop :=
  match g with
  | Due | Joining => jn v = (if lingers p then 1 else 0) /\ ex v = 0 /\ removes p = false
  | Collecting => lingers p = true /\ jn v = 0 /\ ex v = 0
  | Collected => jn v = 0 /\ ((lingers p = true /\ ex v = 1) \/ (removes p = true /\ ex v = 0))
  end.

Definition busy_with (i : Z) (g : stage) (p : point) : Prop :=
  match g with
  | Due => True
  | _ => exists d, target p = Some (i, d) /\ deal_stage d = Some g
  end.

Record fits (V : gmap Z view) (P : gmap Z (nat * point)) (G : gmap Z stage) : Prop := {
  ft_live me th p : P !! me = Some (th, p) -> target_ok V G me p /\ self_ok V me p /\ me <> -1 /\
    exists v, V !! me = Some v /\ (me <> 0 -> exists g, G !! me = Some g /\ handshake g v p);
  ft_zero : G !! 0 = None /\ is_Some (V !! 0);
  ft_child i g : G !! i = Some g -> is_Some (P !! i) /\ forall v, V !! i = Some v ->
    g <> Collected -> exists th p, P !! par v = Some (th, p) /\ leaving p = false /\ busy_with i g p;
  ft_used i v : V !! i = Some v -> is_Some (P !! i) \/ exists th p a, P !! par v = Some (th, p) /\ target p = Some (i, Makes a);
  ft_range i : is_Some (V !! i) -> 0 <= i;
}.

(** *** Moves

    A thread goes on, and neither the views nor the stages change. *)
Lemma fits_move V P G me th p p' :
  fits V P G -> P !! me = Some (th, p) ->
  target_ok V G me p' -> self_ok V me p' -> lingers p' = lingers p -> removes p' = removes p ->
  (leaving p' = true -> leaving p = true \/ forall i g v, G !! i = Some g -> V !! i = Some v -> par v = me -> g = Collected) ->
  (forall i g v, G !! i = Some g -> V !! i = Some v -> par v = me -> busy_with i g p -> busy_with i g p') ->
  (forall i a, target p = Some (i, Makes a) -> exists a', target p' = Some (i, Makes a')) ->
  fits V (<[me := (th, p')]> P) G.
Proof.
  intros [Hl Hz Hc Hu Hrg] Hp Ht Hs Hli Hre Hle Hb Hm. destruct (Hl _ _ _ Hp) as (_ & _ & Hme & v0 & Hv0 & Hg0). split; [| done | | | done].
  - intros me2 th2 p2 [[<- [= <- <-]] | [Hne Hp2]]%lookup_insert_Some; [| by apply (Hl me2 th2)].
    split_and!; [done | done | done |]. exists v0. split; [done |]. intros Hn. destruct (Hg0 Hn) as (g & Hg & Hh). exists g.
    split; [done |]. revert Hh. unfold handshake. by rewrite Hli, Hre.
  - intros i g Hg. destruct (Hc i g Hg) as [Hpi Hpar]. split; [rewrite lookup_insert_is_Some'; by right |].
    intros v Hv Hn. destruct (Hpar v Hv Hn) as (th2 & p2 & Hp2 & Hlv & Hbusy).
    destruct (decide (par v = me)) as [He | Hne].
    + rewrite He in *. rewrite Hp in Hp2. injection Hp2 as <- <-. exists th, p'. rewrite lookup_insert_eq.
      split_and!; [done | | by eapply Hb]. destruct (leaving p') eqn:E; [| done].
      destruct (Hle eq_refl) as [? | Hall]; [congruence |]. destruct Hn. by eapply Hall.
    + exists th2, p2. by rewrite lookup_insert_ne.
  - intros i v Hv. destruct (Hu i v Hv) as [? | (th2 & p2 & a & Hp2 & Hta)]; [left; rewrite lookup_insert_is_Some'; by right | right].
    destruct (decide (par v = me)) as [He | Hne].
    + rewrite He in *. rewrite Hp in Hp2. injection Hp2 as <- <-. destruct (Hm i a Hta) as [a' ?]. exists th, p', a'. by rewrite lookup_insert_eq.
    + exists th2, p2, a. by rewrite lookup_insert_ne.
Qed.

(** When the target is the same, the same children wait. *)
Lemma busy_same p p' i d d' :
  target p = Some (i, d) -> target p' = Some (i, d') -> deal_stage d' = deal_stage d ->
  forall j g, busy_with j g p -> busy_with j g p'.
Proof.
  intros Ht Ht' Hd j g. unfold busy_with. destruct g; [done | |..]; intros (e & He & Hg);
    rewrite Ht in He; injection He as <- <-; exists d'; by rewrite Hd.
Qed.

(** A thread without a target keeps nobody waiting. *)
Lemma busy_none p p' : target p = None -> forall j g, busy_with j g p -> busy_with j g p'.
Proof. intros Ht j g. unfold busy_with. destruct g; [done | |..]; intros (e & He & _); by rewrite Ht in He. Qed.

(** What a thread knows does not change when another one changes a view. *)
Definition keeps (v v' : view) : Prop := adr v' = adr v /\ par v' = par v.

Lemma self_ok_view V i v v' me p :
  V !! i = Some v -> keeps v v' -> (me = i -> code v' = code v) -> self_ok V me p -> self_ok (<[i := v']> V) me p.
Proof.
  intros Hv [Ha Hpar] Hco.
  assert (forall j w, V !! j = Some w -> exists w', <[i := v']> V !! j = Some w' /\ keeps w w' /\ (j = me -> code w' = code w)) as Hk.
  { intros j w Hw. destruct (decide (j = i)) as [-> | Hne].
    - exists v'. rewrite lookup_insert_eq. split; [done |]. rewrite Hv in Hw. injection Hw as <-. split; [done |]. by intros ->; apply Hco.
    - exists w. by rewrite lookup_insert_ne. }
  destruct p; cbn [self_ok]; try done.
  1-3: intros (w & Hw & He); destruct (Hk _ _ Hw) as (w' & Hw' & [Ha' _] & _); exists w'; split; [done | congruence].
  1-3: intros (Hn & w & u & Hw & He & Hu & Hq); split; [done |];
    destruct (Hk _ _ Hw) as (w' & Hw' & [_ Hp'] & Hc'), (Hk _ _ Hu) as (u' & Hu' & [Ha' _] & _);
    exists w', u'; rewrite Hp', (Hc' eq_refl), Ha'; by split_and!.
  all: intros (Hn & w & Hw & He); split; [done |]; destruct (Hk _ _ Hw) as (w' & Hw' & [Ha' _] & Hc'); exists w';
    rewrite ?Ha', (Hc' eq_refl); by split; [| exact He].
Qed.

Lemma target_ok_view V G i v v' me p :
  V !! i = Some v -> keeps v v' -> G !! i <> None -> (G !! i = Some Collecting -> code v' = code v) ->
  target_ok V G me p -> target_ok (<[i := v']> V) G me p.
Proof.
  intros Hv [Ha Hpar] Hgn Hco. unfold target_ok. destruct (target p) as [[j d] |]; [| done].
  intros (Hj & Hg & w & Hw & Hp & Hd). split; [done |]. split; [done |].
  destruct (decide (j = i)) as [-> | Hne]; [| exists w; by rewrite lookup_insert_ne].
  exists v'. rewrite lookup_insert_eq. rewrite Hv in Hw. injection Hw as <-. split_and!; [done | congruence |].
  destruct d; cbn [deal_ok deal_stage] in *; rewrite ?Ha; try done.
  destruct Hd as [? ?]. split; [done |]. by rewrite Hco.
Qed.

(** Nor when a child of another process goes to another stage. *)
Lemma target_ok_stage V G i v g me p :
  V !! i = Some v -> par v <> me -> target_ok V G me p -> target_ok V (<[i := g]> G) me p.
Proof.
  intros Hv Hne. unfold target_ok. destruct (target p) as [[j d] |]; [| done].
  intros (Hj & Hg & w & Hw & Hp & Hd). split; [done |]. rewrite lookup_insert_ne; [by split; [| exists w] |].
  intros ->. congruence.
Qed.

(** The child [i] and the thread [me], its parent or its own, take a step together. *)
Section Step.
Context (V : gmap Z view) (P : gmap Z (nat * point)) (G : gmap Z stage).
Context (me : Z) (th : nat) (p p' : point) (i : Z) (v v' : view) (g g' : stage).
Context (Hfit : fits V P G) (Hp : P !! me = Some (th, p)) (Hv : V !! i = Some v) (Hk : keeps v v') (Hg : G !! i = Some g).
Context (Hactor : g' = g \/ par v = me) (Hcode : code v' = code v \/ (i = me /\ g <> Collecting)).
Context (Ht : target_ok (<[i := v']> V) (<[i := g']> G) me p') (Hs : self_ok (<[i := v']> V) me p').
Context (Hh : forall thi pi, <[me := (th, p')]> P !! i = Some (thi, pi) -> handshake g' v' pi).
Context (Hsame : me <> i -> lingers p' = lingers p /\ removes p' = removes p).
Context (Hle : leaving p' = true -> leaving p = true) (Hgg : g' <> Collected -> g <> Collected).
Context (Hb : forall j h, j <> i -> busy_with j h p -> busy_with j h p').
Context (Hbi : par v = me -> g' <> Collected -> busy_with i g' p').
Context (Hnm : forall j a, target p <> Some (j, Makes a)).
#[local] Set Default Proof Using "All".

Lemma fits_step_live me2 th2 p2 : <[me := (th, p')]> P !! me2 = Some (th2, p2) ->
  target_ok (<[i := v']> V) (<[i := g']> G) me2 p2 /\ self_ok (<[i := v']> V) me2 p2 /\ me2 <> -1 /\
  exists w, <[i := v']> V !! me2 = Some w /\ (me2 <> 0 -> exists h, <[i := g']> G !! me2 = Some h /\ handshake h w p2).
Proof.
  intros Hp2. pose proof Hp2 as Hp2'.
  assert (target_ok (<[i := v']> V) (<[i := g']> G) me2 p2 /\ self_ok (<[i := v']> V) me2 p2) as [Ht2 Hs2].
  { apply lookup_insert_Some in Hp2 as [[<- [= <- <-]] | [Hne Hp2]]; [done |].
    destruct (ft_live _ _ _ Hfit _ _ _ Hp2) as (Ht2 & Hs2 & _). split.
    - assert (target_ok (<[i := v']> V) G me2 p2) as Ht3.
      { apply (target_ok_view V G i v v'); [done | done | congruence | | done]. destruct Hcode as [? | [_ ?]]; [done |]. congruence. }
      destruct Hactor as [-> | Hpar]; [by rewrite (insert_id G) |].
      apply (target_ok_stage _ _ _ v'); [by rewrite lookup_insert_eq | destruct Hk; congruence | done].
    - apply (self_ok_view V i v v'); [done | done | | done]. intros ->. destruct Hcode as [? | [? _]]; [done | congruence]. }
  split; [done |]. split; [done |].
  assert (exists p3, P !! me2 = Some (th2, p3) /\ (me2 <> i -> lingers p2 = lingers p3 /\ removes p2 = removes p3)) as (p3 & Hp3 & Hlr).
  { apply lookup_insert_Some in Hp2 as [[<- [= <- <-]] | [Hne Hp2]]; [by exists p | by exists p2]. }
  destruct (ft_live _ _ _ Hfit _ _ _ Hp3) as (_ & _ & Hm1 & w & Hw & Hhs). split; [done |].
  destruct (decide (me2 = i)) as [-> | Hne].
  - exists v'. rewrite !lookup_insert_eq. split; [done |]. intros _. exists g'. split; [done |]. by apply (Hh th2).
  - exists w. rewrite !lookup_insert_ne by done. split; [done |]. intros Hz. destruct (Hhs Hz) as (h & Hgh & Hhh). exists h.
    split; [done |]. destruct (Hlr Hne) as [Hl Hr]. revert Hhh. unfold handshake. by rewrite Hl, Hr.
Qed.

Lemma fits_step_child j h : <[i := g']> G !! j = Some h ->
  is_Some (<[me := (th, p')]> P !! j) /\ forall w, <[i := v']> V !! j = Some w -> h <> Collected ->
  exists th2 p2, <[me := (th, p')]> P !! par w = Some (th2, p2) /\ leaving p2 = false /\ busy_with j h p2.
Proof.
  intros Hj. assert (exists h0, G !! j = Some h0 /\ (j = i /\ h0 = g /\ h = g' \/ j <> i /\ h0 = h)) as (h0 & Hj0 & Hcase).
  { apply lookup_insert_Some in Hj as [[<- <-] | [? ?]]; [exists g | exists h]; (split; [done |]); [left | right]; by repeat split. }
  destruct (ft_child _ _ _ Hfit j h0 Hj0) as [HPj Hpar]. split; [rewrite lookup_insert_is_Some'; by right |].
  intros w Hw Hn. assert (exists w0, V !! j = Some w0 /\ par w = par w0 /\ (j = i -> w0 = v)) as (w0 & Hw0 & Hpw & Hwv).
  { apply lookup_insert_Some in Hw as [[<- <-] | [? ?]]; [exists v; split; [done | split; [apply Hk | done]] | by exists w]. }
  assert (h0 <> Collected) as Hn0 by (destruct Hcase as [(_ & -> & ->) | (_ & ->)]; [by apply Hgg | done]).
  destruct (Hpar w0 Hw0 Hn0) as (th2 & p2 & Hp2 & Hlv & Hbz). rewrite Hpw.
  destruct (decide (par w0 = me)) as [He | Hne].
  - rewrite He in *. rewrite Hp in Hp2. injection Hp2 as <- <-. exists th, p'. rewrite lookup_insert_eq. split; [done |].
    split; [destruct (leaving p') eqn:E; [| done]; by rewrite Hle in Hlv |].
    destruct Hcase as [(-> & -> & ->) | (Hji & ->)]; [| by apply Hb]. apply Hbi; [| done]. by rewrite <- (Hwv eq_refl).
  - exists th2, p2. rewrite lookup_insert_ne by done. split; [done |]. split; [done |].
    destruct Hcase as [(-> & -> & ->) | (Hji & ->)]; [| done]. rewrite (Hwv eq_refl) in Hne.
    destruct Hactor as [-> | ?]; [done | congruence].
Qed.

Lemma fits_step : fits (<[i := v']> V) (<[me := (th, p')]> P) (<[i := g']> G).
Proof.
  split.
  - apply fits_step_live.
  - destruct (ft_zero _ _ _ Hfit) as [Hz HV]. split; [| rewrite lookup_insert_is_Some'; by right].
    rewrite lookup_insert_ne; [done |]. congruence.
  - apply fits_step_child.
  - intros j w Hw. assert (exists w0, V !! j = Some w0 /\ par w = par w0) as (w0 & Hw0 & ->).
    { apply lookup_insert_Some in Hw as [[<- <-] | [? ?]]; [exists v; split; [done | apply Hk] | by exists w]. }
    destruct (ft_used _ _ _ Hfit j w0 Hw0) as [? | (th2 & p2 & a & Hp2 & Hta)]; [left; rewrite lookup_insert_is_Some'; by right | right].
    exists th2, p2, a. rewrite lookup_insert_ne; [done |]. intros He. rewrite <- He, Hp in Hp2. injection Hp2 as <- <-. by destruct (Hnm j a).
  - intros j. rewrite lookup_insert_is_Some'. intros [<- | Hj]; apply (ft_range _ _ _ Hfit); [by exists v | done].
Qed.
End Step.

(** A process is made: its slot, then its thread. *)
Lemma fits_make V P G me th p i v a :
  fits V P G -> P !! me = Some (th, p) -> target p = None -> leaving p = false -> lingers p = false -> removes p = false ->
  V !! i = None -> 0 <= i -> v = mkV a 0 0 0 me -> fits (<[i := v]> V) (<[me := (th, PMade i a)]> P) G.
Proof.
  intros Hfit Hp Ht Hlv Hli Hre Hi Hi0' ->. pose proof Hfit as [Hl [Hz [v0 HV0]] Hc Hu Hrg].
  assert (i <> 0) as Hi0 by congruence. assert (P !! i = None) as HPi.
  { destruct (P !! i) as [[thi pi] |] eqn:E; [| done]. destruct (Hl _ _ _ E) as (_ & _ & _ & w & Hw & _). congruence. }
  assert (G !! i = None) as HGi by (destruct (G !! i) as [g |] eqn:E; [destruct (Hc i g E) as [[? ?] _]; congruence | done]).
  assert (forall j w, V !! j = Some w -> <[i := mkV a 0 0 0 me]> V !! j = Some w) as Hfw
    by (intros j w Hw; rewrite lookup_insert_ne; [done | congruence]).
  destruct (Hl _ _ _ Hp) as (_ & _ & Hm1 & vm & Hvm & Hhm). split.
  - intros me2 th2 p2 [[<- [= <- <-]] | [Hne Hp2]]%lookup_insert_Some.
    + split; [| split; [done |]].
      * cbn. split; [done |]. split; [done |]. eexists. rewrite lookup_insert_eq. by split.
      * split; [done |]. exists vm. split; [by apply Hfw |]. intros Hn. destruct (Hhm Hn) as (g & Hg & Hh). exists g. split; [done |].
        revert Hh. unfold handshake. by rewrite Hli, Hre.
    + destruct (Hl _ _ _ Hp2) as (Ht2 & Hs2 & Hm2 & w & Hw & Hh). split; [| split; [| split; [done |]]].
      * revert Ht2. unfold target_ok. destruct (target p2) as [[j d] |]; [| done].
        intros (? & ? & u & Hu' & ?). split; [done |]. split; [done |]. exists u. split; [by apply Hfw | done].
      * revert Hs2. destruct p2; cbn [self_ok]; try done; naive_solver.
      * exists w. split; [by apply Hfw | done].
  - split; [done |]. exists v0. by apply Hfw.
  - intros j g Hg. destruct (Hc j g Hg) as [? Hpar]. split; [rewrite lookup_insert_is_Some'; by right |].
    intros w Hw Hn. rewrite lookup_insert_ne in Hw by congruence. destruct (Hpar w Hw Hn) as (th2 & p2 & Hp2 & Hlv2 & Hb2).
    destruct (decide (par w = me)) as [He | Hne]; [| exists th2, p2; by rewrite lookup_insert_ne].
    rewrite He in *. rewrite Hp in Hp2. injection Hp2 as <- <-. exists th, (PMade i a). rewrite lookup_insert_eq.
    split_and!; [done | done |]. by apply (busy_none p).
  - intros j w [[<- <-] | [Hne Hw]]%lookup_insert_Some; cbn [par].
    + right. exists th, (PMade i a), a. by rewrite lookup_insert_eq.
    + destruct (Hu j w Hw) as [? | (th2 & p2 & a2 & Hp2 & Hta)]; [left; rewrite lookup_insert_is_Some'; by right | right].
      exists th2, p2, a2. rewrite lookup_insert_ne; [done |]. intros He. congruence.
  - intros j. rewrite lookup_insert_is_Some'. intros [<- | Hj]; [done | by apply Hrg].
Qed.

(** A slot that is being filled has no thread yet. *)
Lemma making_free V P G me th p i a :
  fits V P G -> P !! me = Some (th, p) -> target p = Some (i, Makes a) ->
  exists v, i <> 0 /\ i <> me /\ G !! i = None /\ P !! i = None /\ V !! i = Some v /\ par v = me /\ adr v = a /\ jn v = 0 /\ ex v = 0.
Proof.
  intros Hfit Hp Hta. destruct (ft_live _ _ _ Hfit _ _ _ Hp) as (Ht & _). unfold target_ok in Ht. rewrite Hta in Ht.
  destruct Ht as (Hi & Hg & v & Hv & Hpar & Ha & Hj & He). cbn in Hg.
  assert (P !! i = None) as HPi.
  { destruct (P !! i) as [[thi pi] |] eqn:E; [| done].
    destruct (ft_live _ _ _ Hfit _ _ _ E) as (_ & _ & _ & w & _ & Hh). destruct (Hh Hi) as (g & ? & _). congruence. }
  exists v. split_and!; try done. congruence.
Qed.

(** Its thread starts. *)
Lemma fits_fork V P G me th i a n :
  fits V P G -> P !! me = Some (th, PFork i a) ->
  fits V (<[i := (n, PUser 0)]> (<[me := (th, PForked i a)]> P)) (<[i := Due]> G).
Proof.
  intros Hfit Hp. pose proof Hfit as [Hl [Hz HV0] Hc Hu Hrg].
  destruct (making_free V P G me th _ i a Hfit Hp eq_refl) as (v & Hi & Him & HG & HPi & Hv & Hpar & Ha & Hj & He).
  destruct (Hl _ _ _ Hp) as (_ & _ & Hm1 & vm & Hvm & Hhm).
  assert (i <> -1) as Hi1 by (intros ->; specialize (Hrg (-1) ltac:(by exists v)); lia).
  assert (forall p2 me2, me2 <> me -> target_ok V G me2 p2 -> target_ok V (<[i := Due]> G) me2 p2) as Hto
    by (intros p2 me2 Hne; apply (target_ok_stage _ _ _ v); congruence).
  split.
  - intros me2 th2 p2 [[<- [= <- <-]] | [Hne1 [[<- [= <- <-]] | [Hne2 Hp2]]%lookup_insert_Some]]%lookup_insert_Some.
    + split; [done |]. split; [done |]. split; [done |]. exists v. split; [done |]. intros _. exists Due.
      rewrite lookup_insert_eq. split; [done |]. by split.
    + split; [cbn; split; [done |]; rewrite lookup_insert_eq; split; [done |]; by exists v |]. split; [done |]. split; [done |].
      exists vm. split; [done |]. intros Hn. destruct (Hhm Hn) as (g & Hg & Hh). exists g. by rewrite lookup_insert_ne.
    + destruct (Hl _ _ _ Hp2) as (Ht2 & Hs2 & Hm2 & w & Hw & Hh). split; [by apply Hto |]. split; [done |]. split; [done |].
      exists w. split; [done |]. rewrite lookup_insert_ne by done. done.
  - split; [by rewrite lookup_insert_ne | done].
  - intros j g [[<- <-] | [Hne Hg]]%lookup_insert_Some.
    + split; [by rewrite lookup_insert_eq |]. intros w Hw _. rewrite Hv in Hw. injection Hw as <-. exists th, (PForked i a).
      rewrite Hpar, lookup_insert_ne, lookup_insert_eq by done. by split_and!.
    + destruct (Hc j g Hg) as [HPj Hparj]. split; [by rewrite lookup_insert_is_Some', lookup_insert_is_Some'; right; right |].
      intros w Hw Hn. destruct (Hparj w Hw Hn) as (th2 & p2 & Hp2 & Hlv2 & Hb2).
      rewrite lookup_insert_ne by congruence. destruct (decide (par w = me)) as [E | Hne2].
      * rewrite E in *. rewrite Hp in Hp2. injection Hp2 as <- <-. exists th, (PForked i a). rewrite lookup_insert_eq.
        split_and!; [done | done |]. revert Hb2. unfold busy_with. destruct g; [done | |..]; cbn; naive_solver.
      * exists th2, p2. by rewrite lookup_insert_ne.
  - intros j w Hw. destruct (decide (j = i)) as [-> | Hne]; [left; by rewrite lookup_insert_eq |].
    destruct (Hu j w Hw) as [? | (th2 & p2 & a2 & Hp2 & Hta)]; [left; by rewrite lookup_insert_is_Some', lookup_insert_is_Some'; right; right | right].
    rewrite lookup_insert_ne by congruence. destruct (decide (par w = me)) as [E | Hne2].
    + rewrite E, Hp in Hp2. injection Hp2 as <- <-. cbn in Hta. congruence.
    + exists th2, p2, a2. by rewrite lookup_insert_ne.
  - done.
Qed.

(** A process ends. *)
Lemma fits_remove V P G me th ec :
  fits V P G -> P !! me = Some (th, PRemove ec) -> fits (delete me V) (delete me P) (delete me G) /\ G !! me = Some Collected.
Proof.
  intros Hfit Hp. pose proof Hfit as [Hl [Hz HV0] Hc Hu Hrg].
  destruct (Hl _ _ _ Hp) as (_ & [Hme _] & _ & vm & Hvm & Hhm). destruct (Hhm Hme) as (g0 & Hg0 & Hh0).
  assert (g0 = Collected) as -> by (destruct g0; cbn in Hh0; naive_solver). split; [| done].
  assert (forall j g w, G !! j = Some g -> V !! j = Some w -> g <> Collected -> par w <> me) as Hpar.
  { intros j g w Hg Hw Hn E. destruct (Hc j g Hg) as [_ Hpj]. destruct (Hpj w Hw Hn) as (th2 & p2 & Hp2 & Hlv & _).
    rewrite E, Hp in Hp2. injection Hp2 as <- <-. done. }
  split.
  - intros me2 th2 p2 [Hne Hp2]%lookup_delete_Some. destruct (Hl _ _ _ Hp2) as (Ht2 & Hs2 & Hm2 & w & Hw & Hh).
    split; [| split; [| split; [done |]]].
    + revert Ht2. unfold target_ok. destruct (target p2) as [[j d] |]; [| done]. intros (? & Hgj & Hex). assert (j <> me).
      { intros ->. rewrite Hg0 in Hgj. by destruct d. }
      rewrite !lookup_delete_ne by done. by split_and!.
    + assert (forall ec q, (exists v w, V !! me2 = Some v /\ code v = ec /\ V !! par v = Some w /\ adr w = q) ->
        lingers p2 = false -> removes p2 = false -> me2 <> 0 ->
        exists v w, delete me V !! me2 = Some v /\ code v = ec /\ delete me V !! par v = Some w /\ adr w = q) as Hd.
      { intros ec2 q (v & u & Hv & He & Hu2 & Hq) Hli Hre Hn0. exists v, u. rewrite Hv in Hw. injection Hw as <-.
        destruct (Hh Hn0) as (g & Hg & Hhs). assert (g <> Collected) as Hgc by (intros ->; cbn in Hhs; rewrite Hli, Hre in Hhs; naive_solver).
        pose proof (Hpar me2 g v Hg Hv Hgc). by rewrite !lookup_delete_ne by done. }
      destruct p2; cbn [self_ok] in *; first
        [ done | rewrite lookup_delete_ne by done; done | destruct Hs2 as [Hn0 Hs2]; split; [done |]; by apply Hd ].
    + exists w. rewrite !lookup_delete_ne by done. done.
  - rewrite !lookup_delete_ne by done. done.
  - intros j g [Hne Hg]%lookup_delete_Some. destruct (Hc j g Hg) as [HPj Hparj]. rewrite !lookup_delete_ne by done. split; [done |].
    intros w Hw Hn. rewrite lookup_delete_ne by (intros E; by destruct (Hpar j g w Hg Hw Hn)). by apply Hparj.
  - intros j w [Hne Hw]%lookup_delete_Some. destruct (Hu j w Hw) as [? | (th2 & p2 & a & Hp2 & Hta)]; rewrite lookup_delete_ne by done; [by left | right].
    exists th2, p2, a. rewrite lookup_delete_ne; [done |]. intros E. rewrite <- E, Hp in Hp2. by injection Hp2 as <- <-.
  - intros j [w [_ Hw]%lookup_delete_Some]. apply Hrg. by exists w.
Qed.

(** A thread that joins nobody keeps nobody waiting. *)
Lemma busy_idle p p' :
  (forall i d, target p = Some (i, d) -> deal_stage d = None \/ deal_stage d = Some Due) ->
  forall j g, busy_with j g p -> busy_with j g p'.
Proof.
  intros Hi j g. unfold busy_with. destruct g; [done | |..]; intros (d & Hd & Hg);
    destruct (Hi _ _ Hd); congruence.
Qed.

(** ** Running a thread *)

Section run.
Context {B : Type} `{SlotMapLaws B}.
#[local] Set Default Proof Using "All".

(** What holds between steps; [D] are the children that were not joined yet. *)
Definition ok (s : sys B) (D : gset Z) : Prop :=
  exists V P G, abs (tab s) V /\ at_points (threads s) P /\ fits V P G /\ forall i, i ∈ D <-> G !! i = Some Due.

(** The process the thread is about to start. *)
Definition forks (s : sys B) (th : nat) : gset Z :=
  match threads s !! th with Some (_, CallFork pid _) => {[pid]} | _ => ∅ end.

Context (s : sys B) (V : gmap Z view) (P : gmap Z (nat * point)) (G : gmap Z stage) (D : gset Z).
Context (me : Z) (th : nat).
Context (Ha : abs (tab s) V) (Hpt : at_points (threads s) P) (Hfit : fits V P G) (HD : forall i, i ∈ D <-> G !! i = Some Due).

Definition goes_on : Prop :=
  step s (Run th) = None \/ exists s', step s (Run th) = Some (Ok s') /\ ok s' (forks s th ∪ D).

Lemma at_point p : P !! me = Some (th, p) -> threads s !! th = Some (me, denote me p).
Proof. by apply (ap_forth _ _ Hpt). Qed.

Lemma run_to p p' T' V' G' :
  P !! me = Some (th, p) -> (forall pid k, denote me p <> CallFork pid k :> proc B) ->
  step s (Run th) = Some (Ok (mkSys T' (<[th := (me, denote me p')]> (threads s)))) ->
  abs T' V' -> fits V' (<[me := (th, p')]> P) G' -> (forall j, G' !! j = Some Due <-> G !! j = Some Due) -> goes_on.
Proof.
  intros Hp Hnf Hst Ha' Hf' HG. right. eexists. split; [exact Hst |]. exists V', (<[me := (th, p')]> P), G'.
  split; [done |]. split; [by eapply points_move |]. split; [done |]. intros i. unfold forks. rewrite (at_point p Hp).
  assert ((match denote me p with CallFork pid _ => {[pid]} | _ => ∅ end : gset Z) = ∅) as ->
    by (destruct (denote me p) as [| | | | pid k | |]; try done; by destruct (Hnf pid k)).
  rewrite (left_id_L ∅ (∪)), HG. apply HD.
Qed.

Lemma run_code p p' f T' V' G' :
  P !! me = Some (th, p) -> denote me p = Code f -> f (tab s) = Ok (T', denote me p') ->
  abs T' V' -> fits V' (<[me := (th, p')]> P) G' -> (forall j, G' !! j = Some Due <-> G !! j = Some Due) -> goes_on.
Proof.
  intros Hp Hc Hf. apply (run_to p p' T' V' G'); [done | by rewrite Hc |].
  cbn [step]. by rewrite (at_point p Hp), Hc, Hf.
Qed.

(** [P]: what follows when it goes on. *)
Lemma run_P p p' r v :
  P !! me = Some (th, p) -> denote me p = CallP r (denote me p') -> sem_value (tab s) r = Ok v ->
  (v <> 0 -> exists T' V' G', set_sem (tab s) r (v - 1) = Ok T' /\ abs T' V' /\ fits V' (<[me := (th, p')]> P) G' /\
     forall j, G' !! j = Some Due <-> G !! j = Some Due) -> goes_on.
Proof.
  intros Hp Hc Hv Hgo. destruct (decide (v = 0)) as [-> | Hn].
  - left. cbn [step]. by rewrite (at_point p Hp), Hc, Hv.
  - destruct (Hgo Hn) as (T' & V' & G' & HT & ? & ? & ?). apply (run_to p p' T' V' G'); try done; [by rewrite Hc |].
    cbn [step]. rewrite (at_point p Hp), Hc, Hv. destruct (Z.eqb_spec v 0); [done |]. by rewrite HT.
Qed.

Lemma run_V p p' r v T' V' G' :
  P !! me = Some (th, p) -> denote me p = CallV r (denote me p') -> sem_value (tab s) r = Ok v ->
  set_sem (tab s) r (v + 1) = Ok T' -> abs T' V' -> fits V' (<[me := (th, p')]> P) G' ->
  (forall j, G' !! j = Some Due <-> G !! j = Some Due) -> goes_on.
Proof.
  intros Hp Hc Hv HT. apply (run_to p p' T' V' G'); [done | by rewrite Hc |].
  cbn [step]. by rewrite (at_point p Hp), Hc, Hv; cbn; rewrite HT.
Qed.

(** The two semaphores the handshake does not depend on. *)
Lemma run_multex_P p p' i v : P !! me = Some (th, p) -> V !! i = Some v ->
  denote me p = CallP (Multex (adr v)) (denote me p') -> fits V (<[me := (th, p')]> P) G -> goes_on.
Proof.
  intros Hp Hv Hc Hf. destruct (multex_spec _ _ _ _ Ha Hv) as (m & Hm & Hset).
  apply (run_P p p' _ m Hp Hc Hm). intros _. destruct (Hset (m - 1)) as (T' & ? & ?). by exists T', V, G.
Qed.

Lemma run_multex_V p p' i v : P !! me = Some (th, p) -> V !! i = Some v ->
  denote me p = CallV (Multex (adr v)) (denote me p') -> fits V (<[me := (th, p')]> P) G -> goes_on.
Proof.
  intros Hp Hv Hc Hf. destruct (multex_spec _ _ _ _ Ha Hv) as (m & Hm & Hset).
  destruct (Hset (m + 1)) as (T' & ? & ?). by apply (run_V p p' _ m T' V G Hp Hc Hm).
Qed.

(** A thread whose target, if any, stays the same. *)
Lemma move_same p p' : P !! me = Some (th, p) -> self_ok V me p' -> lingers p' = lingers p -> removes p' = removes p ->
  leaving p' = leaving p -> target p' = target p -> fits V (<[me := (th, p')]> P) G.
Proof.
  intros Hp Hs Hli Hre Hle Ht. destruct (ft_live _ _ _ Hfit _ _ _ Hp) as (Hto & _).
  apply (fits_move V P G me th p); try done.
  - revert Hto. unfold target_ok. by rewrite Ht.
  - rewrite Hle. by left.
  - intros i g v _ _ _. unfold busy_with. by rewrite Ht.
  - intros i a Hta. exists a. by rewrite Ht.
Qed.

(** A thread that was busy with nobody, and is not on its way out. *)
Lemma move_idle p p' : P !! me = Some (th, p) -> (forall i d, target p = Some (i, d) -> deal_stage d = Some Due) ->
  target p' = None -> self_ok V me p' -> lingers p' = lingers p -> removes p' = removes p -> leaving p' = false ->
  fits V (<[me := (th, p')]> P) G.
Proof.
  intros Hp Hd Ht' Hs Hli Hre Hle. apply (fits_move V P G me th p); try done.
  - unfold target_ok. by rewrite Ht'.
  - by rewrite Hle.
  - intros i g v _ _ _. apply busy_idle. intros i' d E. right. by apply (Hd i').
  - intros i a E. by apply Hd in E.
Qed.

Lemma run_body name itself : P !! me = Some (th, PBody name itself) -> goes_on.
Proof.
  intros Hp. destruct (ft_live _ _ _ Hfit _ _ _ Hp) as (_ & Hshort & Hm1 & _).
  assert (forall T, abs T V -> exec_body me name itself (tab s) = Ok (T, denote me (PDone (-1))) -> goes_on) as Hfail.
  { intros T HT Hb. eapply (run_code _ (PDone (-1)) (exec_body me name itself) T V G Hp); try done.
    by apply (move_idle _ _ Hp). }
  destruct name as [nm |]; [| by apply (Hfail (tab s))].
  destruct (bool_decide (nm = main_name) || itself) eqn:Hn; [apply (Hfail (tab s)); [done |]; unfold exec_body; by rewrite Hn |].
  destruct (new_block _ _ me nm Ha Hshort Hm1) as [Hfull | (i & T1 & Hfree & Hi & HVi & (o & Ho) & x & x' & Hx & Hx' & Habs)].
  - apply (Hfail (tab s)); [done |]. unfold exec_body. by rewrite Hn, Hfull.
  - assert (0 <= i) as Hi0 by lia.
    eapply (run_code _ (PMade i (length (objs T1))) (exec_body me (Some nm) itself) _ _ G Hp);
      [done | | exact Habs | by eapply fits_make | done].
    unfold exec_body. rewrite Hn, Hfree. cbn [mbind res_bind]. destruct (Z.ltb_spec i 0); [lia |].
    assert (new_PCB T1 i me = (length (objs T1), snd (new_PCB T1 i me))) as -> by done. rewrite Ho. cbn [deref mbind res_bind]. rewrite Hx. cbn [mbind res_bind]. by rewrite Hx'.
Qed.

Lemma run_exec p : P !! me = Some (th, p) ->
  match p with PExec _ _ | PDone _ | PMade _ _ | PFill _ _ | PFork _ _ | PForked _ _ => True | _ => False end -> goes_on.
Proof.
  intros Hp. destruct (ft_live _ _ _ Hfit _ _ _ Hp) as (Hto & Hs & _). destruct p; try done; intros _.
  - apply (run_P _ (PBody name itself) Bmsem (bmsem (tab s)) Hp); [done | done |].
    intros _. eexists _, V, G. split; [done |]. split; [by apply abs_bmsem |]. split; [by apply (move_same _ _ Hp) | done].
  - eapply (run_V _ (PUser r) Bmsem (bmsem (tab s)) _ V G Hp); [done | done | done | by apply abs_bmsem | | done].
    by apply (move_idle _ _ Hp).
  - destruct Hto as (_ & _ & v & Hv & _ & <- & _).
    apply (run_multex_P _ (PFill i (adr v)) i v Hp Hv); [done | by apply (move_same _ _ Hp)].
  - destruct Hto as (_ & _ & v & Hv & Hpar & <- & _). destruct (obj_spec _ _ _ _ Ha Hv) as (x & Hx & Hsh).
    eapply (run_code _ (PFork i (adr v)) _ _ V G Hp); [done | cbn; by rewrite Hx | | by apply (move_same _ _ Hp) | done].
    apply (abs_same _ _ i); [done | done |]. destruct Hsh as (? & ? & ? & ? & ?). by split_and!.
  - right. eexists. cbn [step]. rewrite (at_point _ Hp). split; [done |].
    destruct (making_free _ _ _ _ _ _ _ _ Hfit Hp eq_refl) as (v & Hi & Him & HG & HPi & Hv & Hpar & Hav & Hj & He).
    exists V, (<[i := (length (threads s), PUser 0)]> (<[me := (th, PForked i a)]> P)), (<[i := Due]> G).
    split; [done |]. split; [| split; [by apply fits_fork |]].
    + cbn [threads]. rewrite <- (length_insert (threads s) th (me, denote me (PForked i a))). apply points_fork; [by eapply points_move |].
      by rewrite lookup_insert_ne.
    + intros j. unfold forks. rewrite (at_point _ Hp). cbn [denote].
      rewrite elem_of_union, elem_of_singleton, HD. destruct (decide (j = i)) as [-> | Hne].
      * rewrite lookup_insert_eq. naive_solver.
      * rewrite lookup_insert_ne by done. naive_solver.
  - destruct Hto as (_ & _ & v & Hv & _ & <-).
    apply (run_multex_V _ (PDone i) i v Hp Hv); [done |].
    apply (move_idle _ _ Hp); try done. cbn. intros ? ? [= _ <-]. done.
Qed.

(** Between two deals with the same process. *)
Lemma move_deal p p' i d d' : P !! me = Some (th, p) -> target p = Some (i, d) -> target p' = Some (i, d') ->
  deal_stage d' = deal_stage d -> deal_stage d <> None -> (forall v, V !! i = Some v -> deal_ok v d') -> self_ok V me p' ->
  lingers p' = lingers p -> removes p' = removes p -> leaving p' = false -> fits V (<[me := (th, p')]> P) G.
Proof.
  intros Hp Ht Ht' Hds Hdn Hd Hs Hli Hre Hle. destruct (ft_live _ _ _ Hfit _ _ _ Hp) as (Hto & _).
  apply (fits_move V P G me th p); try done.
  - revert Hto. unfold target_ok. rewrite Ht, Ht', Hds. intros (? & ? & v & Hv & ? & _). split_and!; [done | done |].
    exists v. by split_and!; [| | apply Hd].
  - by rewrite Hle.
  - intros j g v _ _ _. by eapply busy_same.
  - intros j a E. rewrite Ht in E. by injection E as <- ->.
Qed.

Lemma run_join p : P !! me = Some (th, p) ->
  match p with PJoin _ | PInc _ _ | PIncIn _ _ | PIncOut _ _ | PWait _ | PCollect _ => True | _ => False end -> goes_on.
Proof.
  intros Hp. destruct (ft_live _ _ _ Hfit _ _ _ Hp) as (Hto & Hs & _ & vm & Hvm & _). destruct p; try done; intros _.
  - destruct (Z.ltb_spec i 0) as [Hneg | Hpos].
    + eapply (run_code _ (PUser (-1)) _ (tab s) V G Hp); [done | | done | | done].
      * cbn. by destruct (Z.ltb_spec i 0); [| lia].
      * apply (move_idle _ _ Hp); try done. cbn. by destruct (Z.ltb_spec i 0); [| lia].
    + assert (target (PJoin i) = Some (i, Joins)) as Ht by (cbn; by destruct (Z.ltb_spec i 0); [lia |]).
      unfold target_ok in Hto. rewrite Ht in Hto. destruct Hto as (_ & _ & v & Hv & Hpar & _).
      destruct (obj_spec _ _ _ _ Ha Hv) as (x & Hx & Hsh). assert (parentID x = me) as Hme by (destruct Hsh as (_ & _ & _ & _ & ->); done).
      eapply (run_code _ (PInc i (adr vm)) _ (tab s) V G Hp); [done | | done | | done].
      * cbn. destruct (Z.ltb_spec i 0); [lia |]. rewrite (pcb_at_spec _ _ _ _ Ha Hv). cbn [mbind res_bind]. rewrite Hx. cbn [mbind res_bind].
        rewrite Hme, Z.eqb_refl. cbn [negb]. by rewrite (pcb_at_spec _ _ _ _ Ha Hvm).
      * apply (move_deal _ _ i Joins Joins Hp); try done. by exists vm.
  - destruct Hs as (v & Hv & <-). apply (run_multex_P _ (PIncIn i (adr v)) me v Hp Hv); [done |].
    apply (move_same _ _ Hp); try done. by exists v.
  - destruct Hs as (v & Hv & <-). destruct (obj_spec _ _ _ _ Ha Hv) as (x & Hx & Hsh).
    eapply (run_code _ (PIncOut i (adr v)) _ _ V G Hp); [done | cbn; by rewrite Hx | by apply (abs_same _ _ me) | | done].
    apply (move_same _ _ Hp); try done. by exists v.
  - destruct Hs as (v & Hv & <-). apply (run_multex_V _ (PWait i) me v Hp Hv); [done |]. by apply (move_same _ _ Hp).
  - destruct Hto as (_ & _ & v & Hv & _). eapply (run_code _ (PBlock i (adr v)) _ (tab s) V G Hp); [done | | done | | done].
    + cbn. by rewrite (pcb_at_spec _ _ _ _ Ha Hv).
    + apply (move_deal _ _ i Joins (Blocks (adr v)) Hp); try done. intros w Hw. cbn. congruence.
  - destruct Hto as (_ & _ & v & Hv & _). destruct (obj_spec _ _ _ _ Ha Hv) as (x & Hx & Hsh).
    eapply (run_code _ (PRelease i (adr v) (code v)) _ (tab s) V G Hp); [done | | done | | done].
    + cbn. rewrite (pcb_at_spec _ _ _ _ Ha Hv). cbn [mbind res_bind]. rewrite Hx. cbn [mbind res_bind].
      by destruct Hsh as (_ & _ & _ & -> & _).
    + apply (move_deal _ _ i Collects (Releases (adr v) (code v)) Hp); try done. intros w Hw. cbn. rewrite Hv in Hw. by injection Hw as <-.
Qed.

(** The child is where its stage says. *)
Lemma child_at i g v : G !! i = Some g -> V !! i = Some v -> exists thi pi, P !! i = Some (thi, pi) /\ handshake g v pi.
Proof.
  intros Hg Hv. destruct (ft_child _ _ _ Hfit i g Hg) as [[[thi pi] HPi] _]. exists thi, pi. split; [done |].
  destruct (ft_live _ _ _ Hfit _ _ _ HPi) as (_ & _ & _ & w & Hw & Hh). rewrite Hv in Hw. injection Hw as <-.
  destruct (Hh) as (g' & Hg' & ?); [intros ->; destruct (ft_zero _ _ _ Hfit); congruence |]. congruence.
Qed.

Lemma stage_due i g g' : G !! i = Some g -> (g = Due <-> g' = Due) -> forall j, <[i := g']> G !! j = Some Due <-> G !! j = Some Due.
Proof.
  intros Hg Hgg j. destruct (decide (j = i)) as [-> | Hne]; [| by rewrite lookup_insert_ne].
  rewrite lookup_insert_eq, Hg. split; intros [= E]; f_equal; by apply Hgg.
Qed.

(** The parent collects: it passes [JoinWait], and lets the child go. *)
Lemma run_collect i a : P !! me = Some (th, PBlock i a) -> goes_on.
Proof.
  intros Hp. destruct (ft_live _ _ _ Hfit _ _ _ Hp) as ((Hi & Hg & v & Hv & Hpar & <-) & _ & Hm1 & _). cbn in Hg.
  destruct (child_at i Joining v Hg Hv) as (thi & pi & HPi & Hj & He & Hr).
  apply (run_P _ (PCollect i) (Joinsem (adr v)) (jn v) Hp); [done | by destruct (joinsem_spec _ _ _ _ 0 Ha Hv) |].
  intros Hn. destruct (joinsem_spec _ _ _ _ (jn v - 1) Ha Hv) as (_ & T' & HT & HT').
  assert (lingers pi = true) as Hli by (destruct (lingers pi); [done | lia]). rewrite Hli in Hj.
  assert (i <> me) as Him by (intros ->; rewrite Hp in HPi; by injection HPi as <- <-).
  eexists T', _, (<[i := Collecting]> G). split; [done |]. split; [exact HT' |]. split; [| by apply (stage_due i Joining)].
  apply (fits_step V P G me th (PBlock i (adr v)) (PCollect i) i v _ Joining); try done; try by (right + left).
  - split; [done |]. rewrite !lookup_insert_eq. split; [done |]. eexists. split; [done |]. by split.
  - intros thi' pi' E. rewrite lookup_insert_ne, HPi in E by done. injection E as <- <-. cbn. split_and!; [done | lia | done].
  - intros j h Hne. unfold busy_with. destruct h; [done | |..]; intros (d & Hd & _); cbn in Hd; congruence.
  - intros _ _. by exists Collects.
Qed.

Lemma run_release i a r : P !! me = Some (th, PRelease i a r) -> goes_on.
Proof.
  intros Hp. destruct (ft_live _ _ _ Hfit _ _ _ Hp) as ((Hi & Hg & v & Hv & Hpar & <- & Hr) & _ & Hm1 & _). cbn in Hg.
  destruct (child_at i Collecting v Hg Hv) as (thi & pi & HPi & Hli & Hj & He).
  destruct (exitsem_spec _ _ _ _ (ex v + 1) Ha Hv) as (Hev & T' & HT & HT').
  assert (i <> me) as Him by (intros ->; rewrite Hp in HPi; by injection HPi as <- <-).
  eapply (run_V _ (PUser r) _ _ T' _ (<[i := Collected]> G) Hp); [done | exact Hev | done | exact HT' | | by apply (stage_due i Collecting)].
  apply (fits_step V P G me th (PRelease i (adr v) r) (PUser r) i v _ Collecting); try done; try by (right + left).
  - intros thi' pi' E. rewrite lookup_insert_ne, HPi in E by done. injection E as <- <-. cbn. split; [done |]. left. split; [done | lia].
  - intros j h Hne. unfold busy_with. destruct h; [done | |..]; intros (d & Hd & _); cbn in Hd; congruence.
Qed.

(** A child that has not been collected has a parent that stays. *)
Lemma parent_stays p g v : P !! me = Some (th, p) -> leaving p = true -> G !! me = Some g -> V !! me = Some v ->
  g <> Collected -> par v <> me /\ exists w, V !! par v = Some w.
Proof.
  intros Hp Hle Hg Hv Hn. destruct (ft_child _ _ _ Hfit me g Hg) as [_ Hpar].
  destruct (Hpar v Hv Hn) as (th2 & p2 & Hp2 & Hl2 & _). split; [intros E; rewrite E, Hp in Hp2; injection Hp2 as <- <-; congruence |].
  destruct (ft_live _ _ _ Hfit _ _ _ Hp2) as (_ & _ & _ & w & Hw & _). by exists w.
Qed.

(** A step of the child on its own control block. *)
Lemma own_step p p' v v' g : P !! me = Some (th, p) -> V !! me = Some v -> G !! me = Some g -> keeps v v' ->
  (code v' = code v \/ g <> Collecting) -> leaving p = true -> target p = None -> target p' = None ->
  self_ok (<[me := v']> V) me p' -> handshake g v' p' -> fits (<[me := v']> V) (<[me := (th, p')]> P) G.
Proof.
  intros Hp Hv Hg Hk Hco Hle Ht Ht' Hs Hh. rewrite <- (insert_id G me g Hg).
  apply (fits_step V P G me th p p' me v v' g g); try done; try by left.
  - destruct Hco as [? | ?]; [by left | by right].
  - unfold target_ok. by rewrite Ht'.
  - intros thi pi. rewrite lookup_insert_eq. by intros [= <- <-].
  - intros j h _. by apply busy_none.
  - intros E Hn. destruct (parent_stays p g v Hp Hle Hg Hv Hn) as [? _]. done.
  - intros j a. by rewrite Ht.
Qed.

Lemma run_exit ec : P !! me = Some (th, PExit ec) -> goes_on.
Proof.
  intros Hp. destruct (ft_live _ _ _ Hfit _ _ _ Hp) as (_ & Hme & _ & v & Hv & Hg). cbn in Hme. destruct (Hg Hme) as (g & Hgg & Hh).
  assert (g <> Collected /\ g <> Collecting) as [Hn1 Hn2] by (split; intros ->; cbn in Hh; naive_solver).
  destruct (parent_stays _ g v Hp eq_refl Hgg Hv Hn1) as (Hpm & w & Hw).
  destruct (obj_spec _ _ _ _ Ha Hv) as (x & Hx & Hsh). set (v' := mkV (adr v) (jn v) (ex v) ec (par v)).
  assert (shows (with_exitcode x ec) v') as Hsh' by (destruct Hsh as (? & ? & ? & ? & ?); by split_and!).
  assert (abs (set_obj (tab s) (adr v) (with_exitcode x ec)) (<[me := v']> V)) as Ha' by (by apply (abs_set_obj _ _ me v v')).
  assert (<[me := v']> V !! par v = Some w) as Hw' by (by rewrite lookup_insert_ne).
  destruct (obj_spec _ _ me v' Ha') as (x' & Hx' & Hsx'); [by rewrite lookup_insert_eq |]. cbn [adr v'] in Hx'.
  eapply (run_code _ (PDec ec (adr w)) _ _ _ G Hp); [done | | exact Ha' | | done].
  - cbn. destruct (Z.eqb_spec me 0); [done |]. rewrite (IsExist_spec _ _ _ _ Ha Hv). cbn [negb mbind res_bind].
    rewrite (pcb_at_spec _ _ _ _ Ha Hv). cbn [mbind res_bind]. rewrite Hx. cbn [mbind res_bind]. rewrite Hx'. cbn [mbind res_bind].
    destruct Hsx' as (_ & _ & _ & _ & ->). cbn [par v']. by rewrite (pcb_at_spec _ _ _ _ Ha' Hw').
  - apply (own_step (PExit ec) _ v v' g); try done; [by right |]. split; [done |]. exists v', w. by rewrite lookup_insert_eq.
Qed.

Lemma run_leave p : P !! me = Some (th, p) ->
  match p with PHalting _ | PDec _ _ | PDecIn _ _ | PDecOut _ _ | PPost _ | PLinger _ => True | _ => False end -> goes_on.
Proof.
  intros Hp. destruct (ft_live _ _ _ Hfit _ _ _ Hp) as (_ & Hs & _). destruct p; try done; intros _.
  - eapply (run_code _ PHalt _ (tab s) V G Hp); [done | done | done | by apply (move_same _ _ Hp) | done].
  - destruct Hs as (Hn & v & w & Hv & Hc & Hw & <-). apply (run_multex_P _ (PDecIn ec (adr w)) (par v) w Hp Hw); [done |].
    apply (move_same _ _ Hp); try done. split; [done |]. by exists v, w.
  - destruct Hs as (Hn & v & w & Hv & Hc & Hw & <-). destruct (obj_spec _ _ _ _ Ha Hw) as (x & Hx & Hsh).
    eapply (run_code _ (PDecOut ec (adr w)) _ _ V G Hp); [done | cbn; by rewrite Hx | | | done].
    + destruct (0 <? numwait x); [| done]. by apply (abs_same _ _ (par v)).
    + apply (move_same _ _ Hp); try done. split; [done |]. by exists v, w.
  - destruct Hs as (Hn & v & w & Hv & Hc & Hw & <-). apply (run_multex_V _ (PPost ec) (par v) w Hp Hw); [done |].
    apply (move_same _ _ Hp); try done. split; [done |]. by exists v.
  - destruct Hs as (Hn & v & Hv & Hc). eapply (run_code _ (PPostIn ec (adr v)) _ (tab s) V G Hp); [done | | done | | done].
    + cbn. by rewrite (pcb_at_spec _ _ _ _ Ha Hv).
    + apply (move_same _ _ Hp); try done. split; [done |]. by exists v.
  - destruct Hs as (Hn & v & Hv & Hc). eapply (run_code _ (PLingerIn ec (adr v)) _ (tab s) V G Hp); [done | | done | | done].
    + cbn. by rewrite (pcb_at_spec _ _ _ _ Ha Hv).
    + apply (move_same _ _ Hp); try done. split; [done |]. by exists v.
Qed.

Lemma run_post ec a : P !! me = Some (th, PPostIn ec a) -> goes_on.
Proof.
  intros Hp. destruct (ft_live _ _ _ Hfit _ _ _ Hp) as (_ & (Hn & v & Hv & Hc & <-) & _ & w & Hw & Hg).
  rewrite Hv in Hw. injection Hw as <-. destruct (Hg Hn) as (g & Hgg & Hh).
  destruct (joinsem_spec _ _ _ _ (jn v + 1) Ha Hv) as (Hj & T' & HT & HT').
  eapply (run_V _ (PLinger ec) _ _ T' _ G Hp); [done | exact Hj | done | exact HT' | | done].
  apply (own_step (PPostIn ec (adr v)) _ v _ g); try done; [by left | |].
  - split; [done |]. eexists. by rewrite lookup_insert_eq.
  - destruct g; cbn in Hh |- *; destruct_and?; try done; [split_and!; [lia | done | done].. | naive_solver].
Qed.

Lemma run_linger ec a : P !! me = Some (th, PLingerIn ec a) -> goes_on.
Proof.
  intros Hp. destruct (ft_live _ _ _ Hfit _ _ _ Hp) as (_ & (Hn & v & Hv & Hc & <-) & _ & w & Hw & Hg).
  rewrite Hv in Hw. injection Hw as <-. destruct (Hg Hn) as (g & Hgg & Hh).
  apply (run_P _ (PRemove ec) (Exitsem (adr v)) (ex v) Hp); [done | by destruct (exitsem_spec _ _ _ _ 0 Ha Hv) |].
  intros He. destruct (exitsem_spec _ _ _ _ (ex v - 1) Ha Hv) as (_ & T' & HT & HT').
  assert (g = Collected /\ jn v = 0 /\ ex v = 1) as (-> & Hj & Hx).
  { destruct g; cbn in Hh; destruct_and?; try done. split; [done |]. naive_solver. }
  eexists T', _, G. split; [done |]. split; [exact HT' |]. split; [| done].
  apply (own_step (PLingerIn ec (adr v)) _ v _ Collected); try done; [by left | |].
  - split; [done |]. eexists. by rewrite lookup_insert_eq.
  - cbn. split; [done |]. right. split; [done | lia].
Qed.

Lemma run_remove ec : P !! me = Some (th, PRemove ec) -> goes_on.
Proof.
  intros Hp. destruct (ft_live _ _ _ Hfit _ _ _ Hp) as (_ & (Hn & v & Hv & Hc) & _).
  destruct (Remove_spec' _ _ _ _ Ha Hv) as (T' & HT & Ha'). destruct (fits_remove _ _ _ _ _ _ Hfit Hp) as [Hf' HG].
  right. cbn [step]. rewrite (at_point _ Hp). cbn [denote exit_remove]. unfold finish. rewrite HT. cbn [mbind res_bind].
  eexists. split; [done |]. exists (delete me V), (delete me P), (delete me G). split; [done |]. split; [by eapply points_end |].
  split; [done |]. intros j. unfold forks. rewrite (at_point _ Hp). cbn [denote exit_remove]. rewrite (left_id_L ∅ (∪)), HD.
  destruct (decide (j = me)) as [-> | Hne]; [| by rewrite lookup_delete_ne]. rewrite lookup_delete_eq, HG. split; congruence.
Qed.

(** Every step of a thread. *)
Lemma run_goes_on p : P !! me = Some (th, p) -> goes_on.
Proof.
  intros Hp. destruct p;
    first [ by apply (run_exec _ Hp) | by apply (run_join _ Hp) | by apply (run_leave _ Hp) | by eapply run_body
          | by eapply run_collect | by eapply run_release | by eapply run_exit | by eapply run_post | by eapply run_linger
          | by eapply run_remove | left; cbn [step]; by rewrite (at_point _ Hp) ].
Qed.
End run.

(** ** Programs that join each child once *)

Section polite.
Context {B : Type} `{SlotMapLaws B}.
#[local] Set Default Proof Using "Type*".

Definition parent_of (s : sys B) (i : Z) : option Z :=
  if i <? 0 then None
  else match pcb (tab s) !! Z.to_nat i with Some (Some a) => parentID <$> objs (tab s) !! a | _ => None end.

(** Of the children that were not joined yet, [D], none is this process's. *)
Definition all_joined (s : sys B) (D : gset Z) (me : Z) : Prop := set_Forall (fun i => parent_of s i <> Some me) D.

#[global] Instance short_dec name : Decision (short name).
Proof. destruct name; cbn; apply _. Defined.

(** What a program may call: [Exec] of a name that fits, [Join] of a child it has
    not joined, [Exit] when it has joined all.  The main process may exit at any
    time, and the arguments that the kernel turns down do no harm. *)
Definition may_call (s : sys B) (D : gset Z) (me : Z) (c : call) : Prop :=
  match c with
  | Call_Exec name _ _ => short name
  | Call_Join id => id < 0 \/ (id ∈ D /\ parent_of s id = Some me)
  | Call_Exit ec => ec <> 0 \/ me = 0 \/ all_joined s D me
  | Call_ExitUpdate _ => me = 0 \/ all_joined s D me
  end.
#[global] Instance may_call_dec s D me c : Decision (may_call s D me c).
Proof. destruct c; cbn; unfold all_joined; apply _. Defined.

Definition polite (s : sys B) (D : gset Z) (e : event) : Prop :=
  match e with
  | Run _ => True
  | Call th c => match threads s !! th with Some (me, User _) => may_call s D me c | _ => True end
  end.
#[global] Instance polite_dec s D e : Decision (polite s D e).
Proof. destruct e as [| th c]; cbn; [apply _ |]. destruct (threads s !! th) as [[me []] |]; apply _. Defined.

Definition due_after (s : sys B) (D : gset Z) (e : event) : gset Z :=
  match e with
  | Run th => forks s th ∪ D
  | Call _ (Call_Join id) => D ∖ {[id]}
  | Call _ _ => D
  end.

(** The states such programs take the system through. *)
Inductive runs (s0 : sys B) : sys B -> gset Z -> Prop :=
  | runs_start : runs s0 s0 ∅
  | runs_step s D e s' : runs s0 s D -> polite s D e -> step s e = Some (Ok s') -> runs s0 s' (due_after s D e).

Lemma parent_of_spec s V i v : abs (tab s) V -> V !! i = Some v -> parent_of s i = Some (par v).
Proof.
  intros Ha Hv. destruct (ab_view _ _ Ha i v Hv) as (Hi & _ & Hp & x & Hx & _ & _ & _ & _ & Hpar). unfold parent_of.
  destruct (Z.ltb_spec i 0); [lia |]. rewrite Hp, Hx. cbn. by rewrite Hpar.
Qed.

Lemma parent_of_child s V P G i g q : abs (tab s) V -> fits V P G -> G !! i = Some g -> parent_of s i = Some q ->
  exists v, V !! i = Some v /\ par v = q.
Proof.
  intros Ha Hf Hg Hq. destruct (ft_child _ _ _ Hf i g Hg) as [[[th p] Hp] _].
  destruct (ft_live _ _ _ Hf _ _ _ Hp) as (_ & _ & _ & v & Hv & _). exists v. split; [done |].
  rewrite (parent_of_spec s V i v Ha Hv) in Hq. by injection Hq.
Qed.

Section calls.
Context (s : sys B) (V : gmap Z view) (P : gmap Z (nat * point)) (G : gmap Z stage) (D : gset Z) (me : Z) (th : nat) (r : Z).
Context (Ha : abs (tab s) V) (Hpt : at_points (threads s) P) (Hfit : fits V P G) (HD : forall i, i ∈ D <-> G !! i = Some Due).
Context (Hp : P !! me = Some (th, PUser r)).
#[local] Set Default Proof Using "All".

Definition called (k : proc B) : sys B := mkSys (tab s) (<[th := (me, k)]> (threads s)).

Lemma call_same p' : target p' = None -> self_ok V me p' -> lingers p' = false -> removes p' = false ->
  (leaving p' = true -> forall i g v, G !! i = Some g -> V !! i = Some v -> par v = me -> g = Collected) ->
  ok (called (denote me p')) D.
Proof.
  intros Ht Hs Hli Hre Hle. exists V, (<[me := (th, p')]> P), G. split; [done |]. split; [by eapply points_move |]. split; [| done].
  apply (fits_move V P G me th (PUser r)); try done.
  - unfold target_ok. by rewrite Ht.
  - intros E. right. by apply Hle.
  - intros i g v _ _ _. by apply busy_none.
Qed.

Lemma call_join i : i ∈ D -> parent_of s i = Some me -> ok (called (denote me (PJoin i))) (D ∖ {[i]}).
Proof.
  intros Hi Hq. apply HD in Hi. destruct (parent_of_child s V P G i Due me Ha Hfit Hi Hq) as (v & Hv & Hpar).
  assert (i <> 0) as Hi0 by (intros ->; destruct (ft_zero _ _ _ Hfit); congruence).
  pose proof (ft_range _ _ _ Hfit i ltac:(by exists v)) as Hpos.
  assert (target (PJoin i) = Some (i, Joins)) as Ht by (cbn; by destruct (Z.ltb_spec i 0); [lia |]).
  exists V, (<[me := (th, PJoin i)]> P), (<[i := Joining]> G). split; [done |]. split; [by eapply points_move |]. split.
  - rewrite <- (insert_id V i v Hv). apply (fits_step V P G me th (PUser r) (PJoin i) i v v Due); try done; try by (right + left).
    + unfold target_ok. rewrite Ht, !lookup_insert_eq. split_and!; [done | done |]. by exists v.
    + intros thi pi Hpi. destruct (ft_child _ _ _ Hfit i Due Hi) as [[[thi0 pi0] HP0] _].
      destruct (ft_live _ _ _ Hfit _ _ _ HP0) as (_ & _ & _ & w & Hw & Hh). destruct (Hh Hi0) as (g & Hg & Hhs).
      rewrite Hi in Hg. injection Hg as <-. rewrite Hv in Hw. injection Hw as <-. cbn in Hhs |- *.
      apply lookup_insert_Some in Hpi as [[<- [= <- <-]] | [Hne Hpi]].
      * rewrite Hp in HP0. by injection HP0 as <- <-.
      * rewrite HP0 in Hpi. by injection Hpi as <- <-.
    + intros j h _. by apply busy_none.
    + intros _ _. by exists Joins.
  - intros j. rewrite elem_of_difference, elem_of_singleton, HD. destruct (decide (j = i)) as [-> | Hne].
    + rewrite lookup_insert_eq. naive_solver.
    + rewrite lookup_insert_ne by done. naive_solver.
Qed.

(** A process that has joined all its children may leave. *)
Lemma call_exit ec : me = 0 \/ all_joined s D me -> ok (called (ExitUpdate me ec finish)) D.
Proof.
  intros Hall. destruct (decide (me = 0)) as [E | Hn].
  - assert (called (ExitUpdate me ec finish) = called (denote me (PHalting ec))) as -> by (by rewrite E). by apply call_same.
  - apply (call_same (PExit ec)); try done. intros _ i g v Hg Hv Hpar. destruct Hall as [? | Hall]; [done |].
    destruct g; [| | | done].
    + destruct (Hall i); [by apply HD | by rewrite (parent_of_spec s V i v) by done; rewrite Hpar].
    + destruct (ft_child _ _ _ Hfit i _ Hg) as [_ Hc]. destruct (Hc v Hv) as (th2 & p2 & Hp2 & _ & d & Hd & _); [done |].
      rewrite Hpar, Hp in Hp2. by injection Hp2 as <- <-.
    + destruct (ft_child _ _ _ Hfit i _ Hg) as [_ Hc]. destruct (Hc v Hv) as (th2 & p2 & Hp2 & _ & d & Hd & _); [done |].
      rewrite Hpar, Hp in Hp2. by injection Hp2 as <- <-.
Qed.

Lemma call_ok c : may_call s D me c -> ok (called (enter me r c)) (due_after s D (Call th c)).
Proof.
  intros Hc. destruct c as [name opens itself | id | ec | ec]; cbn [may_call enter due_after] in *.
  - unfold SysExec. destruct name as [nm |]; [| by apply (call_same (PUser (-1)))].
    destruct opens; [by apply (call_same (PExec (Some nm) itself)) | by apply (call_same (PUser (-1)))].
  - destruct Hc as [Hneg | [Hin Hq]]; [| by apply (call_join id)].
    assert (D ∖ {[id]} = D) as ->.
    { apply set_eq. intros j. rewrite elem_of_difference, elem_of_singleton. split; [by intros [? _] |].
      intros Hj. split; [done |]. intros ->. apply HD in Hj. destruct (ft_child _ _ _ Hfit id _ Hj) as [[[t2 p2] E] _].
      destruct (ft_live _ _ _ Hfit _ _ _ E) as (_ & _ & _ & w & Hw & _).
      pose proof (ft_range _ _ _ Hfit id ltac:(by exists w)). lia. }
    apply (call_same (PJoin id)); try done. cbn. by destruct (Z.ltb_spec id 0); [| lia].
  - unfold SysExit. destruct (Z.eqb_spec ec 0) as [-> | Hne]; [| by apply (call_same (PUser r))].
    apply (call_exit 0). by destruct Hc as [? | ?].
  - by apply call_exit.
Qed.
End calls.

Lemma step_ok s D e r : ok s D -> polite s D e -> step s e = Some r -> exists s', r = Ok s' /\ ok s' (due_after s D e).
Proof.
  intros (V & P & G & Ha & Hpt & Hfit & HD) Hpol Hst. destruct e as [th | th c].
  - assert (goes_on s D th) as [Hn | (s' & Hs' & Hok)]; [| congruence | exists s'; split; [congruence | done]].
    destruct (threads s !! th) as [[me k] |] eqn:Hth; [| left; cbn [step]; by rewrite Hth].
    destruct (ap_back _ _ Hpt th me k Hth) as [-> | [p Hp]]; [left; cbn [step]; by rewrite Hth |].
    by apply (run_goes_on s V P G D me th Ha Hpt Hfit HD p).
  - cbn [step polite] in *. destruct (threads s !! th) as [[me k] |] eqn:Hth; [| done]. destruct k as [r2 | | | | | |]; try done.
    injection Hst as <-. eexists. split; [done |].
    destruct (ap_back _ _ Hpt th me _ Hth) as [? | [p Hp]]; [done |].
    assert (p = PUser r2) as ->.
    { pose proof (ap_forth _ _ Hpt _ _ _ Hp) as Hd. rewrite Hth in Hd. injection Hd as Hd.
      apply (f_equal (fun k => match k with User r => Some r | _ => None end)) in Hd. destruct p; cbn in Hd; try discriminate Hd.
      by injection Hd as ->. }
    by apply (call_ok s V P G D me th r2 Ha Hpt Hfit HD Hp c).
Qed.

(** The kernel at the start. *)
Lemma start_ok b s0 : slots_wf b -> slots b = replicate MAX_PROCESS false -> start b = Ok s0 -> ok s0 ∅.
Proof.
  intros Hwf Hsl Hst. destruct (slot_mark_law b 0 Hwf) as (b' & Hb & Hwf' & Hsl'); [rewrite Hsl; cbn; lia |].
  change (Z.of_nat 0) with 0 in Hb. unfold start, create in Hst. rewrite Hb in Hst. cbn in Hst. injection Hst as <-.
  rewrite Hsl in Hsl'. exists {[0 := mkV 0 0 0 0 (-1)]}, {[0 := (0%nat, PUser 0)]}, ∅. split; [| split; [| split]].
  - split; cbn.
    + done.
    + by rewrite Hsl'.
    + done.
    + intros i v [<- <-]%lookup_singleton_Some. rewrite Hsl'. split_and!; [done | done | done |]. eexists. split; [done |]. by split_and!.
    + rewrite Hsl'. intros [| i] Hi; [by exists (mkV 0 0 0 0 (-1)) |]. by apply (lookup_replicate_1 9 false) in Hi as [? _].
    + intros i i' v v' [<- <-]%lookup_singleton_Some [<- <-]%lookup_singleton_Some. done.
  - split; cbn.
    + by intros me th p [<- [= <- <-]]%lookup_singleton_Some.
    + intros [| th] me k; cbn; [intros [= <- <-] | done]. right. exists (PUser 0). by rewrite lookup_singleton_eq.
  - split.
    + intros me th p [<- [= <- <-]]%lookup_singleton_Some. split_and!; [done | done | done |]. eexists. by rewrite lookup_singleton_eq.
    + split; [done |]. eexists. by rewrite lookup_singleton_eq.
    + intros i g. by rewrite lookup_empty.
    + intros i v [<- <-]%lookup_singleton_Some. left. eexists. by rewrite lookup_singleton_eq.
    + intros i [v [<- <-]%lookup_singleton_Some]. done.
  - intros i. rewrite lookup_empty. set_solver.
Qed.

Lemma runs_ok b s0 s D : slots_wf b -> slots b = replicate MAX_PROCESS false -> start b = Ok s0 -> runs s0 s D -> ok s D.
Proof.
  intros Hwf Hsl Hst. induction 1 as [| s D e s' _ IH Hpol Hs]; [by eapply start_ok |].
  destruct (step_ok s D e (Ok s') IH Hpol Hs) as (s2 & [= <-] & ?). done.
Qed.

(** The thread of a point, from the operation it is about to do. *)
Lemma point_of s P th me k : at_points (threads s) P -> threads s !! th = Some (me, k) -> k <> Gone ->
  exists p, P !! me = Some (th, p) /\ denote me p = k.
Proof.
  intros Hpt Hth Hn. destruct (ap_back _ _ Hpt th me k Hth) as [? | [p Hp]]; [done |]. exists p. split; [done |].
  pose proof (ap_forth _ _ Hpt _ _ _ Hp) as E. rewrite Hth in E. by injection E.
Qed.

Lemma release_point me p a r : denote me p = ExitRelease a (User r : proc B) -> exists i, p = PRelease i a r.
Proof.
  intros Hd. apply (f_equal (fun k => match k with CallV (Exitsem a) (User r) => Some (a, r) | _ => None end)) in Hd.
  destruct p; cbn in Hd; try discriminate Hd. injection Hd as -> ->. by exists i.
Qed.

Lemma block_point me p a (k : proc B) : denote me p = JoinWait a k -> exists i, p = PBlock i a.
Proof.
  intros Hd. apply (f_equal (fun k => match k with CallP (Joinsem a) _ => Some a | _ => None end)) in Hd.
  destruct p; cbn in Hd; try discriminate Hd. injection Hd as ->. by exists i.
Qed.

Lemma linger_point me p a (k : proc B) : denote me p = ExitWait a k -> exists ec, p = PLingerIn ec a.
Proof.
  intros Hd. apply (f_equal (fun k => match k with CallP (Exitsem a) _ => Some a | _ => None end)) in Hd.
  destruct p; cbn in Hd; try discriminate Hd. injection Hd as ->. by exists ec.
Qed.

Context (b : B) (s0 : sys B) (Hwf : slots_wf b) (Hslots : slots b = replicate MAX_PROCESS false) (Hstart : start b = Ok s0).
#[local] Set Default Proof Using "All".

(** C8: the process table is safe for programs that join each child once and exit
    when they have joined all.  Whatever the interleaving of their calls, a step of
    the kernel never follows a pointer to a control block or a semaphore that was
    deleted; no two threads that live have the same process, and the slot of each
    is in use. *)
Theorem processes_safe s D e r :
  runs s0 s D -> polite s D e -> step s e = Some r ->
  (exists s', r = Ok s') /\
  (forall th i k, threads s !! th = Some (i, k) -> k <> Gone ->
     0 <= i /\ slots (bm (tab s)) !! Z.to_nat i = Some true /\
     forall th' k', threads s !! th' = Some (i, k') -> k' <> Gone -> th' = th).
Proof.
  intros Hr Hpol Hst. pose proof (runs_ok b s0 s D Hwf Hslots Hstart Hr) as Hok. split.
  - destruct (step_ok s D e r Hok Hpol Hst) as (s' & -> & _). by exists s'.
  - destruct Hok as (V & P & G & Ha & Hpt & Hfit & _). intros th i k Hth Hn.
    destruct (point_of s P th i k Hpt Hth Hn) as (p & Hp & _).
    destruct (ft_live _ _ _ Hfit _ _ _ Hp) as (_ & _ & _ & v & Hv & _).
    destruct (ab_view _ _ Ha i v Hv) as (? & ? & _). split; [done |]. split; [done |].
    intros th' k' Hth' Hn'. destruct (point_of s P th' i k' Hpt Hth' Hn') as (p' & Hp' & _). congruence.
Qed.

(** C9: [Join] returns the exit code of the child.  When a thread is about to return
    [r] from [JoinUpdate], the process it joined is its child, has called
    [ExitUpdate] with the code [r], and has got as far as [ExitWait]: so [Join] does
    not return before the child exits, and not with another value. *)
Theorem join_returns_exit_code s D th me a r :
  runs s0 s D -> threads s !! th = Some (me, ExitRelease a (User r)) ->
  exists i thi k, pcb_at (tab s) i = Ok a /\ parent_of s i = Some me /\ threads s !! thi = Some (i, k) /\
    (k = exit_wait i r (fun _ => Gone) \/ k = ExitWait a (exit_remove i r (fun _ => Gone))).
Proof.
  intros Hr Hth. destruct (runs_ok b s0 s D Hwf Hslots Hstart Hr) as (V & P & G & Ha & Hpt & Hfit & HD).
  destruct (point_of s P th me _ Hpt Hth) as (p & Hp & Hd); [done |]. destruct (release_point me p a r Hd) as (i & ->).
  destruct (ft_live _ _ _ Hfit _ _ _ Hp) as ((Hi & Hg & v & Hv & Hpar & <- & Hco) & _). cbn in Hg.
  destruct (child_at s V P G D me th Ha Hpt Hfit HD i _ v Hg Hv) as (thi & pi & HPi & Hli & _).
  destruct (ft_live _ _ _ Hfit _ _ _ HPi) as (_ & Hs & _). exists i, thi, (denote i pi).
  split; [by eapply pcb_at_spec |]. split; [by rewrite <- Hpar; eapply parent_of_spec |]. split; [by apply (ap_forth _ _ Hpt) |].
  destruct pi; try done; cbn [self_ok] in Hs.
  - destruct Hs as (_ & w & Hw & Hc). left. cbn. unfold finish. congruence.
  - destruct Hs as (_ & w & Hw & Hc & Haw). right. cbn. unfold finish. congruence.
Qed.

(** C10: parent and child do not wait for each other.  A parent that waits in
    [JoinWait] for a child that waits in [ExitWait] can go on; and a child in
    [ExitWait] can go on unless it was not joined yet or its parent is inside the
    kernel. *)
Theorem handshake_progress s D th me a k :
  runs s0 s D ->
  (threads s !! th = Some (me, JoinWait a k) ->
   exists i, pcb_at (tab s) i = Ok a /\ parent_of s i = Some me /\
     forall thi a' k', threads s !! thi = Some (i, ExitWait a' k') -> step s (Run th) <> None) /\
  (threads s !! th = Some (me, ExitWait a k) ->
   step s (Run th) <> None \/ me ∈ D \/
   exists q thq kq, parent_of s me = Some q /\ threads s !! thq = Some (q, kq) /\ forall r, kq <> User r).
Proof.
  intros Hr. destruct (runs_ok b s0 s D Hwf Hslots Hstart Hr) as (V & P & G & Ha & Hpt & Hfit & HD). split; intros Hth.
  - destruct (point_of s P th me _ Hpt Hth) as (p & Hp & Hd); [done |]. destruct (block_point me p a k Hd) as (i & ->).
    destruct (ft_live _ _ _ Hfit _ _ _ Hp) as ((Hi & Hg & v & Hv & Hpar & Hav) & _). cbn in Hg, Hav. subst a. exists i.
    split; [by eapply pcb_at_spec |]. split; [by rewrite <- Hpar; eapply parent_of_spec |].
    intros thi a' k' Hthi. destruct (point_of s P thi i _ Hpt Hthi) as (pi & HPi & Hdi); [done |].
    destruct (linger_point i pi a' k' Hdi) as (ec & ->).
    destruct (child_at s V P G D me th Ha Hpt Hfit HD i _ v Hg Hv) as (thi' & pi' & HPi' & Hj & _).
    rewrite HPi in HPi'. injection HPi' as <- <-. cbn in Hj. cbn [step]. rewrite Hth. unfold JoinWait.
    destruct (joinsem_spec _ _ _ _ 0 Ha Hv) as (-> & _). by rewrite Hj.
  - destruct (point_of s P th me _ Hpt Hth) as (p & Hp & Hd); [done |]. destruct (linger_point me p a k Hd) as (ec & ->).
    destruct (ft_live _ _ _ Hfit _ _ _ Hp) as (_ & (Hn & v & Hv & _ & <-) & _ & w & Hw & Hh). rewrite Hv in Hw. injection Hw as <-.
    destruct (Hh Hn) as (g & Hg & Hhs). destruct (decide (g = Collected)) as [-> | Hgc].
    + left. cbn [step]. rewrite Hth. unfold ExitWait. destruct (exitsem_spec _ _ _ _ 0 Ha Hv) as (-> & _).
      cbn in Hhs. destruct Hhs as (_ & [[_ ->] | [? _]]); done.
    + right. destruct (decide (g = Due)) as [-> | Hgd]; [left; by apply HD | right].
      destruct (ft_child _ _ _ Hfit me g Hg) as [_ Hc]. destruct (Hc v Hv Hgc) as (thq & pq & Hpq & _ & Hb).
      exists (par v), thq, (denote (par v) pq). split; [by eapply parent_of_spec |]. split; [by apply (ap_forth _ _ Hpt) |].
      intros r E. apply (f_equal (fun k => match k with User r => Some r | _ => None end)) in E.
      destruct pq; cbn in E; try discriminate E. destruct g; [done | | | done]; destruct Hb as (d & Hd' & _); done.
Qed.
End polite.
End Joins.

(** ** A parent and a child *)
Module JoinDemo.
Import PTable Joins.

Definition bm0 : Bitmap.t := Eval vm_compute in match Bitmap.create 10 with Ok b => b | Fault _ => Bitmap.mk 0 0 [] end.
Definition s0 : sys Bitmap.t := match start bm0 with Ok s => s | Fault _ => mkSys (PTable.mk bm0 [] [] 0) [] end.

Lemma wf_bm0 : slots_wf bm0.
Proof.
  destruct (Bitmap.create_spec 10) as (b & E & Hwf & _); [done |].
  assert (Bitmap.create 10 = Ok bm0) as E' by (by vm_compute). rewrite E' in E. by injection E as <-.
Qed.
Lemma slots_bm0 : slots bm0 = replicate MAX_PROCESS false.
Proof. by vm_compute. Qed.
Lemma start_s0 : start bm0 = Ok s0.
Proof. by vm_compute. Qed.

Fixpoint play (s : sys Bitmap.t) (D : gset Z) (es : list event) : option (sys Bitmap.t * gset Z) :=
  match es with
  | [] => Some (s, D)
  | e :: es =>
      if decide (polite s D e) then
        match step s e with Some (Ok s') => play s' (due_after s D e) es | _ => None end
      else None
  end.

Lemma play_runs es s D s' D' : runs s0 s D -> play s D es = Some (s', D') -> runs s0 s' D'.
Proof.
  revert s D. induction es as [| e es IH]; intros s D Hr; cbn [play]; [by intros [= <- <-] |].
  case_decide as Hpol; [| done]. destruct (step s e) as [[s1 |] |] eqn:Hs; [| done | done]. apply IH. by eapply runs_step.
Qed.

(** Process 0 starts process 1 and joins it; process 1 exits with 42. *)
Definition exec1 : list event := Call 0 (Call_Exec (Some [65]) true false) :: replicate 7 (Run 0).
Definition join1 : list event := Call 0 (Call_Join 1) :: replicate 5 (Run 0).
Definition exit1 : list event := Call 1 (Call_ExitUpdate 42) :: replicate 7 (Run 1).
Definition after (es : list event) : sys Bitmap.t * gset Z := default (s0, ∅) (play s0 ∅ es).

Lemma after_runs es : bool_decide (is_Some (play s0 ∅ es)) = true -> runs s0 (fst (after es)) (snd (after es)).
Proof.
  intros [[s D] E]%bool_decide_eq_true. unfold after. rewrite E. cbn. by apply (play_runs es s0 ∅); [constructor |].
Qed.

Definition both_wait : sys Bitmap.t * gset Z := after (exec1 ++ join1 ++ exit1).
Definition about_to_return : sys Bitmap.t * gset Z := after (exec1 ++ join1 ++ exit1 ++ [Run 0; Run 0]).

Lemma processes_safe_witness :
  runs s0 (fst both_wait) (snd both_wait) /\ exists s', step (fst both_wait) (Run 0) = Some (Ok s').
Proof.
  assert (runs s0 (fst both_wait) (snd both_wait)) as Hr by (apply after_runs; by vm_compute). split; [exact Hr |].
  assert (bool_decide (is_Some (step (fst both_wait) (Run 0))) = true) as [r Hs]%bool_decide_eq_true by (by vm_compute).
  destruct (processes_safe bm0 s0 wf_bm0 slots_bm0 start_s0 _ _ (Run 0) r Hr I Hs) as [[s' ->] _]. by exists s'.
Defined.

(** What a thread is about to do, without the rest. *)
Definition kind (k : proc Bitmap.t) : nat + nat + nat * Z :=
  match k with
  | CallP (Joinsem a) _ => inl (inl a)
  | CallP (Exitsem a) _ => inl (inr a)
  | CallV (Exitsem a) (User r) => inr (a, r)
  | _ => inl (inl 0%nat)
  end.
Lemma kind_release k a r : kind k = inr (a, r) -> k = ExitRelease a (User r).
Proof. by destruct k as [| | [] | [] [] | | |]; intros [= -> ->]. Qed.
Lemma kind_wait k a : kind k = inl (inr a) -> exists k', k = ExitWait a k'.
Proof. destruct k as [| | [] k' | [] [] | | |]; intros [= ->]. by exists k'. Qed.

Definition thread_kind (s : sys Bitmap.t) (th : nat) : option (Z * (nat + nat + nat * Z)) :=
  prod_map id kind <$> threads s !! th.

Lemma thread_of_kind s th me x : thread_kind s th = Some (me, x) -> exists k, threads s !! th = Some (me, k) /\ kind k = x.
Proof. unfold thread_kind. destruct (threads s !! th) as [[me' k] |]; [| done]. intros [= <- <-]. by exists k. Qed.

Lemma join_returns_exit_code_witness :
  exists i thi k, pcb_at (tab (fst about_to_return)) i = Ok 1%nat /\ threads (fst about_to_return) !! thi = Some (i, k) /\
    (k = exit_wait i 42 (fun _ => Gone) \/ k = ExitWait 1 (exit_remove i 42 (fun _ => Gone))).
Proof.
  assert (runs s0 (fst about_to_return) (snd about_to_return)) as Hr by (apply (after_runs (exec1 ++ join1 ++ exit1 ++ [Run 0; Run 0])); by vm_compute).
  destruct (thread_of_kind (fst about_to_return) 0 0 (inr (1%nat, 42))) as (k & Hth & Hk); [by vm_compute |].
  apply kind_release in Hk as ->.
  destruct (join_returns_exit_code bm0 s0 wf_bm0 slots_bm0 start_s0 _ _ 0 0 1 42 Hr Hth) as (i & thi & k & Hpcb & _ & Hthi & Hk).
  exists i, thi, k. exact (conj Hpcb (conj Hthi Hk)).
Defined.

(** The child lingers; it was joined, but its parent has not let it go. *)
Lemma handshake_progress_witness :
  exists k, threads (fst both_wait) !! 1%nat = Some (1, ExitWait 1 k) /\
    (step (fst both_wait) (Run 1) <> None \/ 1 ∈ snd both_wait \/
     exists q thq kq, parent_of (fst both_wait) 1 = Some q /\ threads (fst both_wait) !! thq = Some (q, kq) /\ forall r, kq <> User r).
Proof.
  assert (runs s0 (fst both_wait) (snd both_wait)) as Hr by (apply (after_runs (exec1 ++ join1 ++ exit1)); by vm_compute).
  destruct (thread_of_kind (fst both_wait) 1 1 (inl (inr 1%nat))) as (k0 & Hth & Hk); [by vm_compute |].
  apply kind_wait in Hk as [k ->]. exists k. split; [exact Hth |].
  exact (proj2 (handshake_progress bm0 s0 wf_bm0 slots_bm0 start_s0 _ _ 1 1 1 k Hr) Hth).
Defined.

(** *** Outside of the discipline

    A second [Join] of the same child uses the semaphore its exit deleted. *)
Definition exit1_ends : list event := exec1 ++ join1 ++ exit1 ++ [Run 0; Run 0; Run 0; Run 1; Run 1].
Definition replay (es : list event) : option (res (sys Bitmap.t)) :=
  foldl (fun o e => match o with Some (Ok s) => step s e | _ => o end) (Some (Ok s0)) es.

Lemma second_join_faults : replay (exit1_ends ++ join1 ++ [Run 0]) = Some (Fault MemoryFault).
Proof. by vm_compute. Qed.

(** [Join] of a process that never was follows a NULL pointer. *)
Lemma join_of_nobody_faults : replay [Call 0 (Call_Join 5); Run 0] = Some (Fault MemoryFault).
Proof. by vm_compute. Qed.

(** A name of 32 characters does not fit [FileName]. *)
Lemma long_name_overflows : replay [Call 0 (Call_Exec (Some (replicate 32 65)) true false); Run 0; Run 0] = Some (Fault MemoryFault).
Proof. by vm_compute. Qed.

(** [Exit] with a code that is not 0 leaves the program running. *)
Lemma exit_nonzero_returns me ec r2 : ec <> 0 -> SysExit me ec r2 = (User r2 : proc Bitmap.t).
Proof. intros Hn. unfold SysExit. by destruct (Z.eqb_spec ec 0). Qed.
End JoinDemo.
