(* ===== verification/Procs.v ===== *)
(** * Procs: threads that share a state and its semaphores

    What Monitor.v, Consoles.v and Post.v have in common: an operation of a
    thread is code up to the next semaphore operation and what follows.  A
    component gives the state, its semaphores, its operations and what its
    devices may do; the steps are those of one thread or one device.  They are
    finer than what the kernel does, where code between two semaphore operations
    is interrupted only where it enables interrupts.  Also the counting of
    threads at program points that the invariants use, and the invariant of a
    lock that is a semaphore and a holder. *)

From S2P Require Import Prelude.

Module Procs.

Section procs.
(** The state, its semaphores, the results of calls, the loops. *)
Context {S R V L : Type}.

Inductive proc : Type :=
  | Idle (got : V)                        (** between calls; what the last one gave *)
  | Code (f : S -> res (S * proc))
  | CallP (r : R) (k : proc)
  | CallV (r : R) (k : proc)
  | Loop (l : L).                         (** at the head of a loop *)

(** A component, with its calls [O] and the events [D] of its devices. *)
Class Component (O D : Type) := {
  sem_value : S -> R -> res Z;
  set_sem : S -> R -> Z -> S;
  turn : L -> nat -> S -> res (S * proc);
  enter : nat -> O -> proc;
  device : D -> S -> option (res S);
}.

Context {O D : Type} `{!Component O D}.

Record sys := mkSys { mon : S; threads : list proc }.
Inductive event : Type := Run (th : nat) | Start (th : nat) (o : O) | Device (d : D).

(** What the thread [th] does next, when it can. *)
Definition advance (th : nat) (k : proc) (s : S) : option (res (S * proc)) :=
  match k with
  | Idle _ => None
  | Code f => Some (f s)
  | Loop l => Some (turn l th s)
  | CallP r k =>
      match sem_value s r with
      | Ok v => if v =? 0 then None else Some (Ok (set_sem s r (v - 1), k))
      | Fault e => Some (Fault e)
      end
  | CallV r k => Some (v ← sem_value s r; Ok (set_sem s r (v + 1), k))
  end.

Definition put (s : sys) (th : nat) (r : res (S * proc)) : res sys :=
  '(m, k) ← r; Ok (mkSys m (<[th := k]> (threads s))).

Definition step (s : sys) (e : event) : option (res sys) :=
  match e with
  | Run th =>
      k ← threads s !! th;
      put s th <$> advance th k (mon s)
  | Start th o =>
      k ← threads s !! th;
      match k with Idle _ => Some (Ok (mkSys (mon s) (<[th := enter th o]> (threads s)))) | _ => None end
  | Device d =>
      match device d (mon s) with
      | Some r => Some (m ← r; Ok (mkSys m (threads s)))
      | None => None
      end
  end.

(** Threads run one after the other, without a new call or a device. *)
Fixpoint turns (s : sys) (ths : list nat) : option sys :=
  match ths with
  | [] => Some s
  | th :: ths => match step s (Run th) with Some (Ok s') => turns s' ths | _ => None end
  end.

(** Any events, and the state after them when they are possible. *)
Fixpoint events (s : sys) (es : list event) : option sys :=
  match es with
  | [] => Some s
  | e :: es => match step s e with Some (Ok s') => events s' es | _ => None end
  end.
Definition after (s : sys) (es : list event) : sys := default s (events s es).

Lemma events_after s es : bool_decide (is_Some (events s es)) = true -> events s es = Some (after s es).
Proof. intros [s' E]%bool_decide_eq_true. unfold after. by rewrite E. Qed.
Lemma step_after s e : match step s e with Some (Ok _) => true | _ => false end = true -> step s e = Some (Ok (after s [e])).
Proof. unfold after. cbn [events]. by destruct (step s e) as [[] |]. Qed.

Lemma turns_app s ths ths' : turns s (ths ++ ths') = match turns s ths with Some s' => turns s' ths' | None => None end.
Proof. revert s. induction ths as [| th ths IH]; intros s; cbn [turns app]; [done |]. by destruct (step s (Run th)) as [[] |]. Qed.

(** A lock: the semaphore [lock], and where its holder is kept. *)
Section lock.
Context (lock : R) (holder : S -> option nat) (set_holder : S -> option nat -> S).

Definition IsHeldByCurrentThread (me : nat) (s : S) : bool := bool_decide (holder s = Some me).
Definition Acquire (me : nat) (k : proc) : proc :=
  CallP lock (Code (fun s => Ok (set_holder s (Some me), k))).
Definition Release (me : nat) (k : proc) : proc :=
  Code (fun s =>
    _ ← ASSERT (IsHeldByCurrentThread me s);
    Ok (set_holder s None, CallV lock k)).

Lemma held me s : holder s = Some me -> ASSERT (IsHeldByCurrentThread me s) = Ok tt.
Proof. intros Hh. unfold IsHeldByCurrentThread. by rewrite bool_decide_true. Qed.
End lock.
End procs.
Arguments proc : clear implicits.
Arguments Component : clear implicits.
Arguments sys : clear implicits.
Arguments event : clear implicits.

(** ** Sums over the threads *)

Section Sum.
Context {A : Type} (f : A -> nat).

Fixpoint total (l : list A) : nat := match l with [] => 0 | x :: l => f x + total l end.

Lemma total_cons x l : total (x :: l) = (f x + total l)%nat.
Proof. done. Qed.

Lemma total_snoc l x : total (l ++ [x]) = (total l + f x)%nat.
Proof. induction l as [| y l IH]; cbn in *; lia. Qed.

Lemma total_insert l i x y : l !! i = Some x -> (total (<[i := y]> l) + f x = total l + f y)%nat.
Proof.
  revert i. induction l as [| z l IH]; intros [| i] Hi; cbn in *; [done | done | |].
  - injection Hi as ->. lia.
  - change ((f z + total (<[i := y]> l)) + f x = (f z + total l) + f y)%nat. specialize (IH i Hi). lia.
Qed.

Lemma total_same l i x y : l !! i = Some x -> f y = f x -> total (<[i := y]> l) = total l.
Proof. intros Hi Hf. pose proof (total_insert l i x y Hi). lia. Qed.

Lemma total_le l i x : l !! i = Some x -> (f x <= total l)%nat.
Proof.
  revert i. induction l as [| z l IH]; intros [| i] Hi; cbn in *; [done | done | |].
  - injection Hi as ->. lia.
  - specialize (IH i Hi). lia.
Qed.

Lemma total_two l i j x y : l !! i = Some x -> l !! j = Some y -> i <> j -> (f x + f y <= total l)%nat.
Proof.
  revert i j. induction l as [| z l IH]; intros [| i] [| j] Hi Hj Hne; cbn in *; try done.
  - injection Hi as ->. pose proof (total_le l j y Hj). lia.
  - injection Hj as ->. pose proof (total_le l i x Hi). lia.
  - specialize (IH i j Hi Hj ltac:(lia)). lia.
Qed.

Lemma total_pos l : (0 < total l)%nat -> exists i x, l !! i = Some x /\ (0 < f x)%nat.
Proof.
  induction l as [| z l IH]; cbn; [lia |]. intros Hp.
  destruct (decide (0 < f z)%nat) as [Hz | Hz]; [by exists 0%nat, z |].
  destruct IH as (i & x & Hi & Hx); [lia |]. by exists (S i), x.
Qed.

Lemma total_zero l : (forall i x, l !! i = Some x -> f x = 0%nat) -> total l = 0%nat.
Proof.
  intros Hf. destruct (decide (0 < total l)%nat) as [(i & x & Hi & Hx)%total_pos | Hz]; [| lia].
  specialize (Hf i x Hi). lia.
Qed.

Lemma total_bound c l : (forall x, f x <= c)%nat -> (total l <= c * length l)%nat.
Proof.
  intros Hf. induction l as [| x l IH]; [apply Nat.le_0_l |].
  rewrite total_cons. cbn [length]. rewrite Nat.mul_succ_r. specialize (Hf x). lia.
Qed.
End Sum.
#[global] Arguments total : simpl never.


(** ** Program points *)

Section points.
Context {S R V W P : Type} (denote : nat -> P -> proc S R V W).

(** The threads [ths] are at the points [ps]. *)
Definition at_points (ths : list (proc S R V W)) (ps : list P) : Prop :=
  forall th, ths !! th = denote th <$> ps !! th.

Lemma place_move ths ps th p p' : at_points ths ps -> ps !! th = Some p ->
  at_points (<[th := denote th p']> ths) (<[th := p']> ps).
Proof.
  intros Hpt Hp th'. destruct (decide (th' = th)) as [-> | Hne].
  - rewrite !list_lookup_insert_eq; [done | by eapply lookup_lt_Some |].
    apply (lookup_lt_is_Some_1 ths). rewrite Hpt, Hp. done.
  - rewrite !list_lookup_insert_ne by done. apply Hpt.
Qed.

Lemma run_inv {O D} `{!Component S R V W O D} s ps th r : at_points (threads s) ps -> step s (Run th) = Some r ->
  exists p r', ps !! th = Some p /\ advance th (denote th p) (mon s) = Some r' /\ r = put s th r'.
Proof.
  intros Hpt. cbn. rewrite Hpt. destruct (ps !! th) as [p |]; [| done]. cbn.
  destruct (advance th (denote th p) (mon s)) as [r' |] eqn:E; [| done]. intros [= <-]. eauto.
Qed.

Lemma stuck_advance {O D} `{!Component S R V W O D} s ps th p : at_points (threads s) ps -> step s (Run th) = None ->
  ps !! th = Some p -> advance th (denote th p) (mon s) = None.
Proof. intros Hpt Hs Hp. cbn in Hs. rewrite Hpt, Hp in Hs. cbn in Hs. by destruct (advance th (denote th p) (mon s)). Qed.

Lemma place_length ths ps : at_points ths ps -> length ps = length ths.
Proof.
  intros Hpt. apply Nat.le_antisymm; apply Nat.nlt_ge; intros Hlt.
  - specialize (Hpt (length ths)). rewrite (proj2 (lookup_ge_None _ _)) in Hpt by lia.
    by apply lookup_lt_is_Some in Hlt as [p Hp]; rewrite Hp in Hpt.
  - specialize (Hpt (length ps)). rewrite (proj2 (lookup_ge_None ps _)) in Hpt by lia.
    by apply lookup_lt_is_Some in Hlt as [p Hp]; rewrite Hp in Hpt.
Qed.

Lemma place_all n p k : (forall th, denote th p = k) -> at_points (replicate n k) (replicate n p).
Proof.
  intros Hk th. destruct (decide (th < n)%nat).
  - rewrite !lookup_replicate_2 by done. cbn. by rewrite Hk.
  - by rewrite !(proj2 (lookup_ge_None _ _)) by (rewrite length_replicate; lia).
Qed.

(** A lookup after a move. *)
Lemma move_lookup (ps : list P) (th th' : nat) (p p' q : P) : ps !! th = Some p -> <[th := p']> ps !! th' = Some q ->
  (th' = th /\ q = p') \/ (th' <> th /\ ps !! th' = Some q).
Proof.
  intros Hp. destruct (decide (th' = th)) as [-> | Hne].
  - rewrite list_lookup_insert_eq by (by eapply lookup_lt_Some). intros [= <-]. by left.
  - rewrite list_lookup_insert_ne by done. by right.
Qed.

(** A lock: [inside] counts the threads past the [P] of its semaphore and before
    its [V], [holds] tells those that are recorded as the holder. *)
Context (inside : P -> nat) (holds : P -> bool).

Record lock_ok (L : Z) (H : option nat) (ps : list P) : Prop := {
  lk_one : L + Z.of_nat (total inside ps) = 1;
  lk_pos : 0 <= L;
  lk_holder th p : ps !! th = Some p -> holds p = true -> H = Some th;
}.

Lemma lock_start n p : inside p = 0%nat -> holds p = false -> lock_ok 1 None (replicate n p).
Proof.
  intros Hi Hh. assert (forall th q, replicate n p !! th = Some q -> q = p) as Hr by (by intros th q [-> _]%lookup_replicate).
  split; [| lia | intros th q ->%Hr; congruence]. rewrite total_zero; [done |]. by intros th q ->%Hr.
Qed.

Section Move.
Context (ps : list P) (th : nat) (p p' : P) (Hp : ps !! th = Some p).
#[local] Set Default Proof Using "Hp".

Lemma lock_move L H : lock_ok L H ps -> inside p' = inside p -> (holds p' = true -> holds p = true) ->
  lock_ok L H (<[th := p']> ps).
Proof.
  intros [H1 H0 Hh] Hi Hho. split; [by rewrite (total_same _ _ _ p) | done |].
  intros th' q Hq Hqh. destruct (move_lookup _ _ _ _ _ _ Hp Hq) as [[-> ->] | [_ ?]]; [| by eapply Hh].
  apply (Hh th p Hp). by apply Hho.
Qed.

(** The thread inside is the only one. *)
Lemma lock_alone L H : lock_ok L H ps -> inside p = 1%nat -> forall th' q, ps !! th' = Some q -> th' <> th -> inside q = 0%nat.
Proof.
  intros [H1 H0 _] Hi th' q Hq Hne. pose proof (total_two inside ps th th' p q Hp Hq ltac:(congruence)). lia.
Qed.

(** The holder changes, by the thread inside. *)
Lemma lock_holder L H H' : (forall q, holds q = true -> inside q = 1%nat) -> lock_ok L H ps -> inside p = 1%nat ->
  inside p' = 1%nat -> (holds p' = true -> H' = Some th) -> lock_ok L H' (<[th := p']> ps).
Proof.
  intros Hhi Hl Hi Hi' Hh. pose proof (lock_alone L H Hl Hi) as Hal. destruct Hl as [H1 H0 _].
  split; [by rewrite (total_same _ _ _ p) by congruence | done |].
  intros th' q Hq Hqh. destruct (move_lookup _ _ _ _ _ _ Hp Hq) as [[-> ->] | [Hne Hq']]; [by apply Hh |].
  specialize (Hal th' q Hq' Hne). rewrite Hhi in Hal by done. lia.
Qed.

Lemma lock_P L H : lock_ok L H ps -> L <> 0 -> inside p = 0%nat -> inside p' = 1%nat -> holds p' = false ->
  lock_ok (L - 1) H (<[th := p']> ps).
Proof.
  intros [H1 H0 Hh] Hn Hi Hi' Hf. pose proof (total_insert inside ps th p p' Hp). split; [lia | lia |].
  intros th' q Hq Hqh. destruct (move_lookup _ _ _ _ _ _ Hp Hq) as [[-> ->] | [_ ?]]; [congruence | by eapply Hh].
Qed.

Lemma lock_V L H : lock_ok L H ps -> inside p = 1%nat -> inside p' = 0%nat -> holds p' = false ->
  lock_ok (L + 1) H (<[th := p']> ps).
Proof.
  intros [H1 H0 Hh] Hi Hi' Hf. pose proof (total_insert inside ps th p p' Hp). split; [lia | lia |].
  intros th' q Hq Hqh. destruct (move_lookup _ _ _ _ _ _ Hp Hq) as [[-> ->] | [_ ?]]; [congruence | by eapply Hh].
Qed.
End Move.
End points.
End Procs.
