(* ===== verification/Monitor.v ===== *)
(** * Monitor: class Condition of threads/synch.cc, and threads/synchlist.h, synchlist.cc

    The synchronised list: a list, a lock and a condition variable, used by any
    number of threads (Procs.v); a waiting thread has a semaphore of its own,
    known by its address. *)

From S2P Require Import Prelude Lists Procs.

Module Monitor.
Import Procs.

Section state.
Context {T : Type}.

(** The members of [SynchList], with those of its [lock] and its [listEmpty];
    [waiters] are the semaphores [Wait] made, [None] when deleted. *)
Record t := mk {
  items : list T;
  lockSem : Z;
  lockHolder : option nat;
  waitQueue : list nat;
  waiters : list (option Z);
}.

Definition with_items (s : t) l := mk l (lockSem s) (lockHolder s) (waitQueue s) (waiters s).
Definition with_lockSem (s : t) v := mk (items s) v (lockHolder s) (waitQueue s) (waiters s).
Definition with_holder (s : t) h := mk (items s) (lockSem s) h (waitQueue s) (waiters s).
Definition with_queue (s : t) q := mk (items s) (lockSem s) (lockHolder s) q (waiters s).
Definition with_waiters (s : t) w := mk (items s) (lockSem s) (lockHolder s) (waitQueue s) w.

Definition create : t := mk [] 1 None [] [].

Inductive semref : Set := LockSem | Waiter (w : nat).

Definition get_sem (s : t) (r : semref) : res Z :=
  match r with LockSem => Ok (lockSem s) | Waiter w => o ← deref (waiters s !! w); deref o end.
Definition put_sem (s : t) (r : semref) (v : Z) : t :=
  match r with LockSem => with_lockSem s v | Waiter w => with_waiters s (<[w := Some v]> (waiters s)) end.

End state.
Arguments t : clear implicits.

(** The lock of the list *)
Notation IsHeldByCurrentThread := (Procs.IsHeldByCurrentThread lockHolder).
Notation Acquire := (Procs.Acquire LockSem with_holder).
Notation Release := (Procs.Release LockSem lockHolder with_holder).

Section monitor.
Context {T : Type} `{EqDecision T}.

(** The calls give lists of items; the one loop is that of [RemoveFront]. *)
#[local] Notation proc := (Procs.proc (t T) semref (list T) unit).

(** ** Condition variables, for the thread [me] *)

Definition delete_waiter (w : nat) (k : proc) : proc :=
  Code (fun s => o ← deref (waiters s !! w); _ ← deref o; Ok (with_waiters s (<[w := None]> (waiters s)), k)).

Definition Wait (me : nat) (k : proc) : proc :=
  Code (fun s =>
    _ ← ASSERT (IsHeldByCurrentThread me s);
    let waiter := length (waiters s) in
    let s := with_waiters s (waiters s ++ [Some 0]) in
    q ← ListSpec.Append waiter (waitQueue s);
    Ok (with_queue s q,
        Release me (CallP (Waiter waiter) (Acquire me (delete_waiter waiter k))))).

Definition Signal (me : nat) (k : proc) : proc :=
  Code (fun s =>
    _ ← ASSERT (IsHeldByCurrentThread me s);
    match waitQueue s with
    | [] => Ok (s, k)
    | _ => '(waiter, q) ← ListSpec.RemoveFront (waitQueue s);
           Ok (with_queue s q, CallV (Waiter waiter) k)
    end).

(** [n]: turns left for the loop *)
Fixpoint Broadcast (n : nat) (me : nat) (k : proc) : proc :=
  Code (fun s =>
    match waitQueue s, n with
    | [], _ => Ok (s, k)
    | _, O => Fault OutOfFuel
    | _, S n' => Ok (s, Signal me (Broadcast n' me k))
    end).

(** ** The synchronised list *)

Definition Append (me : nat) (item : T) : proc :=
  Acquire me (Code (fun s =>
    l ← ListSpec.Append item (items s);
    Ok (with_items s l, Signal me (Release me (Idle []))))).

(** One turn of the loop, and what follows it *)
Definition remove_turn (me : nat) (s : t T) : res (t T * proc) :=
  match items s with
  | [] => Ok (s, Wait me (Loop tt))
  | _ => '(item, l) ← ListSpec.RemoveFront (items s);
         Ok (with_items s l, Release me (Idle [item]))
  end.
Definition RemoveFront (me : nat) : proc := Acquire me (Loop tt).

(** [Apply]: the items [func] is called on, in order *)
Definition Apply (me : nat) : proc :=
  Acquire me (Code (fun s => Ok (s, Release me (Idle (items s))))).

Inductive op : Type := Op_Append (item : T) | Op_RemoveFront | Op_Apply.
Definition enter_op (me : nat) (o : op) : proc :=
  match o with Op_Append x => Append me x | Op_RemoveFront => RemoveFront me | Op_Apply => Apply me end.

#[global] Instance component : Component (t T) semref (list T) unit op Empty_set := {
  sem_value := get_sem;
  set_sem := put_sem;
  turn _ := remove_turn;
  enter := enter_op;
  device d := match d with end;
}.

Definition start (n : nat) : sys (t T) semref (list T) unit := mkSys create (replicate n (Idle [])).
End monitor.
Arguments op : clear implicits.
End Monitor.
