(* ===== verification/SynchLists.v ===== *)
(** * SynchLists: the synchronised list loses no item and no wakeup

    The invariant of Monitor.v gives every thread a program point; what it says
    comes in three parts: the lock, the semaphores of those who wait, and the items
    that are spoken for. *)

From S2P Require Import Prelude Lists Procs Monitor.

Module SynchLists.
Import Procs Monitor.

(** ** Program points *)

Section points.
Context {T : Type} `{EqDecision T}.

#[local] Notation proc := (Procs.proc (t T) semref (list T) unit).
#[local] Notation sys := (Procs.sys (t T) semref (list T) unit).

Inductive point : Type :=
  | PIdle (got : list T)
  | PGive (o : op T)                  (** at the [P] of the lock, before the call proper *)
  | PTake (o : op T)                  (** past it *)
  | PInsert (x : T)
  | PSignal
  | PWake (w : nat)
  | PLeave (got : list T)             (** [Release] *)
  | PLeft (got : list T)
  | PLoop
  | PWait                             (** [Wait], in order *)
  | PUnlock (w : nat)
  | PUnlocked (w : nat)
  | PSleep (w : nat)
  | PBack (w : nat)
  | PBackIn (w : nat)
  | PDelete (w : nat)
  | PVisit.

Definition rest (k : proc) : proc := match k with CallP _ k | CallV _ k => k | k => k end.

(** [Append] after its [Acquire], [Wait] after its allocation *)
Definition insert_code (me : nat) (x : T) : proc :=
  Code (fun s => l ← ListSpec.Append x (items s); Ok (with_items s l, Signal me (Release me (Idle [])))).
Definition visit_code (me : nat) : proc := Code (fun s => Ok (s, Release me (Idle (items s)))).
Definition back (me w : nat) : proc := Acquire me (delete_waiter w (Loop tt)).
Definition sleep (me w : nat) : proc := CallP (Waiter w) (back me w).

Definition denote (me : nat) (p : point) : proc :=
  match p with
  | PIdle got => Idle got
  | PGive o => enter me o
  | PTake o => rest (enter me o)
  | PInsert x => insert_code me x
  | PSignal => Signal me (Release me (Idle []))
  | PWake w => CallV (Waiter w) (Release me (Idle []))
  | PLeave got => Release me (Idle got)
  | PLeft got => CallV LockSem (Idle got)
  | PLoop => (Loop tt)
  | PWait => Wait me (Loop tt)
  | PUnlock w => Release me (sleep me w)
  | PUnlocked w => CallV LockSem (sleep me w)
  | PSleep w => sleep me w
  | PBack w => back me w
  | PBackIn w => rest (back me w)
  | PDelete w => delete_waiter w (Loop tt)
  | PVisit => visit_code me
  end.

(** Past the [P] of the lock and before its [V]; and recorded as the holder. *)
Definition inside (p : point) : nat :=
  match p with
  | PIdle _ | PGive _ | PSleep _ | PBack _ => 0
  | _ => 1
  end.
Definition holds (p : point) : bool :=
  match p with
  | PInsert _ | PSignal | PWake _ | PLeave _ | PLoop | PWait | PUnlock _ | PDelete _ | PVisit => true
  | _ => false
  end.

Lemma holds_inside p : holds p = true -> inside p = 1%nat.
Proof. by destruct p. Qed.

(** The semaphore of a thread that waits, before and after its [P]; the one a thread is about to [V]. *)
Definition early (p : point) : option nat := match p with PUnlock w | PUnlocked w | PSleep w => Some w | _ => None end.
Definition late (p : point) : option nat := match p with PBack w | PBackIn w | PDelete w => Some w | _ => None end.
Definition wakes (p : point) : option nat := match p with PWake w => Some w | _ => None end.

(** Threads that will look at the list, or signal for an item. *)
Definition weight (p : point) : nat :=
  match p with
  | PSignal | PLoop | PUnlock _ | PUnlocked _ | PSleep _ | PBack _ | PBackIn _ | PDelete _ => 1
  | _ => 0
  end.

(** ** The steps of one thread, on its points *)

Definition entered (o : op T) : point :=
  match o with Op_Append x => PInsert x | Op_RemoveFront => PLoop | Op_Apply => PVisit end.

Inductive next (th : nat) (m : t T) : point -> t T -> point -> Prop :=
  | next_give o : lockSem m <> 0 -> next th m (PGive o) (with_lockSem m (lockSem m - 1)) (PTake o)
  | next_enter o : next th m (PTake o) (with_holder m (Some th)) (entered o)
  | next_insert x : x ∉ items m -> next th m (PInsert x) (with_items m (items m ++ [x])) PSignal
  | next_nobody : waitQueue m = [] -> next th m PSignal m (PLeave [])
  | next_signal w Q : waitQueue m = w :: Q -> next th m PSignal (with_queue m Q) (PWake w)
  | next_wake w v : waiters m !! w = Some (Some v) ->
      next th m (PWake w) (with_waiters m (<[w := Some (v + 1)]> (waiters m))) (PLeave [])
  | next_leave got : next th m (PLeave got) (with_holder m None) (PLeft got)
  | next_left got : next th m (PLeft got) (with_lockSem m (lockSem m + 1)) (PIdle got)
  | next_take x l : items m = x :: l -> next th m PLoop (with_items m l) (PLeave [x])
  | next_empty : items m = [] -> next th m PLoop m PWait
  | next_wait : next th m PWait
      (with_queue (with_waiters m (waiters m ++ [Some 0])) (waitQueue m ++ [length (waiters m)])) (PUnlock (length (waiters m)))
  | next_unlock w : next th m (PUnlock w) (with_holder m None) (PUnlocked w)
  | next_unlocked w : next th m (PUnlocked w) (with_lockSem m (lockSem m + 1)) (PSleep w)
  | next_sleep w v : waiters m !! w = Some (Some v) -> v <> 0 ->
      next th m (PSleep w) (with_waiters m (<[w := Some (v - 1)]> (waiters m))) (PBack w)
  | next_back w : lockSem m <> 0 -> next th m (PBack w) (with_lockSem m (lockSem m - 1)) (PBackIn w)
  | next_back_in w : next th m (PBackIn w) (with_holder m (Some th)) (PDelete w)
  | next_delete w v : waiters m !! w = Some (Some v) ->
      next th m (PDelete w) (with_waiters m (<[w := None]> (waiters m))) PLoop
  | next_visit : next th m PVisit m (PLeave (items m)).

(** ** The invariant *)

(** How often [w] is what [f] gives. *)
Definition same (v w : nat) : nat := if decide (v = w) then 1 else 0.
Definition at_ {A} (f : A -> option nat) (w : nat) (x : A) : nat := match f x with Some v => same v w | None => 0 end.
Definition units (o : option (option Z)) : nat := match o with Some (Some v) => Z.to_nat v | _ => 0 end.
Definition live (o : option (option Z)) : nat := match o with Some (Some _) => 1 | _ => 0 end.

(** A thread that has not been past the [P] of its semaphore is in the queue, has
    a unit, or is about to get one; only one of these, and only one thread uses it. *)
Definition waiter_ok (Q : list nat) (W : list (option Z)) (ps : list point) (w : nat) : Prop :=
  total (at_ early w) ps = (total (at_ Some w) Q + total (at_ wakes w) ps + units (W !! w))%nat /\
  (total (at_ early w) ps + total (at_ late w) ps = live (W !! w))%nat /\
  (forall v, W !! w = Some (Some v) -> 0 <= v).

(** As long as somebody is in the queue, every item is spoken for. *)
Record items_ok (I : list T) (Q : list nat) (ps : list point) : Prop := {
  it_count : Q <> [] -> (length I + length Q <= total weight ps)%nat;
  it_wait th : ps !! th = Some PWait -> I = [];
}.

Record inv (m : t T) (ps : list point) : Prop := {
  inv_lock : lock_ok inside holds (lockSem m) (lockHolder m) ps;
  inv_waiters w : waiter_ok (waitQueue m) (waiters m) ps w;
  inv_items : items_ok (items m) (waitQueue m) ps;
}.

Definition ok (s : sys) : Prop := exists ps, at_points denote (threads s) ps /\ inv (mon s) ps.

(** *** One thread moves: what stays *)

Section Move.
Context (ps : list point) (th : nat) (p p' : point) (Hp : ps !! th = Some p).
#[local] Set Default Proof Using "All".

(** What changes for one waiting thread balances. *)
Lemma waiter_move Q Q' W W' w : waiter_ok Q W ps w ->
  (at_ early w p' + total (at_ Some w) Q + at_ wakes w p + units (W !! w) =
   at_ early w p + total (at_ Some w) Q' + at_ wakes w p' + units (W' !! w))%nat ->
  (at_ early w p' + at_ late w p' + live (W !! w) = at_ early w p + at_ late w p + live (W' !! w))%nat ->
  (forall v, W' !! w = Some (Some v) -> 0 <= v) -> waiter_ok Q' W' (<[th := p']> ps) w.
Proof.
  intros (H1 & H2 & _) E1 E2 E3. pose proof (total_insert (at_ early w) ps th p p' Hp).
  pose proof (total_insert (at_ late w) ps th p p' Hp). pose proof (total_insert (at_ wakes w) ps th p p' Hp).
  split; [lia | split; [lia | exact E3]].
Qed.

(** The thread uses one semaphore. *)
Lemma waiter_store Q W w0 o o' w : waiter_ok Q W ps w -> W !! w0 = Some o ->
  (w <> w0 -> at_ early w p = 0 /\ at_ early w p' = 0 /\ at_ late w p = 0 /\ at_ late w p' = 0 /\ at_ wakes w p = 0 /\ at_ wakes w p' = 0)%nat ->
  (w = w0 -> at_ early w p' + at_ wakes w p + units (Some o) = at_ early w p + at_ wakes w p' + units (Some o') /\
    at_ early w p' + at_ late w p' + live (Some o) = at_ early w p + at_ late w p + live (Some o'))%nat ->
  (forall v, o' = Some v -> 0 <= v) -> waiter_ok Q (<[w0 := o']> W) (<[th := p']> ps) w.
Proof.
  intros Ha HW Hne Heq Hv. pose proof Ha as (H1 & H2 & H3). apply lookup_lt_Some in HW as Hlt.
  destruct (decide (w = w0)) as [-> | Hw].
  - destruct (Heq eq_refl) as [E1 E2]. apply (waiter_move _ _ _ _ _ Ha); rewrite list_lookup_insert_eq by done; rewrite ?HW; [lia | lia |].
    intros v [= E]. by apply Hv.
  - destruct (Hne Hw) as (E1 & E2 & E3 & E4 & E5 & E6).
    apply (waiter_move _ _ _ _ _ Ha); rewrite list_lookup_insert_ne by done; [lia | lia | exact H3].
Qed.

Lemma waiters_same Q W : (forall w, waiter_ok Q W ps w) -> early p' = early p -> late p' = late p -> wakes p' = wakes p ->
  forall w, waiter_ok Q W (<[th := p']> ps) w.
Proof.
  intros Ha E1 E2 E3 w. apply (waiter_move Q Q W W); [done | | | apply (Ha w)]; unfold at_; rewrite E1, ?E2, ?E3; lia.
Qed.

Lemma items_move I Q : items_ok I Q ps -> (weight p <= weight p')%nat -> (p' = PWait -> I = []) -> items_ok I Q (<[th := p']> ps).
Proof.
  intros [Hc Hw] Hle Hwt. pose proof (total_insert weight ps th p p' Hp). split; [intros Hq; specialize (Hc Hq); lia |].
  intros th' Hq. destruct (move_lookup _ _ _ _ _ _ Hp Hq) as [[-> E] | [_ ?]]; [by apply Hwt | by eapply Hw].
Qed.

Lemma items_weigh I Q I' Q' : items_ok I Q ps ->
  (Q' <> [] -> Q <> [] /\ length I' + length Q' + weight p <= length I + length Q + weight p')%nat ->
  (forall th', <[th := p']> ps !! th' = Some PWait -> I' = []) -> items_ok I' Q' (<[th := p']> ps).
Proof.
  intros [Hc _] Hd Hw. pose proof (total_insert weight ps th p p' Hp). split; [| exact Hw].
  intros [Hq Hle]%Hd. specialize (Hc Hq). lia.
Qed.

End Move.

(** *** Counting *)

Lemma same_eq w : same w w = 1%nat.
Proof. unfold same. by rewrite decide_True. Qed.
Lemma same_ne v w : v <> w -> same v w = 0%nat.
Proof. intros Hne. unfold same. by rewrite decide_False. Qed.

Lemma occ_elem (Q : list nat) w : w ∈ Q <-> (0 < total (at_ Some w) Q)%nat.
Proof.
  split.
  - intros [i Hi]%list_elem_of_lookup. pose proof (total_le (at_ Some w) Q i w Hi) as Hle.
    change (at_ Some w w) with (same w w) in Hle. rewrite same_eq in Hle. lia.
  - intros (i & x & Hi & Hx)%total_pos. destruct (decide (x = w)) as [-> | Hne]; [by eapply list_elem_of_lookup_2 |].
    change (at_ Some w x) with (same x w) in Hx. rewrite same_ne in Hx by done. lia.
Qed.

Lemma occ_NoDup (Q : list nat) : (forall w, total (at_ Some w) Q <= 1)%nat -> NoDup Q.
Proof.
  intros Ho. apply NoDup_alt. intros i j x Hi Hj. destruct (decide (i = j)) as [| Hne]; [done |].
  pose proof (total_two (at_ Some x) Q i j x x Hi Hj Hne) as H2. specialize (Ho x).
  change (at_ Some x x) with (same x x) in H2. rewrite same_eq in H2. lia.
Qed.

Lemma occ_omap (f : point -> option nat) w (l : list point) : total (at_ Some w) (omap f l) = total (at_ f w) l.
Proof.
  induction l as [| p l IH]; [done |]. rewrite (total_cons (at_ f w)), <- IH. 
  change (at_ f w p) with (match f p with Some v => same v w | None => 0%nat end).
  cbn. by destruct (f p) as [v |].
Qed.

Lemma length_omap_total (f : point -> option nat) (g : point -> nat) (l : list point) :
  (forall p, is_Some (f p) -> (1 <= g p)%nat) -> (length (omap f l) <= total g l)%nat.
Proof.
  intros Hfg. induction l as [| p l IH]; [done |]. rewrite total_cons. specialize (Hfg p). cbn.
  destruct (f p) as [v |]; cbn; [specialize (Hfg ltac:(eauto)) |]; lia.
Qed.

Lemma waiter_one Q W ps w : waiter_ok Q W ps w -> (total (at_ early w) ps <= 1 /\ total (at_ Some w) Q <= total (at_ early w) ps)%nat.
Proof. intros (H1 & H2 & _). split; [| lia]. enough (live (W !! w) <= 1)%nat by lia. destruct (W !! w) as [[]|]; cbn; lia. Qed.

(** Those in the queue are threads that wait. *)
Lemma queue_waits Q W ps : (forall w, waiter_ok Q W ps w) -> NoDup Q /\ (length Q <= total weight ps)%nat.
Proof.
  intros Hw. assert (NoDup Q) as Hnd. { apply occ_NoDup. intros w. destruct (waiter_one _ _ _ _ (Hw w)). lia. }
  split; [done |]. transitivity (length (omap early ps)).
  - apply submseteq_length, NoDup_submseteq; [done |]. intros w Hin%occ_elem. apply occ_elem. rewrite occ_omap.
    destruct (waiter_one _ _ _ _ (Hw w)). lia.
  - apply length_omap_total. intros p [w Hp]. by destruct p.
Qed.

(** A semaphore that a thread is about to use is not deleted. *)
Lemma waiter_live Q W ps w th p : waiter_ok Q W ps w -> ps !! th = Some p ->
  early p = Some w \/ late p = Some w \/ wakes p = Some w -> exists v, W !! w = Some (Some v) /\ 0 <= v.
Proof.
  intros (H1 & H2 & H3) Hp Hor. pose proof (total_le (at_ early w) ps th p Hp). pose proof (total_le (at_ late w) ps th p Hp).
  pose proof (total_le (at_ wakes w) ps th p Hp).
  assert (0 < at_ early w p + at_ late w p + at_ wakes w p)%nat as Hpos.
  { unfold at_. destruct Hor as [-> | [-> | ->]]; rewrite same_eq; lia. }
  destruct (W !! w) as [[v |] |] eqn:HW; cbn in H2; [exists v; eauto | lia | lia].
Qed.

Lemma lookup_app_ne {A} (l : list A) x w : w <> length l -> (l ++ [x]) !! w = l !! w.
Proof.
  intros Hne. destruct (decide (w < length l)%nat) as [Hl | Hl]; [by apply lookup_app_l |].
  rewrite lookup_app_r by lia. rewrite (proj2 (lookup_ge_None l w)) by lia. apply lookup_ge_None. cbn. lia.
Qed.

Ltac solve_same := intros ?; cbn; rewrite ?same_ne by congruence; done.

(** *** Every step keeps the invariant *)

#[local] Set Default Proof Using "Type*".
(** What is left to do without a new call: the longest way out, and ten for every unit given. *)
Definition rank (p : point) : nat :=
  match p with
  | PGive (Op_Append _) => 23 | PTake (Op_Append _) => 22 | PInsert _ => 21 | PSignal => 20 | PWake _ => 19
  | PGive Op_RemoveFront => 8 | PTake Op_RemoveFront => 7 | PGive Op_Apply => 5 | PTake Op_Apply => 4 | PVisit => 3
  | PBack _ => 9 | PBackIn _ => 8 | PDelete _ => 7 | PLoop => 6 | PWait => 5 | PUnlock _ => 4 | PUnlocked _ => 3 | PSleep _ => 2
  | PLeave _ => 2 | PLeft _ => 1 | PIdle _ => 0
  end.
Definition token (o : option Z) : nat := match o with Some v => Z.to_nat v | None => 0 end.
Definition tokens (W : list (option Z)) : nat := total token W.

Section Next.
Context (ps : list point) (th : nat) (p p' : point) (Hp : ps !! th = Some p) (m m' : t T) (Hn : next th m p m' p').
#[local] Set Default Proof Using "All".

Lemma lock_next : lock_ok inside holds (lockSem m) (lockHolder m) ps -> lock_ok inside holds (lockSem m') (lockHolder m') (<[th := p']> ps).
Proof.
  intros Hl. destruct Hn; cbn;
    first [ eapply lock_move; done | eapply lock_P; done | eapply lock_V; done | eapply lock_holder; [done | exact holds_inside | done | done | try done; by destruct o | done] ].
Qed.

Lemma waiters_next : (forall w, waiter_ok (waitQueue m) (waiters m) ps w) ->
  forall w, waiter_ok (waitQueue m') (waiters m') (<[th := p']> ps) w.
Proof.
  intros Ha. destruct Hn as [o | o | x Hx | HQ | w0 Q HQ | w0 v HW | got | got | x l HI | HI | | w0 | w0 | w0 v HW Hv | w0 | w0 | w0 v HW |];
    cbn; try (apply (waiters_same ps th _ _ Hp); first [done | by destruct o]); intros w; pose proof (Ha w) as (H1 & H2 & H3).
  - apply (waiter_move ps th _ _ Hp _ _ _ _ w (Ha w)); [| cbn; lia | exact H3]. rewrite HQ, !total_cons. cbn. lia.
  - apply (waiter_store ps th _ _ Hp _ _ w0 (Some v) (Some (v + 1)) w (Ha w) HW); [solve_same | |].
    + intros ->. specialize (H3 v HW). cbn. rewrite same_eq. lia.
    + intros v' [= <-]. destruct (Ha w0) as (_ & _ & Hv). specialize (Hv v HW). lia.
  - assert (waiters m !! length (waiters m) = None) as Hno by (by apply lookup_ge_None_2).
    apply (waiter_move ps th _ _ Hp _ _ _ _ w (Ha w)).
    all: destruct (decide (w = length (waiters m))) as [-> | Hw].
    + rewrite total_snoc, lookup_app_r, Hno, Nat.sub_diag by lia. cbn. rewrite same_eq. lia.
    + rewrite total_snoc, lookup_app_ne by done. cbn. rewrite same_ne by done. lia.
    + rewrite lookup_app_r, Hno, Nat.sub_diag by lia. cbn. rewrite same_eq. lia.
    + rewrite lookup_app_ne by done. cbn. rewrite same_ne by done. lia.
    + intros v. rewrite lookup_app_r, Nat.sub_diag by lia. cbn. intros [= <-]. lia.
    + intros v. rewrite lookup_app_ne by done. apply H3.
  - apply (waiter_store ps th _ _ Hp _ _ w0 (Some v) (Some (v - 1)) w (Ha w) HW); [solve_same | |].
    + intros ->. specialize (H3 v HW). cbn. rewrite same_eq. lia.
    + intros v' [= <-]. destruct (Ha w0) as (_ & _ & Hv'). specialize (Hv' v HW). lia.
  - apply (waiter_store ps th _ _ Hp _ _ w0 (Some v) None w (Ha w) HW); [solve_same | | done].
    intros ->. pose proof (total_le (at_ late w0) ps th _ Hp) as Hl. cbn in Hl |- *. rewrite same_eq in *.
    rewrite HW in H1, H2. cbn in H1, H2. lia.
Qed.

Lemma items_next : lock_ok inside holds (lockSem m) (lockHolder m) ps -> (forall w, waiter_ok (waitQueue m) (waiters m) ps w) ->
  items_ok (items m) (waitQueue m) ps -> items_ok (items m') (waitQueue m') (<[th := p']> ps).
Proof.
  intros Hl Ha Hi. pose proof (queue_waits _ _ _ (waiters_next Ha)) as [_ Hlen].
  assert (inside p = 1%nat -> forall th', <[th := p']> ps !! th' = Some PWait -> p' = PWait) as Halone.
  { intros Hin th' Hq. destruct (move_lookup _ _ _ _ _ _ Hp Hq) as [[_ <-] | [Hne Hq']]; [done |].
    pose proof (lock_alone inside holds ps th p Hp _ _ Hl Hin _ _ Hq' Hne). done. }
  destruct Hn as [o | o | x Hx | HQ | w0 Q HQ | w0 v HW | got | got | x l HI | HI | | w0 | w0 | w0 v HW Hv | w0 | w0 | w0 v HW |];
    cbn in *; try (apply (items_move ps th _ _ Hp _ _ Hi); [cbn; try destruct o; cbn; lia | try destruct o; done]).
  - apply (items_weigh ps th _ _ Hp _ _ _ _ Hi); [rewrite length_app; cbn; intros ?; split; [done | lia] |].
    intros th' Hq. discriminate (Halone eq_refl _ Hq).
  - apply (items_weigh ps th _ _ Hp _ _ _ _ Hi); [by rewrite HQ |]. intros th' Hq. discriminate (Halone eq_refl _ Hq).
  - apply (items_weigh ps th _ _ Hp _ _ _ _ Hi); [rewrite HQ; cbn; intros ?; split; [done | lia] |].
    intros th' Hq. discriminate (Halone eq_refl _ Hq).
  - apply (items_weigh ps th _ _ Hp _ _ _ _ Hi); [rewrite HI; cbn; intros ?; split; [done | lia] |].
    intros th' Hq. discriminate (Halone eq_refl _ Hq).
  - rewrite HI. split; [intros _; exact Hlen | done].
  - rewrite (it_wait _ _ _ Hi th Hp). split; [intros _; exact Hlen | done].
Qed.

Lemma inv_next : inv m ps -> inv m' (<[th := p']> ps).
Proof. intros [H1 H2 H3]. split; [by apply lock_next | by apply waiters_next | by apply items_next]. Qed.

Lemma rank_next : (forall w v, waiters m !! w = Some (Some v) -> 0 <= v) ->
  (total rank (<[th := p']> ps) + 10 * tokens (waiters m') < total rank ps + 10 * tokens (waiters m))%nat.
Proof.
  intros Hpos. pose proof (total_insert rank ps th p p' Hp).
  destruct Hn as [o | o | x Hx | HQ | w0 Q HQ | w0 v HW | got | got | x l HI | HI | | w0 | w0 | w0 v HW Hv | w0 | w0 | w0 v HW |];
    cbn in *; try (try destruct o; cbn in *; lia).
  - specialize (Hpos w0 v HW). pose proof (total_insert token _ _ _ (Some (v + 1)) HW). unfold tokens. cbn in *. lia.
  - unfold tokens. rewrite total_snoc. cbn in *. lia.
  - specialize (Hpos w0 v HW). pose proof (total_insert token _ _ _ (Some (v - 1)) HW). unfold tokens. cbn in *. lia.
  - pose proof (total_insert token _ _ _ None HW). unfold tokens. cbn in *. lia.
Qed.
End Next.

(** *** The code takes these steps *)

Lemma append_Ok {A} `{EqDecision A} (x : A) l : x ∉ l -> ListSpec.Append x l = Ok (l ++ [x]).
Proof. intros Hx. unfold ListSpec.Append, ListSpec.is_in. by rewrite bool_decide_false. Qed.

Ltac took q := cbn; intros [= <-]; left; eexists _, q; split; [reflexivity |]; by econstructor.

(** A thread takes such a step, or appends an item that is in the list. *)
Lemma advance_next m ps th p r : inv m ps -> ps !! th = Some p -> advance th (denote th p) m = Some r ->
  (exists m' p', r = Ok (m', denote th p') /\ next th m p m' p') \/
  (exists x, p = PInsert x /\ x ∈ items m /\ r = Fault AssertFailure).
Proof.
  intros [Hl Ha _] Hp.
  assert (holds p = true -> ASSERT (IsHeldByCurrentThread th m) = Ok tt) as Hh.
  { intros Hh. apply held. exact (lk_holder _ _ _ _ _ Hl th p Hp Hh). }
  assert (forall w, early p = Some w \/ late p = Some w \/ wakes p = Some w -> exists v, waiters m !! w = Some (Some v)) as Hw.
  { intros w Hw. destruct (waiter_live _ _ _ w th p (Ha w) Hp Hw) as (v & ? & _). eauto. }
  destruct p as [got | o | o | x | | w | got | got | | | w | w | w | w | w | w |]; cbn.
  - done.
  - destruct (Z.eqb_spec (lockSem m) 0) as [E | E]; destruct o; cbn; rewrite ?E; try done;
      rewrite (proj2 (Z.eqb_neq _ _) E); (took (PTake (Op_Append item)) || took (PTake Op_RemoveFront) || took (PTake Op_Apply)).
  - destruct o; cbn; intros [= <-]; left; eexists _, _; (split; [| apply next_enter]); reflexivity.
  - destruct (decide (x ∈ items m)) as [Hx | Hx]; [| rewrite append_Ok by done; took PSignal].
    unfold ListSpec.Append, ListSpec.is_in. rewrite bool_decide_true by done. cbn. intros [= <-]. right. by exists x.
  - rewrite Hh by done. cbn. destruct (waitQueue m) as [| w Q] eqn:HQ; [took (PLeave []) | took (PWake w)].
  - destruct (Hw w) as (v & Hv); [auto |]. rewrite Hv. took (PLeave []).
  - rewrite Hh by done. took (PLeft got).
  - took (PIdle got).
  - unfold remove_turn. destruct (items m) as [| x l] eqn:HI; [took PWait | took (PLeave [x])].
  - rewrite Hh by done. cbn. rewrite append_Ok; [took (PUnlock (length (waiters m))) |].
    intros Hin%occ_elem. destruct (Ha (length (waiters m))) as (H1 & H2 & _).
    rewrite (proj2 (lookup_ge_None (waiters m) _)) in H2 by lia. cbn in H2. lia.
  - rewrite Hh by done. took (PUnlocked w).
  - took (PSleep w).
  - destruct (Hw w) as (v & Hv); [auto |]. rewrite Hv. cbn. destruct (Z.eqb_spec v 0); [done | took (PBack w)].
  - destruct (Z.eqb_spec (lockSem m) 0); [done | took (PBackIn w)].
  - took (PDelete w).
  - destruct (Hw w) as (v & Hv); [auto |]. rewrite Hv. took PLoop.
  - took (PLeave (items m)).
Qed.

Lemma step_next s ps th p r : at_points denote (threads s) ps -> inv (mon s) ps -> ps !! th = Some p -> step s (Run th) = Some r ->
  (exists m' p', r = Ok (mkSys m' (<[th := denote th p']> (threads s))) /\ next th (mon s) p m' p') \/
  (exists x, p = PInsert x /\ x ∈ items (mon s) /\ r = Fault AssertFailure).
Proof.
  intros Hpt Hi Hp Hs. destruct (run_inv denote s ps th r Hpt Hs) as (q & r' & Hq & Hr & ->). rewrite Hp in Hq. injection Hq as <-.
  destruct (advance_next _ _ _ _ _ Hi Hp Hr) as [(m' & p' & -> & Hn) | (x & -> & Hx & ->)]; [left | right]; eauto.
Qed.

(** *** [Broadcast] *)

(** With as many turns as threads wait, run by the holder of the lock, it empties
    the queue and gives each of them a unit; no thread can get in between. *)
Lemma broadcast_wakes_all th (k : proc) Q (s : sys) : threads s !! th = Some (Broadcast (length Q) th k) -> waitQueue (mon s) = Q ->
  lockHolder (mon s) = Some th -> (forall w, w ∈ Q -> exists v, waiters (mon s) !! w = Some (Some v)) ->
  exists s', turns s (replicate (3 * length Q + 1) th) = Some s' /\ threads s' !! th = Some k /\ waitQueue (mon s') = [] /\
    forall w v, waiters (mon s) !! w = Some (Some v) -> waiters (mon s') !! w = Some (Some (v + Z.of_nat (total (at_ Some w) Q))).
Proof.
  revert s. induction Q as [| w Q IH]; intros s Hk HQ Hh Hw; pose proof (lookup_lt_Some _ _ _ Hk) as Hth.
  - cbn in Hk |- *. rewrite Hk. cbn. rewrite HQ. cbn. eexists. split; [reflexivity |]. cbn.
    split; [by apply list_lookup_insert_eq | split; [done |]]. intros w v Hv. by rewrite Z.add_0_r.
  - destruct (Hw w) as [v Hv]; [by left |].
    pose (m := with_waiters (with_queue (mon s) Q) (<[w := Some (v + 1)]> (waiters (mon s)))).
    pose (s1 := mkSys m (<[th := Broadcast (length Q) th k]> (threads s)) : sys).
    assert (turns s [th; th; th] = Some s1) as H3.
    { cbn. rewrite Hk. cbn. rewrite HQ. cbn. rewrite list_lookup_insert_eq by done. cbn.
      rewrite (held lockHolder th (mon s) Hh), HQ. cbn. rewrite !list_lookup_insert_eq by (by rewrite ?length_insert). cbn.
      rewrite Hv. cbn. rewrite !list_insert_insert_eq. done. }
    destruct (IH s1) as (s' & Ht & Hk' & HQ' & Hv').
    + by apply list_lookup_insert_eq.
    + done.
    + done.
    + intros w' Hin. destruct (Hw w') as [v' Hv2]; [by right |]. cbn. destruct (decide (w' = w)) as [-> |].
      * rewrite list_lookup_insert_eq by (by eapply lookup_lt_Some). eauto.
      * rewrite list_lookup_insert_ne by done. eauto.
    + exists s'. split; [| split; [done | split; [done |]]].
      * replace (3 * length (w :: Q) + 1)%nat with (S (S (S (3 * length Q + 1)))) by (cbn; lia). 
        change (replicate (S (S (S (3 * length Q + 1)))) th) with ([th; th; th] ++ replicate (3 * length Q + 1) th).
        by rewrite (turns_app s [th; th; th]), H3.
      * intros w' v' Hw'. rewrite total_cons. change (at_ Some w' w) with (same w w'). destruct (decide (w = w')) as [<- | Hne].
        -- rewrite Hv in Hw'. injection Hw' as <-. rewrite same_eq. rewrite (Hv' w (v + 1)); [do 2 f_equal; lia |].
           cbn. apply list_lookup_insert_eq. by eapply lookup_lt_Some.
        -- rewrite same_ne by done. rewrite (Hv' w' v'); [do 2 f_equal |]. cbn. by rewrite list_lookup_insert_ne.
Qed.

(** *** Runs *)

(** The states of [n] threads. *)
Inductive reach (n : nat) : sys -> Prop :=
  | reach_start : reach n (start n)
  | reach_run s th s' : reach n s -> step s (Run th) = Some (Ok s') -> reach n s'
  | reach_call s th o s' : reach n s -> step s (Start th o) = Some (Ok s') -> reach n s'.

Lemma inv_start n : inv create (replicate n (PIdle [])).
Proof.
  assert (forall th p, replicate n (PIdle []) !! th = Some p -> p = PIdle []) as Hi.
  { intros th p [-> _]%lookup_replicate. done. }
  assert (forall f : point -> nat, f (PIdle []) = 0%nat -> total f (replicate n (PIdle [])) = 0%nat) as Hz.
  { intros f Hf. apply total_zero. by intros i p ->%Hi. }
  split; cbn; [by apply lock_start | |].
  - intros w. unfold waiter_ok. cbn. by rewrite !Hz.
  - split; [done |]. by intros th ?%Hi.
Qed.

Lemma sl_start_ok n : ok (start n).
Proof. exists (replicate n (PIdle [])). split; [by apply place_all | apply inv_start]. Qed.

Lemma run_ok s th s' : ok s -> step s (Run th) = Some (Ok s') -> ok s'.
Proof.
  intros (ps & Hpt & Hi) Hs. destruct (ps !! th) as [p |] eqn:Hp; [| cbn in Hs; by rewrite Hpt, Hp in Hs].
  destruct (step_next s ps th p _ Hpt Hi Hp Hs) as [(m' & p' & [= ->] & Hn) | (x & _ & _ & [=])].
  exists (<[th := p']> ps). split; [by apply (place_move denote _ _ _ p) | by apply (inv_next ps th p p' Hp (mon s) m' Hn)].
Qed.

(** A call is made. *)
Lemma inv_call m ps th got o : inv m ps -> ps !! th = Some (PIdle got) -> inv m (<[th := PGive o]> ps).
Proof.
  intros [Hl Ha Hi] Hp.
  split; cbn; [by apply (lock_move inside holds _ _ _ _ Hp) | by apply (waiters_same _ _ _ _ Hp) | by apply (items_move _ _ _ _ Hp)].
Qed.

Lemma sl_call_ok s th o s' : ok s -> step s (Start th o) = Some (Ok s') -> ok s'.
Proof.
  intros (ps & Hpt & Hi) Hs. cbn in Hs. rewrite Hpt in Hs. destruct (ps !! th) as [p |] eqn:Hp; [| done].
  destruct p as [got | o' | o' | x | | w | got | got | | | w | w | w | w | w | w |]; cbn in Hs; try done; [| by destruct o'..].
  injection Hs as <-. exists (<[th := PGive o]> ps). split; [by apply (place_move denote _ _ _ (PIdle got) (PGive o)) |].
  by apply (inv_call _ _ _ got).
Qed.

Lemma reach_ok n s : reach n s -> ok s.
Proof. induction 1; [apply sl_start_ok | by eapply run_ok | by eapply sl_call_ok]. Qed.

Lemma reach_turns n ths s s' : reach n s -> turns s ths = Some s' -> reach n s'.
Proof.
  revert s. induction ths as [| th ths IH]; intros s Hr Ht; [by injection Ht as <- |].
  cbn [turns] in Ht. destruct (step s (Run th)) as [[s1 |] |] eqn:Hs; try done. by apply (IH s1); [eapply reach_run |].
Qed.

(** C13: Every step of every run of calls of [SynchList::Append], [RemoveFront] and
    [Apply] by any number of threads, whatever the order of their steps.  A
    thread in [Append], which then holds the lock, puts its item at the end of the list, or,
    when the very item is in the list already, fails the assertion of
    [List::Append]: the one way any of these calls can fail.  A thread in the loop
    of [RemoveFront] that finds an item, and then holds the lock, takes it off the front, and
    this is the item it returns.  No other step fails or changes the list; in
    particular no lock is released by another thread, and no deleted semaphore is
    used. *)
Theorem synchlist_safe n s th r : reach n s -> step s (Run th) = Some r ->
  (exists x, threads s !! th = Some (insert_code th x) /\ lockHolder (mon s) = Some th /\
     if decide (x ∈ items (mon s)) then r = Fault AssertFailure
     else exists s', r = Ok s' /\ items (mon s') = items (mon s) ++ [x]) \/
  (exists x s', threads s !! th = Some (Loop tt) /\ lockHolder (mon s) = Some th /\ r = Ok s' /\
     items (mon s) = x :: items (mon s') /\ threads s' !! th = Some (Release th (Idle [x]))) \/
  (exists s', r = Ok s' /\ items (mon s') = items (mon s)).
Proof.
  intros (ps & Hpt & Hi)%reach_ok Hs. destruct (ps !! th) as [p |] eqn:Hp; [| cbn in Hs; by rewrite Hpt, Hp in Hs].
  pose proof (step_next s ps th p r Hpt Hi Hp Hs) as Hstep.
  assert (holds p = true -> lockHolder (mon s) = Some th) as Hh by (by apply (lk_holder _ _ _ _ _ (inv_lock _ _ Hi))).
  specialize (Hpt th). rewrite Hp in Hpt. destruct Hstep as [(m' & p' & -> & Hn) | (x & -> & Hx & ->)].
  - destruct Hn; try (right; right; by eexists).
    + left. exists x. split; [exact Hpt | split; [by apply Hh |]]. rewrite decide_False by done. by eexists.
    + right; left. eexists x, _. split; [exact Hpt | split; [by apply Hh | split; [reflexivity | split; [done |]]]].
      apply list_lookup_insert_eq. by eapply lookup_lt_Some.
  - left. exists x. split; [exact Hpt | split; [by apply Hh |]]. by rewrite decide_True.
Qed.

Lemma rank_bound p : (rank p <= 23)%nat.
Proof. destruct p as [| [] | [] | | | | | | | | | | | | | |]; cbn; lia. Qed.

Lemma turns_rank ths s s' ps : at_points denote (threads s) ps -> inv (mon s) ps -> turns s ths = Some s' ->
  (length ths <= total rank ps + 10 * tokens (waiters (mon s)))%nat.
Proof.
  revert s ps. induction ths as [| th ths IH]; intros s ps Hpt Hi Ht; [cbn; lia |].
  cbn [turns] in Ht. destruct (step s (Run th)) as [[s1 |] |] eqn:Hs; try done.
  destruct (ps !! th) as [p |] eqn:Hp; [| cbn in Hs; by rewrite Hpt, Hp in Hs].
  destruct (step_next s ps th p _ Hpt Hi Hp Hs) as [(m' & p' & [= ->] & Hn) | (x & _ & _ & [=])].
  assert (forall w v, waiters (mon s) !! w = Some (Some v) -> 0 <= v) as Hv.
  { intros w v Hw. destruct (inv_waiters _ _ Hi w) as (_ & _ & Hp'). by apply Hp'. }
  pose proof (rank_next ps th p p' Hp _ _ Hn Hv) as Hlt.
  specialize (IH (mkSys m' (<[th := denote th p']> (threads s))) (<[th := p']> ps) (place_move denote _ _ _ p p' Hpt Hp) (inv_next ps th p p' Hp _ _ Hn Hi) Ht). cbn in *. lia.
Qed.

(** C15: Without new calls the threads come to rest: from any state that is
    reached by [n] threads there are at most [23 n] steps, and ten more for every
    unit a signal has left in a semaphore, whichever thread runs when; the loop of
    [RemoveFront] cannot go round for ever. *)
Theorem synchlist_comes_to_rest n s ths s' : reach n s -> turns s ths = Some s' ->
  (length ths <= 23 * length (threads s) + 10 * tokens (waiters (mon s)))%nat.
Proof.
  intros Hr Ht. destruct (reach_ok n s Hr) as (ps & Hpt & Hi). pose proof (turns_rank ths s s' ps Hpt Hi Ht).
  pose proof (total_bound rank 23 ps rank_bound). enough (length ps = length (threads s)) by lia.
  apply Nat.le_antisymm; apply Nat.nlt_ge; intros Hlt.
  - specialize (Hpt (length (threads s))). rewrite (proj2 (lookup_ge_None _ _)) in Hpt by lia.
    by apply lookup_lt_is_Some in Hlt as [p Hp]; rewrite Hp in Hpt.
  - specialize (Hpt (length ps)). rewrite (proj2 (lookup_ge_None ps _)) in Hpt by lia.
    by apply lookup_lt_is_Some in Hlt as [p Hp]; rewrite Hp in Hpt.
Qed.

(** Who cannot go on. *)
Lemma blocked m ps th p : inv m ps -> ps !! th = Some p -> advance th (denote th p) m = None ->
  (exists got, p = PIdle got) \/ (inside p = 0%nat /\ lockSem m = 0) \/ (exists w, p = PSleep w /\ waiters m !! w = Some (Some 0)).
Proof.
  intros [Hl Ha _] Hp.
  destruct p as [got | o | o | x | | w | got | got | | | w | w | w | w | w | w |]; try done; try (by destruct o); cbn.
  - eauto.
  - destruct (Z.eqb_spec (lockSem m) 0); [eauto | by destruct o; cbn; rewrite (proj2 (Z.eqb_neq _ _) n)].
  - destruct (waiter_live _ _ _ w th _ (Ha w) Hp) as (v & Hv & _); [by left |]. rewrite Hv. cbn.
    destruct (Z.eqb_spec v 0) as [-> |]; [eauto | done].
  - destruct (Z.eqb_spec (lockSem m) 0); [eauto | done].
Qed.

Lemma all_blocked m ps : inv m ps -> (forall th p, ps !! th = Some p -> advance th (denote th p) m = None) ->
  forall th p, ps !! th = Some p -> (exists got, p = PIdle got) \/ (exists w, p = PSleep w /\ w ∈ waitQueue m).
Proof.
  intros Hi Hb. assert (total inside ps = 0%nat) as H0.
  { apply total_zero. intros th p Hp. by destruct (blocked m ps th p Hi Hp (Hb th p Hp)) as [[? ->] | [[? _] | (? & -> & _)]]. }
  pose proof (lk_one _ _ _ _ _ (inv_lock _ _ Hi)) as H1. rewrite H0 in H1.
  assert (forall th p, ps !! th = Some p -> wakes p = None) as Hnw.
  { intros th p Hp. pose proof (total_le inside ps th p Hp). destruct p; cbn in *; done || lia. }
  intros th p Hp. destruct (blocked m ps th p Hi Hp (Hb th p Hp)) as [? | [[_ ?] | (w & -> & Hw)]]; [by left | lia | right].
  exists w. split; [done |]. apply occ_elem. destruct (inv_waiters _ _ Hi w) as (E & _). rewrite Hw in E.
  rewrite (total_zero (at_ wakes w)) in E by (intros i q Hq; unfold at_; by rewrite (Hnw i q Hq)).
  pose proof (total_le (at_ early w) ps th _ Hp) as Hle. cbn in Hle, E. rewrite same_eq in Hle. lia.
Qed.

(** Then the threads that count are those in the queue. *)
Lemma sleepers_queued Q W ps : (forall w, waiter_ok Q W ps w) ->
  (forall th p, ps !! th = Some p -> (exists got, p = PIdle got) \/ (exists w, p = PSleep w /\ w ∈ Q)) ->
  total weight ps = length Q.
Proof.
  intros Ha Hall. pose proof (queue_waits _ _ _ Ha) as [_ Hle]. apply Nat.le_antisymm; [| done].
  transitivity (length (omap early ps)).
  - clear Ha Hle. induction ps as [| p ps IH]; [apply Nat.le_0_l |]. rewrite total_cons.
    specialize (IH (fun th p H => Hall (S th) p H)). destruct (Hall 0%nat p eq_refl) as [[? ->] | (? & -> & _)]; cbn in *; lia.
  - apply submseteq_length, NoDup_submseteq.
    + apply occ_NoDup. intros w. rewrite occ_omap. by destruct (waiter_one _ _ _ _ (Ha w)).
    + intros w (p & Hin & Hw)%list_elem_of_omap. apply list_elem_of_lookup in Hin as [th Hp].
      destruct (Hall th p Hp) as [[? ->] | (? & -> & ?)]; [done |]. by injection Hw as <-.
Qed.

(** At rest nobody waits while there is an item. *)
Lemma rest_empty m ps th p : inv m ps -> (forall th p, ps !! th = Some p -> advance th (denote th p) m = None) ->
  ps !! th = Some p -> (exists got, p = PIdle got) \/ (items m = [] /\ exists w, p = PSleep w).
Proof.
  intros Hi Hb Hp. pose proof (all_blocked m ps Hi Hb) as Hall.
  destruct (Hall th p Hp) as [[got ->] | (w & -> & Hin)]; [by left; exists got | right]. split; [| by exists w].
  pose proof (it_count _ _ _ (inv_items _ _ Hi)) as Hc.
  rewrite (sleepers_queued (waitQueue m) (waiters m) ps (inv_waiters _ _ Hi) Hall) in Hc.
  apply length_zero_iff_nil. enough (waitQueue m <> []) as Hne by (specialize (Hc Hne); lia).
  intros E. rewrite E in Hin. by apply not_elem_of_nil in Hin.
Qed.

(** C14: No wakeup is lost: when no thread can run, every thread is done with its
    call, or waits in [RemoveFront] with the list empty. *)
Theorem synchlist_no_lost_wakeup n s : reach n s -> (forall th, step s (Run th) = None) ->
  forall th k, threads s !! th = Some k -> (exists got, k = Idle got) \/ (items (mon s) = [] /\ exists w, k = sleep th w).
Proof.
  intros (ps & Hpt & Hi)%reach_ok Hb th k Hk. rewrite Hpt in Hk. destruct (ps !! th) as [p |] eqn:Hp; [| done].
  injection Hk as <-. pose proof (fun th p => stuck_advance denote s ps th p Hpt (Hb th)) as Hst.
  destruct (rest_empty (mon s) ps th p Hi Hst Hp) as [[got ->] | [He [w ->]]]; [left; by exists got | right].
  split; [exact He | by exists w].
Qed.

(** *** Items that belong to somebody

    What a client that hands in an item only while nobody else has it can rely on:
    [U] are the items of the calls made, until they are taken out. *)

(** The item a thread will append. *)
Definition brings (p : point) : option T :=
  match p with PGive (Op_Append x) | PTake (Op_Append x) | PInsert x => Some x | _ => None end.

Record fresh_ok (I : list T) (U : list T) (ps : list point) : Prop := {
  fr_items x : x ∈ I -> x ∈ U;
  fr_brings th p x : ps !! th = Some p -> brings p = Some x -> x ∈ U /\ x ∉ I;
  fr_own th th' p p' x : ps !! th = Some p -> ps !! th' = Some p' -> brings p = Some x -> brings p' = Some x -> th = th';
  fr_nodup : NoDup I;
}.

(** What is left of [U] after a step. *)
Definition still (I I' : list T) (U : list T) : list T := filter (fun x => ~ (x ∈ I /\ x ∉ I')) U.


Record owned (m : t T) (U : list T) (ps : list point) : Prop := {
  ow_inv : inv m ps;
  ow_fresh : fresh_ok (items m) U ps;
}.

Section Owned.
Context (ps : list point) (th : nat) (p p' : point) (Hp : ps !! th = Some p).
#[local] Set Default Proof Using "All".

Lemma fresh_move I U : fresh_ok I U ps -> (brings p' = brings p \/ brings p' = None) -> fresh_ok I U (<[th := p']> ps).
Proof.
  intros [Hi Hb Ho Hn] Hbr.
  assert (forall th1 q1 x, <[th := p']> ps !! th1 = Some q1 -> brings q1 = Some x -> exists q0, ps !! th1 = Some q0 /\ brings q0 = Some x) as Hback.
  { intros th1 q1 x H1 E1. destruct (move_lookup _ _ _ _ _ _ Hp H1) as [[-> ->] | [_ ?]]; [exists p | by exists q1].
    split; [done |]. destruct Hbr; congruence. }
  split; [done | | | done].
  - intros th1 q1 x H1 E1. destruct (Hback _ _ _ H1 E1) as (q0 & ? & ?). by eapply Hb.
  - intros th1 th2 q1 q2 x H1 H2 E1 E2. destruct (Hback _ _ _ H1 E1) as (r1 & ? & ?), (Hback _ _ _ H2 E2) as (r2 & ? & ?).
    by eapply (Ho th1 th2).
Qed.
End Owned.

Lemma still_keep (I I' U : list T) : (forall x, x ∈ I -> x ∈ I') -> still I I' U = U.
Proof.
  intros Hs. unfold still. induction U as [| x U IH]; [done |]. rewrite filter_cons_True, IH; [done |].
  intros [Hx Hx']. by apply Hx', Hs.
Qed.

Lemma fresh_insert (ps : list point) th x I U : ps !! th = Some (PInsert x) -> fresh_ok I U ps -> fresh_ok (I ++ [x]) U (<[th := PSignal]> ps).
Proof.
  intros Hp Hf. destruct (fr_brings _ _ _ Hf th _ x Hp eq_refl) as [HxU HxI].
  destruct (fresh_move ps th _ PSignal Hp _ _ Hf) as [Hi Hb Ho Hn]; [by right |]. split; [| | exact Ho |].
  - intros y [Hy | ->%list_elem_of_singleton]%elem_of_app; [by apply Hi | done].
  - intros th' q y Hq Hy. destruct (Hb th' q y Hq Hy) as [HyU HyI]. split; [done |].
    intros [? | ->%list_elem_of_singleton]%elem_of_app; [done |].
    destruct (move_lookup _ _ _ _ _ _ Hp Hq) as [[_ ->] | [Hne Hq']]; [done |].
    by apply Hne, (fr_own _ _ _ Hf th' th q _ x Hq' Hp).
  - apply NoDup_app. split_and!; [done | | apply NoDup_singleton]. intros y Hy ->%list_elem_of_singleton. done.
Qed.

Lemma fresh_take (ps : list point) th x l I U : ps !! th = Some PLoop -> I = x :: l -> fresh_ok I U ps ->
  fresh_ok l (still I l U) (<[th := PLeave [x]]> ps).
Proof.
  intros Hp HI Hf. destruct (fresh_move ps th _ (PLeave [x]) Hp _ _ Hf) as [Hi Hb Ho Hn]; [by right |].
  rewrite HI in Hn. apply NoDup_cons in Hn as [Hxl Hl]. split; [| | exact Ho | exact Hl].
  - intros y Hy. apply list_elem_of_filter. split; [tauto |]. apply Hi. rewrite HI. by right.
  - intros th' q y Hq Hy. destruct (Hb th' q y Hq Hy) as [HyU HyI]. rewrite HI in HyI. apply not_elem_of_cons in HyI as [? ?].
    split; [| done]. apply list_elem_of_filter. split; [| done]. rewrite HI. intros [[? | ?]%elem_of_cons _]; done.
Qed.

Lemma fresh_next (ps : list point) th p p' m m' U : ps !! th = Some p -> next th m p m' p' -> fresh_ok (items m) U ps ->
  fresh_ok (items m') (still (items m) (items m') U) (<[th := p']> ps).
Proof.
  intros Hp Hn Hf. destruct Hn as [o | o | x Hx | HQ | w0 Q HQ | w0 v HW | got | got | x l HI | HI | | w0 | w0 | w0 v HW Hv | w0 | w0 | w0 v HW |];
    cbn; try (rewrite still_keep by auto; apply (fresh_move ps th _ _ Hp _ _ Hf); by first [left; destruct o | right]).
  - rewrite still_keep by (intros y; rewrite elem_of_app; auto). by apply (fresh_insert ps th).
  - by apply (fresh_take ps th).
Qed.

Lemma owned_next (ps : list point) th p p' m m' U : ps !! th = Some p -> next th m p m' p' -> owned m U ps ->
  owned m' (still (items m) (items m') U) (<[th := p']> ps).
Proof. intros Hp Hn [Hi Hf]. split; [by apply (inv_next ps th p p' Hp m m' Hn) | by apply (fresh_next ps th p p')]. Qed.

(** Then no call fails. *)
Lemma owned_advance m U ps th p r : owned m U ps -> ps !! th = Some p -> advance th (denote th p) m = Some r ->
  exists m' p', r = Ok (m', denote th p') /\ next th m p m' p'.
Proof.
  intros [Hi Hf] Hp Hr. destruct (advance_next m ps th p r Hi Hp Hr) as [? | (x & -> & Hx & _)]; [done |].
  by destruct (fr_brings _ _ _ Hf th _ x Hp eq_refl).
Qed.

(** A call is made. *)
Lemma owned_call m U U' ps th got o : owned m U ps -> ps !! th = Some (PIdle got) ->
  (forall x, x ∈ U -> x ∈ U') -> (forall x, o = Op_Append x -> x ∉ U /\ x ∈ U') -> owned m U' (<[th := PGive o]> ps).
Proof.
  intros [Hi Hf] Hp HU Ho. split; [by apply (inv_call m ps th got) |].
  assert (forall th' q x, <[th := PGive o]> ps !! th' = Some q -> brings q = Some x ->
    (th' = th /\ o = Op_Append x) \/ (th' <> th /\ ps !! th' = Some q)) as Hb.
  { intros th' q x Hq Hx. destruct (move_lookup _ _ _ _ _ _ Hp Hq) as [[-> ->] | ?]; [left | by right].
    split; [done |]. cbn in Hx. destruct o; congruence. }
  destruct Hf as [F1 F2 F3 F4]. split; [by intros x Hx%F1; apply HU | | | done].
  - intros th' q x Hq Hx. destruct (Hb _ _ _ Hq Hx) as [[-> [HxU ?]%Ho] | [_ Hq']].
    + split; [done |]. by intros ?%F1.
    + destruct (F2 _ _ _ Hq' Hx). eauto.
  - intros th1 th2 q1 q2 x H1 H2 E1 E2.
    destruct (Hb _ _ _ H1 E1) as [[-> Hx1] | [_ H1']], (Hb _ _ _ H2 E2) as [[-> Hx2] | [_ H2']]; [done | | |].
    + apply Ho in Hx1 as [[]]. by apply (F2 _ _ _ H2' E2).
    + apply Ho in Hx2 as [[]]. by apply (F2 _ _ _ H1' E1).
    + by apply (F3 _ _ _ _ _ H1' H2' E1 E2).
Qed.

(** What a call gave does not matter. *)
Lemma owned_idle m U ps th got got' : owned m U ps -> ps !! th = Some (PIdle got) -> owned m U (<[th := PIdle got']> ps).
Proof.
  intros [[Hl Ha Hi] Hf] Hp. split; [split |]; cbn; [by apply (lock_move inside holds _ _ _ _ Hp) | by apply (waiters_same _ _ _ _ Hp) |
    by apply (items_move _ _ _ _ Hp) | by apply (fresh_move _ _ _ _ Hp); [| left]].
Qed.

Lemma owned_start n : owned create [] (replicate n (PIdle [])).
Proof.
  split; [apply inv_start |]. assert (forall th p, replicate n (PIdle []) !! th = Some p -> p = PIdle []) as Hi by (by intros th p [-> _]%lookup_replicate).
  split; [| | | constructor].
  - intros x Hx. by apply not_elem_of_nil in Hx.
  - by intros th p x ->%Hi.
  - by intros th th' p p' x ->%Hi.
Qed.
End points.
End SynchLists.

(** ** One thread waits for an item, the other appends one *)

Module SynchListDemo.
Import Procs Monitor SynchLists.

#[local] Notation sysZ := (sys (t Z) semref (list Z) unit).

Definition running (s : sysZ) (ths : list nat) : sysZ := default s (turns s ths).

Definition called : sysZ := after (start 2) [Start 0 Op_RemoveFront].
Definition waiting : sysZ := running called (replicate 6 0%nat).
Definition appending : sysZ := after waiting [Start 1 (Op_Append 7)].
Definition appended : sysZ := running appending (replicate 7 1%nat).
Definition woken : sysZ := running appended (replicate 4 0%nat).

Lemma running_turns s ths : bool_decide (is_Some (turns s ths)) = true -> turns s ths = Some (running s ths).
Proof. intros [s' Hs]%bool_decide_eq_true. unfold running. by rewrite Hs. Qed.

Lemma reach_waiting : reach 2 waiting.
Proof.
  apply (reach_turns 2 (replicate 6 0%nat) called); [| by apply running_turns; vm_compute].
  apply (reach_call 2 (start 2) 0 Op_RemoveFront); [constructor |]. apply step_after. by vm_compute.
Qed.

Lemma reach_woken : reach 2 woken.
Proof.
  assert (reach 2 appending) as Ha by (apply (reach_call 2 waiting 1 (Op_Append 7)); [exact reach_waiting |]; apply step_after; by vm_compute).
  assert (reach 2 appended) as Hb by (apply (reach_turns 2 (replicate 7 1%nat) appending); [done |]; by apply running_turns; vm_compute).
  apply (reach_turns 2 (replicate 4 0%nat) appended); [done |]. by apply running_turns; vm_compute.
Qed.

(** The other thread appends the item that is in the list. *)
Definition again : sysZ := running (after appended [Start 1 (Op_Append 7)]) [1%nat; 1%nat].
Lemma reach_again : reach 2 again.
Proof.
  apply (reach_turns 2 [1%nat; 1%nat] (after appended [Start 1 (Op_Append 7)])); [| by apply running_turns; vm_compute].
  apply (reach_call 2 appended 1 (Op_Append 7)); [| apply step_after; by vm_compute].
  apply (reach_turns 2 (replicate 7 1%nat) appending); [| by apply running_turns; vm_compute].
  apply (reach_call 2 waiting 1 (Op_Append 7)); [exact reach_waiting | apply step_after; by vm_compute].
Qed.

(** The item gets to the one who waited. *)
Example delivered : map (fun k => match k with Idle got => Some got | _ => None end)
  (threads (running woken (replicate 3 0%nat))) = [Some [7]; Some []].
Proof. vm_compute. reflexivity. Qed.

Lemma synchlist_safe_witness : items (mon woken) = [7] /\ step again (Run 1) = Some (Fault AssertFailure) /\
  exists s', step woken (Run 0) = Some (Ok s') /\ items (mon s') = [] /\ threads s' !! 0%nat = Some (Release 0 (Idle [7])).
Proof.
  split; [by vm_compute |]. split.
  - destruct (step again (Run 1)) as [r |] eqn:E; [| by vm_compute in E].
    destruct (synchlist_safe 2 again 1 r reach_again E) as [(x & _ & _ & Hr) | [(x & s' & _ & _ & -> & _) | (s' & -> & _)]];
      [| by vm_compute in E..]. case_decide; [by subst r |]. destruct Hr as (s' & -> & _). by vm_compute in E.
  - destruct (synchlist_safe 2 woken 0 (Ok (after woken [Run 0])) reach_woken) as [(x & Hx & _) | [(x & s' & _ & _ & [= <-] & Hi & Ht) | (s' & [= <-] & Hi)]].
    + apply step_after; by vm_compute.
    + by vm_compute in Hx.
    + exists (after woken [Run 0]). change (items (mon woken)) with [7] in Hi. injection Hi as <-.
      split; [apply step_after; by vm_compute | split; [vm_compute; reflexivity | exact Ht]].
    + by vm_compute in Hi.
Defined.

Lemma synchlist_comes_to_rest_witness : exists s', turns woken (replicate 3 0%nat) = Some s' /\
  (3 <= 23 * length (threads woken) + 10 * tokens (waiters (mon woken)))%nat.
Proof.
  exists (running woken (replicate 3 0%nat)).
  assert (turns woken (replicate 3 0%nat) = Some (running woken (replicate 3 0%nat))) as Ht by (by apply running_turns; vm_compute).
  split; [exact Ht | exact (synchlist_comes_to_rest 2 woken (replicate 3 0%nat) _ reach_woken Ht)].
Defined.

Lemma waiting_blocked th : step waiting (Run th) = None.
Proof. destruct th as [| [| th]]; vm_compute; reflexivity. Qed.

Lemma synchlist_no_lost_wakeup_witness : exists k, threads waiting !! 0%nat = Some k /\
  ((exists got, k = Idle got) \/ (items (mon waiting) = [] /\ exists w, k = sleep 0 w)).
Proof.
  exists (sleep 0 0). split; [vm_compute; reflexivity |].
  apply (synchlist_no_lost_wakeup 2 waiting reach_waiting waiting_blocked 0%nat (sleep 0 0)). vm_compute. reflexivity.
Defined.
End SynchListDemo.
