(* ===== verification/Consoles.v ===== *)
(** * Consoles: machine/console.h, console.cc, userprog/synchconsole.h, synchconsole.cc

    The keyboard and the display, and the synchronised console on top of them:
    what the user types is a list of bytes the host file holds, what is shown a
    list of bytes written.  The device classes come first, then the threads and
    the interrupt handlers together (Procs.v). *)

From S2P Require Import Prelude Stats Interrupt Devices Procs.

(** [incoming == EOF] compares a [char]. *)
Definition EOF : Z := -1.

(** ** class ConsoleInput *)

Module ConsoleInput.
Import Bus.

Record t := mk {
  readFile : list Z;     (** the bytes that are still to be read from [readFileNo] *)
  incoming : Z;
}.

Definition create (typed : list Z) (b : Bus.t) : res (t * Bus.t) :=
  b ← Schedule ConsoleTime ConsoleReadInt b;
  Ok (mk typed EOF, b).

(** [ready]: what [PollFile] answers.  The last component: whether
    [callWhenAvail->CallBack()] is called. *)
Definition CallBack (ready : bool) (c : t) (b : Bus.t) : res (t * Bus.t * bool) :=
  _ ← ASSERT (incoming c =? EOF);
  if negb ready then
    b ← Schedule ConsoleTime ConsoleReadInt b;
    Ok (c, b, false)
  else
    match readFile c with
    | [] => Ok (c, b, true)
    | byte :: rest => Ok (mk rest (char_to_int byte), count count_console_read b, true)
    end.

Definition GetChar (c : t) (b : Bus.t) : res (Z * t * Bus.t) :=
  let ch := incoming c in
  b ← (if negb (incoming c =? EOF) then Schedule ConsoleTime ConsoleReadInt b else Ok b);
  Ok (ch, mk (readFile c) EOF, b).
End ConsoleInput.

(** ** class ConsoleOutput *)

Module ConsoleOutput.
Import Bus.

Record t := mk {
  written : list Z;
  putBusy : bool;
}.

Definition create : t := mk [] false.

(** Then [callWhenDone->CallBack()] is called. *)
Definition CallBack (c : t) (b : Bus.t) : t * Bus.t :=
  (mk (written c) false, count count_console_written b).

Definition PutChar (ch : Z) (c : t) (b : Bus.t) : res (t * Bus.t) :=
  _ ← ASSERT (negb (putBusy c));
  let c := mk (written c ++ [ch]) true in
  b ← Schedule ConsoleTime ConsoleWriteInt b;
  Ok (c, b).
End ConsoleOutput.

(** ** class SynchConsoleInput *)

Module SynchConsoleInput.
Import Bus Procs.

Record t := mk {
  consoleInput : ConsoleInput.t;
  lockSem : Z;
  lockHolder : option nat;
  waitFor : Z;
  bus : Bus.t;
}.

Definition with_device (s : t) c b := mk c (lockSem s) (lockHolder s) (waitFor s) b.
Definition with_lockSem (s : t) v := mk (consoleInput s) v (lockHolder s) (waitFor s) (bus s).
Definition with_holder (s : t) h := mk (consoleInput s) (lockSem s) h (waitFor s) (bus s).
Definition with_waitFor (s : t) v := mk (consoleInput s) (lockSem s) (lockHolder s) v (bus s).

Inductive semref : Set := LockSem | WaitFor.
Definition get_sem (s : t) (r : semref) : res Z := Ok (match r with LockSem => lockSem s | WaitFor => waitFor s end).
Definition put_sem (s : t) (r : semref) (v : Z) : t :=
  match r with LockSem => with_lockSem s v | WaitFor => with_waitFor s v end.

(** A call gives the character. *)
#[local] Notation proc := (Procs.proc t semref (option Z) Empty_set).
#[local] Notation Acquire := (Procs.Acquire LockSem with_holder).
#[local] Notation Release := (Procs.Release LockSem lockHolder with_holder).

Definition create (typed : list Z) : res t :=
  '(c, b) ← ConsoleInput.create typed Bus.create;
  Ok (mk c 1 None 0 b).

Definition GetChar (me : nat) : proc :=
  Acquire me (CallP WaitFor (Code (fun s =>
    '(ch, c, b) ← ConsoleInput.GetChar (consoleInput s) (bus s);
    Ok (with_device s c b, Release me (Idle (Some ch)))))).

(** [waitFor->V()] *)
Definition CallBack (s : t) : t := with_waitFor s (waitFor s + 1).

(** An interrupt the keyboard asked for comes. *)
Record interrupt := mkInt { which : nat; now : Z; ready : bool }.
Definition handle (ready : bool) (s : t) (b : Bus.t) : res t :=
  '(c, b, call) ← ConsoleInput.CallBack ready (consoleInput s) b;
  let s := with_device s c b in
  Ok (if (call : bool) then CallBack s else s).
Definition fires (e : interrupt) (s : t) : option (res t) :=
  handle (ready e) s <$> fire (which e) (now e) (bus s).

#[global] Instance component : Component t semref (option Z) Empty_set unit interrupt := {
  sem_value := get_sem;
  set_sem := put_sem;
  turn l _ _ := match l return res (t * proc) with end;
  enter me _ := GetChar me;
  device := fires;
}.
End SynchConsoleInput.

(** ** class SynchConsoleOutput *)

Module SynchConsoleOutput.
Import Bus Procs.

Record t := mk {
  consoleOutput : ConsoleOutput.t;
  lockSem : Z;
  lockHolder : option nat;
  waitFor : Z;
  bus : Bus.t;
}.

Definition with_device (s : t) c b := mk c (lockSem s) (lockHolder s) (waitFor s) b.
Definition with_lockSem (s : t) v := mk (consoleOutput s) v (lockHolder s) (waitFor s) (bus s).
Definition with_holder (s : t) h := mk (consoleOutput s) (lockSem s) h (waitFor s) (bus s).
Definition with_waitFor (s : t) v := mk (consoleOutput s) (lockSem s) (lockHolder s) v (bus s).

Inductive semref : Set := LockSem | WaitFor.
Definition get_sem (s : t) (r : semref) : res Z := Ok (match r with LockSem => lockSem s | WaitFor => waitFor s end).
Definition put_sem (s : t) (r : semref) (v : Z) : t :=
  match r with LockSem => with_lockSem s v | WaitFor => with_waitFor s v end.

#[local] Notation proc := (Procs.proc t semref unit Empty_set).
#[local] Notation Acquire := (Procs.Acquire LockSem with_holder).
#[local] Notation Release := (Procs.Release LockSem lockHolder with_holder).

Definition create : t := mk ConsoleOutput.create 1 None 0 Bus.create.

Definition put_code (me : nat) (ch : Z) : proc :=
  Code (fun s =>
    '(c, b) ← ConsoleOutput.PutChar ch (consoleOutput s) (bus s);
    Ok (with_device s c b, CallP WaitFor (Release me (Idle tt)))).
Definition PutChar (me : nat) (ch : Z) : proc := Acquire me (put_code me ch).

(** [waitFor->V()] *)
Definition CallBack (s : t) : t := with_waitFor s (waitFor s + 1).

Record interrupt := mkInt { which : nat; now : Z }.
Definition handle (s : t) (b : Bus.t) : t :=
  let '(c, b) := ConsoleOutput.CallBack (consoleOutput s) b in
  CallBack (with_device s c b).
Definition fires (e : interrupt) (s : t) : option (res t) :=
  (fun b => Ok (handle s b)) <$> fire (which e) (now e) (bus s).

#[global] Instance component : Component t semref unit Empty_set Z interrupt := {
  sem_value := get_sem;
  set_sem := put_sem;
  turn l _ _ := match l return res (t * proc) with end;
  enter := PutChar;
  device := fires;
}.
End SynchConsoleOutput.
