(* ===== verification/Terminals.v ===== *)
(** * Terminals: what is typed is read once and in order, what is written is shown

    The invariants of Consoles.v: one interrupt is asked for or one character is
    buffered, and the semaphore [waitFor] counts the buffered one. *)

From S2P Require Import Prelude Stats Interrupt Devices Procs Consoles.

(** ** The keyboard *)

Module Keyboard.
Import Bus Procs SynchConsoleInput.

#[local] Notation proc := (Procs.proc t semref (option Z) Empty_set).
#[local] Notation sys := (Procs.sys t semref (option Z) Empty_set).
#[local] Notation Acquire := (Procs.Acquire LockSem with_holder).
#[local] Notation Release := (Procs.Release LockSem lockHolder with_holder).

Inductive point : Set :=
  | PIdle (got : option Z)
  | PGive            (** at the [P] of the lock *)
  | PTake
  | PWait            (** at [waitFor->P()] *)
  | PGet
  | PLeave (ch : Z)  (** [Release] *)
  | PLeft (ch : Z).

Definition get_code (me : nat) : proc :=
  Code (fun s =>
    '(ch, c, b) ← ConsoleInput.GetChar (consoleInput s) (bus s);
    Ok (with_device s c b, Release me (Idle (Some ch)))).

Definition denote (me : nat) (p : point) : proc :=
  match p with
  | PIdle got => Idle got
  | PGive => GetChar me
  | PTake => Code (fun s => Ok (with_holder s (Some me), CallP WaitFor (get_code me)))
  | PWait => CallP WaitFor (get_code me)
  | PGet => get_code me
  | PLeave ch => Release me (Idle (Some ch))
  | PLeft ch => CallV LockSem (Idle (Some ch))
  end.

Definition inside (p : point) : nat := match p with PIdle _ | PGive => 0 | _ => 1 end.
Definition holds (p : point) : bool := match p with PWait | PGet | PLeave _ => true | _ => false end.
Definition getting (p : point) : nat := match p with PGet => 1 | _ => 0 end.

Lemma kb_holds_inside p : holds p = true -> inside p = 1%nat.
Proof. by destruct p. Qed.

(** One interrupt, or one character, or the device has stopped. *)
Inductive phase (ch : Z) (ints units : nat) : Prop :=
  | polling : ch = EOF -> ints = 1%nat -> units = 0%nat -> phase ch ints units
  | buffered : ch <> EOF -> ints = 0%nat -> units = 1%nat -> phase ch ints units
  | ended : ch = EOF -> ints = 0%nat -> (units <= 1)%nat -> phase ch ints units.

Record inv (s : t) (ps : list point) : Prop := {
  inv_lock : lock_ok inside holds (lockSem s) (lockHolder s) ps;
  inv_units : 0 <= waitFor s;
  inv_phase : phase (ConsoleInput.incoming (consoleInput s))
    (length (asked (bus s))) (Z.to_nat (waitFor s) + total getting ps);
}.
Definition ok (s : sys) : Prop := exists ps, at_points denote (threads s) ps /\ inv (mon s) ps.

(** A step that leaves the device alone. *)
Lemma inv_quiet m m' ps th p p' : inv m ps -> ps !! th = Some p ->
  lock_ok inside holds (lockSem m') (lockHolder m') (<[th := p']> ps) -> 0 <= waitFor m' ->
  consoleInput m' = consoleInput m -> bus m' = bus m ->
  (Z.to_nat (waitFor m') + getting p' = Z.to_nat (waitFor m) + getting p)%nat -> inv m' (<[th := p']> ps).
Proof.
  intros [Hl Hu Hph] Hp Hl' Hu' Ec Eb Hn. pose proof (total_insert getting ps th p p' Hp).
  split; [done | done |]. rewrite Ec, Eb.
  by replace (Z.to_nat (waitFor m') + _)%nat with (Z.to_nat (waitFor m) + total getting ps)%nat by lia.
Qed.

(** What [GetChar] of the device does. *)
Definition taken (m : t) : t :=
  with_device m (ConsoleInput.mk (ConsoleInput.readFile (consoleInput m)) EOF)
    (if decide (ConsoleInput.incoming (consoleInput m) = EOF) then bus m
     else Bus.mk (stats (bus m)) (asked (bus m) ++ [(totalTicks (stats (bus m)) + ConsoleTime, ConsoleReadInt)])).

Lemma get_code_Ok me m : exists f, get_code me = Code f /\
  f m = Ok (taken m, Release me (Idle (Some (ConsoleInput.incoming (consoleInput m))))).
Proof.
  eexists. split; [reflexivity |]. unfold ConsoleInput.GetChar, taken.
  destruct (decide _) as [-> | Hne]; cbn; [done |]. by rewrite (proj2 (Z.eqb_neq _ _) Hne).
Qed.

Lemma inv_get m ps th ch : inv m ps -> ps !! th = Some PGet -> inv (taken m) (<[th := PLeave ch]> ps).
Proof.
  intros [Hl Hu Hph] Hp. pose proof (total_insert getting ps th _ (PLeave ch) Hp) as Hn. cbn in Hn.
  split; cbn; [by apply (lock_move inside holds ps th PGet) | done |].
  destruct Hph as [E1 E2 E3 | E1 E2 E3 | E1 E2 E3]; [lia | |].
  - rewrite decide_False by done. apply polling; [done | cbn; rewrite length_app; cbn; lia | lia].
  - rewrite decide_True by done. apply ended; [done | done | lia].
Qed.

Inductive next (th : nat) (m : t) : point -> t -> point -> Prop :=
  | next_give : lockSem m <> 0 -> next th m PGive (with_lockSem m (lockSem m - 1)) PTake
  | next_take : next th m PTake (with_holder m (Some th)) PWait
  | next_wait : waitFor m <> 0 -> next th m PWait (with_waitFor m (waitFor m - 1)) PGet
  | next_get : next th m PGet (taken m) (PLeave (ConsoleInput.incoming (consoleInput m)))
  | next_leave ch : next th m (PLeave ch) (with_holder m None) (PLeft ch)
  | next_left ch : next th m (PLeft ch) (with_lockSem m (lockSem m + 1)) (PIdle (Some ch)).

Lemma kb_inv_next m ps th p m' p' : inv m ps -> ps !! th = Some p -> next th m p m' p' -> inv m' (<[th := p']> ps).
Proof.
  intros Hi Hp Hn. pose proof (inv_lock _ _ Hi) as Hl. pose proof (inv_units _ _ Hi) as Hu.
  destruct Hn; first [by apply inv_get | apply (inv_quiet m _ ps th _ _ Hi Hp); cbn; try done; try lia].
  - by eapply lock_P.
  - by eapply lock_holder; [| apply kb_holds_inside | ..].
  - by eapply lock_move.
  - by eapply lock_holder; [| apply kb_holds_inside | ..].
  - by eapply lock_V.
Qed.

Ltac took q := cbn; intros [= <-]; eexists _, q; split; [reflexivity |]; by constructor.

Lemma kb_step_next s ps th p r : at_points denote (threads s) ps -> inv (mon s) ps -> ps !! th = Some p ->
  step s (Run th) = Some r ->
  exists m' p', r = Ok (mkSys m' (<[th := denote th p']> (threads s))) /\ next th (mon s) p m' p'.
Proof.
  intros Hpt Hi Hp. cbn. rewrite Hpt, Hp. cbn.
  assert (holds p = true -> ASSERT (Procs.IsHeldByCurrentThread lockHolder th (mon s)) = Ok tt) as Hh.
  { intros Hh. apply held. exact (lk_holder _ _ _ _ _ (inv_lock _ _ Hi) th p Hp Hh). }
  destruct p as [got | | | | | ch | ch]; [done | cbn .. | | ].
  - destruct (Z.eqb_spec (lockSem (mon s)) 0); [done | took PTake].
  - took PWait.
  - destruct (Z.eqb_spec (waitFor (mon s)) 0); [done | took PGet].
  - destruct (get_code_Ok th (mon s)) as (f & Ef & Hf). injection Ef as <-. rewrite Hf.
    took (PLeave (ConsoleInput.incoming (consoleInput (mon s)))).
  - cbn. rewrite Hh by done. took (PLeft ch).
  - took (PIdle (Some ch)).
Qed.

(** ** The interrupt *)

Definition buffer (m : t) : list Z :=
  if decide (ConsoleInput.incoming (consoleInput m) = EOF) then [] else [ConsoleInput.incoming (consoleInput m)].

(** The bytes before the first 255, which the device takes for [EOF]. *)
Fixpoint before (typed : list Z) : list Z :=
  match typed with [] => [] | b :: typed => if decide (char_to_int b = EOF) then [] else b :: before typed end.

(** What the device will still read: nothing once it has stopped. *)
Definition ahead (m : t) : list Z :=
  if decide (ConsoleInput.incoming (consoleInput m) = EOF /\ asked (bus m) = []) then []
  else map char_to_int (before (ConsoleInput.readFile (consoleInput m))).

Lemma kb_device_next m ps e r : inv m ps -> fires e m = Some r ->
  exists m', r = Ok m' /\ inv m' ps /\ ConsoleInput.incoming (consoleInput m) = EOF /\ buffer m' ++ ahead m' = ahead m.
Proof.
  intros [Hl Hu Hph]. unfold fires. destruct (fire _ _ _) as [b |] eqn:Hf; [| done]. cbn [fmap option_fmap option_map].
  apply fire_asked in Hf. intros [= <-].
  destruct Hph as [E1 E2 E3 | E1 E2 E3 | E1 E2 E3]; [| lia | lia].
  assert (ahead m = map char_to_int (before (ConsoleInput.readFile (consoleInput m)))) as ->.
  { unfold ahead. rewrite decide_False; [done |]. intros [_ E]. by rewrite E in E2. }
  assert (asked b = []) as E0 by (apply length_zero_iff_nil; lia).
  unfold handle, ConsoleInput.CallBack. rewrite E1. cbn.
  destruct (ready e); cbn; [destruct (ConsoleInput.readFile (consoleInput m)) as [| byte rest] eqn:Hr; cbn |];
    eexists; (split; [reflexivity |]); unfold buffer, ahead; cbn; rewrite ?E1, ?E0, ?Hr; (split; [split; cbn; try done; try lia | split; [done |]]).
  - rewrite E0. apply ended; [done | done | lia].
  - by rewrite !decide_True.
  - rewrite ?E0. destruct (decide (char_to_int byte = EOF)); [apply ended | apply buffered]; cbn; (done || lia).
  - destruct (decide (char_to_int byte = EOF)); [by rewrite decide_True | rewrite decide_False; [done | by intros []]].
  - rewrite ?E0. apply polling; [done | done | lia].
  - rewrite decide_True, decide_False; [done | by intros [] | done].
Qed.

(** ** Runs *)

(** What a step took out of the device. *)
Definition read_by (m m' : t) : list Z :=
  if decide (ConsoleInput.incoming (consoleInput m') = EOF) then buffer m else [].

(** The states of [n] threads, with the characters read so far. *)
Inductive reach (typed : list Z) (n : nat) : sys -> list Z -> Prop :=
  | reach_start m : create typed = Ok m -> reach typed n (mkSys m (replicate n (Idle None))) []
  | reach_step s log e s' : reach typed n s log -> step s e = Some (Ok s') -> reach typed n s' (log ++ read_by (mon s) (mon s')).

Definition kept (typed log : list Z) (m : t) : Prop := map char_to_int (before typed) = log ++ buffer m ++ ahead m.
Lemma next_keeps typed log m th p m' p' : kept typed log m -> next th m p m' p' ->
  kept typed (log ++ read_by m m') m' /\ forall ch, read_by m m' = [ch] -> p' = PLeave ch.
Proof.
  intros Hk Hn. unfold kept in *. rewrite Hk. unfold read_by. destruct Hn; cbn.
  all: try (unfold buffer, ahead; cbn; case_decide; rewrite ?app_nil_r; done).
  change (buffer (taken m)) with (@nil Z). cbn.
  destruct (decide (ConsoleInput.incoming (consoleInput m) = EOF)) as [E | E].
  - assert (buffer m = []) as -> by (unfold buffer; by rewrite decide_True).
    split; [| done]. rewrite app_nil_r. cbn. f_equal. unfold ahead. cbn. rewrite E. by rewrite (decide_True (P := EOF = EOF)).
  - assert (buffer m = [ConsoleInput.incoming (consoleInput m)]) as -> by (unfold buffer; by rewrite decide_False).
    split; [| by intros ch [= <-]]. rewrite <- app_assoc. do 2 f_equal. unfold ahead. cbn.
    rewrite (decide_False (P := _ = EOF)) by done. cbn. rewrite !decide_False; [done | | by intros []].
    intros [_ Ha]. by apply app_eq_nil in Ha as [_ ?].
Qed.

Lemma any_step typed s log e r : ok s -> kept typed log (mon s) -> step s e = Some r ->
  exists s', r = Ok s' /\ ok s' /\ kept typed (log ++ read_by (mon s) (mon s')) (mon s').
Proof.
  intros (ps & Hpt & Hi) Hk. destruct e as [th | th o | d].
  - intros Hs. destruct (ps !! th) as [p |] eqn:Hp; [| cbn in Hs; by rewrite Hpt, Hp in Hs].
    destruct (kb_step_next s ps th p r Hpt Hi Hp Hs) as (m' & p' & -> & Hn). eexists. split; [reflexivity |]. split.
    + exists (<[th := p']> ps). split; [by apply (place_move denote _ _ _ p) | exact (kb_inv_next (mon s) ps th p m' p' Hi Hp Hn)].
    + by apply (next_keeps typed log (mon s) th p m' p' Hk Hn).
  - cbn. rewrite Hpt. destruct (ps !! th) as [p |] eqn:Hp; [| done]. destruct p; cbn; try done. intros [= <-].
    eexists. split; [reflexivity |]. split.
    + exists (<[th := PGive]> ps). split; [by apply (place_move denote _ _ _ (PIdle got) PGive) |].
      apply (inv_quiet (mon s) _ ps th _ _ Hi Hp); try done; [apply (lock_move inside holds ps th _ _ Hp); [apply Hi | done | done] | apply Hi].
    + cbn. unfold kept, read_by, buffer in *. rewrite Hk. case_decide; by rewrite ?app_nil_r.
  - cbn. destruct (fires d (mon s)) as [r' |] eqn:Hf; [| done]. destruct (kb_device_next _ ps d r' Hi Hf) as (m' & -> & Hi' & E & Ha).
    cbn. intros [= <-]. eexists. split; [reflexivity |]. split; [by exists ps |]. cbn.
    assert (buffer (mon s) = []) as B by (unfold buffer; by rewrite decide_True).
    assert (read_by (mon s) m' = []) as Hr by (unfold read_by; by case_decide).
    unfold kept in *. by rewrite Hk, Hr, B, app_nil_r, Ha.
Qed.

Lemma start_inv typed n m : create typed = Ok m -> ok (mkSys m (replicate n (Idle None))) /\ kept typed [] m.
Proof.
  unfold create, ConsoleInput.create, Schedule. cbn. intros [= <-]. split.
  - exists (replicate n (PIdle None)). split; [by apply place_all |]. split; cbn; [by apply lock_start | done |].
    rewrite total_zero; [by apply polling |]. by intros i p [-> _]%lookup_replicate.
  - reflexivity.
Qed.

Lemma kept_step typed n s log : reach typed n s log -> ok s /\ kept typed log (mon s).
Proof.
  induction 1 as [m Hm | s log e s' _ [IH1 IH2] Hs]; [by apply start_inv |].
  by destruct (any_step typed s log e _ IH1 IH2 Hs) as (? & [= <-] & ?).
Qed.

(** C31: Any number of threads call [SynchConsoleInput::GetChar] while the user
    types: no assertion of the device or of the lock fails, the characters read
    are those typed, each once and in order, up to the first byte 255, which the
    device takes for [EOF]; and a character that leaves the device is the result
    of the thread that took it. *)
Theorem keyboard_in_order typed n s log : reach typed n s log ->
  (forall e r, step s e = Some r -> exists s', r = Ok s') /\
  log `prefix_of` map char_to_int (before typed) /\
  (forall th s' ch, step s (Run th) = Some (Ok s') -> read_by (mon s) (mon s') = [ch] ->
     threads s' !! th = Some (Release th (Idle (Some ch)))).
Proof.
  intros Hr. destruct (kept_step typed n s log Hr) as [Hok Hk]. split; [| split].
  - intros e r Hs. destruct (any_step typed s log e r Hok Hk Hs) as (s' & ? & _). by exists s'.
  - by eexists.
  - intros th s' ch Hs Hch. destruct Hok as (ps & Hpt & Hi).
    destruct (ps !! th) as [p |] eqn:Hth; [| cbn in Hs; by rewrite Hpt, Hth in Hs].
    destruct (kb_step_next s ps th p _ Hpt Hi Hth Hs) as (m' & p' & [= ->] & Hn).
    destruct (next_keeps typed log (mon s) th p m' p' Hk Hn) as [_ Hleave]. rewrite (Hleave ch Hch). cbn [threads].
    apply list_lookup_insert_eq. specialize (Hpt th). rewrite Hth in Hpt. by eapply lookup_lt_Some.
Qed.

(** Who cannot go on. *)
Lemma kb_blocked s ps th p : at_points denote (threads s) ps -> inv (mon s) ps -> ps !! th = Some p -> step s (Run th) = None ->
  (exists got, p = PIdle got) \/ (p = PGive /\ lockSem (mon s) = 0) \/ (p = PWait /\ waitFor (mon s) = 0).
Proof.
  intros Hpt Hi Hp. cbn. rewrite Hpt, Hp. destruct p as [got | | | | | ch | ch]; cbn; try done; [eauto | |].
  - destruct (Z.eqb_spec (lockSem (mon s)) 0); [eauto | done].
  - destruct (Z.eqb_spec (waitFor (mon s)) 0); [eauto | done].
Qed.

(** A character that waits has a thread that can take it. *)
Lemma unit_left s ps : at_points denote (threads s) ps -> inv (mon s) ps -> (forall th, step s (Run th) = None) ->
  waitFor (mon s) = 0 -> (Z.to_nat (waitFor (mon s)) + total getting ps)%nat <> 1%nat.
Proof.
  intros Hpt Hi Hb Hw. rewrite Hw. rewrite total_zero; [done |]. intros th p Hp.
  by destruct (kb_blocked s ps th p Hpt Hi Hp (Hb th)) as [[? ->] | [[-> _] | [-> _]]].
Qed.

(** C32: The keyboard does not go silent too early: when no thread can go on and
    one is still in [GetChar], the device has asked for its next interrupt, or
    everything before the first byte 255 has been read. *)
Theorem keyboard_polls typed n s log : reach typed n s log -> (forall th, step s (Run th) = None) ->
  forall th k, threads s !! th = Some k ->
    (exists got, k = Idle got) \/ asked (bus (mon s)) <> [] \/ log = map char_to_int (before typed).
Proof.
  intros [(ps & Hpt & Hi) Hk]%kept_step Hb th k Hth. rewrite Hpt in Hth.
  destruct (ps !! th) as [p |] eqn:Hp; [| done]. injection Hth as <-.
  destruct (inv_phase _ _ Hi) as [E1 E2 E3 | E1 E2 E3 | E1 E2 E3].
  - right. left. by destruct (asked (bus (mon s))).
  - left. destruct (kb_blocked s ps th p Hpt Hi Hp (Hb th)) as [[got ->] | [[-> H0] | [-> H0]]]; [by exists got | |].
    + pose proof (lk_one _ _ _ _ _ (inv_lock _ _ Hi)). assert (0 < total inside ps)%nat as (i & q & Hq & Hin)%total_pos by lia.
      destruct (kb_blocked s ps i q Hpt Hi Hq (Hb i)) as [[got ->] | [[-> _] | [-> Hw]]]; cbn in Hin; try lia.
      by destruct (unit_left s ps Hpt Hi Hb Hw).
    + by destruct (unit_left s ps Hpt Hi Hb H0).
  - right. right. unfold kept, buffer, ahead in Hk. rewrite E1, (length_zero_iff_nil _) in *.
    rewrite Hk, E2, !decide_True by done. by rewrite app_nil_r.
Qed.
End Keyboard.

(** ** The display *)

Module Display.
Import Bus Procs SynchConsoleOutput.

#[local] Notation proc := (Procs.proc t semref unit Empty_set).
#[local] Notation sys := (Procs.sys t semref unit Empty_set).
#[local] Notation Release := (Procs.Release LockSem lockHolder with_holder).

Inductive point : Set :=
  | PIdle
  | PGive (ch : Z)
  | PTake (ch : Z)
  | PPut (ch : Z)
  | PWait            (** at [waitFor->P()] *)
  | PLeave
  | PLeft.

Definition denote (me : nat) (p : point) : proc :=
  match p with
  | PIdle => Idle tt
  | PGive ch => PutChar me ch
  | PTake ch => Code (fun s => Ok (with_holder s (Some me), put_code me ch))
  | PPut ch => put_code me ch
  | PWait => CallP WaitFor (Release me (Idle tt))
  | PLeave => Release me (Idle tt)
  | PLeft => CallV LockSem (Idle tt)
  end.

Definition inside (p : point) : nat := match p with PIdle | PGive _ => 0 | _ => 1 end.
Definition holds (p : point) : bool := match p with PPut _ | PWait | PLeave => true | _ => false end.
Definition waits (p : point) : nat := match p with PWait => 1 | _ => 0 end.
Definition busy (m : t) : nat := if ConsoleOutput.putBusy (consoleOutput m) then 1 else 0.

Lemma ds_holds_inside p : holds p = true -> inside p = 1%nat.
Proof. by destruct p. Qed.

(** The one who waits has a character under way, or a unit. *)
Record inv (m : t) (ps : list point) : Prop := {
  inv_lock : lock_ok inside holds (lockSem m) (lockHolder m) ps;
  inv_units : 0 <= waitFor m;
  inv_busy : length (asked (bus m)) = busy m;
  inv_waits : total waits ps = (Z.to_nat (waitFor m) + busy m)%nat;
}.
Definition ok (s : sys) : Prop := exists ps, at_points denote (threads s) ps /\ inv (mon s) ps.

(** At other points than [PWait] the device is at rest. *)
Lemma at_rest m ps th p : inv m ps -> ps !! th = Some p -> inside p = 1%nat -> waits p = 0%nat -> busy m = 0%nat /\ waitFor m = 0.
Proof.
  intros [Hl Hu Hb Hw] Hp Hin Hwp. enough (total waits ps = 0%nat) by lia.
  apply total_zero. intros i q Hq. destruct (decide (i = th)) as [-> | Hne]; [congruence |].
  pose proof (lock_alone inside holds ps th p Hp _ _ Hl Hin i q Hq Hne). by destruct q.
Qed.

(** What [PutChar] of the device does. *)
Definition shown (m : t) (ch : Z) : t :=
  with_device m (ConsoleOutput.mk (ConsoleOutput.written (consoleOutput m) ++ [ch]) true)
    (Bus.mk (stats (bus m)) (asked (bus m) ++ [(totalTicks (stats (bus m)) + ConsoleTime, ConsoleWriteInt)])).

Inductive next (th : nat) (m : t) : point -> t -> point -> Prop :=
  | next_give ch : lockSem m <> 0 -> next th m (PGive ch) (with_lockSem m (lockSem m - 1)) (PTake ch)
  | next_take ch : next th m (PTake ch) (with_holder m (Some th)) (PPut ch)
  | next_put ch : next th m (PPut ch) (shown m ch) PWait
  | next_wait : waitFor m <> 0 -> next th m PWait (with_waitFor m (waitFor m - 1)) PLeave
  | next_leave : next th m PLeave (with_holder m None) PLeft
  | next_left : next th m PLeft (with_lockSem m (lockSem m + 1)) PIdle.

Lemma ds_inv_next m ps th p m' p' : inv m ps -> ps !! th = Some p -> next th m p m' p' -> inv m' (<[th := p']> ps).
Proof.
  intros Hi Hp Hn. pose proof (at_rest m ps th p Hi Hp) as Hrest. destruct Hi as [Hl Hu Hb Hw].
  pose proof (total_insert waits ps th p p' Hp) as Ht.
  destruct Hn; cbn in Ht; split; cbn; try done; try (unfold busy in *; cbn; lia).
  - by eapply lock_P.
  - by eapply lock_holder; [| apply ds_holds_inside | ..].
  - by eapply lock_move.
  - destruct Hrest as [E _]; [done | done |]. rewrite length_app, Hb, E. done.
  - destruct Hrest as [E1 E2]; [done | done |]. rewrite E2 in *. unfold busy in *. cbn. lia.
  - by eapply lock_move.
  - by eapply lock_holder; [| apply ds_holds_inside | ..].
  - by eapply lock_V.
Qed.

Ltac took q := cbn; intros [= <-]; eexists _, q; split; [reflexivity |]; by constructor.

Lemma ds_step_next s ps th p r : at_points denote (threads s) ps -> inv (mon s) ps -> ps !! th = Some p ->
  step s (Run th) = Some r ->
  exists m' p', r = Ok (mkSys m' (<[th := denote th p']> (threads s))) /\ next th (mon s) p m' p'.
Proof.
  intros Hpt Hi Hp. cbn. rewrite Hpt, Hp. cbn.
  assert (holds p = true -> ASSERT (Procs.IsHeldByCurrentThread lockHolder th (mon s)) = Ok tt) as Hh.
  { intros Hh. apply held. exact (lk_holder _ _ _ _ _ (inv_lock _ _ Hi) th p Hp Hh). }
  destruct p as [| ch | ch | ch | | |]; cbn.
  - done.
  - destruct (Z.eqb_spec (lockSem (mon s)) 0); [done | took (PTake ch)].
  - took (PPut ch).
  - destruct (at_rest _ _ _ _ Hi Hp eq_refl eq_refl) as [E _]. unfold busy in E. unfold ConsoleOutput.PutChar.
    destruct (ConsoleOutput.putBusy (consoleOutput (mon s))); [done | took PWait].
  - destruct (Z.eqb_spec (waitFor (mon s)) 0); [done | took PLeave].
  - rewrite Hh by done. took PLeft.
  - took PIdle.
Qed.

(** The interrupt, and what was written stays. *)
Lemma ds_device_next m ps e r : inv m ps -> fires e m = Some r ->
  exists m', r = Ok m' /\ inv m' ps /\ ConsoleOutput.written (consoleOutput m') = ConsoleOutput.written (consoleOutput m).
Proof.
  intros [Hl Hu Hb Hw]. unfold fires. destruct (fire _ _ _) as [b |] eqn:Hf; [| done]. cbn [fmap option_fmap option_map].
  apply fire_asked in Hf. intros [= <-]. eexists. split; [reflexivity |].
  split; [| done]. unfold busy in *. split; cbn; [done | lia | |]; unfold busy; cbn; destruct (ConsoleOutput.putBusy _); lia.
Qed.

Inductive reach (n : nat) : sys -> Prop :=
  | reach_start : reach n (mkSys create (replicate n (Idle tt)))
  | reach_step s e s' : reach n s -> step s e = Some (Ok s') -> reach n s'.

Lemma ds_step_ok s e r : ok s -> step s e = Some r -> exists s', r = Ok s' /\ ok s'.
Proof.
  intros (ps & Hpt & Hi). destruct e as [th | th ch | d].
  - intros Hs. destruct (ps !! th) as [p |] eqn:Hp; [| cbn in Hs; by rewrite Hpt, Hp in Hs].
    destruct (ds_step_next s ps th p r Hpt Hi Hp Hs) as (m' & p' & -> & Hn). eexists. split; [reflexivity |].
    exists (<[th := p']> ps). split; [by apply (place_move denote _ _ _ p) | exact (ds_inv_next (mon s) ps th p m' p' Hi Hp Hn)].
  - cbn. rewrite Hpt. destruct (ps !! th) as [p |] eqn:Hp; [| done]. destruct p; cbn; try done. intros [= <-].
    eexists. split; [reflexivity |]. exists (<[th := PGive ch]> ps).
    split; [by apply (place_move denote _ _ _ PIdle (PGive ch)) |]. destruct Hi as [Hl Hu Hb Hw].
    split; [by apply (lock_move inside holds ps th _ _ Hp) | done | done |]. by rewrite (total_same waits ps th PIdle).
  - cbn. destruct (fires d (mon s)) as [r' |] eqn:Hf; [| done]. destruct (ds_device_next _ ps d r' Hi Hf) as (m' & -> & Hi' & _).
    intros [= <-]. eexists. split; [reflexivity | by exists ps].
Qed.

Lemma ds_reach_ok n s : reach n s -> ok s.
Proof.
  induction 1 as [| s e s' _ IH Hs]; [| by destruct (ds_step_ok s e _ IH Hs) as (? & [= <-] & ?)].
  exists (replicate n PIdle). split; [by apply place_all |]. split; cbn; [by apply lock_start | done | done |].
  rewrite total_zero; [done |]. by intros i p [-> _]%lookup_replicate.
Qed.

Lemma ds_reach_events n s (es : list (event Z interrupt)) s' : reach n s -> events s es = Some s' -> reach n s'.
Proof.
  revert s. induction es as [| e es IH]; intros s Hr He; [by injection He as <- |].
  cbn [events] in He. destruct (step s e) as [[s1 |] |] eqn:Hs; try done. eapply IH, He. by eapply reach_step.
Qed.

(** Any number of threads call [SynchConsoleOutput::PutChar]: the device is
    never given a character while it is busy and no other assertion fails; each
    call appends its own character, by the holder of the lock, nothing else
    changes what was written, and a call gives the lock back only when its
    character is out. *)
Theorem display_one_at_a_time n s e r : reach n s -> step s e = Some r ->
  exists s', r = Ok s' /\
    let old := ConsoleOutput.written (consoleOutput (mon s)) in
    let new := ConsoleOutput.written (consoleOutput (mon s')) in
    (new = old \/ exists th ch, e = Run th /\ threads s !! th = Some (put_code th ch) /\
       lockHolder (mon s) = Some th /\ new = old ++ [ch]) /\
    (forall th, threads s' !! th = Some (CallV LockSem (Idle tt)) -> ConsoleOutput.putBusy (consoleOutput (mon s')) = false).
Proof.
  intros Hok%ds_reach_ok Hs. destruct (ds_step_ok s e r Hok Hs) as (s' & -> & ps' & Hpt' & Hi').
  destruct Hok as (ps & Hpt & Hi). exists s'. split; [done |]. cbv zeta. split.
  - destruct e as [th | th ch | d].
    + destruct (ps !! th) as [p |] eqn:Hp; [| cbn in Hs; by rewrite Hpt, Hp in Hs].
      destruct (ds_step_next s ps th p _ Hpt Hi Hp Hs) as (m' & p' & [= ->] & Hn).
      pose proof (lk_holder _ _ _ _ _ (inv_lock _ _ Hi) th p Hp) as Hh. specialize (Hpt th). rewrite Hp in Hpt.
      destruct Hn; try (by left). right. exists th, ch. split; [done | split; [exact Hpt | split; [by apply Hh | done]]].
    + left. cbn in Hs. destruct (threads s !! th) as [[] |]; try done. by injection Hs as <-.
    + left. cbn in Hs. destruct (fires d (mon s)) as [r' |] eqn:Hf; [| done].
      destruct (ds_device_next _ ps d r' Hi Hf) as (m' & -> & _ & E). injection Hs as <-. exact E.
  - intros th Hth. rewrite Hpt' in Hth. destruct (ps' !! th) as [p |] eqn:Hp; [| done]. injection Hth as Hth.
    assert (p = PLeft) as -> by (by destruct p).
    destruct (at_rest _ _ _ _ Hi' Hp eq_refl eq_refl) as [E _]. unfold busy in E. by destruct (ConsoleOutput.putBusy _).
Qed.
End Display.

(** ** A thread waits at the keyboard, another writes *)

Module TerminalDemo.
Import Procs.

(** "A", then 255, then "B". *)
Definition typed : list Z := [65; 255; 66].
Definition kbd : SynchConsoleInput.t :=
  SynchConsoleInput.mk (ConsoleInput.mk typed EOF) 1 None 0 (Bus.mk Stats.create [(100, Interrupt.ConsoleReadInt)]).
Definition start : sys SynchConsoleInput.t SynchConsoleInput.semref (option Z) Empty_set := mkSys kbd [Idle None].

Definition key (now : Z) : event unit SynchConsoleInput.interrupt := Device (SynchConsoleInput.mkInt 0 now true).
(** One call, with the key pressed while it waits, up to its [GetChar]. *)
Definition call (now : Z) : list (event unit SynchConsoleInput.interrupt) :=
  [Start 0 tt; Run 0; Run 0; key now; Run 0].

Lemma reach_events t n s log (es : list (event unit SynchConsoleInput.interrupt)) s' :
  Keyboard.reach t n s log -> events s es = Some s' -> exists log', Keyboard.reach t n s' log'.
Proof.
  revert s log. induction es as [| e es IH]; intros s log Hr He; [injection He as <-; eauto |].
  cbn [events] in He. destruct (step s e) as [[s1 |] |] eqn:Hs; try done. eapply IH, He. by eapply Keyboard.reach_step.
Qed.

Definition pressed := after start (call 100).
Lemma reach_pressed : exists log, Keyboard.reach typed 1 pressed log.
Proof.
  eapply (reach_events typed 1 start []); [by apply Keyboard.reach_start |]. apply events_after. by vm_compute.
Qed.

Lemma keyboard_in_order_witness : exists log s', step pressed (Run 0) = Some (Ok s') /\
  log `prefix_of` [65] /\ threads s' !! 0%nat = Some (Procs.Release SynchConsoleInput.LockSem SynchConsoleInput.lockHolder
    SynchConsoleInput.with_holder 0 (Idle (Some 65))).
Proof.
  destruct reach_pressed as [log Hr]. destruct (Keyboard.keyboard_in_order typed 1 pressed log Hr) as (_ & Hp & Ht).
  assert (step pressed (Run 0) = Some (Ok (after pressed [Run 0]))) as Hs by (apply step_after; by vm_compute).
  exists log, (after pressed [Run 0]). split; [exact Hs | split; [exact Hp |]].
  apply (Ht 0%nat _ 65 Hs). by vm_compute.
Defined.

(** A thread that waits: the device will poll.  After the byte 255 it does not:
    the second call of [GetChar] has got [EOF], and "B" is never read. *)
Definition waiting := after start [Start 0 tt; Run 0; Run 0].
Lemma keyboard_polls_witness : exists log, Keyboard.reach typed 1 waiting log /\
  ((exists got, threads waiting !! 0%nat = Some (Idle got)) \/ Bus.asked (SynchConsoleInput.bus (mon waiting)) <> [] \/ log = [65]).
Proof.
  assert (exists log, Keyboard.reach typed 1 waiting log) as [log Hr].
  { eapply (reach_events typed 1 start []); [by apply Keyboard.reach_start |]. apply events_after. by vm_compute. }
  exists log. split; [exact Hr |].
  assert (forall th, step waiting (Run th) = None) as Hb by (intros [| th]; vm_compute; reflexivity).
  destruct (threads waiting !! 0%nat) as [k |] eqn:Hk; [| exfalso; vm_compute in Hk; discriminate Hk].
  destruct (Keyboard.keyboard_polls typed 1 waiting log Hr Hb 0%nat k Hk) as [[got ->] | H]; [left; by exists got | by right].
Defined.

Definition dead := after start (call 100 ++ [Run 0; Run 0; Run 0] ++ call 200 ++ [Run 0; Run 0; Run 0]).
Example byte_255_stops_the_keyboard :
  ConsoleInput.readFile (SynchConsoleInput.consoleInput (mon dead)) = [66] /\
  Bus.asked (SynchConsoleInput.bus (mon dead)) = [] /\
  match threads dead !! 0%nat with Some (Idle got) => got = Some EOF | _ => False end.
Proof. by vm_compute. Qed.

(** The display, with the first character under way. *)
Definition screen : sys SynchConsoleOutput.t SynchConsoleOutput.semref unit Empty_set :=
  after (mkSys SynchConsoleOutput.create (replicate 2 (Idle tt))) [Start 0 65; Start 1 66; Run 0; Run 0].

Lemma display_one_at_a_time_witness : exists s', step screen (Run 0) = Some (Ok s') /\
  ConsoleOutput.written (SynchConsoleOutput.consoleOutput (mon s')) = [65] /\
  (forall th, threads s' !! th = Some (CallV SynchConsoleOutput.LockSem (Idle tt)) ->
     ConsoleOutput.putBusy (SynchConsoleOutput.consoleOutput (mon s')) = false).
Proof.
  assert (Display.reach 2 screen) as Hr.
  { apply (Display.ds_reach_events 2 (mkSys SynchConsoleOutput.create (replicate 2 (Idle tt))) [Start 0 65; Start 1 66; Run 0; Run 0]);
      [constructor | apply events_after; by vm_compute]. }
  assert (step screen (Run 0) = Some (Ok (after screen [Run 0]))) as Hs by (apply step_after; by vm_compute).
  destruct (Display.display_one_at_a_time 2 screen (Run 0) _ Hr Hs) as (s' & [= <-] & _ & Hd).
  exists (after screen [Run 0]). split; [exact Hs | split; [by vm_compute | exact Hd]].
Defined.
End TerminalDemo.
