(* ===== verification/Network.v ===== *)
(** * Network: machine/network.h, network.cc, and the headers of network/post.h

    The simulated network device: packets of a fixed size that go out on a socket
    and come in on one, and the layout of the headers in them.  A buffer is its
    bytes; the host is little-endian and lays the three words of a header out one
    after the other. *)

From S2P Require Import Prelude Stats Interrupt Devices.

(** [bcopy] from and to the position [i] of a buffer. *)
Definition bcopy_from (buf : list Z) (i n : Z) : res (list Z) :=
  if (0 <=? i) && (0 <=? n) && (i + n <=? Z.of_nat (length buf))
  then Ok (slice (Z.to_nat i) (Z.to_nat n) buf) else Fault MemoryFault.
Definition bcopy_to (buf : list Z) (i : Z) (bs : list Z) : res (list Z) :=
  if (0 <=? i) && (i + Z.of_nat (length bs) <=? Z.of_nat (length buf))
  then Ok (list_inserts (Z.to_nat i) bs buf) else Fault MemoryFault.

(** ** Headers *)

Module Wire.

Record PacketHeader := mkPacketHeader {
  pkt_to : Z;
  pkt_from : Z;
  pkt_length : Z;
}.
Record MailHeader := mkMailHeader {
  mail_to : Z;
  mail_from : Z;
  mail_length : Z;
}.

Definition sizeof_PacketHeader : Z := 12.
Definition sizeof_MailHeader : Z := 12.
Definition MaxWireSize : Z := 64.
Definition MaxPacketSize : Z := MaxWireSize - sizeof_PacketHeader.
Definition MaxMailSize : Z := MaxPacketSize - sizeof_MailHeader.

(** Three words in memory: two [int]s and an [unsigned]. *)
Definition words (a b c : Z) : list Z := le_split 4 (u32 a) ++ le_split 4 (u32 b) ++ le_split 4 c.
Definition word (i : nat) (bs : list Z) : Z := le_combine (slice (4 * i) 4 bs).

Definition packet_bytes (h : PacketHeader) : list Z := words (pkt_to h) (pkt_from h) (pkt_length h).
Definition packet_header (bs : list Z) : PacketHeader :=
  mkPacketHeader (s32 (word 0 bs)) (s32 (word 1 bs)) (word 2 bs).
Definition mail_bytes (h : MailHeader) : list Z := words (mail_to h) (mail_from h) (mail_length h).
Definition mail_header (bs : list Z) : MailHeader :=
  mkMailHeader (s32 (word 0 bs)) (s32 (word 1 bs)) (word 2 bs).

Definition with_length (h : PacketHeader) (n : Z) : PacketHeader := mkPacketHeader (pkt_to h) (pkt_from h) n.
End Wire.

(** ** class NetworkOutput *)

Module NetworkOutput.
Import Bus Wire.

(** [wire]: the packets handed to the socket, with the host they are for. *)
Record t := mk {
  sendBusy : bool;
  wire : list (Z * list Z);
}.

Definition create : t := mk false [].

(** Then [callWhenDone->CallBack()] is called. *)
Definition CallBack (n : t) (b : Bus.t) : t * Bus.t := (mk false (wire n), count count_sent b).

(** [lost]: the draw of [RandomNumber] against [chanceToWork]; [garbage]: what
    the new buffer holds. *)
Definition Send (hostName : Z) (lost : bool) (garbage : list Z) (hdr : PacketHeader) (data : list Z)
    (n : t) (b : Bus.t) : res (t * Bus.t) :=
  _ ← ASSERT (negb (sendBusy n) && (0 <? pkt_length hdr) && (pkt_length hdr <=? MaxPacketSize) && (pkt_from hdr =? hostName));
  b ← Schedule NetworkTime NetworkSendInt b;
  if lost then Ok (n, b)
  else
    buffer ← bcopy_to garbage 0 (packet_bytes hdr);
    data ← bcopy_from data 0 (pkt_length hdr);
    buffer ← bcopy_to buffer sizeof_PacketHeader data;
    Ok (mk (sendBusy n) (wire n ++ [(pkt_to hdr, buffer)]), b).
End NetworkOutput.

(** ** class NetworkInput *)

Module NetworkInput.
Import Bus Wire.

(** [socket]: the packets that have arrived and were not read. *)
Record t := mk {
  inHdr : PacketHeader;
  inbox : list Z;
  socket : list (list Z);
}.

(** [garbage]: what the members that are not initialised hold. *)
Definition create (garbage : PacketHeader * list Z) (b : Bus.t) : res (t * Bus.t) :=
  b ← Schedule NetworkTime NetworkRecvInt b;
  Ok (mk (with_length garbage.1 0) garbage.2 [], b).

(** [recvfrom] cuts a longer packet off. *)
Definition ReadFromSocket (packetSize : Z) (packet : list Z) : res (list Z) :=
  let buffer := take (Z.to_nat packetSize) packet in
  _ ← ASSERT (Z.of_nat (length buffer) =? packetSize);
  Ok buffer.

(** The last component: whether [callWhenAvail->CallBack()] is called. *)
Definition CallBack (hostName : Z) (n : t) (b : Bus.t) : res (t * Bus.t * bool) :=
  b ← Schedule NetworkTime NetworkRecvInt b;
  if negb (pkt_length (inHdr n) =? 0) then Ok (n, b, false)
  else
    match socket n with
    | [] => Ok (n, b, false)                                      (** [!PollSocket(sock)] *)
    | packet :: rest =>
        buffer ← ReadFromSocket MaxWireSize packet;
        let inHdr := packet_header buffer in
        _ ← ASSERT ((pkt_to inHdr =? hostName) && (pkt_length inHdr <=? MaxPacketSize));
        data ← bcopy_from buffer sizeof_PacketHeader (pkt_length inHdr);
        inbox ← bcopy_to (inbox n) 0 data;
        Ok (mk inHdr inbox rest, count count_recvd b, true)
    end.

(** The header, and what [data] holds then. *)
Definition Receive (data : list Z) (n : t) : res (PacketHeader * list Z * t) :=
  let hdr := inHdr n in
  let n := mk (with_length (inHdr n) 0) (inbox n) (socket n) in
  if negb (pkt_length hdr =? 0) then
    bs ← bcopy_from (inbox n) 0 (pkt_length hdr);
    data ← bcopy_to data 0 bs;
    Ok (hdr, data, n)
  else Ok (hdr, data, n).
End NetworkInput.
