(* ===== verification/TimeSlices.v ===== *)
(** * TimeSlices: mipssim.cc [Machine::Run] with interrupt.cc [OneTick], timer.cc
      and thread.cc [Yield]

    The loop of the processor with the clock: an instruction, a tick, and when the
    timer is due a switch to the next program on the ready list.  The kernel of
    Threads.v is the state of the interrupt hardware of Interrupt.v here, and the
    timer one of its devices.  The threads that can run are in a program, so that a
    thread that gets the processor goes on where the clock took it away, in
    [Yield]; those that wait may be in anything.  With the periodic timer, and
    nothing to deliver at the other devices, the programs take turns, and a turn of the
    processor is a run of TimeSharing.v. *)

From stdpp Require Import relations.
From S2P Require Import Prelude Machine Mips Stats Interrupt Devices AddrSpace Threads Sched UserMode TimeSharing Consoles Network.

Module TimeSlices.
Import Machine Mips Threads Sched UserMode Locality TimeSharing.

(** The objects that ask for interrupts, the timer among them, and what the other
    devices hold. *)
Section devices.
Context {Obj : Type} `{EqDecision Obj} {D : Type} (alarm : Obj).
#[local] Set Default Proof Using "Type*".

(** What the kernel holds besides the machine and the interrupt hardware. *)
Record W := mkW { timer : Timer.t; system : Threads.kernel; others : D }.
Notation sim := (Interrupt.kernel Obj W).
Notation ticks K := (Interrupt.ticks (K : sim)).

(** The kernel of Threads.v: its level is the level of the interrupt hardware. *)
Definition whole (K : sim) (m : Machine.t) : Threads.kernel :=
  with_level (with_machine (system (Interrupt.rest K)) m) (Interrupt.level (Interrupt.interrupt K)).
Definition put (K : sim) (k : Threads.kernel) : sim :=
  Interrupt.mkKernel (Interrupt.set_level (Interrupt.interrupt K) (level k)) (Interrupt.stats K)
    (Some (machine k)) (mkW (timer (Interrupt.rest K)) k (others (Interrupt.rest K))).

Section run.
(** The host's generator, and the handlers of the other devices. *)
Context (RandomNumber : W -> Z * W) (Other : Obj -> sim -> res sim).

Definition device : Obj -> sim -> res sim := Timer.devices alarm timer RandomNumber Other.

(** After the switch the thread that runs is on its way out of its own [Yield]. *)
Definition way_out (k k' : Threads.kernel) : res (Interrupt.IntStatus * Threads.kernel) :=
  match readyList k with
  | [] => Ok (level k, with_level k' Interrupt.IntOff)
  | _ =>
      th ← thread k' (currentThread k');
      match code th with
      | Set_Level l :: c => Ok (l, set_thread k' (currentThread k') (set_code th c))
      | _ => Fault Blocked
      end
  end.

(** [Yield]; the tick of its [SetLevel] may find the timer due again. *)
Fixpoint Yield (n : nat) (K : sim) : res sim :=
  match n with
  | O => Fault OutOfFuel
  | S n =>
      m ← deref (Interrupt.machine K);
      k' ← Threads.Yield (whole K m);
      '(l, k') ← way_out (whole K m) k';
      '(_, K) ← Interrupt.SetLevel device (Yield n) (put K k') l;
      Ok K
  end.

Inductive stopped : Type :=
  | Going (K : sim)
  | Entered (which : ExceptionType) (K : sim).    (** in [RaiseException], at the handler *)

(** The body of [for (;;)]. *)
Definition turn (n : nat) (K : sim) : res stopped :=
  m ← deref (Interrupt.machine K);
  o ← OneInstruction m;
  match o with
  | Done _ m => K ← Interrupt.OneTick device (Yield n) (Interrupt.with_machine K (Some m)); Ok (Going K)
  | Trap which m => Ok (Entered which (Interrupt.setStatus (Interrupt.with_machine K (Some m)) Interrupt.SystemMode))
  end.

Fixpoint loop (n d : nat) (K : sim) : res stopped :=
  match d with
  | O => Ok (Going K)
  | S d => s ← turn n K; match s with Going K => loop n d K | _ => Ok s end
  end.

(** [Machine::Run], up to [d] turns. *)
Definition Run (n d : nat) (K : sim) : res stopped := loop n d (Interrupt.setStatus K Interrupt.UserMode).
End run.

(** ** The processor at work on programs *)

Definition wf_programs (k : Threads.kernel) : Prop :=
  forall t th sp, alive k t th -> space th = Some sp -> wf (view k t th sp).

(** The thread that runs and those that are ready have a program each; those that are
    ready were switched out by the clock. *)
Definition only_programs (k : Threads.kernel) : Prop :=
  forall t th, alive k t th -> t = currentThread k \/ t ∈ readyList k ->
    is_Some (space th) /\ (t ∈ readyList k -> exists c, code th = Set_Level Interrupt.IntOn :: c).

(** Between two instructions, with the next timer interrupt [p], and nothing to
    deliver at the other devices. *)
Record at_work (calm : D -> Prop) (K : sim) (p : Interrupt.PendingInterrupt Obj) (m : Machine.t) : Prop := {
  aw_pending : exists xs, Timer.timed alarm K xs [p];
  aw_handler : Interrupt.inHandler (Interrupt.interrupt K) = false;
  aw_yield : Interrupt.yieldOnReturn (Interrupt.interrupt K) = false;
  aw_status : Interrupt.status (Interrupt.interrupt K) = Interrupt.UserMode;
  aw_level : Interrupt.level (Interrupt.interrupt K) = Interrupt.IntOn;
  aw_enabled : Timer.disable (timer (Interrupt.rest K)) = false;
  aw_periodic : Timer.randomize (timer (Interrupt.rest K)) = false;
  aw_calm : calm (others (Interrupt.rest K));
  aw_machine : Interrupt.machine K = Some m;
  aw_wf : wf m;
  aw_sharing : sharing (whole K m);
  aw_views : wf_programs (whole K m);
  aw_programs : only_programs (whole K m);
}.

(** *** Well-formed machines *)

Lemma agree_wf m v : agree m v -> mainMemory v = mainMemory m -> wf m -> wf v.
Proof.
  intros [Hr Hp Hs Ht Ht' _ _] Hm [W1 W2 W3 W4 W5 W6]. split; rewrite ?Hr, ?Hm; try done. unfold table_wf in *. rewrite Ht in W6. rewrite Ht'.
  destruct (pages_cases m v Hp) as [[E E'] | (pt & pt' & E & E' & Hu)]; rewrite E in W6; rewrite E'; [done |].
  rewrite Hs, W6. apply (f_equal length) in Hu. rewrite !length_fmap in Hu. lia.
Qed.

Lemma acts_wf k a m : sharing k -> acts k a m -> a = Settle \/ has_program k -> wf m -> wf_programs k -> wf_programs (with_machine k m).
Proof.
  intros Hsh Ha Hu Hm Hw t th sp Hth Hsp. pose proof (Hw t th sp Hth Hsp) as Hv. pose proof (sh_tlb k Hsh) as Htlb.
  pose proof (acts_confined k a m Ha) as [_ _ _ _ Ht _ _]. specialize (Ht Htlb).
  destruct (decide (t = currentThread k)) as [-> | Hne].
  - assert (wf_regs_of : registers (view (with_machine k m) (currentThread k) th sp) = registers m) by (cbn; by rewrite decide_True).
    destruct Hm as [W1 W2 W3 W4 W5 _], Hv as [_ _ _ _ _ W6]. split; rewrite ?wf_regs_of; try done.
    unfold table_wf in *. cbn in *. by rewrite Htlb in W6; rewrite Ht.
  - destruct Hm as [_ _ _ W4 W5 _], Hv as [W1 W2 W3 _ _ W6]. cbn in W1, W2, W3. rewrite decide_False in W1, W2, W3 by done.
    split; cbn; rewrite ?decide_False by done; try done. unfold table_wf in *. cbn in *. by rewrite Htlb in W6; rewrite Ht.
Qed.

Lemma seen_wf k k' : seen k k' -> wf_programs k -> wf_programs k'.
Proof. intros Hs Hw t th sp Hth Hsp. destruct (Hs t th sp Hth Hsp) as (th0 & ? & ? & ->). by apply Hw. Qed.

Lemma current_wf k : sharing k -> only_programs k -> wf_programs k -> wf (machine k).
Proof.
  intros Hsh Ho Hw. destruct (sh_good k Hsh) as [Hi _]. destruct (i_current _ Hi) as (th & Ha & _).
  destruct (Ho _ _ Ha) as [[sp Hsp] _]; [by left |]. pose proof (current_agrees k th sp Hsh Ha Hsp) as Hag.
  apply (agree_wf (view k (currentThread k) th sp)); [by apply agree_sym | done | by apply Hw].
Qed.

Lemma seen_trans k1 k2 k3 : seen k1 k2 -> seen k2 k3 -> seen k1 k3.
Proof.
  intros H1 H2 t th sp Hth Hsp. destruct (H2 t th sp Hth Hsp) as (th2 & H2t & H2s & E2). destruct (H1 t th2 sp H2t H2s) as (th1 & ? & ? & E1).
  exists th1. split_and!; [done | done | congruence].
Qed.

(** *** A switch by the clock *)
Section switch.
#[local] Set Default Proof Using "Type*".
Context (fresh : list Z) (Hfresh : length fresh = 40%nat).
Implicit Types k : Threads.kernel.

Lemma only_running k th c : only_programs k -> alive k (currentThread k) th ->
  currentThread k ∉ readyList k -> only_programs (set_thread k (currentThread k) (set_code th c)).
Proof.
  intros Ho Ha Hr t w Hw. apply (alive_set k (currentThread k) (set_code th c) t w) in Hw; [| by eapply alive_lt].
  destruct Hw as [[-> ->] | [Hne Hw]]; [| by apply Ho]. intros _. split; [apply (Ho _ _ Ha); by left | done].
Qed.

Record clocked (k : Threads.kernel) (n : nat) (l : list nat) (k' : Threads.kernel) : Prop := {
  cl_level : level k' = Interrupt.IntOff;
  cl_current : currentThread k' = n;
  cl_ready : readyList k' = l;
  cl_programs : only_programs k';
  cl_seen : seen k k';
  cl_shared : shared fresh k [] (with_level k' Interrupt.IntOn);
}.

Lemma switch_programs k th n l k' : inv k -> running k th -> only_programs k -> level k = Interrupt.IntOn ->
  readyList k = n :: l -> switched (give k (yielded k th) (l ++ [currentThread k])) n false k' -> only_programs k'.
Proof.
  intros Hi Hr Ho Hl Hrl Hsw t w Hw. pose proof (rn_alive _ _ Hr) as Ha. rewrite (st_ready _ _ _ _ Hsw). cbn [give readyList].
  pose proof (i_ready _ Hi) as Hnd. rewrite Hrl in Hnd. apply NoDup_cons in Hnd as [Hnl _].
  assert (exists w0, alive (give k (yielded k th) (l ++ [currentThread k])) t w0 /\ same w0 w) as (w0 & Hw0 & Hs).
  { destruct (decide (t = n)) as [-> | Hne].
    - destruct (st_next _ _ _ _ Hsw) as (nth & w1 & ? & Hw1 & _ & ?). pose proof (alive_fun _ _ _ _ Hw Hw1) as ->. by exists nth.
    - destruct (st_back _ _ _ _ Hsw t w Hw Hne) as (_ & w0 & ? & _ & ?). by exists w0. }
  rewrite (sm_space _ _ Hs), (sm_code _ _ Hs), (st_current _ _ _ _ Hsw).
  apply (alive_set k (currentThread k) (yielded k th)) in Hw0; [| by eapply alive_lt].
  destruct Hw0 as [[-> ->] | [Hne Hw0]]; intros Hin.
  - split; [apply (Ho _ _ Ha); by left |]. intros _. exists (code th). unfold yielded. cbn. by rewrite Hl.
  - assert (t ∈ readyList k) as Hin0.
    { rewrite Hrl. destruct Hin as [-> | Hin]; [by left | right]. apply elem_of_app in Hin as [? | ?%list_elem_of_singleton]; done. }
    destruct (Ho t w0 Hw0 ltac:(by right)) as [Hsp Hc]. split; [done |]. intros _. by apply Hc.
Qed.

Lemma Yield_clocked k n l : sharing k -> only_programs k -> level k = Interrupt.IntOn -> readyList k ++ [currentThread k] = n :: l ->
  exists k' k'', Threads.Yield k = Ok k' /\ way_out k k' = Ok (Interrupt.IntOn, k'') /\ clocked k n l k''.
Proof.
  intros Hsh Ho Hl Hnl. pose proof (sh_good k Hsh) as Hg. pose proof Hg as [Hi _].
  destruct (i_current _ Hi) as (th & Ha & _). pose proof (running_on k th Hi Hl Ha) as Hr.
  destruct (readyList k) as [| n0 l0] eqn:Hrl; injection Hnl as <- <-.
  - exists k, (with_level k Interrupt.IntOff). split; [by apply Yield_alone |]. unfold way_out. rewrite Hrl, Hl. split; [done |].
    split; try done; [by apply quiet_seen, quiet_eq |].
    assert (with_level (with_level k Interrupt.IntOff) Interrupt.IntOn = k) as -> by (rewrite <- Hl; by destruct k). constructor.
  - pose proof (Yield_gives k th n0 l0 Hi Hr Hrl) as HY. pose proof (Yield_switching k th n0 l0 Hi Hr Hrl) as Hsw.
    destruct (Run_switches _ _ _ Hsw) as (k1 & HR & Hst). pose proof (switched_inv _ _ _ _ Hsw Hst) as Hi1.
    assert (TimeSharing.turn fresh k None k1) as Hturn.
    { apply (turn_kernel fresh k TimeSlice); [done | done | done |]. cbn. rewrite decide_True by done. by rewrite HY, HR. }
    pose proof (switch_programs k th n0 l0 k1 Hi Hr Ho Hl Hrl Hst) as Ho1.
    destruct (st_next _ _ _ _ Hst) as (nth & w & Hn & Hw & Hws & Hs).
    assert (exists c, code w = Set_Level Interrupt.IntOn :: c) as (c & Hc).
    { rewrite (sm_code _ _ Hs). apply (alive_set k (currentThread k) (yielded k th)) in Hn; [| by eapply alive_lt].
      destruct Hn as [[_ ->] | [_ Hn]]; [exists (code th); unfold yielded; cbn; by rewrite Hl |].
      apply (Ho n0 nth Hn); rewrite Hrl; [right |]; by left. }
    pose proof (st_current _ _ _ _ Hst) as Hcur. pose proof (st_ready _ _ _ _ Hst) as Hrd. cbn [give readyList] in Hrd.
    rewrite <- Hcur in Hw. exists k1, (set_thread k1 (currentThread k1) (set_code w c)). split; [by rewrite HY, HR |].
    split; [unfold way_out; rewrite Hrl, (thread_alive k1 _ w Hw); cbn [mbind res_bind]; by rewrite Hc |].
    assert (exec fresh k1 = Some (Ok (with_level (set_thread k1 (currentThread k1) (set_code w c)) Interrupt.IntOn))) as He
      by (unfold exec, alive in *; by rewrite Hw, Hc).
    split; cbn.
    + by destruct Hst.
    + done.
    + done.
    + apply (only_running k1 w c Ho1 Hw). rewrite Hrd, Hcur. pose proof (i_ready _ Hi) as Hnd. rewrite Hrl in Hnd.
      apply NoDup_cons in Hnd as [Hnl _]. rewrite elem_of_app, list_elem_of_singleton. intros [? | ->]; [done |].
      destruct (running_free k th Hi Ha (rn_status _ _ Hr)) as (Hcr & _). apply Hcr. rewrite Hrl. by left.
    + apply (seen_trans _ k1); [| by apply quiet_seen, (pop_quiet k1 w c)].
      destruct (gives_seen k k1) as [? _]; [| done]. exists th, (yielded k th), (l0 ++ [currentThread k]), n0, false. by split_and!.
    + apply (shared_turn fresh k [] k1 None); [by apply (shared_turn fresh k [] k None), Hturn; constructor |].
      apply (turn_kernel fresh k1 Exec); [done | done | | by cbn]. intros _ (w1 & sp & r & Hw1 & Hc1).
      pose proof (alive_fun _ _ _ _ Hw Hw1) as <-. congruence.
Qed.
End switch.

(** ** Turns of the loop, with the periodic timer *)
Section clock.
#[local] Set Default Proof Using "All".
Context (RandomNumber : W -> Z * W) (random_nonneg : forall w, 0 <= fst (RandomNumber w)).
Context (Other : Obj -> sim -> res sim) (calm : D -> Prop).
Context (Hquiet : Timer.Quiet alarm timer Other system (fun w => calm (others w))).
Context (fresh : list Z) (Hfresh : length fresh = 40%nat).
Implicit Types (K : sim) (tr : list (nat * action)).

(** *** What happened on the way *)

(** The threads that executed the instructions of a run. *)
Definition instructions tr : list nat := omap (fun x => match x.2 with Instr => Some x.1 | _ => None end) tr.

(** [d] instructions of [c], and completions of pending loads. *)
Definition paced (c d : nat) tr : Prop :=
  instructions tr = replicate d c /\ Forall (fun x => x.2 = Instr \/ x.2 = Settle) tr.

Definition settles (c : nat) tr : Prop := tr = [] \/ tr = [(c, Settle)].

Lemma paced_settles c c' a : settles c' a -> paced c 0 a.
Proof using Type. intros [-> | ->]; (split; [done |]); [constructor | apply Forall_singleton; by right]. Qed.
Lemma paced_app c d d' tr tr' : paced c d tr -> paced c d' tr' -> paced c (d + d') (tr ++ tr').
Proof using Type.
  intros [Hi Hf] [Hi' Hf']. split; [| by apply Forall_app].
  unfold instructions in *. by rewrite omap_app, Hi, Hi', <- replicate_add.
Qed.
Lemma paced_instr c : paced c 1 [(c, Instr)].
Proof using Type. split; [done | apply Forall_singleton; by left]. Qed.

(** *** Instructions and loads *)

(** After an instruction everything is in order but the clock. *)
Record worked (m : Machine.t) (k : Threads.kernel) : Prop := {
  wk_wf : wf m;
  wk_machine : machine k = m;
  wk_level : level k = Interrupt.IntOn;
  wk_sharing : sharing k;
  wk_views : wf_programs k;
  wk_programs : only_programs k;
}.

Lemma worked_program m k : worked m k -> has_program k.
Proof using Type.
  intros [_ _ _ Hsh _ Ho]. destruct (sh_good _ Hsh) as [Hi _]. destruct (i_current _ Hi) as (th & Ha & _).
  destruct (Ho _ _ Ha) as [[sp Hsp] _]; [by left |]. by exists th, sp.
Qed.

Lemma act_worked m k a m' : worked m k -> acts k a m' -> wf m' ->
  worked m' (with_machine k m') /\ shared fresh k [(currentThread k, a)] (with_machine k m').
Proof using Hfresh.
  intros Hw Ha Hwf. pose proof (worked_program m k Hw) as Hp. destruct Hw as [_ _ Hl Hsh Hv Ho].
  assert (TimeSharing.turn fresh k (Some a) (with_machine k m')) as Ht by (apply turn_program; [done | by right]).
  split; [| by apply (shared_turn fresh k [] k (Some a)); [constructor |]].
  split; try done; [by eapply turn_sharing | by apply (acts_wf k a); [.. | right | |]].
Qed.

Lemma work_worked K p m : at_work calm K p m -> worked m (whole K m).
Proof using Type. by intros []. Qed.

Lemma instruction_worked m k m' : worked m k -> OneInstruction m = Ok (Done tt m') ->
  worked m' (with_machine k m') /\ shared fresh k [(currentThread k, Instr)] (with_machine k m').
Proof using Hfresh.
  intros Hw HI. pose proof Hw as [Hwf Hm _ _ _ _]. apply (act_worked m); [done | cbn [acts alone]; by rewrite Hm, HI |].
  pose proof (OneInstruction_wf m Hwf) as H. rewrite HI in H. by destruct H.
Qed.

(** The pending load may be completed, by the handlers of a tick. *)
Lemma settle_worked m k mo : worked m k -> mo = Some m \/ Interrupt.settled (Some m) = Ok mo ->
  exists m' a, mo = Some m' /\ worked m' (with_machine k m') /\ settles (currentThread k) a /\ shared fresh k a (with_machine k m').
Proof using Hfresh.
  intros Hw [-> | Hs].
  - exists m, []. assert (with_machine k m = k) as -> by (rewrite <- (wk_machine m k Hw); by destruct k).
    split_and!; [done | done | by left | constructor].
  - unfold Interrupt.settled in Hs. pose proof (DelayedLoad_spec m 0 0 (wk_wf m k Hw) ltac:(done) ltac:(done)) as Hd.
    destruct (DelayedLoad m 0 0) as [ms |] eqn:Ed; [| done]. cbn [mbind res_bind] in Hs. injection Hs as <-. destruct Hd as [Hwfs _].
    exists ms, [(currentThread k, Settle)]. destruct (act_worked m k Settle ms Hw) as [? ?]; [| done | by split_and!; [| | right |]].
    cbn [acts alone]. by rewrite (wk_machine m k Hw).
Qed.

(** *** The tick after an instruction *)

Lemma timed_same K K' xs ps : Timer.timed alarm K xs ps -> Interrupt.pending (Interrupt.interrupt K') = Interrupt.pending (Interrupt.interrupt K) ->
  Interrupt.brk (Interrupt.interrupt K') = Interrupt.brk (Interrupt.interrupt K) -> Timer.timed alarm K' xs ps.
Proof using Type. intros [[Hr Ho Hf] Hc Ht] Hp Hb. split; [| done | done]. split; [by rewrite Hp | done | by rewrite Hb]. Qed.

(** An instruction before the timer is due. *)
Lemma turn_early f K p m m' : at_work calm K p m -> OneInstruction m = Ok (Done tt m') -> ticks K + 1 < Interrupt.when_ p ->
  exists K' m2 tr, turn RandomNumber Other f K = Ok (Going K') /\ at_work calm K' p m2 /\ ticks K' = ticks K + 1 /\
    currentThread (whole K' m2) = currentThread (whole K m) /\ readyList (whole K' m2) = readyList (whole K m) /\
    shared fresh (whole K m) tr (whole K' m2) /\ paced (currentThread (whole K m)) 1 tr.
Proof.
  intros Hw HI Hlt. destruct (instruction_worked m (whole K m) m' (work_worked K p m Hw) HI) as [Hw1 Hs1].
  destruct Hw as [[xs Hag] Hh Hy Hst Hl Hen Hper Hcalm Hm _ _ _ _]. unfold turn. rewrite Hm. cbn [deref mbind res_bind]. rewrite HI. cbn [mbind res_bind].
  set (K1 := Interrupt.with_machine K (Some m')).
  assert (Interrupt.machine_ok K1) as Hmo by (unfold Interrupt.machine_ok; cbn; by apply (wk_wf m' _ Hw1)).
  destruct (Timer.tick_spec alarm timer RandomNumber random_nonneg Other system (fun w => calm (others w)) (Yield RandomNumber Other f) K1 xs p) as
    (K2 & ys & q & Hag2 & Ht2 & Hl2 & Hh2 & Hy2 & Htm2 & Hsy2 & Hcalm2 & Hm2 & Hcase); try done.
  { by apply (timed_same K). }
  { cbn. by rewrite Hst. }
  cbn [K1 Interrupt.with_machine Interrupt.interrupt Interrupt.rest Interrupt.machine] in *. rewrite Hst in Ht2, Hcase.
  rewrite (decide_False (P := Interrupt.UserMode = Interrupt.SystemMode)) in Ht2, Hcase by done.
  change (Interrupt.ticks K1) with (ticks K) in *. unfold Stats.UserTick in *. rewrite decide_False in Hcase by lia.
  destruct Hcase as (-> & Hst2 & E). unfold device. rewrite E. cbn [mbind res_bind].
  destruct (settle_worked m' _ _ Hw1 Hm2) as (m2 & a & Hm2' & [Hwf2 _ _ Hsh2 Hv2 Ho2] & Ha & Hs2).
  assert (whole K2 m2 = with_machine (with_machine (whole K m) m') m2) as Hwh by (unfold whole; by rewrite Hsy2, Hl2, Hl).
  exists K2, m2, ([(currentThread (whole K m), Instr)] ++ a). rewrite Hwh. split; [done |]. split.
  - split; rewrite ?Hwh, ?Htm2; try done. by exists ys.
  - split_and!; [done | done | done | by eapply shared_trans |]. apply (paced_app _ 1 0); [apply paced_instr | by eapply paced_settles].
Qed.

(** The tick on the way out of [Yield], in system mode, with the timer just set. *)
Lemma tick_out f K xs q m : Timer.timed alarm K xs [q] -> Interrupt.machine K = Some m -> wf m -> Interrupt.inHandler (Interrupt.interrupt K) = false ->
  Interrupt.yieldOnReturn (Interrupt.interrupt K) = false -> Interrupt.status (Interrupt.interrupt K) = Interrupt.SystemMode ->
  Interrupt.level (Interrupt.interrupt K) = Interrupt.IntOff ->
  Timer.disable (timer (Interrupt.rest K)) = false -> Timer.randomize (timer (Interrupt.rest K)) = false ->
  calm (others (Interrupt.rest K)) -> ticks K + 10 < Interrupt.when_ q ->
  exists K' ys, Interrupt.SetLevel (device RandomNumber Other) (Yield RandomNumber Other f) K Interrupt.IntOn = Ok (Interrupt.IntOff, K') /\
    Timer.timed alarm K' ys [q] /\ ticks K' = ticks K + 10 /\ Interrupt.level (Interrupt.interrupt K') = Interrupt.IntOn /\
    Interrupt.inHandler (Interrupt.interrupt K') = false /\ Interrupt.yieldOnReturn (Interrupt.interrupt K') = false /\
    timer (Interrupt.rest K') = timer (Interrupt.rest K) /\ system (Interrupt.rest K') = system (Interrupt.rest K) /\
    calm (others (Interrupt.rest K')) /\ (Interrupt.machine K' = Some m \/ Interrupt.settled (Some m) = Ok (Interrupt.machine K')).
Proof.
  intros Hag Hm Hwf Hh Hy Hst Hl Hen Hper Hcalm Hlt. unfold Interrupt.SetLevel. rewrite Hh, Hl. cbn [negb].
  rewrite orb_true_r. cbn [ASSERT mbind res_bind]. rewrite !bool_decide_true by done. cbn [andb].
  set (K1 := Interrupt.ChangeLevel K Interrupt.IntOn).
  assert (Interrupt.machine_ok K1) as Hmo by (unfold Interrupt.machine_ok; cbn; by rewrite Hm).
  destruct (Timer.tick_spec alarm timer RandomNumber random_nonneg Other system (fun w => calm (others w)) (Yield RandomNumber Other f) K1 xs q) as
    (K2 & ys & q2 & Hag2 & Ht2 & Hl2 & Hh2 & Hy2 & Htm2 & Hsy2 & Hcalm2 & Hm2 & Hcase); try done.
  { by apply (timed_same K). }
  { cbn. by rewrite Hst. }
  cbn [K1 Interrupt.ChangeLevel Interrupt.with_interrupt Interrupt.set_level Interrupt.interrupt Interrupt.rest Interrupt.machine Interrupt.status] in *.
  rewrite Hst in Ht2, Hcase. rewrite (decide_True (P := Interrupt.SystemMode = Interrupt.SystemMode)) in Ht2, Hcase by done.
  change (Interrupt.ticks K1) with (ticks K) in *. unfold Stats.SystemTick in *. rewrite decide_False in Hcase by lia.
  destruct Hcase as (-> & _ & E). unfold device. rewrite E. cbn [mbind res_bind]. rewrite Hm in Hm2. exists K2, ys. by split_and!.
Qed.

(** [Yield] and the tick of its [SetLevel], from where the handlers of a tick left. *)
Lemma yield_out f K xs q m n l : Timer.timed alarm K xs [q] -> Interrupt.machine K = Some m -> worked m (whole K m) ->
  Interrupt.inHandler (Interrupt.interrupt K) = false -> Interrupt.yieldOnReturn (Interrupt.interrupt K) = false ->
  Interrupt.status (Interrupt.interrupt K) = Interrupt.SystemMode ->
  Timer.disable (timer (Interrupt.rest K)) = false -> Timer.randomize (timer (Interrupt.rest K)) = false ->
  calm (others (Interrupt.rest K)) -> ticks K + 10 < Interrupt.when_ q ->
  readyList (whole K m) ++ [currentThread (whole K m)] = n :: l ->
  exists K' m2 tr, Yield RandomNumber Other (S f) K = Ok K' /\ at_work calm (Interrupt.setStatus K' Interrupt.UserMode) q m2 /\
    ticks K' = ticks K + 10 /\ currentThread (whole K' m2) = n /\ readyList (whole K' m2) = l /\
    shared fresh (whole K m) tr (whole K' m2) /\ settles n tr.
Proof.
  intros Hag Hm Hw Hh Hy Hst Hen Hper Hcalm Hlt Hnl. pose proof Hw as [Hwf Hmk Hlv Hsh Hv Ho].
  destruct (Yield_clocked fresh Hfresh (whole K m) n l Hsh Ho Hlv Hnl) as (k' & k2 & HY & Hout & [Cl Cc Cr Cp Cs Ct]).
  cbn [Yield]. rewrite Hm. cbn [deref mbind res_bind]. rewrite HY. cbn [mbind res_bind]. rewrite Hout. cbn [mbind res_bind].
  set (k3 := with_level k2 Interrupt.IntOn) in *.
  assert (worked (machine k2) k3) as Hw3.
  { pose proof (shared_sharing fresh Hfresh _ _ k3 Hsh Ct) as Hsh3. assert (wf_programs k3) as Hv3 by exact (seen_wf _ k2 Cs Hv).
    split; try done. by apply (current_wf k3). }
  destruct (tick_out f (put K k2) xs q (machine k2)) as (K3 & ys & -> & Hag3 & Ht3 & Hl3 & Hh3 & Hy3 & Htm3 & Hsy3 & Hcalm3 & Hm3); try done.
  { by apply (timed_same K). }
  { by apply (wk_wf _ _ Hw3). }
  cbn [mbind res_bind]. destruct (settle_worked _ _ _ Hw3 Hm3) as (m3 & a & Hm3' & [Hwf4 _ _ Hsh4 Hv4 Ho4] & Ha & Hs4).
  assert (whole K3 m3 = with_machine k3 m3) as Hwh by (unfold whole; by rewrite Hsy3, Hl3).
  exists K3, m3, a. split; [done |]. change (whole (Interrupt.setStatus K3 Interrupt.UserMode) m3) with (whole K3 m3).
  split; [| rewrite Hwh; split_and!; [exact Ht3 | exact Cc | exact Cr | by eapply (shared_trans fresh _ []) | by rewrite <- Cc]].
  change (whole K3 m3 = with_machine k3 m3) in Hwh.
  split; cbn [Interrupt.setStatus Interrupt.with_interrupt Interrupt.set_status Interrupt.interrupt Interrupt.rest Interrupt.machine
    Interrupt.inHandler Interrupt.yieldOnReturn Interrupt.status Interrupt.level]; rewrite ?Htm3; try done.
  - exists ys. by apply (timed_same K3).
  - change (sharing (whole K3 m3)). by rewrite Hwh.
  - change (wf_programs (whole K3 m3)). by rewrite Hwh.
  - change (only_programs (whole K3 m3)). by rewrite Hwh.
Qed.

(** An instruction after which the timer is due: the next program takes over. *)
Lemma turn_due f K p m m' n l : at_work calm K p m -> OneInstruction m = Ok (Done tt m') -> ticks K + 1 = Interrupt.when_ p ->
  readyList (whole K m) ++ [currentThread (whole K m)] = n :: l ->
  exists K' q m2 tr, turn RandomNumber Other (S f) K = Ok (Going K') /\ at_work calm K' q m2 /\
    currentThread (whole K' m2) = n /\ readyList (whole K' m2) = l /\
    ticks K' = Interrupt.when_ p + 10 /\ Interrupt.when_ q = ticks K' + 90 /\
    shared fresh (whole K m) tr (whole K' m2) /\ paced (currentThread (whole K m)) 1 tr.
Proof.
  intros Hw HI Hdue Hnl. destruct (instruction_worked m (whole K m) m' (work_worked K p m Hw) HI) as [Hw1 Hs1].
  destruct Hw as [[xs Hag] Hh Hy Hst Hl Hen Hper Hcalm Hm _ _ _ _]. unfold turn. rewrite Hm. cbn [deref mbind res_bind]. rewrite HI. cbn [mbind res_bind].
  set (K1 := Interrupt.with_machine K (Some m')).
  assert (Interrupt.machine_ok K1) as Hmo by (unfold Interrupt.machine_ok; cbn; by apply (wk_wf m' _ Hw1)).
  destruct (Timer.tick_spec alarm timer RandomNumber random_nonneg Other system (fun w => calm (others w)) (Yield RandomNumber Other (S f)) K1 xs p) as
    (K2 & ys & q & Hag2 & Ht2 & Hl2 & Hh2 & Hy2 & Htm2 & Hsy2 & Hcalm2 & _ & Hcase); try done.
  { by apply (timed_same K). }
  { cbn. by rewrite Hst. }
  cbn [K1 Interrupt.with_machine Interrupt.interrupt Interrupt.rest Interrupt.machine] in *. rewrite Hst in Ht2, Hcase.
  rewrite (decide_False (P := Interrupt.UserMode = Interrupt.SystemMode)) in Ht2, Hcase by done.
  change (Interrupt.ticks K1) with (ticks K) in *. unfold Stats.UserTick, Stats.TimerTicks in *. rewrite decide_True in Hcase by lia.
  destruct Hcase as (Hset & Hq & Hst2 & E). unfold device. rewrite E. clear E.
  destruct (settle_worked m' _ _ Hw1 (or_intror Hset)) as (m2 & a & Hm2 & Hw2 & Ha & Hs2).
  assert (whole K2 m2 = with_machine (with_machine (whole K m) m') m2) as Hwh by (unfold whole; by rewrite Hsy2, Hl2, Hl).
  rewrite <- Hwh in Hw2, Hs2.
  destruct (yield_out f K2 ys q m2 n l Hag2 Hm2 Hw2 Hh2 Hy2 Hst2) as (K3 & m3 & b & -> & Hw3 & Ht3 & Hc3 & Hr3 & Hs3 & Hb); rewrite ?Htm2; try done.
  { lia. }
  { by rewrite Hwh. }
  cbn [mbind res_bind]. exists (Interrupt.setStatus K3 Interrupt.UserMode), q, m3, (([(currentThread (whole K m), Instr)] ++ a) ++ b).
  change (ticks (Interrupt.setStatus K3 Interrupt.UserMode)) with (ticks K3).
  split_and!; [done | done | exact Hc3 | exact Hr3 | lia | lia | |].
  - eapply shared_trans; [by eapply shared_trans | exact Hs3].
  - apply (paced_app _ 1 0); [apply (paced_app _ 1 0); [apply paced_instr |] |]; by eapply paced_settles.
Qed.

(** How the current program leaves the processor to the kernel before the clock does, after
    [i] instructions: by an exception, or by the one division that ends the
    simulator. *)
Definition left_early f d K p m (i : nat) : Prop :=
  exists K1 m1 tr, at_work calm K1 p m1 /\ ticks K1 = ticks K + Z.of_nat i /\
    currentThread (whole K1 m1) = currentThread (whole K m) /\ readyList (whole K1 m1) = readyList (whole K m) /\
    shared fresh (whole K m) tr (whole K1 m1) /\ paced (currentThread (whole K m)) i tr /\
    ((exists which m2, OneInstruction m1 = Ok (Trap which m2) /\
        loop RandomNumber Other f d K = Ok (Entered which (Interrupt.setStatus (Interrupt.with_machine K1 (Some m2)) Interrupt.SystemMode))) \/
     (exists j, fetched m1 = Some j /\ div_overflow m1 j /\ loop RandomNumber Other f d K = Fault ArithFault)).

(** C5: programs take turns.  Take the processor at work: the thread that runs and those
    that are ready are in user programs, each with frames of its own, the ready ones
    switched out by the clock; any number of threads may wait for semaphores, with or without a program; the timer is
    periodic and due in [d] ticks; and the other devices, however many interrupts they
    have pending, have nothing to deliver: their handlers ask for the next poll.  Then
    the loop of [Machine::Run] does one of two things.  Either the current program
    executes exactly [d] instructions, no more and no less, before the clock takes the
    processor away: after them the first program of the ready list runs, the current
    one is at its end, ten ticks of system time have passed on the way, the timer
    is due after ninety instructions of the new program, and everything is in order for
    it to execute them.  Or the program leaves the loop before that, after
    [i] instructions, by an exception (a system call, say), or by the division that
    the host cannot do.  What happened to the programs is a run of TimeSharing.v:
    these instructions of the current one, and completions of pending loads. *)
Theorem programs_take_turns f K p m (d : nat) n l : at_work calm K p m -> (0 < d)%nat -> ticks K + Z.of_nat d = Interrupt.when_ p ->
  readyList (whole K m) ++ [currentThread (whole K m)] = n :: l ->
  (exists K' q m2 tr, loop RandomNumber Other (S f) d K = Ok (Going K') /\ at_work calm K' q m2 /\
     currentThread (whole K' m2) = n /\ readyList (whole K' m2) = l /\
     ticks K' = Interrupt.when_ p + 10 /\ Interrupt.when_ q = ticks K' + 90 /\
     shared fresh (whole K m) tr (whole K' m2) /\ paced (currentThread (whole K m)) d tr) \/
  (exists i, (i < d)%nat /\ left_early (S f) d K p m i).
Proof.
  revert K m. induction d as [| d IH]; intros K m Hw Hd Hdue Hnl; [lia |].
  pose proof (OneInstruction_wf m (aw_wf _ _ _ _ Hw)) as HI. unfold left_early. cbn [loop]. destruct (OneInstruction m) as [[[] m1 | w m1] | e] eqn:EI.
  - destruct d as [| d].
    + destruct (turn_due f K p m m1 n l Hw EI ltac:(lia) Hnl) as (K' & q & m2 & tr & -> & Hall). left. by exists K', q, m2, tr.
    + destruct (turn_early (S f) K p m m1 Hw EI ltac:(lia)) as (K1 & m2 & tr & -> & Hw1 & Ht1 & Hc1 & Hr1 & Hs1 & Hp1). cbn [mbind res_bind].
      rewrite <- Hc1, <- Hr1 in Hnl. destruct (IH K1 m2 Hw1 ltac:(lia) ltac:(lia) Hnl) as [Hgo | (i & Hi & Hleft)]; [left | right].
      * destruct Hgo as (K' & q & m3 & tr' & HR & Hw' & Hc & Hr & Ht & Hq & Hs & Hp). exists K', q, m3, (tr ++ tr'). rewrite Hc1 in Hp.
        split_and!; try done; [by eapply shared_trans | by apply (paced_app _ 1 (S d))].
      * destruct Hleft as (K2 & m3 & tr' & Hw2 & Ht2 & Hc2 & Hr2 & Hs2 & Hp2 & Hend). exists (S i). split; [lia |].
        exists K2, m3, (tr ++ tr'). rewrite Hc1 in Hp2.
        split_and!; [done | lia | congruence | congruence | by eapply shared_trans | by apply (paced_app _ 1 i) | exact Hend].
  - right. exists 0%nat. split; [lia |]. exists K, m, []. split_and!; [done | lia | done | done | constructor | by split |]. left.
    exists w, m1. split; [done |]. unfold turn. rewrite (aw_machine _ _ _ _ Hw). cbn [deref mbind res_bind]. by rewrite EI.
  - right. exists 0%nat. split; [lia |]. exists K, m, []. split_and!; [done | lia | done | done | constructor | by split |]. right.
    destruct HI as [-> (j & Hj & Hdo)]. exists j. split_and!; [done | done |].
    unfold turn. rewrite (aw_machine _ _ _ _ Hw). cbn [deref mbind res_bind]. by rewrite EI.
Qed.
End clock.
End devices.
End TimeSlices.

(** ** Two programs that count, next to a thread that waits *)
Module TimeSlicesDemo.
Import Machine Threads Sched TimeSharing TimeSharingDemo TimeSlices.

(** The devices that poll, as Kernel::Initialize makes them. *)
Inductive object : Set := Alarm | Keyboard | NetworkIn.
#[global] Instance object_eq_dec : EqDecision object.
Proof. solve_decision. Defined.
Record D := mkD { keyboard : ConsoleInput.t; network : NetworkInput.t }.
Notation sim := (Interrupt.kernel object (@W D)).

(** [callWhenAvail->CallBack()] is [V] of a semaphore of the kernel. *)
Fixpoint asks (o : object) (l : list (Z * Interrupt.IntType)) (K : sim) : res sim :=
  match l with
  | [] => Ok K
  | (w, ty) :: l => K ← Interrupt.Schedule K o (w - Interrupt.ticks K) ty; asks o l K
  end.
Definition handled (o : object) (s : nat) (d : D) (b : Bus.t) (avail : bool) (K : sim) : res sim :=
  let w := Interrupt.rest K in
  K ← asks o (Bus.asked b) (Interrupt.with_rest (Interrupt.with_stats K (Bus.stats b)) (mkW (timer w) (system w) d));
  if avail : bool then
    let w := Interrupt.rest K in
    k ← V (system w) s; Ok (Interrupt.with_rest K (mkW (timer w) k (others w)))
  else Ok K.
Definition other (o : object) (K : sim) : res sim :=
  let d := others (Interrupt.rest K) in
  let b := Bus.mk (Interrupt.stats K) [] in
  match o with
  | Alarm => Ok K
  | Keyboard =>
      '(c, b, avail) ← ConsoleInput.CallBack (negb (bool_decide (ConsoleInput.readFile (keyboard d) = []))) (keyboard d) b;
      handled Keyboard 1 (mkD c (network d)) b avail K
  | NetworkIn =>
      '(n, b, avail) ← NetworkInput.CallBack 0 (network d) b;
      handled NetworkIn 0 (mkD (keyboard d) n) b avail K
  end.

(** Nothing is typed, and no packet comes. *)
Definition calm (d : D) : Prop :=
  ConsoleInput.incoming (keyboard d) = EOF /\ ConsoleInput.readFile (keyboard d) = [] /\ NetworkInput.socket (network d) = [].

Lemma poll o s d b K xs fromNow ty : o <> Alarm -> calm d -> 0 < fromNow -> Interrupt.agenda K xs ->
  Bus.stats b = Interrupt.stats K -> Bus.asked b = [(Interrupt.ticks K + fromNow, ty)] ->
  exists K' xs' new, handled o s d b false K = Ok K' /\ Interrupt.agenda K' xs' /\
    Timer.undisturbed timer system (fun w => calm (others w)) K K' /\
    Interrupt.yieldOnReturn (Interrupt.interrupt K') = Interrupt.yieldOnReturn (Interrupt.interrupt K) /\ xs' ≡ₚ new ++ xs /\
    Forall (fun q => Interrupt.ticks K < Interrupt.when_ q /\ exists o', Interrupt.callOnInterrupt q = Some o' /\ o' <> Alarm) new.
Proof.
  intros Ho Hd Hpos Ha Hst Hq. unfold handled. rewrite Hst, Hq. cbn [asks].
  set (K1 := Interrupt.with_rest _ _). change (Interrupt.ticks K1) with (Interrupt.ticks K).
  replace (Interrupt.ticks K + fromNow - Interrupt.ticks K) with fromNow by lia.
  assert (Interrupt.agenda K1 xs) as Ha1 by (destruct Ha; by split).
  destruct (Interrupt.Schedule_spec K1 xs o fromNow ty Ha1 Hpos) as (K' & -> & Ha' & Hs & Hm & Hr & Hl & Hi & Hy & Hss). cbn [mbind res_bind].
  eexists K', _, [_]. split; [done |]. split; [exact Ha' |]. split; [| split; [exact Hy |]; split; [apply Lists.CList.insert_sorted_perm |]].
  - split; rewrite ?Hr; try done. unfold Interrupt.ticks. by rewrite Hs.
  - apply Forall_singleton. split; [cbn; change (Interrupt.ticks K1) with (Interrupt.ticks K); lia | by exists o].
Qed.

#[global] Instance other_quiet : Timer.Quiet Alarm timer other system (fun w => calm (others w)).
Proof.
  intros o K xs Ho Hd Ha Hl Hi. pose proof Hd as (He & Hf & Hs). unfold other. destruct o; [done | |].
  - unfold ConsoleInput.CallBack, Bus.Schedule. rewrite He, Hf, (bool_decide_true (@nil Z = [])) by done.
    change (ASSERT (EOF =? EOF)) with (Ok tt). change (ASSERT (0 <? Stats.ConsoleTime)) with (Ok tt). cbn [mbind res_bind negb].
    by eapply (poll Keyboard 1 _ _ K xs Stats.ConsoleTime).
  - unfold NetworkInput.CallBack, Bus.Schedule. rewrite Hs. change (ASSERT (0 <? Stats.NetworkTime)) with (Ok tt). cbn [mbind res_bind].
    destruct (negb _); cbn [mbind res_bind]; by eapply (poll NetworkIn 0 _ _ K xs Stats.NetworkTime).
Qed.

(** [addiu r8, r8, 5; j 0; nop], and with 7.  The thread between waits for a packet. *)
Definition counter (n : Z) : list Z := concat (le_split 4 <$> [0x25080000 + n; 0x08000000; 0]) ++ replicate 116 0.
Definition machine_at (f : Z) : Machine.t :=
  AddrSpace.RestoreState (one_page f) (Machine.mk (<[35%nat := 4]> (replicate 40 0))
    (counter 5 ++ counter 7 ++ replicate (Z.to_nat (126 * 128)) 0) None None 0).
Definition program : list instr := [Call_Fork [Call_P 0]; Call_Fork [Set_Space (one_page 1)]; Set_Space (one_page 0)].
Definition boot : Threads.kernel := Initialize SchedDemo.fresh (machine_at 0) program [new_Semaphore 0; new_Semaphore 0] [].
Definition start_of (o : option Threads.kernel) : Threads.kernel := default boot o.
Definition events : list event :=
  [Exec; Exec; Exec; TimeSlice; Exec; Exec; Exec; Exec; Exec; Exec; User (machine_at 1)].
Definition k_work : Threads.kernel := start_of (SchedDemo.run boot events).

Definition no_random (w : @W D) : Z * @W D := (0, w).
Lemma no_random_nonneg w : 0 <= fst (no_random w).
Proof. done. Qed.

(** The timer starts ticking now; the keyboard is asked for its next poll, and the
    network too. *)
Definition hardware : Interrupt.t object := Interrupt.mk Interrupt.IntOn Lists.CList.create false false Interrupt.UserMode 0.
Definition K_boot : sim := Interrupt.mkKernel hardware Stats.create (Some (machine k_work))
  (mkW (Timer.mk false false) k_work (mkD (ConsoleInput.mk [] EOF) (NetworkInput.mk (Wire.mkPacketHeader 0 0 0) [] []))).
Definition start : res sim :=
  K ← Timer.SetInterrupt Alarm timer no_random K_boot;
  K ← Interrupt.Schedule K Keyboard Stats.ConsoleTime Interrupt.ConsoleReadInt;
  Interrupt.Schedule K NetworkIn 40 Interrupt.NetworkRecvInt.

Lemma work_queue : readyList k_work = [0%nat] /\ currentThread k_work = 2%nat.
Proof. vm_compute. done. Qed.
Definition k_threads : list (option Thread) := Eval vm_compute in threads k_work.
Definition k_registers : list Z := Eval vm_compute in registers (machine k_work).
Lemma work_threads : threads k_work = k_threads.
Proof. vm_compute. reflexivity. Qed.
Lemma work_registers : registers (machine k_work) = k_registers.
Proof. vm_compute. reflexivity. Qed.
Lemma work_memory : mainMemory (machine k_work) = counter 5 ++ counter 7 ++ replicate (Z.to_nat (126 * 128)) 0.
Proof. vm_compute. reflexivity. Qed.
Lemma work_tables : tlb (machine k_work) = None /\ pageTable (machine k_work) = AddrSpace.pageTable (one_page 1) /\ pageTableSize (machine k_work) = 1.
Proof. by vm_compute. Qed.

(** The thread that waits has no program. *)
Lemma work_waits : exists th, alive k_work 1 th /\ status th = BLOCKED /\ space th = None.
Proof. unfold alive. rewrite work_threads. eexists. split; [reflexivity |]. by vm_compute. Qed.

Definition frame_of (t : nat) : nat := match t with 0%nat => 0%nat | _ => 1%nat end.
Lemma work_thread t th : alive k_work t th -> t = 1%nat /\ space th = None \/
  (t = 0%nat \/ t = 2%nat) /\ space th = Some (one_page (Z.of_nat (frame_of t))) /\
  length (userRegisters th) = 40%nat /\ Forall is_s32 (userRegisters th) /\ (exists r, userRegisters th !! 37%nat = Some r /\ 0 <= r < NumGPRegs) /\
  (t = 0%nat -> code th = [Set_Level Interrupt.IntOn]).
Proof.
  unfold alive. rewrite work_threads. destruct t as [| [| [| t]]]; intros [= <-]; [right | by left | right];
    (split_and!; [by (left + right) | done | done | | by eexists | done]); apply (bool_decide_unpack _); vm_compute; reflexivity.
Qed.

Lemma boot_starts : starts SchedDemo.fresh (machine_at 0) program [new_Semaphore 0; new_Semaphore 0] [].
Proof. split; [done | done | | by repeat constructor | constructor]; repeat (apply Forall_cons; split); try apply Forall_nil; done. Qed.

Lemma work_sharing : sharing k_work.
Proof.
  destruct work_tables as (Ht & Hp & Hn). split.
  - apply (reaches_good SchedDemo.fresh boot); [done | by apply Initialize_good, boot_starts |].
    apply (SchedDemo.run_reaches boot boot events); [by repeat constructor | constructor |].
    unfold k_work. destruct (SchedDemo.run boot _) eqn:E; [done | by vm_compute in E].
  - exact Ht.
  - intros th sp Ha Hsp. rewrite (proj2 work_queue) in Ha. destruct (work_thread _ _ Ha) as [[? _] | (_ & Hs & _)]; [done |]. rewrite Hsp in Hs.
    injection Hs as ->. split; [| exact Hn]. unfold UserMode.pages, view. cbn [pageTable]. by rewrite Hp.
  - intros t u th uh sp uq f Ht0 Hu Hne Hst Hsu Hf Hf2. destruct (work_thread _ _ Ht0) as [[_ E1] | (? & E1 & _)], (work_thread _ _ Hu) as [[_ E2] | (? & E2 & _)]; try congruence.
    rewrite E1 in Hst. rewrite E2 in Hsu. injection Hst as <-. injection Hsu as <-.
    apply one_page_frame in Hf; [| unfold frame_of; destruct t; lia]. apply one_page_frame in Hf2; [| unfold frame_of; destruct u; lia].
    destruct H as [-> | ->], H0 as [-> | ->]; cbn in Hf, Hf2; lia.
Qed.

#[local] Opaque k_work.

Lemma work_views : wf_programs k_work.
Proof.
  destruct work_tables as (Ht & _ & _). intros t th sp Ha Hsp. destruct (work_thread t th Ha) as [[_ E] | (_ & Hs & Hl & Hr & Hload & _)]; [congruence |].
  rewrite Hsp in Hs. injection Hs as ->.
  assert (length (mainMemory (machine k_work)) = Z.to_nat MemorySize /\ Forall is_byte (mainMemory (machine k_work))) as [Hm Hb].
  { rewrite work_memory. split; [by vm_compute |]. repeat apply Forall_app_2; [apply (bool_decide_unpack _); vm_compute; reflexivity.. |].
    apply Forall_replicate. by apply (bool_decide_unpack _). }
  split; cbn [view registers mainMemory]; [| | | exact Hm | exact Hb |].
  - case_decide; [rewrite work_registers; reflexivity | exact Hl].
  - case_decide; [rewrite work_registers; apply (bool_decide_unpack _); vm_compute; reflexivity | exact Hr].
  - case_decide; [rewrite work_registers; exists 0; split; [reflexivity | split; [discriminate | reflexivity]] | exact Hload].
  - unfold table_wf. cbn [view tlb pageTable pageTableSize]. by rewrite Ht.
Qed.

Lemma work_programs : only_programs k_work.
Proof.
  destruct work_queue as [Hr Hc]. intros t th Ha. rewrite Hr, Hc, list_elem_of_singleton.
  destruct (work_thread t th Ha) as [[-> _] | (_ & Hs & _ & _ & _ & Hcode)]; [by intros [? | ?] |]. intros _.
  split; [by eexists |]. intros ->. exists []. by apply Hcode.
Qed.

Lemma work_wf : wf (machine k_work).
Proof. apply current_wf; [apply work_sharing | apply work_programs | apply work_views]. Qed.

Lemma whole_same (K : sim) k : system (Interrupt.rest K) = k ->
  Interrupt.level (Interrupt.interrupt K) = level k -> whole K (machine k) = k.
Proof. intros Hr Hl. unfold whole. rewrite Hr, Hl. by destruct k. Qed.

(** The timer is due in 100 ticks. *)
Lemma starts_working : exists K p, start = Ok K /\ at_work Alarm calm K p (machine k_work) /\
  Interrupt.when_ p = 100 /\ Interrupt.ticks K = 0 /\ whole K (machine k_work) = k_work.
Proof.
  assert (Interrupt.agenda K_boot []) as Ha by (split; [apply Lists.CList.rep_create | constructor..]).
  destruct (Timer.SetInterrupt_spec Alarm timer no_random no_random_nonneg K_boot [] Ha) as (K1 & E1 & Hs1 & Hm1 & Hr1 & Hl1 & Hi1 & Hy1 & Hst1 & Hq).
  cbn [K_boot Interrupt.rest timer Timer.disable Timer.randomize Interrupt.machine Interrupt.interrupt hardware] in Hm1, Hr1, Hl1, Hi1, Hy1, Hst1, Hq.
  specialize (Hr1 (or_intror eq_refl)). destruct Hq as (p & Ha1 & Hobj & _ & Hw).
  destruct (Interrupt.Schedule_spec K1 _ Keyboard Stats.ConsoleTime Interrupt.ConsoleReadInt Ha1 eq_refl) as (K2 & E2 & Ha2 & Hs2 & Hm2 & Hr2 & Hl2 & Hi2 & Hy2 & Hst2).
  destruct (Interrupt.Schedule_spec K2 _ NetworkIn 40 Interrupt.NetworkRecvInt Ha2 eq_refl) as (K3 & E3 & Ha3 & Hs3 & Hm3 & Hr3 & Hl3 & Hi3 & Hy3 & Hst3).
  set (xs := Lists.ListSpec.insert_sorted _ _ (Lists.ListSpec.insert_sorted _ _ _)) in Ha3.
  assert (xs ≡ₚ [Interrupt.mkPending (Interrupt.brk (Interrupt.interrupt K2)) (Some NetworkIn) None (Interrupt.ticks K2 + 40) Interrupt.NetworkRecvInt;
    Interrupt.mkPending (Interrupt.brk (Interrupt.interrupt K1)) (Some Keyboard) None (Interrupt.ticks K1 + Stats.ConsoleTime) Interrupt.ConsoleReadInt; p]) as Hxs
    by (unfold xs; by rewrite !Lists.CList.insert_sorted_perm).
  assert (whole K3 (machine k_work) = k_work) as Hwh.
  { apply whole_same; [by rewrite Hr3, Hr2, Hr1 | rewrite Hl3, Hl2, Hl1; symmetry; vm_compute; reflexivity]. }
  exists K3, p. unfold start. rewrite E1. cbn [mbind res_bind]. rewrite E2. cbn [mbind res_bind].
  split; [exact E3 |]. split; [| split; [rewrite Hw by reflexivity; reflexivity | split; [unfold Interrupt.ticks; by rewrite Hs3, Hs2, Hs1 | exact Hwh]]].
  split; rewrite ?Hwh, ?Hr3, ?Hr2, ?Hr1, ?Hl3, ?Hl2, ?Hl1, ?Hi3, ?Hi2, ?Hi1, ?Hy3, ?Hy2, ?Hy1, ?Hst3, ?Hst2, ?Hst1, ?Hm3, ?Hm2, ?Hm1; try reflexivity;
    [| by split_and! | apply work_wf | apply work_sharing | apply work_views | apply work_programs].
  exists xs. split; [exact Ha3 | |].
  - rewrite Hxs. apply Forall_cons; split; [by exists NetworkIn |]. apply Forall_cons; split; [by exists Keyboard |]. apply Forall_singleton. by exists Alarm.
  - apply Permutation_singleton_r. unfold Timer.of_timer. rewrite Hxs. clear - Hobj. rewrite !filter_cons_False by (cbn; congruence). rewrite filter_cons_True by exact Hobj. reflexivity.
Qed.

(** The second program executes a hundred instructions, then the first one runs; the
    network is polled after forty, the keyboard after a hundred. *)
Definition going {Obj D} (r : res (@stopped Obj D)) : bool := match r with Ok (Going _) => true | _ => false end.
#[local] Transparent k_work.
Lemma work_goes : going (K ← start; loop Alarm no_random other 1 100 K) = true.
Proof. vm_compute. reflexivity. Qed.
#[local] Opaque k_work.

Lemma programs_take_turns_witness : exists K K' q m2, start = Ok K /\
  loop Alarm no_random other 1 100 K = Ok (Going K') /\ at_work Alarm calm K' q m2 /\ currentThread (whole K' m2) = 0%nat /\
  Interrupt.ticks K' = 110 /\ Interrupt.when_ q = 200.
Proof.
  destruct starts_working as (K & p & E & Hw & Hp & Ht & Hwh). pose proof work_goes as Hgo. rewrite E in Hgo. cbn [mbind res_bind] in Hgo.
  destruct (programs_take_turns Alarm no_random no_random_nonneg other calm other_quiet SchedDemo.fresh eq_refl 0 K p (machine k_work) 100 0%nat [2%nat] Hw)
    as [(K' & q & m2 & tr & HR & Hw' & Hc & _ & Ht' & Hq & _) | (i & _ & K1 & m1 & tr & _ & _ & _ & _ & _ & _ & [(w & m2 & _ & HR) | (j & _ & _ & HR)])].
  - lia.
  - rewrite Ht, Hp. lia.
  - rewrite Hwh, (proj1 work_queue), (proj2 work_queue). reflexivity.
  - exists K, K', q, m2. rewrite Hp in Ht'. rewrite Ht' in Hq. exact (conj E (conj HR (conj Hw' (conj Hc (conj Ht' Hq))))).
  - rewrite HR in Hgo. discriminate Hgo.
  - rewrite HR in Hgo. discriminate Hgo.
Defined.
End TimeSlicesDemo.
