(* ===== verification/Post.v ===== *)
(** * Post: network/post.h, post.cc

    The post office: mail boxes, each a synchronised list of messages (Monitor.v),
    a postal worker that delivers what the network brings, and the sender.  An
    operation of a box is one of its synchronised list, lifted to the state of the
    whole office. *)

From S2P Require Import Prelude Lists Stats Interrupt Devices Procs Monitor Network.

(** ** Messages *)

Module Mail.
Import Wire.

(** [data]: the bytes that were copied in. *)
Record t := mk {
  pktHdr : PacketHeader;
  mailHdr : MailHeader;
  data : list Z;
}.

(** [new Mail(pktH, mailH, msgData)] *)
Definition create (pktH : PacketHeader) (mailH : MailHeader) (msgData : list Z) : res t :=
  _ ← ASSERT (mail_length mailH <=? MaxMailSize);
  bs ← bcopy_from msgData 0 (mail_length mailH);
  Ok (mk pktH mailH bs).
End Mail.

(** ** class PostOfficeOutput *)

Module PostOfficeOutput.
Import Bus Wire Procs.

Record t := mk {
  network : NetworkOutput.t;
  sendLock : Z;
  lockHolder : option nat;
  messageSent : Z;
  bus : Bus.t;
}.

Definition with_device (s : t) n b := mk n (sendLock s) (lockHolder s) (messageSent s) b.
Definition with_sendLock (s : t) v := mk (network s) v (lockHolder s) (messageSent s) (bus s).
Definition with_holder (s : t) h := mk (network s) (sendLock s) h (messageSent s) (bus s).
Definition with_messageSent (s : t) v := mk (network s) (sendLock s) (lockHolder s) v (bus s).

Definition create : t := mk NetworkOutput.create 1 None 0 Bus.create.

Inductive semref : Set := SendLock | MessageSent.
Definition get_sem (s : t) (r : semref) : res Z := Ok (match r with SendLock => sendLock s | MessageSent => messageSent s end).
Definition put_sem (s : t) (r : semref) (v : Z) : t :=
  match r with SendLock => with_sendLock s v | MessageSent => with_messageSent s v end.

#[local] Notation proc := (Procs.proc t semref unit Empty_set).
#[local] Notation Acquire := (Procs.Acquire SendLock with_holder).
#[local] Notation Release := (Procs.Release SendLock lockHolder with_holder).

(** A call; [lost] and the two [garbage]s are what the random numbers and the
    new buffers turn out to be. *)
Record call := mkCall {
  pktHdr : PacketHeader;
  mailHdr : MailHeader;
  data : list Z;
  lost : bool;
  garbage : list Z;
  garbage' : list Z;
}.

Section office.
Context (hostName : Z).

(** The header for the network, and the header and the data in one buffer. *)
Definition concatenate (c : call) : res (PacketHeader * list Z) :=
  _ ← ASSERT (mail_length (mailHdr c) <=? MaxMailSize);
  _ ← ASSERT (0 <=? mail_to (mailHdr c));
  let pktHdr := mkPacketHeader (pkt_to (pktHdr c)) hostName (u32 (mail_length (mailHdr c) + sizeof_MailHeader)) in
  buffer ← bcopy_to (garbage c) 0 (mail_bytes (mailHdr c));
  bs ← bcopy_from (data c) 0 (mail_length (mailHdr c));
  buffer ← bcopy_to buffer sizeof_MailHeader bs;
  Ok (pktHdr, buffer).

Definition send_code (me : nat) (c : call) (pktHdr : PacketHeader) (buffer : list Z) : proc :=
  Code (fun s =>
    '(n, b) ← NetworkOutput.Send hostName (lost c) (garbage' c) pktHdr buffer (network s) (bus s);
    Ok (with_device s n b, CallP MessageSent (Release me (Idle tt)))).
Definition Send (me : nat) (c : call) : proc :=
  Code (fun s =>
    '(pktHdr, buffer) ← concatenate c;
    Ok (s, Acquire me (send_code me c pktHdr buffer))).

(** [messageSent->V()] *)
Definition CallBack (s : t) : t := with_messageSent s (messageSent s + 1).

Record interrupt := mkInt { which : nat; now : Z }.
Definition handle (s : t) (b : Bus.t) : t :=
  let '(n, b) := NetworkOutput.CallBack (network s) b in
  CallBack (with_device s n b).
Definition fires (e : interrupt) (s : t) : option (res t) :=
  (fun b => Ok (handle s b)) <$> fire (which e) (now e) (bus s).

#[global] Instance component : Component t semref unit Empty_set call interrupt := {
  sem_value := get_sem;
  set_sem := put_sem;
  turn l := match l with end;
  enter := Send;
  device := fires;
}.
End office.
End PostOfficeOutput.

(** ** class MailBox, class PostOfficeInput *)

Module PostOfficeInput.
Import Bus Wire Procs.

(** [mails]: the messages [Put] made, at their addresses, [None] when deleted. *)
Record t := mk {
  network : NetworkInput.t;
  boxes : list (Monitor.t nat);
  messageAvailable : Z;
  mails : list (option Mail.t);
  bus : Bus.t;
}.

Definition with_network (s : t) n b := mk n (boxes s) (messageAvailable s) (mails s) b.
Definition with_box (s : t) i m := mk (network s) (<[i := m]> (boxes s)) (messageAvailable s) (mails s) (bus s).
Definition with_messageAvailable (s : t) v := mk (network s) (boxes s) v (mails s) (bus s).
Definition with_mails (s : t) l := mk (network s) (boxes s) (messageAvailable s) l (bus s).

Inductive semref : Set := MessageAvailable | BoxSem (box : nat) (r : Monitor.semref).
Definition get_sem (s : t) (r : semref) : res Z :=
  match r with
  | MessageAvailable => Ok (messageAvailable s)
  | BoxSem i r => m ← deref (boxes s !! i); Monitor.get_sem m r
  end.
Definition put_sem (s : t) (r : semref) (v : Z) : t :=
  match r with
  | MessageAvailable => with_messageAvailable s v
  | BoxSem i r => match boxes s !! i with Some m => with_box s i (Monitor.put_sem m r v) | None => s end
  end.

(** The worker's loop, with its buffer, and that of [RemoveFront]. *)
Inductive loop : Set := Deliver (buffer : list Z) | Removing (box : nat).
(** What [Receive] gives *)
Definition received : Type := option (PacketHeader * MailHeader * list Z).
#[local] Notation proc := (Procs.proc t semref received loop).
#[local] Notation mproc := (Procs.proc (Monitor.t nat) Monitor.semref (list nat) unit).

(** [k], an operation of the synchronised list of the box [i], and then [cont]. *)
Fixpoint lift (i : nat) (cont : list nat -> proc) (k : mproc) : proc :=
  match k with
  | Idle got => cont got
  | Code f => Code (fun s =>
      match boxes s !! i with
      | Some m => match f m with Ok (m, k) => Ok (with_box s i m, lift i cont k) | Fault e => Fault e end
      | None => Fault MemoryFault
      end)
  | CallP r k => CallP (BoxSem i r) (lift i cont k)
  | CallV r k => CallV (BoxSem i r) (lift i cont k)
  | Loop _ => Loop (Removing i)
  end.

(** [MailBox::Put] *)
Definition Put (me i : nat) (pktHdr : PacketHeader) (mailHdr : MailHeader) (data : list Z) (cont : list nat -> proc) : proc :=
  Code (fun s =>
    mail ← Mail.create pktHdr mailHdr data;
    let address := length (mails s) in
    Ok (with_mails s (mails s ++ [Some mail]), lift i cont (Monitor.Append me address))).

(** The rest of [MailBox::Get], and of [Receive], with the message at hand. *)
Definition finish (got : list nat) : proc :=
  Code (fun s =>
    address ← deref (head got);
    o ← deref (mails s !! address);
    mail ← deref o;
    let s := with_mails s (<[address := None]> (mails s)) in
    _ ← ASSERT (mail_length (Mail.mailHdr mail) <=? MaxMailSize);
    Ok (s, Idle (Some (Mail.pktHdr mail, Mail.mailHdr mail, Mail.data mail)))).
Definition Get (me i : nat) : proc := lift i finish (Monitor.RemoveFront me).

Definition Receive (me : nat) (box : Z) : proc :=
  Code (fun s =>
    _ ← ASSERT ((box >=? 0) && (box <? Z.of_nat (length (boxes s))));
    Ok (s, Get me (Z.to_nat box))).

(** One turn of [PostalDelivery] *)
Definition deliver (me : nat) (buffer : list Z) : proc :=
  Code (fun s =>
    '(pktHdr, buffer, n) ← NetworkInput.Receive buffer (network s);
    bs ← bcopy_from buffer 0 sizeof_MailHeader;
    let mailHdr := mail_header bs in
    let s := with_network s n (bus s) in
    _ ← ASSERT ((0 <=? mail_to mailHdr) && (mail_to mailHdr <? Z.of_nat (length (boxes s))));
    _ ← ASSERT (mail_length mailHdr <=? MaxMailSize);
    Ok (s, Put me (Z.to_nat (mail_to mailHdr)) pktHdr mailHdr (drop (Z.to_nat sizeof_MailHeader) buffer)
             (fun _ => Loop (Deliver buffer)))).

Definition one_turn (l : loop) (me : nat) (s : t) : res (t * proc) :=
  match l with
  | Deliver buffer => Ok (s, CallP MessageAvailable (deliver me buffer))
  | Removing i =>
      m ← deref (boxes s !! i);
      '(m, k) ← Monitor.remove_turn me m;
      Ok (with_box s i m, lift i finish k)
  end.

(** [messageAvailable->V()] *)
Definition CallBack (s : t) : t := with_messageAvailable s (messageAvailable s + 1).

(** An interrupt of the network device, or a packet that arrives at the socket. *)
Inductive happening : Set := Interrupt (which : nat) (now : Z) | Arrive (packet : list Z).

Section office.
Context (hostName : Z).

Definition handle (s : t) (b : Bus.t) : res t :=
  '(n, b, call) ← NetworkInput.CallBack hostName (network s) b;
  let s := with_network s n b in
  Ok (if (call : bool) then CallBack s else s).
Definition happens (e : happening) (s : t) : option (res t) :=
  match e with
  | Interrupt i now => handle s <$> fire i now (bus s)
  | Arrive packet =>
      let n := network s in
      Some (Ok (with_network s (NetworkInput.mk (NetworkInput.inHdr n) (NetworkInput.inbox n)
                  (NetworkInput.socket n ++ [packet])) (bus s)))
  end.

#[global] Instance component : Component t semref received loop Z happening := {
  sem_value := get_sem;
  set_sem := put_sem;
  turn := one_turn;
  enter := Receive;
  device := happens;
}.

(** [nBoxes] boxes, and the postal worker as the thread 0, with its buffer. *)
Definition create (nBoxes n : nat) (garbage : PacketHeader * list Z) (buffer : list Z) : res (sys t semref received loop) :=
  '(net, b) ← NetworkInput.create garbage Bus.create;
  Ok (mkSys (mk net (replicate nBoxes Monitor.create) 0 [] b) (Loop (Deliver buffer) :: replicate n (Idle None))).
End office.
End PostOfficeInput.
