(* ===== verification/Deliveries.v ===== *)
(** * Deliveries: what is sent arrives

    The round trip of a message through the headers and the network device, and
    the post office as a whole: its boxes keep the invariant of the synchronised
    list (SynchLists.v), of which an operation in one box is a step of that list. *)

From S2P Require Import Prelude Lists Stats Interrupt Devices Procs Monitor SynchLists Network Post.

(** ** Headers and buffers *)

Module Letters.
Import Wire.

Lemma bcopy_from_Ok buf i n : 0 <= i -> 0 <= n -> i + n <= Z.of_nat (length buf) ->
  bcopy_from buf i n = Ok (slice (Z.to_nat i) (Z.to_nat n) buf).
Proof. intros. unfold bcopy_from. by rewrite !(proj2 (Z.leb_le _ _)) by lia. Qed.

Lemma bcopy_to_Ok buf i bs : 0 <= i -> i + Z.of_nat (length bs) <= Z.of_nat (length buf) ->
  bcopy_to buf i bs = Ok (list_inserts (Z.to_nat i) bs buf).
Proof. intros. unfold bcopy_to. by rewrite !(proj2 (Z.leb_le _ _)) by lia. Qed.

Lemma length_words a b c : length (words a b c) = 12%nat.
Proof. unfold words. by rewrite !length_app, !length_le_split. Qed.

(** The three words of a header, at the front of a buffer. *)
Lemma words_back a b c buf : slice 0 12 buf = words a b c -> 0 <= c < 2 ^ 32 ->
  word 0 buf = u32 a /\ word 1 buf = u32 b /\ word 2 buf = c.
Proof.
  intros Hs Hc. assert (forall i, (i < 3)%nat -> slice (4 * i) 4 buf = slice (4 * i) 4 (words a b c)) as Hi.
  { intros i Hi. rewrite <- Hs, slice_slice by lia. done. }
  unfold word. rewrite !Hi by lia. change (4 * 0)%nat with 0%nat. change (4 * 1)%nat with 4%nat. change (4 * 2)%nat with 8%nat. unfold words.
  assert (forall l1 l2 l3 : list Z, length l1 = 4%nat -> length l2 = 4%nat -> length l3 = 4%nat ->
    slice 0 4 (l1 ++ l2 ++ l3) = l1 /\ slice 4 4 (l1 ++ l2 ++ l3) = l2 /\ slice 8 4 (l1 ++ l2 ++ l3) = l3) as Happ.
  { intros l1 l2 l3 E1 E2 E3. unfold slice. rewrite drop_0. split_and!.
    - by rewrite take_app_length'.
    - by rewrite drop_app_length', take_app_length'.
    - rewrite (app_assoc l1 l2), drop_app_length' by (rewrite length_app; lia). by apply take_ge; lia. }
  destruct (Happ (le_split 4 (u32 a)) (le_split 4 (u32 b)) (le_split 4 c)) as (-> & -> & ->); try apply length_le_split.
  rewrite !le_combine_split. change (256 ^ Z.of_nat 4) with (2 ^ 32).
  rewrite !(Z.mod_small _ (2 ^ 32)); try done; apply u32_range.
Qed.

Lemma packet_back h buf : is_s32 (pkt_to h) -> is_s32 (pkt_from h) -> 0 <= pkt_length h < 2 ^ 32 ->
  slice 0 12 buf = packet_bytes h -> packet_header buf = h.
Proof.
  intros Ht Hf Hl Hs. destruct (words_back _ _ _ _ Hs Hl) as (E0 & E1 & E2). unfold packet_header.
  rewrite E0, E1, E2, !s32_u32, !s32_id by done. by destruct h.
Qed.

Lemma mail_back h buf : is_s32 (mail_to h) -> is_s32 (mail_from h) -> 0 <= mail_length h < 2 ^ 32 ->
  slice 0 12 buf = mail_bytes h -> mail_header buf = h.
Proof.
  intros Ht Hf Hl Hs. destruct (words_back _ _ _ _ Hs Hl) as (E0 & E1 & E2). unfold mail_header.
  rewrite E0, E1, E2, !s32_u32, !s32_id by done. by destruct h.
Qed.

(** A call of [Send] with a message that is there, for a box there may be. *)
Record sendable (c : PostOfficeOutput.call) : Prop := {
  sd_to : is_s32 (pkt_to (PostOfficeOutput.pktHdr c));
  sd_box : 0 <= mail_to (PostOfficeOutput.mailHdr c) < 2 ^ 31;
  sd_from : is_s32 (mail_from (PostOfficeOutput.mailHdr c));
  sd_length : 0 <= mail_length (PostOfficeOutput.mailHdr c) <= MaxMailSize;
  sd_data : mail_length (PostOfficeOutput.mailHdr c) <= Z.of_nat (length (PostOfficeOutput.data c));
  sd_garbage : length (PostOfficeOutput.garbage c) = 52%nat;
  sd_garbage' : length (PostOfficeOutput.garbage' c) = 64%nat;
}.

(** A call as the types of C allow it; the buffers are those [Send] and the device
    make.  What such a call is refused with: the two assertions of [Send], or a
    message longer than the bytes there are. *)
Record typed (c : PostOfficeOutput.call) : Prop := {
  ty_to : is_s32 (pkt_to (PostOfficeOutput.pktHdr c));
  ty_box : is_s32 (mail_to (PostOfficeOutput.mailHdr c));
  ty_from : is_s32 (mail_from (PostOfficeOutput.mailHdr c));
  ty_length : is_u32 (mail_length (PostOfficeOutput.mailHdr c));
  ty_garbage : length (PostOfficeOutput.garbage c) = 52%nat;
  ty_garbage' : length (PostOfficeOutput.garbage' c) = 64%nat;
}.
Definition refusal (c : PostOfficeOutput.call) : option fault :=
  let h := PostOfficeOutput.mailHdr c in
  if MaxMailSize <? mail_length h then Some AssertFailure
  else if mail_to h <? 0 then Some AssertFailure
  else if Z.of_nat (length (PostOfficeOutput.data c)) <? mail_length h then Some MemoryFault
  else None.

Lemma typed_sendable c : typed c -> refusal c = None -> sendable c.
Proof.
  intros [Ht Hb Hf Hl Hg Hg']. unfold refusal. destruct (Z.ltb_spec MaxMailSize (mail_length (PostOfficeOutput.mailHdr c))); [done |].
  destruct (Z.ltb_spec (mail_to (PostOfficeOutput.mailHdr c)) 0); [done |]. destruct (Z.ltb_spec (Z.of_nat (length (PostOfficeOutput.data c))) (mail_length (PostOfficeOutput.mailHdr c))); [done |].
  intros _. unfold is_s32, is_u32 in *. split; unfold is_s32; try done; lia.
Qed.

(** What [concatenate] makes, and the packet that goes out. *)
Definition stamped (host : Z) (c : PostOfficeOutput.call) : PacketHeader :=
  mkPacketHeader (pkt_to (PostOfficeOutput.pktHdr c)) host (mail_length (PostOfficeOutput.mailHdr c) + 12).
Definition body (c : PostOfficeOutput.call) : list Z :=
  take (Z.to_nat (mail_length (PostOfficeOutput.mailHdr c))) (PostOfficeOutput.data c).

Lemma concatenate_Ok host c : sendable c -> exists buffer, PostOfficeOutput.concatenate host c = Ok (stamped host c, buffer) /\
  length buffer = 52%nat /\ slice 0 12 buffer = mail_bytes (PostOfficeOutput.mailHdr c) /\
  slice 12 (Z.to_nat (mail_length (PostOfficeOutput.mailHdr c))) buffer = body c.
Proof.
  intros [Ht Hb Hf Hl Hd Hg Hg']. unfold PostOfficeOutput.concatenate, MaxMailSize, MaxPacketSize, MaxWireSize, sizeof_PacketHeader, sizeof_MailHeader in *.
  rewrite (ASSERT_true (mail_length _ <=? _)) by lia. rewrite (ASSERT_true (0 <=? _)) by lia. cbn [mbind res_bind].
  set (n := Z.to_nat (mail_length (PostOfficeOutput.mailHdr c))) in *.
  assert (n <= 40)%nat as Hn40 by (unfold n; lia).
  assert (length (mail_bytes (PostOfficeOutput.mailHdr c)) = 12%nat) as H12 by apply length_words.
  assert (length (body c) = n) as Hn by (unfold body; rewrite length_take; fold n; lia).
  rewrite (bcopy_to_Ok (PostOfficeOutput.garbage c)) by lia. cbn [mbind res_bind].
  rewrite (bcopy_from_Ok (PostOfficeOutput.data c)) by lia. cbn [mbind res_bind]. 
  change (slice (Z.to_nat 0) (Z.to_nat (mail_length (PostOfficeOutput.mailHdr c))) (PostOfficeOutput.data c)) with (body c).
  rewrite bcopy_to_Ok by (rewrite ?length_inserts; lia). cbn [mbind res_bind]. change (Z.to_nat 0) with 0%nat. change (Z.to_nat 12) with 12%nat.
  eexists. split; [unfold stamped; do 3 f_equal; rewrite u32_id; [done | unfold is_u32; lia] |]. split; [by rewrite !length_inserts |]. split.
  - rewrite slice_inserts_ne by (rewrite ?length_inserts; lia). rewrite <- H12 at 1. rewrite slice_inserts_eq by lia. done.
  - rewrite <- Hn. rewrite slice_inserts_eq by (rewrite ?length_inserts; lia). done.
Qed.

Lemma concatenate_refused host c f : typed c -> refusal c = Some f -> PostOfficeOutput.concatenate host c = Fault f.
Proof.
  intros [Ht Hb Hf Hl Hg Hg']. unfold refusal, PostOfficeOutput.concatenate, MaxMailSize, MaxPacketSize, MaxWireSize, sizeof_PacketHeader, sizeof_MailHeader.
  set (h := PostOfficeOutput.mailHdr c) in *. cbv zeta.
  destruct (Z.ltb_spec (64 - 12 - 12) (mail_length h)); [intros [= <-]; by rewrite (ASSERT_false (mail_length _ <=? _)) by lia |].
  rewrite (ASSERT_true (mail_length _ <=? _)) by lia. cbn [mbind res_bind].
  destruct (Z.ltb_spec (mail_to h) 0); [intros [= <-]; by rewrite (ASSERT_false (0 <=? _)) by lia |]. rewrite (ASSERT_true (0 <=? _)) by lia. cbn [mbind res_bind].
  destruct (Z.ltb_spec (Z.of_nat (length (PostOfficeOutput.data c))) (mail_length h)); [intros [= <-] | done].
  assert (length (mail_bytes h) = 12%nat) as H12 by apply length_words. rewrite bcopy_to_Ok by lia. cbn [mbind res_bind].
  unfold bcopy_from. rewrite (proj2 (Z.leb_gt (0 + mail_length h) _)) by lia. by rewrite andb_false_r.
Qed.

(** ** Packets with a message for one of [nb] boxes of [host] *)

Definition header_of (pkt : list Z) : MailHeader := mail_header (slice 12 12 pkt).
Definition mail_of (pkt : list Z) : Mail.t :=
  Mail.mk (packet_header pkt) (header_of pkt) (slice 24 (Z.to_nat (mail_length (header_of pkt))) pkt).
Definition box_of (pkt : list Z) : nat := Z.to_nat (mail_to (header_of pkt)).

Record letter (nb : nat) (host : Z) (pkt : list Z) : Prop := {
  lt_size : length pkt = 64%nat;
  lt_host : pkt_to (packet_header pkt) = host;
  lt_length : pkt_length (packet_header pkt) = mail_length (header_of pkt) + 12;
  lt_box : 0 <= mail_to (header_of pkt) < Z.of_nat nb;
  lt_mail : 0 <= mail_length (header_of pkt) <= 40;
}.

Lemma letter_more nb nb' host pkt : letter nb host pkt -> mail_to (header_of pkt) < Z.of_nat nb' -> letter nb' host pkt.
Proof. intros [Hs Hh Hl Hb Hm] Hlt. split; try done. lia. Qed.

Lemma Send_letter host c nb : is_s32 host -> sendable c -> mail_to (PostOfficeOutput.mailHdr c) < Z.of_nat nb ->
  exists buffer pkt, PostOfficeOutput.concatenate host c = Ok (stamped host c, buffer) /\
    letter nb (pkt_to (PostOfficeOutput.pktHdr c)) pkt /\ box_of pkt = Z.to_nat (mail_to (PostOfficeOutput.mailHdr c)) /\
    mail_of pkt = Mail.mk (stamped host c) (PostOfficeOutput.mailHdr c) (body c) /\
    forall l n b, NetworkOutput.sendBusy n = false ->
      NetworkOutput.Send host l (PostOfficeOutput.garbage' c) (stamped host c) buffer n b =
        Ok (NetworkOutput.mk false (NetworkOutput.wire n ++ if l then [] else [(pkt_to (PostOfficeOutput.pktHdr c), pkt)]),
            Bus.mk (Bus.stats b) (Bus.asked b ++ [(Stats.totalTicks (Bus.stats b) + Stats.NetworkTime, Interrupt.NetworkSendInt)])).
Proof.
  intros Hh Hs Hnb. destruct (concatenate_Ok host c Hs) as (buffer & Ec & Hlen & Hm & Hb).
  destruct Hs as [Ht Hbox Hf Hl Hd Hg Hg']. unfold MaxMailSize, MaxPacketSize, MaxWireSize, sizeof_PacketHeader, sizeof_MailHeader in Hl.
  set (len := mail_length (PostOfficeOutput.mailHdr c)) in *.
  assert (exists j : nat, len = Z.of_nat j) as [j Hj] by (exists (Z.to_nat len); lia).
  set (k := (j + 12)%nat). assert (k = j + 12)%nat as Ek by done. set (data := slice 0 k buffer).
  set (pkt := list_inserts 12 data (list_inserts 0 (packet_bytes (stamped host c)) (PostOfficeOutput.garbage' c))).
  assert (length (packet_bytes (stamped host c)) = 12%nat) as H12 by apply length_words.
  assert (length data = k) as Hk by (apply length_slice; lia).
  assert (slice 12 k pkt = data) as Hdata by (rewrite <- Hk; apply slice_inserts_eq; rewrite ?length_inserts; lia).
  assert (packet_header pkt = stamped host c) as Hhdr.
  { apply packet_back; cbn; [done | done | fold len; lia |]. unfold pkt. rewrite slice_inserts_ne by (rewrite ?length_inserts; lia).
    rewrite <- H12 at 1. rewrite slice_inserts_eq by lia. done. }
  assert (header_of pkt = PostOfficeOutput.mailHdr c) as Hmh.
  { unfold header_of. rewrite <- (slice_slice 12 k 0 12), Hdata by lia. unfold data. rewrite slice_slice by lia.
    apply mail_back; [unfold is_s32; lia | done | lia |]. rewrite <- Hm. apply slice_slice. lia. }
  assert (slice 24 (Z.to_nat len) pkt = body c) as Hbody.
  { rewrite <- (slice_slice 12 k 12 (Z.to_nat len)), Hdata by lia. unfold data. rewrite slice_slice by lia. exact Hb. }
  exists buffer, pkt. split; [exact Ec |]. split; [| split; [by unfold box_of; rewrite Hmh | split]].
  - split; rewrite ?Hmh, ?Hhdr; cbn; try done; [| fold len; lia]. unfold pkt. by rewrite !length_inserts.
  - unfold mail_of. rewrite Hmh, Hhdr. by fold len; rewrite Hbody.
  - intros l n b Hbusy. unfold NetworkOutput.Send, MaxPacketSize, MaxWireSize, sizeof_PacketHeader. rewrite Hbusy.
    cbn [pkt_length stamped pkt_from negb andb]. fold len. rewrite ASSERT_true by (rewrite !(proj2 (Z.ltb_lt _ _)), !(proj2 (Z.leb_le _ _)), Z.eqb_refl by lia; done).
    cbn [mbind res_bind]. unfold Bus.Schedule. rewrite ASSERT_true by done. cbn [mbind res_bind].
    destruct l; [rewrite app_nil_r, <- Hbusy; by destruct n |].
    rewrite bcopy_to_Ok by lia. cbn [mbind res_bind]. rewrite bcopy_from_Ok by lia. cbn [mbind res_bind].
    change (Z.to_nat 0) with 0%nat. replace (Z.to_nat (len + 12)) with k by lia. fold data.
    rewrite bcopy_to_Ok by (rewrite ?length_inserts; lia). cbn [mbind res_bind]. reflexivity.
Qed.

(** ** The device takes a packet in, and gives it *)

Definition buffered (n : NetworkInput.t) (pkt : list Z) : Prop :=
  NetworkInput.inHdr n = packet_header pkt /\ length (NetworkInput.inbox n) = 52%nat /\
  let k := Z.to_nat (pkt_length (packet_header pkt)) in slice 0 k (NetworkInput.inbox n) = slice 12 k pkt.

Lemma CallBack_letter host nb n b pkt rest : letter nb host pkt -> pkt_length (NetworkInput.inHdr n) = 0 ->
  length (NetworkInput.inbox n) = 52%nat -> NetworkInput.socket n = pkt :: rest ->
  exists n' b', NetworkInput.CallBack host n b = Ok (n', b', true) /\ buffered n' pkt /\ NetworkInput.socket n' = rest.
Proof.
  intros [Hs Hh Hl Hb Hm] H0 Hi Hq. unfold NetworkInput.CallBack, Bus.Schedule. rewrite ASSERT_true by done. cbn [mbind res_bind].
  rewrite H0, Hq. cbn [negb Z.eqb]. unfold NetworkInput.ReadFromSocket, MaxPacketSize, MaxWireSize, sizeof_PacketHeader.
  rewrite take_ge by (rewrite Hs; done). rewrite ASSERT_true by (rewrite Hs; done). cbn [mbind res_bind].
  rewrite ASSERT_true by (rewrite Hh, Z.eqb_refl, (proj2 (Z.leb_le _ _)) by lia; done). cbn [mbind res_bind].
  set (k := Z.to_nat (pkt_length (packet_header pkt))). assert (k <= 52)%nat by lia.
  rewrite bcopy_from_Ok by lia. cbn [mbind res_bind]. change (Z.to_nat 12) with 12%nat. fold k.
  assert (length (slice 12 k pkt) = k) as Hk by (apply length_slice; lia).
  rewrite bcopy_to_Ok by lia. cbn [mbind res_bind].
  assert (slice 0 k (list_inserts 0 (slice 12 k pkt) (NetworkInput.inbox n)) = slice 12 k pkt) as E.
  { rewrite <- Hk at 1. apply slice_inserts_eq. lia. }
  eexists _, _. split; [reflexivity | split; [| done]]. split; [done | split; [cbn; by rewrite length_inserts | exact E]].
Qed.

Lemma Receive_letter host nb n data pkt : letter nb host pkt -> buffered n pkt -> length data = 52%nat ->
  exists data', NetworkInput.Receive data n =
      Ok (packet_header pkt, data', NetworkInput.mk (with_length (NetworkInput.inHdr n) 0) (NetworkInput.inbox n) (NetworkInput.socket n)) /\
    length data' = 52%nat /\ mail_header (slice 0 12 data') = header_of pkt /\
    Mail.create (packet_header pkt) (header_of pkt) (drop 12 data') = Ok (mail_of pkt).
Proof.
  intros [Hs Hh Hl Hb Hm] (Eh & Hi & Hk) Hd. unfold NetworkInput.Receive. rewrite Eh, Hl.
  rewrite (proj2 (Z.eqb_neq _ _)) by lia. cbn [negb NetworkInput.inbox].
  rewrite bcopy_from_Ok by lia. cbn [mbind res_bind]. change (Z.to_nat 0) with 0%nat. cbv zeta in Hk. rewrite Hl in Hk.
  assert (exists j : nat, mail_length (header_of pkt) = Z.of_nat j) as [j Hj] by (exists (Z.to_nat (mail_length (header_of pkt))); lia).
  rewrite Hj in *. replace (Z.to_nat (Z.of_nat j + 12)) with (j + 12)%nat in * by lia.
  assert (length (slice 12 (j + 12) pkt) = (j + 12)%nat) as Hlen by (apply length_slice; lia).
  rewrite Hk, bcopy_to_Ok by lia. cbn [mbind res_bind]. change (Z.to_nat 0) with 0%nat.
  set (data' := list_inserts 0 _ data). assert (slice 0 (j + 12) data' = slice 12 (j + 12) pkt) as Hd'.
  { unfold data'. rewrite <- Hlen at 1. apply slice_inserts_eq. lia. }
  exists data'. split; [done |]. split; [unfold data'; by rewrite length_inserts |]. split.
  - unfold header_of. rewrite <- (slice_slice 12 (j + 12) 0 12), <- Hd' by lia. by rewrite slice_slice by lia.
  - unfold Mail.create. rewrite Hj, ASSERT_true by (unfold MaxMailSize, MaxPacketSize, MaxWireSize, sizeof_PacketHeader, sizeof_MailHeader; lia).
    cbn [mbind res_bind]. assert (length data' = 52%nat) as L by (unfold data'; by rewrite length_inserts).
    rewrite bcopy_from_Ok by (rewrite ?length_drop; lia). cbn [mbind res_bind]. unfold mail_of. do 2 f_equal. rewrite Hj.
    change (Z.to_nat 0) with 0%nat. replace (slice 0 (Z.to_nat (Z.of_nat j)) (drop 12 data')) with (slice 12 (Z.to_nat (Z.of_nat j)) data') by (unfold slice; by rewrite drop_0).
    rewrite <- (slice_slice 0 (j + 12) 12), Hd' by lia. by rewrite slice_slice by lia.
Qed.

(** What [PostOfficeOutput::Send] puts on the wire, when it is not lost, is
    one packet of the fixed size for the host it is addressed to; there the
    network device takes it in, and the postal worker finds in its buffer the
    header, with the sender's address and the length filled in, the mail header
    and the bytes of the message that [Send] was given. *)
Theorem mail_round_trip host c nb : is_s32 host -> sendable c -> mail_to (PostOfficeOutput.mailHdr c) < Z.of_nat nb ->
  exists buffer pkt, PostOfficeOutput.concatenate host c = Ok (stamped host c, buffer) /\
    (forall n b, NetworkOutput.sendBusy n = false -> exists b',
       NetworkOutput.Send host false (PostOfficeOutput.garbage' c) (stamped host c) buffer n b =
         Ok (NetworkOutput.mk false (NetworkOutput.wire n ++ [(pkt_to (PostOfficeOutput.pktHdr c), pkt)]), b')) /\
    forall n b rest data, pkt_length (NetworkInput.inHdr n) = 0 -> length (NetworkInput.inbox n) = 52%nat ->
      NetworkInput.socket n = pkt :: rest -> length data = 52%nat ->
      exists n' b' data' n'', NetworkInput.CallBack (pkt_to (PostOfficeOutput.pktHdr c)) n b = Ok (n', b', true) /\
        NetworkInput.Receive data n' = Ok (stamped host c, data', n'') /\ NetworkInput.socket n'' = rest /\
        pkt_length (NetworkInput.inHdr n'') = 0 /\
        mail_header (slice 0 12 data') = PostOfficeOutput.mailHdr c /\
        Mail.create (stamped host c) (PostOfficeOutput.mailHdr c) (drop 12 data') =
          Ok (Mail.mk (stamped host c) (PostOfficeOutput.mailHdr c) (body c)).
Proof.
  intros Hh Hs Hnb. destruct (Send_letter host c nb Hh Hs Hnb) as (buffer & pkt & Ec & Hlt & _ & Hmail & Hsend).
  assert (packet_header pkt = stamped host c /\ header_of pkt = PostOfficeOutput.mailHdr c) as [E1 E2].
  { split; [exact (f_equal Mail.pktHdr Hmail) | exact (f_equal Mail.mailHdr Hmail)]. }
  exists buffer, pkt. split; [exact Ec | split; [intros n b Hbusy; eexists; exact (Hsend false n b Hbusy) |]]. intros n b rest data H0 Hi Hq Hd.
  destruct (CallBack_letter _ nb n b pkt rest Hlt H0 Hi Hq) as (n' & b' & Hc & Hbuf & Hrest).
  destruct (Receive_letter _ nb n' data pkt Hlt Hbuf Hd) as (data' & Hr & _ & Hm & Hcr). rewrite E1, E2, Hmail in *.
  eexists n', b', data', _. split; [exact Hc | split; [exact Hr | split; [exact Hrest | split; [reflexivity | split; done]]]].
Qed.
End Letters.

(** ** Demo *)

Module LettersDemo.
Import Wire Letters.

(** Two bytes, from box 0 of host 1 to box 1 of host 2. *)
Definition call : PostOfficeOutput.call :=
  PostOfficeOutput.mkCall (mkPacketHeader 2 0 0) (mkMailHeader 1 0 2) [72; 105] false (replicate 52 9) (replicate 64 7).
Definition packet : list Z :=
  words 2 1 14 ++ words 1 0 2 ++ [72; 105] ++ replicate 38 7.

Lemma call_sendable : sendable call.
Proof. split; cbn; unfold is_s32, MaxMailSize, MaxPacketSize, MaxWireSize, sizeof_PacketHeader, sizeof_MailHeader; done || lia. Qed.

Lemma call_typed : typed call.
Proof. split; cbn; unfold is_s32, is_u32; done || lia. Qed.

Lemma packet_letter : letter 2 2 packet.
Proof. split; vm_compute; repeat split; discriminate. Qed.

Lemma mail_round_trip_witness : exists buffer pkt, PostOfficeOutput.concatenate 1 call = Ok (stamped 1 call, buffer) /\
  exists b', NetworkOutput.Send 1 false (replicate 64 7) (stamped 1 call) buffer NetworkOutput.create Bus.create =
    Ok (NetworkOutput.mk false [(2, pkt)], b').
Proof.
  destruct (mail_round_trip 1 call 2) as (buffer & pkt & E & Hs & _); [done | apply call_sendable | done |].
  exists buffer, pkt. split; [exact E | exact (Hs NetworkOutput.create Bus.create eq_refl)].
Defined.
End LettersDemo.
