(* ===== verification/Office.v ===== *)
(** * Office: every message is received once, in order, from the box it was for

    The post office of Post.v with the postal worker, threads that call [Receive]
    and the network device, all at once.  A thread inside an operation of a box is
    at a program point of SynchLists.v; seen from one box, the office is a
    synchronised list on which every other thread is idle. *)

From S2P Require Import Prelude Lists Stats Interrupt Devices Procs Monitor SynchLists Network Post Deliveries.

Module Office.
Import Bus Wire Procs PostOfficeInput Letters.

#[local] Notation proc := (Procs.proc t semref received loop).
#[local] Notation sys := (Procs.sys t semref received loop).
#[local] Notation mproc := (Procs.proc (Monitor.t nat) Monitor.semref (list nat) unit).
#[local] Notation mpoint := (@SynchLists.point nat).

(** ** Lifting *)

Section lifting.
Context (host : Z).
#[local] Existing Instance component.

Lemma advance_lift i cont me k s m : boxes s !! i = Some m -> (forall l, k = Loop l -> cont = finish) ->
  match k with Idle _ => False | _ => True end ->
  Procs.advance (Component0 := component host) me (lift i cont k) s =
    (fun r => match r with Ok (m', k') => Ok (with_box s i m', lift i cont k') | Fault e => Fault e end) <$> Procs.advance me k m.
Proof.
  intros Hm Hl Hk. destruct k as [got | f | r k | r k | l]; cbn; [done | | | |].
  - rewrite Hm. by destruct (f m) as [[]|].
  - rewrite Hm. cbn. destruct (Monitor.get_sem m r) as [v |]; [| done]. by destruct (v =? 0).
  - rewrite Hm. cbn. by destruct (Monitor.get_sem m r).
  - rewrite Hm. cbn. rewrite (Hl l eq_refl). by destruct (Monitor.remove_turn me m) as [[]|].
Qed.
End lifting.

(** ** Program points *)

Inductive point : Type :=
  | OIdle (got : received)
  | OLoop (buf : list Z)             (** the worker, before its [P] *)
  | OWait (buf : list Z)
  | OTake (buf : list Z)             (** and past it *)
  | OMail (i : nat) (hdr : PacketHeader) (mh : MailHeader) (data buf : list Z)
  | OPut (i : nat) (buf : list Z) (p : mpoint)
  | OAsk (box : Z)
  | OGet (i : nat) (p : mpoint)
  | OFinish (got : list nat).

Definition denote (me : nat) (p : point) : proc :=
  match p with
  | OIdle got => Idle got
  | OLoop buf => Loop (Deliver buf)
  | OWait buf => CallP MessageAvailable (deliver me buf)
  | OTake buf => deliver me buf
  | OMail i hdr mh data buf => Put me i hdr mh data (fun _ => Loop (Deliver buf))
  | OPut i buf p => lift i (fun _ => Loop (Deliver buf)) (SynchLists.denote me p)
  | OAsk box => Receive me box
  | OGet i p => lift i finish (SynchLists.denote me p)
  | OFinish got => finish got
  end.

(** Seen from the box [i]. *)
Definition view (i : nat) (p : point) : mpoint :=
  match p with
  | OPut j _ q | OGet j q => if decide (j = i) then q else SynchLists.PIdle []
  | _ => SynchLists.PIdle []
  end.

Definition put_to (i : nat) (buf : list Z) (q : mpoint) : point :=
  match q with SynchLists.PIdle _ => OLoop buf | _ => OPut i buf q end.
Definition get_to (i : nat) (q : mpoint) : point :=
  match q with SynchLists.PIdle got => OFinish got | _ => OGet i q end.

Lemma denote_put_to me i buf q : denote me (put_to i buf q) = lift i (fun _ => Loop (Deliver buf)) (SynchLists.denote me q).
Proof. by destruct q. Qed.
Lemma denote_get_to me i q : denote me (get_to i q) = lift i finish (SynchLists.denote me q).
Proof. by destruct q. Qed.

(** The points of an [Append] and of a [RemoveFront]. *)
Definition putting (q : mpoint) : bool :=
  match q with
  | SynchLists.PGive (Monitor.Op_Append _) | SynchLists.PTake (Monitor.Op_Append _) | SynchLists.PInsert _
  | SynchLists.PSignal | SynchLists.PWake _ | SynchLists.PLeave _ | SynchLists.PLeft _ => true
  | _ => false
  end.
Definition getting (q : mpoint) : bool :=
  match q with
  | SynchLists.PGive Monitor.Op_RemoveFront | SynchLists.PTake Monitor.Op_RemoveFront
  | SynchLists.PLoop | SynchLists.PWait | SynchLists.PUnlock _ | SynchLists.PUnlocked _ | SynchLists.PSleep _
  | SynchLists.PBack _ | SynchLists.PBackIn _ | SynchLists.PDelete _ => true
  | SynchLists.PLeave [_] | SynchLists.PLeft [_] => true
  | _ => false
  end.

(** ** The steps of one thread *)

Inductive next (th : nat) (s : t) : point -> t -> point -> Prop :=
  | next_loop buf : next th s (OLoop buf) s (OWait buf)
  | next_wait buf : messageAvailable s <> 0 ->
      next th s (OWait buf) (with_messageAvailable s (messageAvailable s - 1)) (OTake buf)
  | next_take buf hdr buf' n mh : NetworkInput.Receive buf (network s) = Ok (hdr, buf', n) -> mh = mail_header (slice 0 12 buf') ->
      next th s (OTake buf) (with_network s n (bus s)) (OMail (Z.to_nat (mail_to mh)) hdr mh (drop 12 buf') buf')
  | next_mail i hdr mh data buf mail : Mail.create hdr mh data = Ok mail ->
      next th s (OMail i hdr mh data buf) (with_mails s (mails s ++ [Some mail]))
        (OPut i buf (SynchLists.PGive (Monitor.Op_Append (length (mails s)))))
  | next_put i buf q m m' q' : boxes s !! i = Some m -> SynchLists.next th m q m' q' ->
      next th s (OPut i buf q) (with_box s i m') (put_to i buf q')
  | next_ask box : 0 <= box < Z.of_nat (length (boxes s)) ->
      next th s (OAsk box) s (OGet (Z.to_nat box) (SynchLists.PGive Monitor.Op_RemoveFront))
  | next_get i q m m' q' : boxes s !! i = Some m -> SynchLists.next th m q m' q' ->
      next th s (OGet i q) (with_box s i m') (get_to i q')
  | next_finish a mail : mails s !! a = Some (Some mail) ->
      next th s (OFinish [a]) (with_mails s (<[a := None]> (mails s)))
        (OIdle (Some (Mail.pktHdr mail, Mail.mailHdr mail, Mail.data mail))).

(** ** The invariant *)

Implicit Types (ps : list point) (s : t).

(** The boxes, with the messages that are on their way into one or in it. *)
Definition boxes_ok (s : t) (ps : list point) (Us : nat -> list nat) : Prop :=
  forall i m, boxes s !! i = Some m -> SynchLists.owned m (Us i) (view i <$> ps).

(** Where a thread can be: the thread 0 is the worker. *)
Definition fits (nb th : nat) (p : point) : Prop :=
  match p with
  | OIdle _ => th <> 0%nat
  | OAsk _ => th <> 0%nat
  | OGet i q => th <> 0%nat /\ (i < nb)%nat /\ getting q = true
  | OFinish got => th <> 0%nat /\ exists a, got = [a]
  | OLoop buf | OWait buf | OTake buf => th = 0%nat /\ length buf = 52%nat
  | OMail i hdr mh data buf => th = 0%nat /\ length buf = 52%nat /\ (i < nb)%nat /\ mail_length mh <= 40 /\
      exists mail, Mail.create hdr mh data = Ok mail
  | OPut i buf q => th = 0%nat /\ length buf = 52%nat /\ (i < nb)%nat /\ putting q = true
  end.

(** The message a thread has taken out. *)
Definition carries (p : point) : option nat :=
  match p with
  | OFinish [a] | OGet _ (SynchLists.PLeave [a]) | OGet _ (SynchLists.PLeft [a]) => Some a
  | _ => None
  end.
Definition live (L : list (option Mail.t)) (a : nat) : Prop :=
  exists mail, L !! a = Some (Some mail) /\ mail_length (Mail.mailHdr mail) <= 40.

Record ptrs_ok (L : list (option Mail.t)) (Us : nat -> list nat) (ps : list point) : Prop := {
  pt_live i x : x ∈ Us i -> live L x;
  pt_own i j x : x ∈ Us i -> x ∈ Us j -> i = j;
  pt_carry th p a : ps !! th = Some p -> carries p = Some a -> live L a /\ forall i, a ∉ Us i;
  pt_alone th th' p p' a : ps !! th = Some p -> ps !! th' = Some p' -> carries p = Some a -> carries p' = Some a -> th = th';
}.

(** [cur]: the packet that is buffered. *)
Record input_ok (nb : nat) (host : Z) (n : NetworkInput.t) (cur : option (list Z)) : Prop := {
  in_inbox : length (NetworkInput.inbox n) = 52%nat;
  in_socket : Forall (letter nb host) (NetworkInput.socket n);
  in_cur : match cur with None => pkt_length (NetworkInput.inHdr n) = 0 | Some pkt => letter nb host pkt /\ buffered n pkt end;
}.

Definition token (p : point) : nat := match p with OTake _ => 1 | _ => 0 end.
Definition avail_ok (s : t) (ps : list point) (cur : option (list Z)) : Prop :=
  0 <= messageAvailable s /\ (Z.to_nat (messageAvailable s) + total token ps)%nat = (if cur then 1%nat else 0%nat).

(** *** Boxes *)

Lemma view_quiet i ps th p p' : ps !! th = Some p -> view i p' = view i p -> view i <$> <[th := p']> ps = view i <$> ps.
Proof.
  intros Hp Hv. rewrite list_fmap_insert, Hv. apply list_insert_id. by rewrite list_lookup_fmap, Hp.
Qed.

Lemma view_at i ps th p : ps !! th = Some p -> (view i <$> ps) !! th = Some (view i p).
Proof. intros Hp. by rewrite list_lookup_fmap, Hp. Qed.

Definition upd {A} (f : nat -> A) (i : nat) (x : A) (j : nat) : A := if decide (j = i) then x else f j.
Lemma upd_eq {A} (f : nat -> A) i x : upd f i x i = x.
Proof. unfold upd. by rewrite decide_True. Qed.
Lemma upd_ne {A} (f : nat -> A) i x j : j <> i -> upd f i x j = f j.
Proof. intros Hne. unfold upd. by rewrite decide_False. Qed.

Lemma view_self i p q : (exists buf, p = OPut i buf q) \/ p = OGet i q -> view i p = q.
Proof. intros [[buf ->] | ->]; cbn; by rewrite decide_True. Qed.
Lemma view_other i j p q : (exists buf, p = OPut i buf q) \/ p = OGet i q -> j <> i -> view j p = SynchLists.PIdle [].
Proof. intros [[buf ->] | ->] Hne; cbn; by rewrite decide_False. Qed.

(** A step inside the box [i]. *)
Lemma boxes_step s ps Us th p p' i m q m' q' : boxes_ok s ps Us -> ps !! th = Some p -> boxes s !! i = Some m ->
  view i p = q -> SynchLists.next th m q m' q' -> (forall j, j <> i -> view j p' = view j p) ->
  view i p' = q' \/ (exists got, q' = SynchLists.PIdle got /\ view i p' = SynchLists.PIdle []) ->
  boxes_ok (with_box s i m') (<[th := p']> ps) (upd Us i (SynchLists.still (Monitor.items m) (Monitor.items m') (Us i))).
Proof.
  intros Hb Hp Hm Hq Hn Hne Hv j mj Hj. cbn in Hj. destruct (decide (j = i)) as [-> | Hji].
  - rewrite list_lookup_insert_eq in Hj by (by eapply lookup_lt_Some). injection Hj as <-. rewrite upd_eq.
    pose proof (view_at i ps th p Hp) as Hvp. rewrite Hq in Hvp.
    pose proof (SynchLists.owned_next _ th q q' m m' (Us i) Hvp Hn (Hb i m Hm)) as Hi.
    rewrite list_fmap_insert. destruct Hv as [-> | (got & -> & ->)]; [exact Hi |].
    replace (<[th := SynchLists.PIdle []]> (view i <$> ps)) with (<[th := SynchLists.PIdle []]> (<[th := SynchLists.PIdle got]> (view i <$> ps)))
      by apply list_insert_insert_eq.
    eapply SynchLists.owned_idle; [exact Hi |]. apply list_lookup_insert_eq. by eapply lookup_lt_Some.
  - rewrite list_lookup_insert_ne in Hj by done. rewrite upd_ne by done.
    rewrite (view_quiet j ps th p p') by auto. by apply Hb.
Qed.

(** A thread enters the box [i]. *)
Lemma boxes_enter s ps Us th p p' i o U' : boxes_ok s ps Us -> ps !! th = Some p ->
  (forall j, view j p = SynchLists.PIdle []) -> view i p' = SynchLists.PGive o -> (forall j, j <> i -> view j p' = SynchLists.PIdle []) ->
  (forall x, x ∈ Us i -> x ∈ U') -> (forall x, o = Monitor.Op_Append x -> x ∉ Us i /\ x ∈ U') ->
  boxes_ok s (<[th := p']> ps) (upd Us i U').
Proof.
  intros Hb Hp Hv Hv' Hne HU Ho j m Hj. destruct (decide (j = i)) as [-> | Hji].
  - rewrite upd_eq, list_fmap_insert, Hv'. apply (SynchLists.owned_call _ (Us i) _ _ _ []); [by apply Hb | | done | done].
    by rewrite (view_at i ps th p Hp), Hv.
  - rewrite upd_ne by done. rewrite (view_quiet j ps th p p') by (by rewrite ?Hv, ?Hne). by apply Hb.
Qed.

(** A step outside the boxes. *)
Lemma boxes_quiet s s' ps Us th p p' : boxes_ok s ps Us -> ps !! th = Some p -> boxes s' = boxes s ->
  (forall j, view j p' = view j p) -> boxes_ok s' (<[th := p']> ps) Us.
Proof. intros Hb Hp E Hv j m Hj. rewrite E in Hj. rewrite (view_quiet j ps th p p') by done. by apply Hb. Qed.

(** *** Points *)

Lemma put_next th m q m' q' : putting q = true -> SynchLists.next th m q m' q' ->
  putting q' = true \/ exists got, q' = SynchLists.PIdle got.
Proof. intros Hq Hn. destruct Hn; cbn in *; try done; try (by left); try (by destruct o; left); right; eauto. Qed.

Lemma get_next th m q m' q' : getting q = true -> SynchLists.next th m q m' q' ->
  getting q' = true \/ exists a, q' = SynchLists.PIdle [a].
Proof.
  intros Hq Hn. destruct Hn; cbn in *; try done; try (by left); try (by destruct o; left); try (by destruct got as [| ? []]; left).
  destruct got as [| a []]; [done | right; by exists a | done].
Qed.

Lemma fits_put nb i buf q : length buf = 52%nat -> (i < nb)%nat -> putting q = true \/ (exists got, q = SynchLists.PIdle got) ->
  fits nb 0 (put_to i buf q).
Proof. intros Hb Hi [Hq | [got ->]]; [| done]. destruct q as [| [] | [] | | | | | | | | | | | | | |]; done. Qed.

Lemma fits_get nb th i q : th <> 0%nat -> (i < nb)%nat -> getting q = true \/ (exists a, q = SynchLists.PIdle [a]) ->
  fits nb th (get_to i q).
Proof. intros Ht Hi [Hq | [a ->]]; [| cbn; eauto]. destruct q as [| [] | [] | | | | | | | | | | | | | |]; done. Qed.

(** What the worker finds when it was woken. *)
Lemma woken s ps th buf nb host cur : avail_ok s ps cur -> input_ok nb host (network s) cur -> ps !! th = Some (OTake buf) ->
  length buf = 52%nat -> exists pkt data, cur = Some pkt /\ letter nb host pkt /\
    NetworkInput.Receive buf (network s) = Ok (packet_header pkt, data,
      NetworkInput.mk (with_length (NetworkInput.inHdr (network s)) 0) (NetworkInput.inbox (network s)) (NetworkInput.socket (network s))) /\
    length data = 52%nat /\ mail_header (slice 0 12 data) = header_of pkt /\
    Mail.create (packet_header pkt) (header_of pkt) (drop 12 data) = Ok (mail_of pkt).
Proof.
  intros [_ Ht] [_ _ Hc] Hp Hb. pose proof (total_le token ps th _ Hp) as Hle. cbn in Hle.
  destruct cur as [pkt |]; [| lia]. destruct Hc as [Hl Hbuf].
  destruct (Receive_letter host nb (network s) buf pkt Hl Hbuf Hb) as (data & Hr & ? & ? & ?). by exists pkt, data.
Qed.

Lemma fits_next s ps th p s' p' nb host cur : avail_ok s ps cur -> input_ok nb host (network s) cur -> ps !! th = Some p ->
  length (boxes s) = nb -> fits nb th p -> next th s p s' p' -> fits nb th p'.
Proof.
  intros Ha Hin Hp Hnb Hf Hn. destruct Hn as [buf | buf Hv | buf hdr buf' n mh Hr Hmh | i hdr mh data buf mail Hm | i buf q m m' q' Hm Hq | box Hbox | i q m m' q' Hm Hq | a mail Ha']; cbn in Hf |- *.
  - done.
  - done.
  - destruct Hf as [-> Hb]. destruct (woken s ps 0 buf nb host cur Ha Hin Hp Hb) as (pkt & data & -> & Hl & Hr' & Hd & Hh & Hc).
    rewrite Hr in Hr'. injection Hr' as -> -> ->. rewrite Hh in Hmh. subst mh. pose proof (lt_box _ _ _ Hl). pose proof (lt_mail _ _ _ Hl).
    split_and!; [done | done | lia | lia | eauto].
  - destruct Hf as (-> & Hb & Hi & _). done.
  - destruct Hf as (-> & Hb & Hi & Hpt). apply fits_put; [done | done |]. by apply (put_next 0 m q m').
  - split_and!; [tauto | lia | done].
  - destruct Hf as (Ht & Hi & Hg). apply fits_get; [done | done |]. by apply (get_next th m q m').
  - tauto.
Qed.

(** *** Messages *)

Lemma live_app L a o : live L a -> live (L ++ [o]) a.
Proof. intros (mail & Hl & Hm). exists mail. split; [by apply lookup_app_l_Some | done]. Qed.

Lemma ptrs_move L Us Us' ps th p p' : ptrs_ok L Us ps -> ps !! th = Some p -> (forall i x, x ∈ Us' i -> x ∈ Us i) ->
  (forall a, carries p' = Some a -> carries p = Some a) -> ptrs_ok L Us' (<[th := p']> ps).
Proof.
  intros [Hl Ho Hc Ha] Hp Hs Hca.
  assert (forall th1 p1 a, <[th := p']> ps !! th1 = Some p1 -> carries p1 = Some a -> exists p2, ps !! th1 = Some p2 /\ carries p2 = Some a) as Hb.
  { intros th1 p1 a H1 E. destruct (move_lookup _ _ _ _ _ _ Hp H1) as [[-> ->] | [_ ?]]; [exists p; auto | by exists p1]. }
  split.
  - intros i x Hx. by apply (Hl i), Hs.
  - intros i j x Hx Hx'. by apply (Ho i j x); apply Hs.
  - intros th1 p1 a H1 E. destruct (Hb _ _ _ H1 E) as (p2 & H2 & E2). destruct (Hc _ _ _ H2 E2) as [? Hn]. split; [done |].
    intros i Hi. by apply (Hn i), Hs.
  - intros th1 th2 p1 p2 a H1 H2 E1 E2. destruct (Hb _ _ _ H1 E1) as (q1 & ? & ?), (Hb _ _ _ H2 E2) as (q2 & ? & ?). by apply (Ha th1 th2 q1 q2 a).
Qed.

(** A new message, for the box [i]. *)
Lemma ptrs_new L Us ps th p p' i mail : ptrs_ok L Us ps -> ps !! th = Some p -> carries p' = None ->
  mail_length (Mail.mailHdr mail) <= 40 -> ptrs_ok (L ++ [Some mail]) (upd Us i (length L :: Us i)) (<[th := p']> ps).
Proof.
  intros Hpt Hp Hc Hlen. pose proof (ptrs_move L Us Us ps th p p' Hpt Hp ltac:(done) ltac:(by rewrite Hc)) as [Hl Ho Hca Ha].
  assert (forall a, live L a -> a <> length L) as Hne.
  { intros a (m & Hm & _) ->. rewrite (proj2 (lookup_ge_None L _)) in Hm by lia. done. }
  assert (forall j x, x ∈ upd Us i (length L :: Us i) j -> (x = length L /\ j = i) \/ (x ∈ Us j)) as Hu.
  { intros j x Hx. destruct (decide (j = i)) as [-> | Hji]; [rewrite upd_eq in Hx | rewrite upd_ne in Hx by done; by right].
    apply elem_of_cons in Hx as [-> | Hx]; [by left | by right]. }
  split.
  - intros j x [[-> ->] | Hx]%Hu; [exists mail; split; [by apply list_lookup_middle | done] | by eapply live_app, Hl].
  - intros j k x [[-> ->] | Hx]%Hu [[E ->] | Hy]%Hu; [done | | | by apply (Ho j k x)].
    + by destruct (Hne _ (Hl _ _ Hy)).
    + subst x. by destruct (Hne _ (Hl _ _ Hx)).
  - intros th1 p1 a H1 E. destruct (Hca _ _ _ H1 E) as [Hla Hn]. split; [by apply live_app |].
    intros j [[-> _] | Hx]%Hu; [by apply (Hne _ Hla) | by apply (Hn j)].
  - exact Ha.
Qed.

(** A message is taken out of the box [i]. *)
Lemma ptrs_take L Us ps th p p' i a U' : ptrs_ok L Us ps -> ps !! th = Some p -> carries p' = Some a -> a ∈ Us i ->
  (forall x, x ∈ U' -> x ∈ Us i /\ x <> a) -> ptrs_ok L (upd Us i U') (<[th := p']> ps).
Proof.
  intros [Hl Ho Hc Ha] Hp Hca Hai HU.
  assert (forall j x, x ∈ upd Us i U' j -> x ∈ Us j /\ x <> a) as Hu.
  { intros j x Hx. destruct (decide (j = i)) as [-> | Hji]; [rewrite upd_eq in Hx; auto |].
    rewrite upd_ne in Hx by done. split; [done |]. intros ->. by apply Hji, (Ho j i a). }
  split.
  - intros j x [Hx _]%Hu. by apply (Hl j).
  - intros j k x [Hx _]%Hu [Hy _]%Hu. by apply (Ho j k x).
  - intros th1 p1 b H1 E. destruct (move_lookup _ _ _ _ _ _ Hp H1) as [[-> ->] | [_ H2]].
    + rewrite Hca in E. injection E as <-. split; [by apply (Hl i) |]. intros j [_ ?]%Hu. done.
    + destruct (Hc _ _ _ H2 E) as [? Hn]. split; [done |]. intros j [Hx _]%Hu. by apply (Hn j).
  - intros th1 th2 p1 p2 b H1 H2 E1 E2.
    destruct (move_lookup _ _ _ _ _ _ Hp H1) as [[-> ->] | [_ H1']], (move_lookup _ _ _ _ _ _ Hp H2) as [[-> ->] | [_ H2']]; [done | | |].
    + rewrite Hca in E1. injection E1 as <-. destruct (Hc _ _ _ H2' E2) as [_ Hn]. by destruct (Hn i).
    + rewrite Hca in E2. injection E2 as <-. destruct (Hc _ _ _ H1' E1) as [_ Hn]. by destruct (Hn i).
    + by apply (Ha th1 th2 p1 p2 b).
Qed.

(** And deleted. *)
Lemma ptrs_delete L Us ps th p p' a : ptrs_ok L Us ps -> ps !! th = Some p -> carries p = Some a -> carries p' = None ->
  ptrs_ok (<[a := None]> L) Us (<[th := p']> ps).
Proof.
  intros Hpt Hp Hca Hc'. destruct (pt_carry _ _ _ Hpt th p a Hp Hca) as [_ Hna].
  assert (forall b, live L b -> b <> a -> live (<[a := None]> L) b) as Hlive.
  { intros b (m & Hm & ?) Hne. exists m. split; [by rewrite list_lookup_insert_ne | done]. }
  assert (forall th1 p1 b, <[th := p']> ps !! th1 = Some p1 -> carries p1 = Some b -> th1 <> th /\ ps !! th1 = Some p1) as Hb.
  { intros th1 p1 b H1 E. destruct (move_lookup _ _ _ _ _ _ Hp H1) as [[-> ->] | ?]; [congruence | done]. }
  split.
  - intros i x Hx. apply Hlive; [by apply (pt_live _ _ _ Hpt i) |]. intros ->. by apply (Hna i).
  - apply Hpt.
  - intros th1 p1 b H1 E. destruct (Hb _ _ _ H1 E) as [Hne H2]. destruct (pt_carry _ _ _ Hpt _ _ _ H2 E) as [? ?].
    split; [| done]. apply Hlive; [done |]. intros ->. by apply Hne, (pt_alone _ _ _ Hpt th1 th p1 p a).
  - intros th1 th2 p1 p2 b H1 H2 E1 E2. destruct (Hb _ _ _ H1 E1) as [_ ?], (Hb _ _ _ H2 E2) as [_ ?]. by apply (pt_alone _ _ _ Hpt th1 th2 p1 p2 b).
Qed.

Lemma create_header hdr mh data mail : Mail.create hdr mh data = Ok mail -> Mail.mailHdr mail = mh.
Proof.
  unfold Mail.create. destruct (ASSERT _); [| done]. cbn. destruct (bcopy_from _ _ _); [| done]. by intros [= <-].
Qed.

Lemma not_live L : ~ live L (length L).
Proof. intros (m & Hm & _). rewrite (proj2 (lookup_ge_None L _)) in Hm by lia. done. Qed.

(** Only taking an item makes a thread carry one. *)
Lemma get_carries th m q m' q' i : getting q = true -> SynchLists.next th m q m' q' ->
  (exists a l, q = SynchLists.PLoop /\ Monitor.items m = a :: l /\ Monitor.items m' = l /\ q' = SynchLists.PLeave [a]) \/
  (forall a, carries (get_to i q') = Some a -> carries (OGet i q) = Some a).
Proof.
  intros Hg Hn. destruct Hn; try done; try (right; by cbn); try (right; by destruct o). left; eauto 10.
Qed.

Lemma owners_next s ps Us th p s' p' nb : boxes_ok s ps Us -> ptrs_ok (mails s) Us ps -> fits nb th p -> ps !! th = Some p ->
  next th s p s' p' -> exists Us', boxes_ok s' (<[th := p']> ps) Us' /\ ptrs_ok (mails s') Us' (<[th := p']> ps).
Proof.
  intros Hb Hpt Hf Hp Hn. destruct Hn as [buf | buf Hv | buf hdr buf' n mh Hr Hmh | i hdr mh data buf mail Hm | i buf q m m' q' Hm Hq | box Hbox | i q m m' q' Hm Hq | a mail Ha].
  1-3: exists Us; split; [by apply (boxes_quiet s _ ps Us th _ _ Hb Hp) | by apply (ptrs_move _ Us Us ps th _ _ Hpt Hp)].
  - exists (upd Us i (length (mails s) :: Us i)). split.
    + apply (boxes_enter s ps Us th _ _ i (Monitor.Op_Append (length (mails s))) _ Hb Hp); [done | by cbn; rewrite decide_True | | by right |].
      * intros j Hne. cbn. by rewrite decide_False.
      * intros x [= <-]. split; [| by left]. intros Hin. by apply (not_live (mails s)), (pt_live _ _ _ Hpt i).
    + apply (ptrs_new _ Us ps th _ _ i mail Hpt Hp); [done |]. rewrite (create_header _ _ _ _ Hm). cbn in Hf. tauto.
  - eexists. split.
    + apply (boxes_step s ps Us th _ _ i m q m' q' Hb Hp Hm); [by apply view_self; eauto | done | |].
      * intros j Hne. rewrite (view_other i j (OPut i buf q) q) by eauto. destruct q'; cbn; by rewrite ?decide_False by done.
      * destruct q'; cbn; rewrite ?decide_True by done; eauto.
    + apply (ptrs_move _ Us _ ps th _ _ Hpt Hp); [| by destruct q'].
      intros j x Hx. destruct (decide (j = i)) as [-> | Hne]; [rewrite upd_eq in Hx | by rewrite upd_ne in Hx].
      by apply list_elem_of_filter in Hx as [_ ?].
  - exists (upd Us (Z.to_nat box) (Us (Z.to_nat box))). split.
    + apply (boxes_enter s ps Us th _ _ (Z.to_nat box) Monitor.Op_RemoveFront _ Hb Hp); [done | by cbn; rewrite decide_True | | done | done].
      intros j Hne. cbn. by rewrite decide_False.
    + apply (ptrs_move _ Us _ ps th _ _ Hpt Hp); [| done].
      intros j x Hx. destruct (decide (j = Z.to_nat box)) as [-> | Hne]; [by rewrite upd_eq in Hx | by rewrite upd_ne in Hx].
  - eexists. split.
    + apply (boxes_step s ps Us th _ _ i m q m' q' Hb Hp Hm); [by apply view_self; eauto | done | |].
      * intros j Hne. rewrite (view_other i j (OGet i q) q) by eauto. destruct q'; cbn; by rewrite ?decide_False by done.
      * destruct q'; cbn; rewrite ?decide_True by done; eauto.
    + destruct (get_carries th m q m' q' i ltac:(apply Hf) Hq) as [(a & l & -> & Hit & Hit' & ->) | Hca].
      * pose proof (SynchLists.ow_fresh _ _ _ (Hb i m Hm)) as Hfr.
        assert (a ∈ Monitor.items m) as Hin by (rewrite Hit; by left).
        apply (ptrs_take _ Us ps th _ _ i a _ Hpt Hp); [done | by apply (SynchLists.fr_items _ _ _ Hfr) |].
        intros x [Hx HxU]%list_elem_of_filter. split; [done |]. intros ->. apply Hx. split; [done |].
        pose proof (SynchLists.fr_nodup _ _ _ Hfr) as Hnd. rewrite Hit in Hnd. rewrite Hit'. by apply NoDup_cons in Hnd as [? _].
      * apply (ptrs_move _ Us _ ps th _ _ Hpt Hp); [| exact Hca].
        intros j x Hx. destruct (decide (j = i)) as [-> | Hne]; [rewrite upd_eq in Hx | by rewrite upd_ne in Hx].
        by apply list_elem_of_filter in Hx as [_ ?].
  - exists Us. split; [by apply (boxes_quiet s _ ps Us th _ _ Hb Hp) | by apply (ptrs_delete _ Us ps th _ _ a Hpt Hp)].
Qed.

(** *** The messages on their way *)

Definition fetch (L : list (option Mail.t)) (l : list nat) : list Mail.t := omap (fun a => L !! a ≫= id) l.
Definition sent (pkt : list Z) : nat * Mail.t := (box_of pkt, mail_of pkt).
Definition to_box (i : nat) (l : list (nat * Mail.t)) : list Mail.t := snd <$> filter (fun x => x.1 = i) l.

(** What the worker has in hand. *)
Definition working (L : list (option Mail.t)) (p : point) : list (nat * Mail.t) :=
  match p with
  | OMail i hdr mh data _ => match Mail.create hdr mh data with Ok mail => [(i, mail)] | Fault _ => [] end
  | OPut i _ q => match SynchLists.brings q with Some a => (fun m => (i, m)) <$> fetch L [a] | None => [] end
  | _ => []
  end.
Definition flight (s : t) (ps : list point) (cur : option (list Z)) : list (nat * Mail.t) :=
  match ps !! 0%nat with Some p => working (mails s) p | None => [] end ++
  match cur with Some pkt => [sent pkt] | None => [] end ++ (sent <$> NetworkInput.socket (network s)).

(** What a step took out of the box [i]. *)
Definition removed (m m' : Monitor.t nat) : list nat :=
  match Monitor.items m with a :: l => if decide (Monitor.items m' = l) then [a] else [] | [] => [] end.
Definition took (i : nat) (s s' : t) : list Mail.t :=
  match boxes s !! i, boxes s' !! i with Some m, Some m' => fetch (mails s) (removed m m') | _, _ => [] end.

(** Every message that arrived for a box was received from it, is in it, or is
    on its way, in this order. *)
Definition flow_ok (s : t) (ps : list point) (cur : option (list Z)) (arrived : list (list Z)) (got : nat -> list Mail.t) : Prop :=
  forall i m, boxes s !! i = Some m ->
    to_box i (sent <$> arrived) = got i ++ fetch (mails s) (Monitor.items m) ++ to_box i (flight s ps cur).

Lemma to_box_app i l l' : to_box i (l ++ l') = to_box i l ++ to_box i l'.
Proof. unfold to_box. by rewrite filter_app, fmap_app. Qed.
Lemma to_box_other i j l : i <> j -> to_box i ((fun m => (j, m)) <$> l) = [].
Proof. intros Hne. unfold to_box. induction l as [| m l IH]; [done |]. rewrite fmap_cons, filter_cons_False; [exact IH | cbn; congruence]. Qed.
Lemma to_box_self i l : to_box i ((fun m => (i, m)) <$> l) = l.
Proof. unfold to_box. induction l as [| m l IH]; [done |]. rewrite fmap_cons, filter_cons_True by done. rewrite fmap_cons, IH. done. Qed.

Lemma removed_same m m' : Monitor.items m' = Monitor.items m -> removed m m' = [].
Proof.
  unfold removed. intros ->. destruct (Monitor.items m) as [| a l]; [done |]. rewrite decide_False; [done |].
  intros E. apply (f_equal length) in E. cbn in E. lia.
Qed.
Lemma removed_more m m' a : Monitor.items m' = Monitor.items m ++ [a] -> removed m m' = [].
Proof.
  unfold removed. intros ->. destruct (Monitor.items m) as [| b l]; [done |]. rewrite decide_False; [done |].
  intros E. apply (f_equal length) in E. rewrite length_app in E. cbn in E. lia.
Qed.
Lemma removed_one m m' a : Monitor.items m = a :: Monitor.items m' -> removed m m' = [a].
Proof. unfold removed. intros ->. by rewrite decide_True. Qed.

(** What a step has to preserve. *)
Definition flows (s : t) (ps : list point) cur (s' : t) (ps' : list point) cur' : Prop :=
  forall i m', boxes s' !! i = Some m' -> exists m, boxes s !! i = Some m /\
    fetch (mails s) (Monitor.items m) ++ to_box i (flight s ps cur) =
    took i s s' ++ fetch (mails s') (Monitor.items m') ++ to_box i (flight s' ps' cur').

Lemma flow_next s ps cur s' ps' cur' arrived got : flow_ok s ps cur arrived got -> flows s ps cur s' ps' cur' ->
  flow_ok s' ps' cur' arrived (fun i => got i ++ took i s s').
Proof.
  intros Hf Hs i m' Hm'. destruct (Hs i m' Hm') as (m & Hm & E). by rewrite (Hf i m Hm), E, <- !app_assoc.
Qed.

(** Nothing happens in the box [i]. *)
Lemma flow_quiet s ps cur s' ps' cur' i m : boxes s !! i = Some m -> boxes s' !! i = Some m ->
  fetch (mails s') (Monitor.items m) = fetch (mails s) (Monitor.items m) ->
  to_box i (flight s' ps' cur') = to_box i (flight s ps cur) ->
  fetch (mails s) (Monitor.items m) ++ to_box i (flight s ps cur) =
  took i s s' ++ fetch (mails s') (Monitor.items m) ++ to_box i (flight s' ps' cur').
Proof. intros Hm Hm' Ef Et. unfold took. rewrite Hm, Hm', removed_same by done. by rewrite Ef, Et. Qed.

Lemma fetch_same L L' l : (forall a, a ∈ l -> L' !! a = L !! a) -> fetch L' l = fetch L l.
Proof.
  intros Hl. unfold fetch. induction l as [| a l IH]; [done |]. cbn. rewrite Hl by (by left).
  rewrite IH; [done |]. intros b Hb. apply Hl. by right.
Qed.

Lemma item_owned s ps Us i m a : boxes_ok s ps Us -> boxes s !! i = Some m -> a ∈ Monitor.items m -> a ∈ Us i.
Proof. intros Hb Hm. apply (SynchLists.fr_items _ _ _ (SynchLists.ow_fresh _ _ _ (Hb i m Hm))). Qed.

Lemma flight_other s s' ps cur th p' : th <> 0%nat -> network s' = network s ->
  (forall p0, ps !! 0%nat = Some p0 -> working (mails s') p0 = working (mails s) p0) ->
  flight s' (<[th := p']> ps) cur = flight s ps cur.
Proof.
  intros Hne En Hw. unfold flight. rewrite list_lookup_insert_ne, En by done.
  destruct (ps !! 0%nat) as [p0 |]; [by rewrite Hw | done].
Qed.

Lemma flight_worker s s' ps cur p p' i : ps !! 0%nat = Some p -> network s' = network s ->
  to_box i (working (mails s') p') = to_box i (working (mails s) p) ->
  to_box i (flight s' (<[0%nat := p']> ps) cur) = to_box i (flight s ps cur).
Proof.
  intros Hp En Hw. unfold flight. rewrite list_lookup_insert_eq, Hp, En by (by eapply lookup_lt_Some).
  by rewrite !(to_box_app i (working _ _)), Hw.
Qed.

Lemma avail_same s s' ps cur th p p' : avail_ok s ps cur -> ps !! th = Some p -> token p' = token p ->
  messageAvailable s' = messageAvailable s -> avail_ok s' (<[th := p']> ps) cur.
Proof. intros [Ha Ht] Hp E Em. split; rewrite Em; [done |]. by rewrite (total_same token ps th p). Qed.

(** The worker puts its message into the box, or goes on to do so. *)
Lemma put_flow L th m q m' q' i buf : putting q = true -> SynchLists.next th m q m' q' ->
  (exists a, q = SynchLists.PInsert a /\ Monitor.items m' = Monitor.items m ++ [a] /\ working L (put_to i buf q') = []) \/
  (Monitor.items m' = Monitor.items m /\ working L (put_to i buf q') = working L (OPut i buf q)).
Proof.
  intros Hq Hn. destruct Hn; try done; try (right; by split); [right; split; [done | by destruct o] | left; eauto].
Qed.

(** A thread takes a message out of the box, or goes on to do so. *)
Lemma get_flow th m q m' q' : getting q = true -> SynchLists.next th m q m' q' ->
  (exists a, q = SynchLists.PLoop /\ q' = SynchLists.PLeave [a] /\ Monitor.items m = a :: Monitor.items m') \/ Monitor.items m' = Monitor.items m.
Proof. intros Hq Hn. destruct Hn; try done; try (by right). left. eauto. Qed.

Lemma token_put i buf q : token (put_to i buf q) = 0%nat.
Proof. by destruct q. Qed.
Lemma token_get i q : token (get_to i q) = 0%nat.
Proof. by destruct q. Qed.

Lemma working_other L i j buf q : j <> i -> to_box j (working L (OPut i buf q)) = [].
Proof. intros Hne. cbn. destruct (SynchLists.brings q); [by apply to_box_other | done]. Qed.
Lemma working_put_other L i j buf q : j <> i -> to_box j (working L (put_to i buf q)) = [].
Proof. intros Hne. destruct q; cbn [put_to]; try (by apply working_other); done. Qed.

Lemma flows_put s ps cur i buf q m m' q' : ps !! 0%nat = Some (OPut i buf q) -> boxes s !! i = Some m -> putting q = true ->
  SynchLists.next 0 m q m' q' -> flows s ps cur (with_box s i m') (<[0%nat := put_to i buf q']> ps) cur.
Proof.
  intros Hp Hm Hq Hn j mj Hj. cbn in Hj. pose proof (put_flow (mails s) 0 m q m' q' i buf Hq Hn) as Hf.
  destruct (decide (j = i)) as [-> | Hne].
  - rewrite list_lookup_insert_eq in Hj by (by eapply lookup_lt_Some). injection Hj as <-. exists m. split; [done |].
    unfold took. cbn. rewrite Hm, list_lookup_insert_eq by (by eapply lookup_lt_Some).
    destruct Hf as [(a & -> & Hit & Hw) | [Hit Hw]].
    + rewrite (removed_more m m' a Hit), Hit. cbn. unfold flight. rewrite list_lookup_insert_eq, Hp by (by eapply lookup_lt_Some).
      cbn [mails with_box network]. rewrite Hw, (to_box_app i (working _ _)). cbn [working SynchLists.brings]. rewrite to_box_self.
      unfold fetch. by rewrite omap_app, <- app_assoc.
    + rewrite (removed_same m m' Hit), Hit. cbn. f_equal. symmetry. by apply (flight_worker s (with_box s i m') ps cur _ _ i Hp); [| cbn; rewrite Hw].
  - rewrite list_lookup_insert_ne in Hj by done. exists mj. split; [done |].
    apply flow_quiet; [done | cbn; by rewrite list_lookup_insert_ne | done |].
    apply (flight_worker s (with_box s i m') ps cur _ _ j Hp); [done |]. cbn [mails with_box].
    by rewrite working_put_other, working_other.
Qed.

Lemma flows_get s ps cur th i q m m' q' : th <> 0%nat -> ps !! th = Some (OGet i q) -> boxes s !! i = Some m -> getting q = true ->
  SynchLists.next th m q m' q' -> flows s ps cur (with_box s i m') (<[th := get_to i q']> ps) cur.
Proof.
  intros Hth Hp Hm Hq Hn j mj Hj. cbn in Hj. pose proof (get_flow th m q m' q' Hq Hn) as Hf.
  assert (flight (with_box s i m') (<[th := get_to i q']> ps) cur = flight s ps cur) as Hfl by (by apply flight_other).
  destruct (decide (j = i)) as [-> | Hne].
  - rewrite list_lookup_insert_eq in Hj by (by eapply lookup_lt_Some). injection Hj as <-. exists m. split; [done |].
    rewrite Hfl. unfold took. cbn. rewrite Hm, list_lookup_insert_eq by (by eapply lookup_lt_Some).
    destruct Hf as [(a & _ & _ & Hit) | Hit].
    + rewrite (removed_one m m' a Hit), Hit. unfold fetch. by rewrite app_assoc, <- omap_app.
    + by rewrite (removed_same m m' Hit), Hit.
  - rewrite list_lookup_insert_ne in Hj by done. exists mj. split; [done |].
    apply flow_quiet; [done | cbn; by rewrite list_lookup_insert_ne | done | by rewrite Hfl].
Qed.

Lemma flows_boxes_same s ps cur s' ps' cur' : boxes s' = boxes s ->
  (forall i m, boxes s !! i = Some m -> fetch (mails s') (Monitor.items m) = fetch (mails s) (Monitor.items m)) ->
  (forall i, to_box i (flight s' ps' cur') = to_box i (flight s ps cur)) -> flows s ps cur s' ps' cur'.
Proof.
  intros Eb Ef Et i m Hm. rewrite Eb in Hm. exists m. split; [done |].
  apply flow_quiet; [done | by rewrite Eb | by apply (Ef i) | apply Et].
Qed.

Record net_step (nb : nat) (host : Z) (s : t) ps cur (s' : t) ps' cur' : Prop := {
  ns_flows : flows s ps cur s' ps' cur';
  ns_avail : avail_ok s' ps' cur';
  ns_input : input_ok nb host (network s') cur';
}.

Lemma net_take s ps nb host cur buf hdr buf' n mh : avail_ok s ps cur -> input_ok nb host (network s) cur ->
  ps !! 0%nat = Some (OTake buf) -> length buf = 52%nat ->
  NetworkInput.Receive buf (network s) = Ok (hdr, buf', n) -> mh = mail_header (slice 0 12 buf') ->
  net_step nb host s ps cur (with_network s n (bus s)) (<[0%nat := OMail (Z.to_nat (mail_to mh)) hdr mh (drop 12 buf') buf']> ps) None.
Proof.
  intros Ha Hin Hp Hb Hr Hmh. destruct (woken s ps 0 buf nb host cur Ha Hin Hp Hb) as (pkt & data & -> & Hl & Hr' & Hd & Hh & Hc).
  rewrite Hr in Hr'. injection Hr' as -> -> ->. rewrite Hh in Hmh. subst mh.
  split; [| |].
  - apply flows_boxes_same; [done | done |]. intros i. unfold flight. rewrite list_lookup_insert_eq, Hp by (by eapply lookup_lt_Some).
    cbn. by rewrite Hc.
  - destruct Ha as [Ha Ht]. split; [done |]. cbn [messageAvailable with_network].
    match goal with |- context [<[0%nat := ?q]> ps] => pose proof (total_insert token ps 0 _ q Hp) as Hi end.
    cbn [token] in Hi. lia.
  - destruct Hin as [Hi Hs _]. split; [done | done | done].
Qed.

Lemma net_mail s ps Us nb host cur i hdr mh data buf mail : boxes_ok s ps Us -> ptrs_ok (mails s) Us ps ->
  avail_ok s ps cur -> input_ok nb host (network s) cur -> ps !! 0%nat = Some (OMail i hdr mh data buf) -> Mail.create hdr mh data = Ok mail ->
  net_step nb host s ps cur (with_mails s (mails s ++ [Some mail]))
    (<[0%nat := OPut i buf (SynchLists.PGive (Monitor.Op_Append (length (mails s))))]> ps) cur.
Proof.
  intros Hb Hpt Ha Hin Hp Hm. split; [| by apply (avail_same s _ ps cur 0 _ _ Ha Hp) | done].
  apply flows_boxes_same; [done | |].
  - intros j m Hj. apply fetch_same. intros a Hin'. cbn.
    destruct (pt_live _ _ _ Hpt j a (item_owned s ps Us j m a Hb Hj Hin')) as (mm & Hmm & _).
    rewrite Hmm. by apply lookup_app_l_Some.
  - intros j. apply (flight_worker s _ ps cur _ _ j Hp); [done |]. cbn. rewrite Hm. unfold fetch. cbn.
    by rewrite list_lookup_middle.
Qed.

Lemma net_finish s ps Us nb host cur th a mail : boxes_ok s ps Us -> ptrs_ok (mails s) Us ps -> avail_ok s ps cur ->
  input_ok nb host (network s) cur -> (forall th p, ps !! th = Some p -> fits (length (boxes s)) th p) ->
  th <> 0%nat -> ps !! th = Some (OFinish [a]) ->
  net_step nb host s ps cur (with_mails s (<[a := None]> (mails s))) (<[th := OIdle mail]> ps) cur.
Proof.
  intros Hb Hpt Ha Hin Hfit Hth Hp. destruct (pt_carry _ _ _ Hpt th _ a Hp eq_refl) as [_ Hna].
  split; [| by apply (avail_same s _ ps cur th _ _ Ha Hp) | done]. apply flows_boxes_same; [done | |].
  - intros j m Hj. apply fetch_same. intros b Hin'. cbn. apply list_lookup_insert_ne. intros <-.
    by apply (Hna j), (item_owned s ps Us j m).
  - intros j. f_equal. apply flight_other; [done | done |]. intros p0 Hp0. destruct p0 as [| | | | | i buf q | | |]; try done.
    destruct (Hfit 0%nat _ Hp0) as (_ & _ & [m Hm]%lookup_lt_is_Some & _).
    cbn. destruct (SynchLists.brings q) as [x |] eqn:Hq; [| done]. unfold fetch. cbn. rewrite list_lookup_insert_ne; [done |]. intros E.
    pose proof (view_at i ps 0 _ Hp0) as Hv. rewrite (view_self i _ q) in Hv by eauto.
    pose proof (SynchLists.fr_brings _ _ _ (SynchLists.ow_fresh _ _ _ (Hb i m Hm)) 0%nat q x Hv Hq) as [Hx _].
    apply (Hna i). by rewrite E.
Qed.

Lemma net_next s ps Us th p s' p' nb host cur : boxes_ok s ps Us -> ptrs_ok (mails s) Us ps -> avail_ok s ps cur ->
  input_ok nb host (network s) cur -> nb = length (boxes s) -> (forall th p, ps !! th = Some p -> fits nb th p) ->
  ps !! th = Some p -> next th s p s' p' -> exists cur', net_step nb host s ps cur s' (<[th := p']> ps) cur'.
Proof.
  intros Hb Hpt Ha Hin Hnb Hfit Hp Hn. pose proof (Hfit th p Hp) as Hf. destruct Hn as [buf | buf Hv | buf hdr buf' n mh Hr Hmh | i hdr mh data buf mail Hm | i buf q m m' q' Hm Hq | box Hbox | i q m m' q' Hm Hq | a mail Ha']; cbn in Hf.
  - exists cur. destruct Hf as [-> _]. split; [| by apply (avail_same s _ ps cur 0 _ _ Ha Hp) | done].
    apply flows_boxes_same; [done | done |]. intros i. by apply (flight_worker s s ps cur _ _ i Hp).
  - exists cur. destruct Hf as [-> _]. split; [| | done].
    + apply flows_boxes_same; [done | done |]. intros i. by apply (flight_worker s _ ps cur _ _ i Hp).
    + destruct Ha as [Ha Ht]. pose proof (total_insert token ps 0 _ (OTake buf) Hp) as Hi. cbn in Hi. split; cbn; lia.
  - exists None. destruct Hf as [-> Hb']. by apply (net_take s ps nb host cur buf).
  - exists cur. destruct Hf as [-> _]. by apply (net_mail s ps Us nb host cur i hdr mh data buf mail).
  - exists cur. destruct Hf as (-> & _ & _ & Hq'). split; [by apply (flows_put s ps cur i buf q m m' q' Hp) | | done].
    apply (avail_same s _ ps cur 0 _ _ Ha Hp); [apply token_put | done].
  - exists cur. split; [| by apply (avail_same s _ ps cur th _ _ Ha Hp) | done].
    apply flows_boxes_same; [done | done |]. intros i. f_equal. by apply flight_other.
  - exists cur. destruct Hf as (Hth & _ & Hq'). split; [by apply (flows_get s ps cur th i q m m' q' Hth Hp) | | done].
    apply (avail_same s _ ps cur th _ _ Ha Hp); [apply token_get | done].
  - exists cur. destruct Hf as [Hth _]. apply (net_finish s ps Us); try done. by rewrite <- Hnb.
Qed.

(** ** The code takes these steps *)

Record good (host : Z) (s : t) (ps : list point) (Us : nat -> list nat) (cur : option (list Z)) : Prop := {
  gd_boxes : boxes_ok s ps Us;
  gd_ptrs : ptrs_ok (mails s) Us ps;
  gd_avail : avail_ok s ps cur;
  gd_input : input_ok (length (boxes s)) host (network s) cur;
  gd_fits : forall th p, ps !! th = Some p -> fits (length (boxes s)) th p;
  gd_worker : is_Some (ps !! 0%nat);
}.

Lemma next_boxes th s p s' p' : next th s p s' p' -> length (boxes s') = length (boxes s).
Proof. intros Hn. destruct Hn; cbn; try done; apply length_insert. Qed.

Lemma good_next host s ps Us cur th p s' p' : good host s ps Us cur -> ps !! th = Some p -> next th s p s' p' ->
  exists Us' cur', good host s' (<[th := p']> ps) Us' cur' /\ flows s ps cur s' (<[th := p']> ps) cur'.
Proof.
  intros [Hb Hpt Ha Hin Hf Hw] Hp Hn. pose proof (next_boxes _ _ _ _ _ Hn) as Hlen.
  destruct (owners_next s ps Us th p s' p' _ Hb Hpt (Hf th p Hp) Hp Hn) as (Us' & Hb' & Hpt').
  destruct (net_next s ps Us th p s' p' _ host cur Hb Hpt Ha Hin eq_refl Hf Hp Hn) as (cur' & [Hfl Ha' Hin']).
  exists Us', cur'. split; [| exact Hfl]. split; [exact Hb' | exact Hpt' | exact Ha' | rewrite Hlen; exact Hin' | rewrite Hlen |
    by apply lookup_lt_is_Some; rewrite length_insert; apply lookup_lt_is_Some].
  intros th1 p1 H1. destruct (move_lookup _ _ _ _ _ _ Hp H1) as [[-> ->] | [_ ?]]; [| by apply Hf].
  apply (fits_next s ps th p s' p' _ host cur); auto.
Qed.

Section code.
Context (host : Z).
#[local] Instance office : Component t semref received loop Z happening := component host.
#[local] Notation advance := (Procs.advance (Component0 := component host)).

Ltac took q := cbn; intros [= <-]; left; eexists _, q; split; [reflexivity | by econstructor].

Lemma box_advance s ps Us cur th i cont p q r : good host s ps Us cur -> ps !! th = Some p -> (i < length (boxes s))%nat ->
  view i p = q -> (forall got, q <> SynchLists.PIdle got) -> (q = SynchLists.PLoop -> cont = finish) ->
  advance th (lift i cont (SynchLists.denote th q)) s = Some r ->
  exists m m' q', boxes s !! i = Some m /\ r = Ok (with_box s i m', lift i cont (SynchLists.denote th q')) /\ SynchLists.next th m q m' q'.
Proof.
  intros Hg Hp [m Hm]%lookup_lt_is_Some Hq Hni Hl. rewrite (advance_lift host i cont th _ s m Hm).
  - destruct (Procs.advance th (SynchLists.denote th q) m) as [r' |] eqn:Hr; [| done]. cbn.
    pose proof (view_at i ps th p Hp) as Hv. rewrite Hq in Hv.
    destruct (SynchLists.owned_advance m (Us i) _ th q r' (gd_boxes _ _ _ _ _ Hg i m Hm) Hv Hr) as (m' & q' & -> & Hn).
    intros [= <-]. exists m, m', q'. done.
  - intros l E. apply Hl. destruct q as [| [] | [] | | | | | | | | | | | | | |]; done.
  - destruct q as [got | [] | [] | | | | | | | | | | | | | |]; try done. by destruct (Hni got).
Qed.

Lemma advance_office s ps Us cur th p r : good host s ps Us cur -> ps !! th = Some p -> advance th (denote th p) s = Some r ->
  (exists s' p', r = Ok (s', denote th p') /\ next th s p s' p') \/
  (exists box, p = OAsk box /\ ~ (0 <= box < Z.of_nat (length (boxes s))) /\ r = Fault AssertFailure).
Proof.
  intros Hg Hp. pose proof (gd_fits _ _ _ _ _ Hg th p Hp) as Hf.
  destruct p as [got | buf | buf | buf | i hdr mh data buf | i buf q | box | i q | got]; cbn in Hf.
  - done.
  - took (OWait buf).
  - cbn. destruct (Z.eqb_spec (messageAvailable s) 0); [done | took (OTake buf)].
  - destruct Hf as [_ Hb].
    destruct (woken s ps th buf _ host cur (gd_avail _ _ _ _ _ Hg) (gd_input _ _ _ _ _ Hg) Hp Hb) as (pkt & data & _ & Hl & Hr & Hd & Hh & _).
    cbn [denote deliver Procs.advance]. rewrite Hr. cbn [mbind res_bind]. unfold sizeof_MailHeader. rewrite bcopy_from_Ok by lia.
    cbn [mbind res_bind]. change (slice (Z.to_nat 0) (Z.to_nat 12) data) with (slice 0 12 data). rewrite Hh.
    pose proof (lt_box _ _ _ Hl). pose proof (lt_mail _ _ _ Hl). rewrite (ASSERT_true (_ && _)) by (cbn [boxes with_network]; lia).
    cbn [mbind res_bind]. rewrite ASSERT_true by (unfold MaxMailSize, MaxPacketSize, MaxWireSize, sizeof_PacketHeader, sizeof_MailHeader; lia).
    cbn [mbind res_bind]. intros [= <-]. left. eexists _, (OMail (Z.to_nat (mail_to (header_of pkt))) (packet_header pkt) (header_of pkt) (drop 12 data) data).
    split; [reflexivity |]. by apply (next_take th s buf _ data _ (header_of pkt)).
  - destruct Hf as (_ & _ & _ & _ & mail & Hm). cbn [denote Put Procs.advance]. rewrite Hm. cbn [mbind res_bind]. intros [= <-]. left.
    eexists _, (OPut i buf (SynchLists.PGive (Monitor.Op_Append (length (mails s))))). split; [reflexivity | by constructor].
  - destruct Hf as (_ & _ & Hi & Hq). intros Hr. cbn [denote] in Hr.
    destruct (box_advance s ps Us cur th i (fun _ => Loop (Deliver buf)) _ q r Hg Hp Hi) as (m & m' & q' & Hm & -> & Hn);
      [by apply view_self; eauto | by destruct q | by destruct q | exact Hr |].
    left. exists (with_box s i m'), (put_to i buf q'). split; [by rewrite denote_put_to | by apply (next_put th s i buf q m)].
  - cbn [denote Receive Procs.advance]. destruct (decide (0 <= box < Z.of_nat (length (boxes s)))) as [Hbox | Hbox].
    2: { rewrite ASSERT_false by lia. intros [= <-]. right. by exists box. }
    rewrite ASSERT_true by lia. cbn [mbind res_bind]. intros [= <-]. left.
    eexists _, (OGet (Z.to_nat box) (SynchLists.PGive Monitor.Op_RemoveFront)). split; [reflexivity | constructor; lia].
  - destruct Hf as (_ & Hi & Hq). intros Hr. cbn [denote] in Hr.
    destruct (box_advance s ps Us cur th i finish _ q r Hg Hp Hi) as (m & m' & q' & Hm & -> & Hn);
      [by apply view_self; eauto | by destruct q | done | exact Hr |].
    left. exists (with_box s i m'), (get_to i q'). split; [by rewrite denote_get_to | by apply (next_get th s i q m)].
  - destruct Hf as (_ & a & ->). destruct (pt_carry _ _ _ (gd_ptrs _ _ _ _ _ Hg) th _ a Hp eq_refl) as [(mail & Hm & Hlen) _].
    cbn [denote finish Procs.advance head deref mbind res_bind]. rewrite Hm. cbn [deref mbind res_bind].
    rewrite ASSERT_true by (unfold MaxMailSize, MaxPacketSize, MaxWireSize, sizeof_PacketHeader, sizeof_MailHeader; lia).
    cbn [mbind res_bind]. intros [= <-]. left. eexists _, (OIdle _). split; [reflexivity |]. by apply next_finish.
Qed.

(** ** The network device *)

(** What arrived with an event. *)
Definition arrives (e : event Z happening) : list (list Z) := match e with Device (Arrive pkt) => [pkt] | _ => [] end.

(** What arrives are letters for boxes there are. *)
Definition admissible (nb : nat) (e : event Z happening) : Prop :=
  match e with Device (Arrive pkt) => letter nb host pkt | _ => True end.

Lemma good_interrupt s ps Us cur b : good host s ps Us cur ->
  exists s' cur', handle host s b = Ok s' /\ good host s' ps Us cur' /\ flows s ps cur s' ps cur' /\ boxes s' = boxes s /\ mails s' = mails s.
Proof.
  intros [Hb Hpt [Ha Ht] [Hi Hs Hc] Hf Hw]. unfold handle.
  destruct cur as [pkt |].
  - destruct Hc as [Hl Hbuf]. assert (NetworkInput.CallBack host (network s) b = Ok (network s, Bus.mk (stats b) (asked b ++ [(totalTicks (stats b) + NetworkTime, NetworkRecvInt)]), false)) as ->.
    { unfold NetworkInput.CallBack, Bus.Schedule. rewrite ASSERT_true by done. cbn [mbind res_bind].
      destruct Hbuf as (-> & _). rewrite (lt_length _ _ _ Hl). pose proof (lt_mail _ _ _ Hl).
      by rewrite (proj2 (Z.eqb_neq _ _)) by lia. }
    eexists _, (Some pkt). split; [reflexivity |]. split; [by split |]. by split; [apply flows_boxes_same |].
  - destruct (NetworkInput.socket (network s)) as [| pkt rest] eqn:Hq.
    + assert (NetworkInput.CallBack host (network s) b = Ok (network s, Bus.mk (stats b) (asked b ++ [(totalTicks (stats b) + NetworkTime, NetworkRecvInt)]), false)) as ->.
      { unfold NetworkInput.CallBack, Bus.Schedule. rewrite ASSERT_true by done. cbn [mbind res_bind]. by rewrite Hc, Hq. }
      eexists _, None. split; [reflexivity |]. split; [| by split; [apply flows_boxes_same |]]. split; try done. split; cbn; [done | by rewrite Hq | done].
    + apply Forall_cons in Hs as [Hl Hs].
      destruct (CallBack_letter host _ (network s) b pkt rest Hl Hc Hi Hq) as (n' & b' & -> & Hbuf & Hrest).
      eexists _, (Some pkt). split; [reflexivity |]. split.
      * split; [done | done | split; cbn; lia | split; cbn; [apply Hbuf | by rewrite Hrest | done] | done | done].
      * split; [| done]. apply flows_boxes_same; [done | done |]. intros i. f_equal. unfold flight. cbn. by rewrite Hq, Hrest.
Qed.

Lemma good_arrive s ps Us cur pkt : good host s ps Us cur -> letter (length (boxes s)) host pkt ->
  let n := network s in
  let s' := with_network s (NetworkInput.mk (NetworkInput.inHdr n) (NetworkInput.inbox n) (NetworkInput.socket n ++ [pkt])) (bus s) in
  good host s' ps Us cur /\ forall i, to_box i (flight s' ps cur) = to_box i (flight s ps cur) ++ to_box i [sent pkt].
Proof.
  intros [Hb Hpt Ha [Hi Hs Hc] Hf Hw] Hl. cbv zeta. split.
  - split; [done | done | done | split; [done | apply Forall_app; by split; [| apply Forall_singleton] | done] | done | done].
  - intros i. rewrite <- to_box_app. unfold flight. cbn [mails network with_network NetworkInput.socket].
    by rewrite fmap_app, <- !app_assoc.
Qed.

(** ** Runs *)

(** What happened so far: the messages taken out of every box, by which thread;
    the calls of [Receive] a thread came back from, with the box and the result;
    and the box it asked for last. *)
Record history := mkHistory {
  taken : nat -> list (nat * Mail.t);
  answers : nat -> list (Z * received);
  asked_for : nat -> Z;
}.
Definition nothing : history := mkHistory (fun _ => []) (fun _ => []) (fun _ => 0).

Definition note (h : history) (e : event Z happening) (s s' : sys) : history :=
  match e with
  | Run th =>
      mkHistory (fun i => taken h i ++ (pair th <$> took i (mon s) (mon s')))
        (match threads s' !! th with
         | Some (Idle got) => upd (answers h) th (answers h th ++ [(asked_for h th, got)])
         | _ => answers h
         end)
        (asked_for h)
  | Start th box => mkHistory (taken h) (answers h) (upd (asked_for h) th box)
  | Device _ => h
  end.

(** The messages the thread [th] took; the results of its calls for the box [i];
    a message as the result of [Receive]. *)
Definition by_thread (th : nat) (l : list (nat * Mail.t)) : list Mail.t := snd <$> filter (fun x => x.1 = th) l.
Definition results (i : nat) (l : list (Z * received)) : list received := snd <$> filter (fun x => x.1 = Z.of_nat i) l.
Definition answer (m : Mail.t) : received := Some (Mail.pktHdr m, Mail.mailHdr m, Mail.data m).

(** The message a thread has in hand. *)
Definition holding (L : list (option Mail.t)) (p : point) : list Mail.t :=
  match carries p with Some a => fetch L [a] | None => [] end.

Definition asks (nb : nat) (p : point) (box : Z) : Prop :=
  match p with
  | OAsk b => box = b
  | OGet i _ => box = Z.of_nat i
  | OFinish _ => 0 <= box < Z.of_nat nb
  | _ => True
  end.

Record log_ok (nb : nat) (s : t) (ps : list point) (h : history) : Prop := {
  lo_asks th p : ps !! th = Some p -> asks nb p (asked_for h th);
  lo_boxes th : Forall (fun x => 0 <= x.1 < Z.of_nat nb) (answers h th);
  lo_taken th p i : ps !! th = Some p -> answer <$> by_thread th (taken h i) =
    results i (answers h th) ++ (if decide (asked_for h th = Z.of_nat i) then answer <$> holding (mails s) p else []);
}.

Definition ok (nb : nat) (s : sys) (arrived : list (list Z)) (h : history) : Prop :=
  exists ps Us cur, at_points denote (threads s) ps /\ good host (mon s) ps Us cur /\ length (boxes (mon s)) = nb /\
    flow_ok (mon s) ps cur arrived (fun i => (taken h i).*2) /\ log_ok nb (mon s) ps h.

(** The states of the office, with the packets that arrived and what happened. *)
Inductive reach (nb n : nat) : sys -> list (list Z) -> history -> Prop :=
  | reach_start garbage buffer (s : sys) : length garbage.2 = 52%nat -> length buffer = 52%nat ->
      PostOfficeInput.create nb n garbage buffer = Ok s -> reach nb n s [] nothing
  | reach_step (s : sys) arrived h e (s' : sys) : reach nb n s arrived h -> admissible nb e -> step s e = Some (Ok s') ->
      reach nb n s' (arrived ++ arrives e) (note h e s s').

Lemma took_same i s s' : boxes s' = boxes s -> took i s s' = [].
Proof. intros E. unfold took. rewrite E. destruct (boxes s !! i); [by rewrite removed_same | done]. Qed.

Lemma by_thread_app th l l' : by_thread th (l ++ l') = by_thread th l ++ by_thread th l'.
Proof. unfold by_thread. by rewrite filter_app, fmap_app. Qed.
Lemma by_thread_pair th th' l : by_thread th (pair th' <$> l) = if decide (th' = th) then l else [].
Proof.
  unfold by_thread. induction l as [| m l IH]; [by case_decide |]. rewrite fmap_cons.
  case_decide as E; [rewrite filter_cons_True by done | rewrite filter_cons_False by done]; [| exact IH].
  by rewrite fmap_cons, IH.
Qed.
Lemma results_snoc i l b r : results i (l ++ [(b, r)]) = results i l ++ (if decide (b = Z.of_nat i) then [r] else []).
Proof.
  unfold results. rewrite filter_app, fmap_app. f_equal.
  case_decide; [by rewrite filter_cons_True | by rewrite filter_cons_False].
Qed.

(** What a step does to the message in hand: it is given back, or one is taken
    out of the box the thread is at. *)
Definition at_box (p : point) : option nat := match p with OGet i _ => Some i | _ => None end.

Lemma took_box i m m' s j : boxes s !! i = Some m ->
  took j s (with_box s i m') = if decide (j = i) then fetch (mails s) (removed m m') else [].
Proof.
  intros Hm. unfold took. cbn. case_decide as E.
  - subst j. by rewrite Hm, list_lookup_insert_eq by (by eapply lookup_lt_Some).
  - rewrite list_lookup_insert_ne by done. destruct (boxes s !! j); [by rewrite removed_same | done].
Qed.

Lemma hand_next th s p s' p' nb : next th s p s' p' -> fits nb th p ->
  (exists a mail, p = OFinish [a] /\ mails s !! a = Some (Some mail) /\ p' = OIdle (answer mail) /\ boxes s' = boxes s) \/
  (exists l, holding (mails s') p' = holding (mails s) p ++ l /\ (at_box p = None -> l = []) /\ (forall g, p' <> OIdle g) /\
     forall i, took i s s' = if decide (at_box p = Some i) then l else []).
Proof.
  intros Hn Hf. destruct Hn as [buf | buf Hv | buf hdr buf' n mh Hr Hmh | i hdr mh data buf mail Hm | i buf q m m' q' Hm Hq | box Hbox | i q m m' q' Hm Hq | a mail Ha]; cbn in Hf.
  1-4, 6: right; exists []; split; [done | split; [done | split; [done |]]]; intros j; by rewrite took_same.
  - right. exists []. destruct Hf as (_ & _ & _ & Hpt). split; [by destruct q' | split; [done | split; [by destruct q' |]]]. intros j. cbn [at_box].
    rewrite (decide_False (P := None = Some j)) by done. rewrite (took_box i m) by done. case_decide; [| done].
    destruct (put_flow (mails s) th m q m' q' i buf Hpt Hq) as [(a & _ & E & _) | [E _]];
      [by rewrite (removed_more m m' a E) | by rewrite (removed_same m m' E)].
  - right. destruct Hf as (_ & _ & Hg).
    assert (forall l, fetch (mails s) (removed m m') = l ->
      forall j, took j s (with_box s i m') = if decide (at_box (OGet i q) = Some j) then l else []) as Ht.
    { intros l El j. rewrite (took_box i m) by done. cbn. destruct (decide (j = i)) as [-> | Hne]; [by rewrite decide_True | by rewrite decide_False by congruence]. }
    destruct (get_flow th m q m' q' Hg Hq) as [(a & -> & -> & E) | E].
    + exists (fetch (mails s) [a]). split; [done | split; [done | split; [done |]]]. apply Ht. by rewrite (removed_one m m' a E).
    + exists []. rewrite app_nil_r. split; [| split; [done | split; [by destruct q' | apply Ht; by rewrite (removed_same m m' E)]]].
      unfold holding. cbn [mails with_box]. replace (carries (get_to i q')) with (carries (OGet i q)); [done |].
      destruct Hq; try done; try (by destruct o); try (by destruct got as [| ? []]); cbn in E;
        match goal with H : Monitor.items m = _ |- _ => rewrite H in E; by apply (f_equal length) in E; cbn in E; lia end.
  - left. by exists a, mail.
Qed.
(** The other threads keep what they have. *)
Lemma holding_other s ps Us th p s' p' th1 p1 : ptrs_ok (mails s) Us ps -> ps !! th = Some p -> next th s p s' p' ->
  ps !! th1 = Some p1 -> th1 <> th -> holding (mails s') p1 = holding (mails s) p1.
Proof.
  intros Hpt Hp Hn H1 Hne. unfold holding. destruct (carries p1) as [a1 |] eqn:Hc; [| done].
  destruct (pt_carry _ _ _ Hpt th1 p1 a1 H1 Hc) as [(m1 & Hm1 & _) _].
  apply fetch_same. intros b ->%list_elem_of_singleton. destruct Hn as [| | | | | | | a mail Ha]; cbn; try done.
  - rewrite Hm1. by apply lookup_app_l_Some.
  - apply list_lookup_insert_ne. intros ->. by apply Hne, (pt_alone _ _ _ Hpt th1 th p1 _ a1 H1 Hp Hc).
Qed.

Lemma denote_idle nb th p g : fits nb th p -> denote th p = Idle g -> p = OIdle g.
Proof.
  intros Hf E. destruct p as [got | | | | | i buf q | | i q |]; try discriminate E; [by injection E as -> | |]; destruct q as [| [] | [] | | | | | | | | | | | | | |]; cbn in *; naive_solver.
Qed.

Lemma asks_next th s p s' p' nb b : next th s p s' p' -> nb = length (boxes s) -> fits nb th p -> asks nb p b -> asks nb p' b.
Proof.
  intros Hn -> Hf Ha. destruct Hn as [| | | | i buf q m m' q' Hm Hq | box Hbox | i q m m' q' Hm Hq |]; cbn in *; try done.
  - by destruct q'.
  - lia.
  - destruct q'; cbn; [lia | done..].
Qed.

(** The results of the calls and the message in hand are what the thread took. *)
Lemma log_next nb (s s' : sys) ps Us h th p p' : nb = length (boxes (mon s)) -> ptrs_ok (mails (mon s)) Us ps -> ps !! th = Some p ->
  fits nb th p -> fits nb th p' -> next th (mon s) p (mon s') p' -> threads s' !! th = Some (denote th p') ->
  log_ok nb (mon s) ps h -> log_ok nb (mon s') (<[th := p']> ps) (note h (Run th) s s').
Proof.
  intros Hnb Hpt Hp Hf Hf' Hn Hth [Hask Hbox Htk].
  assert (forall th1, th1 <> th -> answers (note h (Run th) s s') th1 = answers h th1) as Hoth.
  { intros th1 Hne. cbn. rewrite Hth. destruct (denote th p'); [by rewrite upd_ne | done..]. }
  assert (forall i, taken (note h (Run th) s s') i = taken h i ++ (pair th <$> took i (mon s) (mon s'))) as Htn by done.
  destruct (hand_next _ _ _ _ _ _ Hn Hf) as [(a & mail & -> & Ha & -> & Hb) | (l & Hh & Hl0 & Hni & Hl)].
  - assert (answers (note h (Run th) s s') th = answers h th ++ [(asked_for h th, answer mail)]) as Hself.
    { cbn. rewrite Hth. cbn. apply upd_eq. }
    assert (0 <= asked_for h th < Z.of_nat nb) as Hr by exact (Hask th _ Hp). split.
    + intros th1 p1 H1. destruct (move_lookup _ _ _ _ _ _ Hp H1) as [[-> ->] | [_ ?]]; [done | by apply (Hask th1)].
    + intros th1. destruct (decide (th1 = th)) as [-> | Hne]; [| by rewrite Hoth].
      rewrite Hself. apply Forall_app. split; [apply Hbox | by apply Forall_singleton].
    + intros th1 p1 i H1. rewrite Htn, took_same, app_nil_r by done.
      destruct (move_lookup _ _ _ _ _ _ Hp H1) as [[-> ->] | [Hne H1']].
      * rewrite Hself, results_snoc, (Htk th _ i Hp). unfold holding, fetch. cbn. rewrite Ha. cbn.
        destruct (decide (_ = _)); by rewrite ?app_nil_r.
      * rewrite Hoth, (Htk th1 p1 i H1') by done. by rewrite (holding_other (mon s) ps Us th _ (mon s') _ th1 p1 Hpt Hp Hn).
  - assert (answers (note h (Run th) s s') th = answers h th) as Hself.
    { cbn. rewrite Hth. destruct (denote th p') eqn:E; [| done..]. by destruct (Hni got (denote_idle nb th p' got Hf' E)). }
    split.
    + intros th1 p1 H1. destruct (move_lookup _ _ _ _ _ _ Hp H1) as [[-> ->] | [_ ?]]; [| by apply (Hask th1)].
      by apply (asks_next th (mon s) p (mon s') p'); [| | | apply (Hask th)].
    + intros th1. destruct (decide (th1 = th)) as [-> | Hne]; [by rewrite Hself | by rewrite Hoth].
    + intros th1 p1 i H1. rewrite Htn, by_thread_app, by_thread_pair, fmap_app.
      destruct (move_lookup _ _ _ _ _ _ Hp H1) as [[-> ->] | [Hne H1']].
      * rewrite decide_True, Hself, (Htk th p i Hp), Hh, Hl by done. rewrite fmap_app. cbn [asked_for note].
        destruct (decide (at_box p = Some i)) as [Eb | Eb].
        -- assert (asked_for h th = Z.of_nat i) as Ea. { specialize (Hask th p Hp). destruct p; try done; cbn in Eb, Hask; congruence. }
           by rewrite !decide_True, <- app_assoc by done.
        -- destruct (decide (asked_for h th = Z.of_nat i)) as [Ea |]; [| by rewrite !app_nil_r].
           rewrite Hl0; [by rewrite !app_nil_r |]. specialize (Hask th p Hp). destruct p; try done. cbn in Eb, Hask. destruct Eb. f_equal. lia.
      * rewrite decide_False, app_nil_r by done. rewrite Hoth, (Htk th1 p1 i H1') by done.
        by rewrite (holding_other (mon s) ps Us th p (mon s') p' th1 p1 Hpt Hp Hn).
Qed.

Lemma pair_snd (th : nat) (l : list Mail.t) : (pair th <$> l).*2 = l.
Proof. induction l as [| m l IH]; [done |]. by rewrite !fmap_cons, IH. Qed.

(** A step of a thread. *)
Lemma office_run nb (s : sys) arrived h th r : ok nb s arrived h -> step s (Run th) = Some r ->
  (exists s' : sys, r = Ok s' /\ ok nb s' arrived (note h (Run th) s s')) \/
  (exists box, threads s !! th = Some (Receive th box) /\ ~ (0 <= box < Z.of_nat nb) /\ r = Fault AssertFailure).
Proof.
  intros (ps & Us & cur & Hpt & Hg & Hnb & Hfl & Hlog) Hs.
  destruct (run_inv denote s ps th r Hpt Hs) as (p & r' & Hp & Hr & ->).
  destruct (advance_office (mon s) ps Us cur th p r' Hg Hp Hr) as [(m' & p' & -> & Hn) | (box & -> & Hbox & ->)].
  2: { right. exists box. rewrite Hpt, Hp, <- Hnb. done. }
  left. destruct (good_next host (mon s) ps Us cur th p m' p' Hg Hp Hn) as (Us' & cur' & Hg' & Hfl').
  eexists. split; [reflexivity |]. pose proof (place_move denote _ _ _ p p' Hpt Hp) as Hpt'.
  pose proof (next_boxes _ _ _ _ _ Hn) as Hlen.
  assert (<[th := p']> ps !! th = Some p') as Hp' by (apply list_lookup_insert_eq; by eapply lookup_lt_Some).
  exists (<[th := p']> ps), Us', cur'. split; [done | split; [done | split; [by cbn; rewrite Hlen | split]]].
  - intros i m Hm. cbn [taken note]. rewrite fmap_app, pair_snd. by apply (flow_next (mon s) ps cur m' _ _ _ _ Hfl Hfl').
  - apply (log_next nb s _ ps Us h th p p'); try done; [by apply Hg | rewrite <- Hnb; by apply Hg |
      rewrite <- Hnb, <- Hlen; by apply (gd_fits _ _ _ _ _ Hg' th) | cbn; by rewrite Hpt', Hp'].
Qed.

(** A call is made. *)
Lemma office_call nb (s : sys) arrived h th box r : ok nb s arrived h -> step s (Start th box) = Some r ->
  exists s' : sys, r = Ok s' /\ ok nb s' arrived (note h (Start th box) s s').
Proof.
  intros (ps & Us & cur & Hpt & Hg & Hnb & Hfl & [Hask Hbox Htk]) Hs.
  cbn in Hs. rewrite Hpt in Hs. destruct (ps !! th) as [p |] eqn:Hp; [| done]. cbn in Hs.
  pose proof (gd_fits _ _ _ _ _ Hg th p Hp) as Hfit.
  destruct (denote th p) as [g | | | |] eqn:Hd; try done. apply (denote_idle _ _ _ _ Hfit) in Hd as ->.
  injection Hs as <-. eexists. split; [reflexivity |].
  exists (<[th := OAsk box]> ps), Us, cur. split; [by apply (place_move denote _ _ _ (OIdle g) (OAsk box)) |].
  destruct Hg as [Hb Hpr Ha Hin Hf Hw]. split; [| split; [done | split]].
  - split; [by apply (boxes_quiet _ _ ps Us th _ _ Hb Hp) | by apply (ptrs_move _ Us Us ps th _ _ Hpr Hp) |
      by apply (avail_same (mon s) _ ps cur th _ _ Ha Hp) | done | |
      by apply lookup_lt_is_Some; rewrite length_insert; apply lookup_lt_is_Some].
    intros th1 p1 H1. by destruct (move_lookup _ _ _ _ _ _ Hp H1) as [[-> ->] | [_ ?]]; [| apply Hf].
  - intros i m Hm. rewrite (Hfl i m Hm). do 3 f_equal. symmetry. by apply flight_other.
  - cbn [mon note]. split; cbn [asked_for answers taken].
    + intros th1 p1 H1. destruct (move_lookup _ _ _ _ _ _ Hp H1) as [[-> ->] | [Hne H1']]; [by rewrite upd_eq | rewrite upd_ne by done; by apply (Hask th1)].
    + done.
    + intros th1 p1 i H1. destruct (move_lookup _ _ _ _ _ _ Hp H1) as [[-> ->] | [Hne H1']].
      * rewrite (Htk th _ i Hp). cbn. by repeat case_decide.
      * rewrite upd_ne by done. by apply Htk.
Qed.

(** The network device. *)
Lemma office_device nb (s : sys) arrived h d r : ok nb s arrived h -> admissible nb (Device d) -> step s (Device d) = Some r ->
  exists s' : sys, r = Ok s' /\ ok nb s' (arrived ++ arrives (Device d)) h.
Proof.
  intros (ps & Us & cur & Hpt & Hg & Hnb & Hfl & [Hask Hbox Htk]) Hadm Hs. destruct d as [i now | pkt].
  - assert (step s (Device (Interrupt i now)) =
      (fun b => m ← handle host (mon s) b; Ok (mkSys m (threads s))) <$> fire i now (bus (mon s))) as E by (cbn; by destruct (fire _ _ _)).
    rewrite E in Hs. clear E. destruct (fire i now (bus (mon s))) as [b |]; [| done]. injection Hs as <-.
    destruct (good_interrupt (mon s) ps Us cur b Hg) as (s' & cur' & E & Hg' & Hfl' & Eb & Em).
    rewrite E. eexists. split; [reflexivity |]. exists ps, Us, cur'. cbn [arrives mon threads]. rewrite app_nil_r.
    split; [done | split; [done | split; [by rewrite Eb | split]]].
    + intros j m Hm. rewrite (flow_next (mon s) ps cur s' ps cur' _ _ Hfl Hfl' j m Hm). by rewrite took_same, app_nil_r by done.
    + split; [done | done |]. rewrite Em. exact Htk.
  - cbn in Hs. injection Hs as <-. rewrite <- Hnb in Hadm. destruct (good_arrive (mon s) ps Us cur pkt Hg Hadm) as [Hg' Hfl'].
    eexists. split; [reflexivity |]. exists ps, Us, cur. split; [done | split; [exact Hg' | split; [done | split]]].
    + intros i m Hm. cbn [arrives]. rewrite fmap_app, to_box_app, (Hfl i m Hm). cbn [mon]. rewrite Hfl'. by rewrite <- !app_assoc.
    + by split.
Qed.

Lemma office_step nb (s : sys) arrived h e r : ok nb s arrived h -> admissible nb e -> step s e = Some r ->
  (exists s' : sys, r = Ok s' /\ ok nb s' (arrived ++ arrives e) (note h e s s')) \/
  (exists th box, e = Run th /\ threads s !! th = Some (Receive th box) /\ ~ (0 <= box < Z.of_nat nb) /\ r = Fault AssertFailure).
Proof.
  intros Hok Ha Hs. destruct e as [th | th box | d].
  - cbn [arrives]. rewrite app_nil_r.
    destruct (office_run nb s arrived h th r Hok Hs) as [? | (box & ?)]; [by left | right; by exists th, box].
  - left. cbn [arrives]. rewrite app_nil_r. by apply office_call.
  - left. exact (office_device nb s arrived h d r Hok Ha Hs).
Qed.

Lemma office_start nb n garbage buffer (s : sys) : length garbage.2 = 52%nat -> length buffer = 52%nat ->
  PostOfficeInput.create nb n garbage buffer = Ok s -> ok nb s [] nothing.
Proof.
  intros Hg Hb. unfold PostOfficeInput.create, NetworkInput.create, Bus.Schedule. rewrite ASSERT_true by done. cbn [mbind res_bind].
  intros [= <-]. set (ps := OLoop buffer :: replicate n (OIdle None)).
  assert (forall th p, ps !! th = Some p -> (th = 0%nat /\ p = OLoop buffer) \/ (th <> 0%nat /\ p = OIdle None)) as Hps.
  { intros [| th] p; cbn; [intros [= <-]; by left | intros [-> _]%lookup_replicate; by right]. }
  exists ps, (fun _ => []), None. split; [| split; [split | split; [by cbn; rewrite length_replicate | split]]].
  - intros [| th]; [done |]. exact (place_all (fun _ => denote (S th)) n (OIdle None) (Idle None) (fun _ => eq_refl) th).
  - intros i m [-> _]%lookup_replicate. cbn.
    replace (SynchLists.PIdle [] :: (view i <$> replicate n (OIdle None))) with (replicate (S n) (@SynchLists.PIdle nat [])) by (cbn; by rewrite fmap_replicate).
    apply SynchLists.owned_start.
  - split; [by intros i x ?%not_elem_of_nil | by intros i j x ?%not_elem_of_nil | |].
    + intros th p a [[_ ->] | [_ ->]]%Hps; done.
    + intros th th' p p' a [[_ ->] | [_ ->]]%Hps; done.
  - split; [done |]. cbn. rewrite total_zero; [done |]. by intros th p [[_ ->] | [_ ->]]%Hps.
  - split; [done | by apply Forall_nil | done].
  - intros th p [[-> ->] | [? ->]]%Hps; done.
  - by eexists.
  - intros i m [-> _]%lookup_replicate. done.
  - split; [by intros th p [[_ ->] | [_ ->]]%Hps | by intros th; apply Forall_nil |].
    intros th p i [[_ ->] | [_ ->]]%Hps; cbn; by case_decide.
Qed.

Lemma office_ok nb n (s : sys) arrived h : reach nb n s arrived h -> ok nb s arrived h.
Proof.
  induction 1 as [garbage buffer s Hg Hb Hc | s arrived h e s' _ IH Ha Hs]; [by eapply office_start |].
  by destruct (office_step nb s arrived h e _ IH Ha Hs) as [(? & [= <-] & ?) | (? & ? & _ & _ & _ & ?)].
Qed.

Lemma to_box_sent i l : to_box i (sent <$> l) = mail_of <$> filter (fun pkt => box_of pkt = i) l.
Proof.
  unfold to_box. induction l as [| pkt l IH]; [done |]. rewrite fmap_cons.
  destruct (decide (box_of pkt = i)); [rewrite !filter_cons_True by done | rewrite !filter_cons_False by done]; cbn; by rewrite IH.
Qed.

(** What was taken out of a box arrived for it, in this order. *)
Lemma taken_prefix nb (s : sys) arrived h i : ok nb s arrived h -> (i < nb)%nat ->
  (taken h i).*2 `prefix_of` (mail_of <$> filter (fun pkt => box_of pkt = i) arrived).
Proof.
  intros (ps & Us & cur & _ & _ & Hnb & Hfl & _) Hi. rewrite <- Hnb in Hi.
  apply lookup_lt_is_Some in Hi as [m Hm]. rewrite <- to_box_sent, (Hfl i m Hm). by eexists.
Qed.

(** Every message a thread took is what one of its calls gave, in order, but for
    one that a call it is still in will give. *)
Definition answered (nb : nat) (h : history) (th : nat) (k : proc) : Prop :=
  Forall (fun x => 0 <= x.1 < Z.of_nat nb) (answers h th) /\
  forall i, (i < nb)%nat -> exists hand, answer <$> by_thread th (taken h i) = results i (answers h th) ++ hand /\
    (length hand <= 1)%nat /\ (hand <> [] -> asked_for h th = Z.of_nat i /\ forall got, k <> Idle got).

Lemma all_answered nb (s : sys) arrived h th k : ok nb s arrived h -> threads s !! th = Some k -> answered nb h th k.
Proof.
  intros (ps & Us & cur & Hpt & Hg & Hnb & _ & [_ Hbox Htk]) Hk. rewrite Hpt in Hk. destruct (ps !! th) as [p |] eqn:Hp; [| done].
  injection Hk as <-. split; [apply Hbox |]. intros i Hi. eexists. split; [by apply (Htk th p i Hp) |].
  assert (length (holding (mails (mon s)) p) <= 1)%nat as Hl.
  { unfold holding, fetch. destruct (carries p) as [a |]; [| by cbn; lia]. cbn. destruct (mails (mon s) !! a) as [[] |]; cbn; lia. }
  case_decide as Ea; [| by split; [cbn; lia | by intros []]]. split; [by rewrite length_fmap |]. intros Hne. split; [done |].
  intros got ->%(denote_idle _ _ _ _ (gd_fits _ _ _ _ _ Hg th p Hp)). by destruct Hne.
Qed.

(** C29: The post office with the postal worker, any number of threads in
    [PostOfficeInput::Receive], for any boxes, and the network interrupts, as long
    as letters arrive (packets of the form [Send] makes, for boxes there are).  No
    assertion fails, in the office, its boxes or the device, but the one of
    [Receive] that its box is there, and this one exactly then.  The messages
    taken out of a box are those that arrived for it, unchanged, each once and in
    the order of arrival; and the results of a thread's calls of [Receive] for a
    box are the messages the thread took out of that box, in this order, but for
    at most one that it has taken and that its call has not returned yet. *)
Theorem mail_in_order nb n (s : sys) arrived h : reach nb n s arrived h ->
  (forall e r, admissible nb e -> step s e = Some r -> (exists s' : sys, r = Ok s') \/
     (exists th box, e = Run th /\ threads s !! th = Some (Receive th box) /\ ~ (0 <= box < Z.of_nat nb) /\ r = Fault AssertFailure)) /\
  (forall i, (i < nb)%nat -> (taken h i).*2 `prefix_of` (mail_of <$> filter (fun pkt => box_of pkt = i) arrived)) /\
  (forall th k, threads s !! th = Some k -> answered nb h th k).
Proof.
  intros Hr%office_ok. split_and!.
  - intros e r Ha Hs. destruct (office_step nb s arrived h e r Hr Ha Hs) as [(s' & ? & _) | ?]; [left; by exists s' | by right].
  - intros i Hi. by apply (taken_prefix nb s).
  - intros th k Hk. by apply (all_answered nb s arrived).
Qed.

(** Who waits in a box for a message. *)
Definition asleep (th i : nat) (k : proc) : Prop := exists w, k = lift i finish (SynchLists.sleep th w).

Lemma lift_stuck s th i cont m q : boxes s !! i = Some m -> (q = SynchLists.PLoop -> cont = finish) ->
  advance th (lift i cont (SynchLists.denote th q)) s = None -> (forall got, q <> SynchLists.PIdle got) ->
  Procs.advance th (SynchLists.denote th q) m = None.
Proof.
  intros Hm Hl Hst Hni. rewrite (advance_lift host i cont th _ s m Hm) in Hst.
  - by destruct (Procs.advance th (SynchLists.denote th q) m).
  - intros l E. apply Hl. destruct q as [| [] | [] | | | | | | | | | | | | | |]; done.
  - destruct q as [got | [] | [] | | | | | | | | | | | | | |]; try done. by destruct (Hni got).
Qed.

Lemma box_stuck s th i p m : boxes s !! i = Some m -> fits (length (boxes s)) th p -> advance th (denote th p) s = None ->
  Procs.advance th (SynchLists.denote th (view i p)) m = None.
Proof.
  intros Hm Hf Hst. destruct p as [g | buf | buf | buf | j hdr mh data buf | j buf q | b | j q | g]; try done; cbn [view]; case_decide as E; try done; subst j.
  - eapply (lift_stuck s th i _ m q Hm); [| exact Hst |]; destruct Hf as (_ & _ & _ & Hq); by destruct q.
  - eapply (lift_stuck s th i _ m q Hm); [| exact Hst |]; destruct Hf as (_ & _ & Hq); by destruct q.
Qed.

Lemma office_rest nb (s : sys) arrived h : ok nb s arrived h -> (forall th, step s (Run th) = None) ->
  exists ps Us cur, at_points denote (threads s) ps /\ good host (mon s) ps Us cur /\ flow_ok (mon s) ps cur arrived (fun i => (taken h i).*2) /\
    length (boxes (mon s)) = nb /\ forall th p, ps !! th = Some p ->
      (th = 0%nat /\ exists buf, p = OWait buf /\ messageAvailable (mon s) = 0) \/ (exists g, p = OIdle g) \/
      (exists i w m, p = OGet i (SynchLists.PSleep w) /\ boxes (mon s) !! i = Some m /\ Monitor.items m = []).
Proof.
  intros (ps & Us & cur & Hpt & Hg & Hnb & Hfl & _) Hb. exists ps, Us, cur. split_and!; [done.. |].
  assert (forall th p, ps !! th = Some p -> advance th (denote th p) (mon s) = None) as Hst.
  { intros th p Hp. by apply (stuck_advance denote s ps th p Hpt (Hb th) Hp). }
  assert (forall i m, boxes (mon s) !! i = Some m -> forall th q, (view i <$> ps) !! th = Some q -> Procs.advance th (SynchLists.denote th q) m = None) as Hbox.
  { intros i m Hm th q Hq. rewrite list_lookup_fmap in Hq. destruct (ps !! th) as [p |] eqn:Hp; [| done]. injection Hq as <-.
    apply (box_stuck (mon s) th i p m Hm); [by apply (gd_fits _ _ _ _ _ Hg th p Hp) | by apply Hst]. }
  intros th p Hp. pose proof (gd_fits _ _ _ _ _ Hg th p Hp) as Hf. specialize (Hst th p Hp).
  destruct p as [g | buf | buf | buf | i hdr mh data buf | i buf q | b | i q | g]; try done.
  - right. left. by exists g.
  - left. cbn in Hst, Hf. destruct (Z.eqb_spec (messageAvailable (mon s)) 0); [| done]. split; [tauto | by exists buf].
  - destruct Hf as (_ & _ & [m Hm]%lookup_lt_is_Some & Hq). exfalso.
    pose proof (view_at i ps th _ Hp) as Hv. rewrite (view_self i _ q) in Hv by eauto.
    destruct (SynchLists.rest_empty m _ th q (SynchLists.ow_inv _ _ _ (gd_boxes _ _ _ _ _ Hg i m Hm)) (Hbox i m Hm) Hv) as [[? ->] | [_ [w ->]]]; done.
  - destruct Hf as (_ & [m Hm]%lookup_lt_is_Some & Hq). right. right.
    pose proof (view_at i ps th _ Hp) as Hv. rewrite (view_self i _ q) in Hv by eauto.
    destruct (SynchLists.rest_empty m _ th q (SynchLists.ow_inv _ _ _ (gd_boxes _ _ _ _ _ Hg i m Hm)) (Hbox i m Hm) Hv) as [[? ->] | [He [w ->]]]; [done |].
    by exists i, w, m.
Qed.

(** C30: No mail is left lying: when no thread can go on, the device has no packet
    buffered, every message that came in from the socket is in its box or was
    taken out of it, and every thread but the worker is idle, or waits in
    [Receive] for a box that is empty. *)
Theorem mail_not_left nb n (s : sys) arrived h : reach nb n s arrived h -> (forall th, step s (Run th) = None) ->
  pkt_length (NetworkInput.inHdr (network (mon s))) = 0 /\
  (forall i m, boxes (mon s) !! i = Some m ->
     mail_of <$> filter (fun pkt => box_of pkt = i) arrived =
       (taken h i).*2 ++ fetch (mails (mon s)) (Monitor.items m) ++
       (mail_of <$> filter (fun pkt => box_of pkt = i) (NetworkInput.socket (network (mon s))))) /\
  (forall th k, th <> 0%nat -> threads s !! th = Some k ->
     (exists g, k = Idle g) \/ exists i m, boxes (mon s) !! i = Some m /\ Monitor.items m = [] /\ asleep th i k).
Proof.
  intros Hr%office_ok Hb. destruct (office_rest nb s arrived h Hr Hb) as (ps & Us & cur & Hpt & Hg & Hfl & Hnb & Hall).
  destruct (gd_worker _ _ _ _ _ Hg) as [p0 Hp0]. pose proof (gd_fits _ _ _ _ _ Hg 0%nat p0 Hp0) as Hf0.
  destruct (Hall 0%nat p0 Hp0) as [(_ & buf & -> & Ha) | [[g ->] | (i & w & m & -> & _)]]; [| done | by destruct Hf0].
  assert (total token ps = 0%nat) as Ht.
  { apply total_zero. intros th p Hp. by destruct (Hall th p Hp) as [(_ & ? & -> & _) | [[? ->] | (? & ? & ? & -> & _)]]. }
  destruct (gd_avail _ _ _ _ _ Hg) as [_ Hav]. rewrite Ht, Ha in Hav. destruct cur as [pkt |]; [done |].
  split; [exact (in_cur _ _ _ _ (gd_input _ _ _ _ _ Hg)) | split].
  - intros i m Hm. rewrite <- !to_box_sent, (Hfl i m Hm). unfold flight. by rewrite Hp0.
  - intros th k Hth Hk. rewrite Hpt in Hk. destruct (ps !! th) as [p |] eqn:Hp; [| done]. injection Hk as <-.
    destruct (Hall th p Hp) as [[? _] | [[g ->] | (i & w & m & -> & Hm & He)]]; [done | left; by exists g | right].
    exists i, m. split; [done | split; [done | by exists w]].
Qed.
End code.
End Office.

(** ** Demo *)

Module OfficeDemo.
Import Bus Wire Procs PostOfficeInput Letters Office.

#[local] Instance office : Component t semref received loop Z happening := component 2.

(** Host 2, with two boxes, the worker and one other thread. *)
Definition garbage : PacketHeader * list Z := (mkPacketHeader 5 6 7, replicate 52 9).
Definition opened : sys t semref received loop :=
  match create 2 1 garbage (replicate 52 8) with Ok s => s | Fault _ => mkSys (mk (NetworkInput.mk garbage.1 [] []) [] 0 [] Bus.create) [] end.
(** The thread waits at the box 1, a letter arrives for it, the device takes it
    in, the worker delivers it, and the thread receives it. *)
Definition asking : list (event Z happening) := Run 0 :: Start 1 1 :: replicate 7 (Run 1).
Definition arriving : list (event Z happening) := [Device (Arrive LettersDemo.packet); Device (Interrupt 0 200)].
Definition day : list (event Z happening) := asking ++ arriving ++ replicate 11 (Run 0) ++ replicate 8 (Run 1).
Definition closed : sys t semref received loop := after opened day.

(** The history of a run. *)
Fixpoint noted (h : history) (s : sys t semref received loop) (es : list (event Z happening)) : history :=
  match es with
  | [] => h
  | e :: es => match step s e with Some (Ok s') => noted (note h e s s') s' es | _ => h end
  end.

Lemma office_events s arrived h es s' : reach 2 2 1 s arrived h -> Forall (admissible 2 2) es -> events s es = Some s' ->
  reach 2 2 1 s' (arrived ++ concat (arrives <$> es)) (noted h s es).
Proof.
  revert s arrived h. induction es as [| e es IH]; intros s arrived h Hr Ha He; cbn [events noted] in *.
  - injection He as <-. by rewrite app_nil_r.
  - apply Forall_cons in Ha as [Ha Has]. destruct (step s e) as [[s1 |] |] eqn:Hs; [| done | done].
    rewrite fmap_cons, concat_cons, app_assoc. exact (IH s1 _ _ (reach_step 2 2 1 s arrived h e s1 Hr Ha Hs) Has He).
Qed.

Definition diary : history := noted nothing opened day.

Lemma reach_closed : reach 2 2 1 closed [LettersDemo.packet] diary.
Proof.
  apply (office_events opened [] nothing day); [| | apply events_after; by vm_compute].
  - by apply (reach_start 2 2 1 garbage (replicate 52 8)).
  - unfold day, asking, arriving. rewrite !Forall_app. split_and!; try (apply Forall_replicate; done).
    + apply Forall_cons. split; [done |]. apply Forall_cons. split; [by cbn |]. by apply Forall_replicate.
    + apply Forall_cons. split; [exact LettersDemo.packet_letter |]. by apply Forall_singleton.
Qed.

Lemma closed_quiet th : step closed (Run th) = None.
Proof. destruct th as [| [| th]]; vm_compute; reflexivity. Qed.

(** The thread took the message out of the box 1, and its call gave it. *)
Lemma mail_in_order_witness : answer <$> by_thread 1 (taken diary 1) = [answer (mail_of LettersDemo.packet)] /\
  results 1 (answers diary 1) = [Some (mkPacketHeader 2 1 14, mkMailHeader 1 0 2, [72; 105])] /\
  prefix (taken diary 1).*2 [mail_of LettersDemo.packet] /\
  exists hand, answer <$> by_thread 1 (taken diary 1) = results 1 (answers diary 1) ++ hand /\ (length hand <= 1)%nat.
Proof.
  split; [vm_compute; reflexivity | split; [vm_compute; reflexivity |]].
  destruct (mail_in_order 2 2 1 closed _ diary reach_closed) as (_ & Hp & Ha). split; [exact (Hp 1%nat ltac:(lia)) |].
  destruct (Ha 1%nat (Idle (Some (mkPacketHeader 2 1 14, mkMailHeader 1 0 2, [72; 105]))) ltac:(vm_compute; reflexivity)) as [_ Hh].
  destruct (Hh 1%nat ltac:(lia)) as (hand & E & Hl & _). exists hand. split; [exact E | exact Hl].
Defined.

(** The thread has it. *)
Lemma mail_not_left_witness : threads closed !! 1%nat = Some (Idle (Some (mkPacketHeader 2 1 14, mkMailHeader 1 0 2, [72; 105]))) /\
  [mail_of LettersDemo.packet] = (taken diary 1).*2.
Proof.
  split; [vm_compute; reflexivity |].
  destruct (mail_not_left 2 2 1 closed _ diary reach_closed closed_quiet) as (_ & H & _).
  specialize (H 1%nat (Monitor.mk [] 1 None [] [None]) ltac:(vm_compute; reflexivity)).
  exact (eq_trans (H : [mail_of LettersDemo.packet] = (taken diary 1).*2 ++ []) (app_nil_r (taken diary 1).*2)).
Defined.
End OfficeDemo.
