(* ===== verification/Sender.v ===== *)
(** * Sender: one message goes out at a time, and nothing else goes out

    The sending half of the post office under every interleaving of threads that
    call [PostOfficeOutput::Send] and of the interrupts of the network device. *)

From S2P Require Import Prelude Stats Interrupt Devices Procs Network Post Deliveries.

Module Sender.
Import Bus Wire Procs PostOfficeOutput Letters.

#[local] Notation proc := (Procs.proc t semref unit Empty_set).
#[local] Notation sys := (Procs.sys t semref unit Empty_set).
#[local] Notation Release := (Procs.Release SendLock lockHolder with_holder).

(** A call that was made, with what [concatenate] made of it. *)
Record item := mkItem { it_call : call; it_hdr : PacketHeader; it_buf : list Z }.

Inductive point : Type :=
  | PIdle
  | PAsk (c : call)
  | PGive (x : item)
  | PTake (x : item)
  | PSend (x : item)
  | PWait            (** at [messageSent->P()] *)
  | PLeave
  | PLeft.

Definition inside (p : point) : nat := match p with PIdle | PAsk _ | PGive _ => 0 | _ => 1 end.
Definition holds (p : point) : bool := match p with PSend _ | PWait | PLeave => true | _ => false end.
Definition waits (p : point) : nat := match p with PWait => 1 | _ => 0 end.

(** The call that did not go out yet. *)
Definition pend (p : point) : list call :=
  match p with PAsk c => [c] | PGive x | PTake x | PSend x => [it_call x] | _ => [] end.
Definition pending (ps : list point) : list call := ps ≫= pend.

Lemma pending_move ps th p p' : ps !! th = Some p -> pending (<[th := p']> ps) ++ pend p ≡ₚ pending ps ++ pend p'.
Proof.
  intros Hp. unfold pending. rewrite (insert_take_drop ps th p') by (by eapply lookup_lt_Some).
  rewrite <- (take_drop_middle ps th p Hp) at 3. rewrite !bind_app. cbn. rewrite <- !app_assoc. apply Permutation_app_head.
  rewrite (Permutation_app_comm (pend p')), (Permutation_app_comm (pend p)), <- !app_assoc. apply Permutation_app_head.
  apply Permutation_app_comm.
Qed.

(** A packet on the wire that carries the message of a call. *)
Definition message (host : Z) (c : call) : Mail.t := Mail.mk (stamped host c) (mailHdr c) (body c).
Definition carries_call (host : Z) (w : Z * list Z) (c : call) : Prop :=
  w.1 = pkt_to (pktHdr c) /\ letter (S (Z.to_nat (mail_to (mailHdr c)))) w.1 w.2 /\ box_of w.2 = Z.to_nat (mail_to (mailHdr c)) /\ mail_of w.2 = message host c.

Section host.
Context (host : Z) (Hhost : is_s32 host).
#[local] Set Default Proof Using "Type*".
#[local] Instance sender : Component t semref unit Empty_set call interrupt := component host.
#[local] Notation advance := (Procs.advance (Component0 := component host)).

Definition denote (me : nat) (p : point) : proc :=
  match p with
  | PIdle => Idle tt
  | PAsk c => Send host me c
  | PGive x => Procs.Acquire SendLock with_holder me (send_code host me (it_call x) (it_hdr x) (it_buf x))
  | PTake x => Code (fun s => Ok (with_holder s (Some me), send_code host me (it_call x) (it_hdr x) (it_buf x)))
  | PSend x => send_code host me (it_call x) (it_hdr x) (it_buf x)
  | PWait => CallP MessageSent (Release me (Idle tt))
  | PLeave => Release me (Idle tt)
  | PLeft => CallV SendLock (Idle tt)
  end.

Definition made (x : item) : Prop := sendable (it_call x) /\ concatenate host (it_call x) = Ok (it_hdr x, it_buf x).
Definition fits (p : point) : Prop :=
  match p with PAsk c => typed c | PGive x | PTake x | PSend x => made x | _ => True end.

(** [log]: the calls whose messages are on the wire; [lost]: those that were lost. *)
Record inv (m : t) (ps : list point) (called log lost : list call) : Prop := {
  inv_lock : lock_ok inside holds (sendLock m) (lockHolder m) ps;
  inv_units : 0 <= messageSent m;
  inv_ready : NetworkOutput.sendBusy (network m) = false;
  inv_waits : total waits ps = (Z.to_nat (messageSent m) + length (asked (bus m)))%nat;
  inv_fits : forall th p, ps !! th = Some p -> fits p;
  inv_wire : Forall2 (carries_call host) (NetworkOutput.wire (network m)) log;
  inv_calls : called ≡ₚ log ++ lost ++ pending ps;
}.

(** At other points than [PWait] the device is at rest. *)
Lemma sender_at_rest m ps called log lost th p : inv m ps called log lost -> ps !! th = Some p -> inside p = 1%nat -> waits p = 0%nat ->
  asked (bus m) = [] /\ messageSent m = 0.
Proof.
  intros [Hl Hu _ Hw _ _ _] Hp Hin Hwp. enough (total waits ps = 0%nat).
  { split; [apply length_zero_iff_nil | ]; lia. }
  apply total_zero. intros i q Hq. destruct (decide (i = th)) as [-> | Hne]; [congruence |].
  pose proof (lock_alone inside holds ps th p Hp _ _ Hl Hin i q Hq Hne). by destruct q.
Qed.

(** What [Send] of the device does with the packet [w]. *)
Definition handed (m : t) (w : list (Z * list Z)) : t :=
  with_device m (NetworkOutput.mk false (NetworkOutput.wire (network m) ++ w))
    (Bus.mk (stats (bus m)) (asked (bus m) ++ [(totalTicks (stats (bus m)) + NetworkTime, NetworkSendInt)])).

Inductive next (th : nat) (m : t) : point -> t -> point -> Prop :=
  | next_ask c x : it_call x = c -> made x -> next th m (PAsk c) m (PGive x)
  | next_give x : sendLock m <> 0 -> next th m (PGive x) (with_sendLock m (sendLock m - 1)) (PTake x)
  | next_take x : next th m (PTake x) (with_holder m (Some th)) (PSend x)
  | next_send x pkt : carries_call host (pkt_to (pktHdr (it_call x)), pkt) (it_call x) ->
      next th m (PSend x) (handed m (if lost (it_call x) then [] else [(pkt_to (pktHdr (it_call x)), pkt)])) PWait
  | next_wait : messageSent m <> 0 -> next th m PWait (with_messageSent m (messageSent m - 1)) PLeave
  | next_leave : next th m PLeave (with_holder m None) PLeft
  | next_left : next th m PLeft (with_sendLock m (sendLock m + 1)) PIdle.

(** The calls that go out, or get lost, with a step. *)
Definition sent_now (p : point) : list call := match p with PSend x => if lost (it_call x) then [] else [it_call x] | _ => [] end.
Definition lost_now (p : point) : list call := match p with PSend x => if lost (it_call x) then [it_call x] else [] | _ => [] end.

Lemma calls_next ps th p m m' p' called log lo : ps !! th = Some p -> next th m p m' p' -> called ≡ₚ log ++ lo ++ pending ps ->
  called ≡ₚ (log ++ sent_now p) ++ (lo ++ lost_now p) ++ pending (<[th := p']> ps).
Proof.
  intros Hp Hn ->. pose proof (pending_move ps th p p' Hp) as Hm.
  assert (pend p ≡ₚ (sent_now p ++ lost_now p) ++ pend p') as Hpp.
  { destruct Hn as [c x <- | | | x | | |]; cbn; try done. by destruct (lost (it_call x)). }
  rewrite Hpp, app_assoc in Hm. apply Permutation_app_inv_r in Hm. rewrite <- Hm, <- !app_assoc. apply Permutation_app_head.
  rewrite (Permutation_app_comm (pending _)), <- !app_assoc, !(app_assoc lo). by rewrite (Permutation_app_comm lo (sent_now p)), <- !app_assoc.
Qed.

Lemma sender_next m ps called log lo th p m' p' : inv m ps called log lo -> ps !! th = Some p -> next th m p m' p' ->
  inv m' (<[th := p']> ps) called (log ++ sent_now p) (lo ++ lost_now p).
Proof.
  intros Hi Hp Hn. pose proof (sender_at_rest m ps called log lo th p Hi Hp) as Hrest. destruct Hi as [Hl Hu Hb Hw Hf Hwi Hc].
  pose proof (total_insert waits ps th p p' Hp) as Ht. pose proof (calls_next ps th p m m' p' called log lo Hp Hn Hc) as Hc'.
  assert (fits p' -> forall i q, <[th := p']> ps !! i = Some q -> fits q) as Hfit.
  { intros Hp' i q Hq. destruct (move_lookup _ _ _ _ _ _ Hp Hq) as [[-> ->] | [_ ?]]; [done | by eapply Hf]. }
  pose proof (Hf th p Hp) as Hfp.
  destruct Hn; cbn in Ht; split; try exact Hc'; cbn in *; rewrite ?app_nil_r; try done; try lia; try (by apply Hfit).
  - by apply (lock_move inside holds ps th _ _ Hp).
  - by eapply lock_P.
  - by eapply lock_holder; [| intros []; cbn; done | ..].
  - by eapply lock_move.
  - destruct Hrest as [E1 E2]; [done | done |]. rewrite length_app, E1, E2 in *. cbn in *. lia.
  - destruct (lost (it_call x)); rewrite ?app_nil_r; [done |]. by apply Forall2_app; [| apply Forall2_cons].
  - by eapply lock_move.
  - by eapply lock_holder; [| intros []; cbn; done | ..].
  - by eapply lock_V.
Qed.

Ltac took q := cbn; intros [= <-]; left; eexists _, q; split; [reflexivity |]; by constructor.

Lemma advance_sender m ps called log lo th p r : inv m ps called log lo -> ps !! th = Some p -> advance th (denote th p) m = Some r ->
  (exists m' p', r = Ok (m', denote th p') /\ next th m p m' p') \/ (exists c f, p = PAsk c /\ refusal c = Some f /\ r = Fault f).
Proof.
  intros Hi Hp. pose proof (inv_fits _ _ _ _ _ Hi th p Hp) as Hfit.
  assert (holds p = true -> ASSERT (Procs.IsHeldByCurrentThread lockHolder th m) = Ok tt) as Hh.
  { intros Hh. apply held. exact (lk_holder _ _ _ _ _ (inv_lock _ _ _ _ _ Hi) th p Hp Hh). }
  destruct p as [| c | x | x | x | | |]; cbn.
  - done.
  - destruct (refusal c) as [f |] eqn:Hf.
    { rewrite (concatenate_refused host c f Hfit Hf). intros [= <-]. right. by exists c, f. }
    pose proof (typed_sendable c Hfit Hf) as Hs. destruct (concatenate_Ok host c Hs) as (buf & E & _). rewrite E. cbn [mbind res_bind].
    intros [= <-]. left. exists m, (PGive (mkItem c (stamped host c) buf)). split; [done |]. by constructor.
  - destruct (Z.eqb_spec (sendLock m) 0); [done | took (PTake x)].
  - took (PSend x).
  - destruct Hfit as [Hs Hx]. pose proof (sd_box _ Hs) as Hbox0.
    destruct (Send_letter host (it_call x) (S (Z.to_nat (mail_to (mailHdr (it_call x))))) Hhost Hs ltac:(lia)) as (buf & pkt & E & Hlt & Hbox & Hmail & Hsend).
    rewrite E in Hx. injection Hx as Hh' Hb'. rewrite <- Hh', <- Hb', Hsend by apply Hi. cbn [mbind res_bind]. intros [= <-].
    left. exists (handed m (if lost (it_call x) then [] else [(pkt_to (pktHdr (it_call x)), pkt)])), PWait. split; [done |]. by constructor.
  - destruct (Z.eqb_spec (messageSent m) 0); [done | took PLeave].
  - rewrite Hh by done. took PLeft.
  - took PIdle.
Qed.

Lemma sender_interrupt m ps called log lo e r : inv m ps called log lo -> fires e m = Some r ->
  exists m', r = Ok m' /\ inv m' ps called log lo /\ NetworkOutput.wire (network m') = NetworkOutput.wire (network m).
Proof.
  intros [Hl Hu Hb Hw Hf Hwi Hc]. unfold fires. destruct (fire _ _ _) as [b |] eqn:Hfi; [| done]. cbn [fmap option_fmap option_map].
  apply fire_asked in Hfi. intros [= <-]. eexists. split; [reflexivity |]. split; [| done]. split; cbn; try done; lia.
Qed.

Lemma sender_wire th m p m' p' : next th m p m' p' -> exists w, NetworkOutput.wire (network m') = NetworkOutput.wire (network m) ++ w.
Proof. intros []; cbn; try (exists []; by rewrite app_nil_r). by eexists. Qed.

(** ** Runs *)

Definition ok (s : sys) (called : list call) : Prop :=
  exists ps log lo, at_points denote (threads s) ps /\ inv (mon s) ps called log lo.

Definition calls (e : event call interrupt) : list call := match e with Start _ c => [c] | _ => [] end.
Definition admissible (e : event call interrupt) : Prop := match e with Start _ c => typed c | _ => True end.

(** The states of the sender, with the calls that were made. *)
Inductive reach (n : nat) : sys -> list call -> Prop :=
  | reach_start : reach n (mkSys create (replicate n (Idle tt))) []
  | reach_step s called e s' : reach n s called -> admissible e -> step s e = Some (Ok s') -> reach n s' (called ++ calls e).

(** One step; [log'] is what is on the wire then. *)
Lemma sender_step (s : sys) called e r : ok s called -> admissible e -> step s e = Some r ->
  (exists s' : sys, r = Ok s' /\ ok s' (called ++ calls e)) \/
  (exists th c f, e = Run th /\ threads s !! th = Some (Send host th c) /\ refusal c = Some f /\ r = Fault f).
Proof.
  intros (ps & log & lo & Hpt & Hi) Ha Hs. destruct e as [th | th c | d].
  - destruct (run_inv denote s ps th r Hpt Hs) as (p & r' & Hp & Hr & ->).
    destruct (advance_sender (mon s) ps called log lo th p r' Hi Hp Hr) as [(m' & p' & -> & Hn) | (c & f & -> & Hf & ->)].
    2: { right. exists th, c, f. by rewrite Hpt, Hp. }
    left. eexists. split; [reflexivity |]. cbn [calls]. rewrite app_nil_r.
    exists (<[th := p']> ps), (log ++ sent_now p), (lo ++ lost_now p).
    split; [by apply (place_move denote _ _ _ p) | exact (sender_next (mon s) ps called log lo th p m' p' Hi Hp Hn)].
  - cbn in Hs. rewrite Hpt in Hs. destruct (ps !! th) as [p |] eqn:Hp; [| done]. destruct p; cbn in Hs; try done. injection Hs as <-.
    left. eexists. split; [reflexivity |]. exists (<[th := PAsk c]> ps), log, lo.
    split; [by apply (place_move denote _ _ _ PIdle (PAsk c)) |]. destruct Hi as [Hl Hu Hb Hw Hf Hwi Hc].
    split; cbn [mon calls]; try done; [by apply (lock_move inside holds ps th _ _ Hp) | by rewrite (total_same waits ps th PIdle) | |].
    + intros i q Hq. destruct (move_lookup _ _ _ _ _ _ Hp Hq) as [[-> ->] | [_ ?]]; [exact Ha | by eapply Hf].
    + pose proof (pending_move ps th PIdle (PAsk c) Hp) as Hm. cbn [pend] in Hm. rewrite app_nil_r in Hm. by rewrite Hm, Hc, <- !app_assoc.
  - cbn in Hs. destruct (fires d (mon s)) as [r' |] eqn:Hf; [| done]. destruct (sender_interrupt _ ps called log lo d r' Hi Hf) as (m' & -> & Hi' & _).
    injection Hs as <-. left. eexists. split; [reflexivity |]. cbn [calls]. rewrite app_nil_r. by exists ps, log, lo.
Qed.

Lemma sender_ok n s called : reach n s called -> ok s called.
Proof.
  induction 1 as [| s called e s' _ IH Ha Hs]; [| by destruct (sender_step s called e _ IH Ha Hs) as [(? & [= <-] & ?) | (? & ? & ? & _ & _ & _ & ?)]].
  assert (forall th p, replicate n PIdle !! th = Some p -> p = PIdle) as Hr by (by intros th p [-> _]%lookup_replicate).
  exists (replicate n PIdle), [], []. split; [by apply place_all |]. split; cbn; try done; [by apply lock_start | | |].
  - rewrite total_zero; [done |]. by intros th p ->%Hr.
  - by intros th p ->%Hr.
  - unfold pending. induction n as [| n IH]; [done |]. cbn. apply IH. by intros th p [-> _]%lookup_replicate.
Qed.

(** What is on the wire stays. *)
Lemma wire_grows (s : sys) called e (s' : sys) : ok s called -> step s e = Some (Ok s') ->
  exists w, NetworkOutput.wire (network (mon s')) = NetworkOutput.wire (network (mon s)) ++ w.
Proof.
  intros (ps & log & lo & Hpt & Hi) Hs. destruct e as [th | th c | d].
  - destruct (run_inv denote s ps th _ Hpt Hs) as (p & r' & Hp & Hr & Hput).
    destruct (advance_sender (mon s) ps called log lo th p r' Hi Hp Hr) as [(m' & p' & -> & Hn%sender_wire) | (? & ? & _ & _ & ->)]; [| done]. by injection Hput as ->.
  - exists []. cbn in Hs. destruct (threads s !! th) as [[] |]; try done. injection Hs as <-. by rewrite app_nil_r.
  - exists []. cbn in Hs. destruct (fires d (mon s)) as [r' |] eqn:Hf; [| done].
    destruct (sender_interrupt _ ps called log lo d r' Hi Hf) as (m' & -> & _ & E). injection Hs as <-. by rewrite app_nil_r.
Qed.

(** C28: Any number of threads call [PostOfficeOutput::Send], with any headers and
    data.  The one step that can fail is the start of a call that is refused:
    [Send]'s own assertions, that the message is not longer than [MaxMailSize] and
    that the box is not negative, and a message longer than the bytes given; no
    other assertion fails, in the post office or the device.  A packet goes out
    only by the holder of the lock, when the interrupt for the one before has come
    and was waited for; and what is on the wire is, packet by packet, the message
    of one call each, of some of the calls that were made. *)
Theorem send_one_at_a_time n s called : reach n s called ->
  (forall e r, admissible e -> step s e = Some r ->
     (exists th c f, e = Run th /\ threads s !! th = Some (Send host th c) /\ refusal c = Some f /\ r = Fault f) \/
     exists s' : sys, r = Ok s' /\
       (NetworkOutput.wire (network (mon s')) = NetworkOutput.wire (network (mon s)) \/
        asked (bus (mon s)) = [] /\ messageSent (mon s) = 0 /\ exists th, e = Run th /\ lockHolder (mon s) = Some th)) /\
  exists log, Forall2 (carries_call host) (NetworkOutput.wire (network (mon s))) log /\ log ⊆+ called.
Proof.
  intros Hok%sender_ok. split.
  - intros e r Ha Hs. destruct (sender_step s called e r Hok Ha Hs) as [(s' & -> & _) | ?]; [right | by left]. exists s'. split; [done |].
    destruct Hok as (ps & log & lo & Hpt & Hi). destruct e as [th | th c | d].
    + destruct (run_inv denote s ps th _ Hpt Hs) as (p & r' & Hp & Hr & Hput).
      destruct (advance_sender (mon s) ps called log lo th p r' Hi Hp Hr) as [(m' & p' & -> & Hn) | (? & ? & _ & _ & ->)]; [| done]. injection Hput as ->.
      pose proof (sender_at_rest _ _ _ _ _ th p Hi Hp) as Hrest. pose proof (lk_holder _ _ _ _ _ (inv_lock _ _ _ _ _ Hi) th p Hp) as Hh.
      destruct Hn; try (by left). right. destruct Hrest as [E1 E2]; [done | done |]. split_and!; [done | done |]. exists th. by rewrite Hh.
    + left. cbn in Hs. destruct (threads s !! th) as [[] |]; try done. by injection Hs as <-.
    + left. cbn in Hs. destruct (fires d (mon s)) as [r' |] eqn:Hf; [| done].
      destruct (sender_interrupt _ ps called log lo d r' Hi Hf) as (m' & -> & _ & E). by injection Hs as <-.
  - destruct Hok as (ps & log & lo & _ & Hi). exists log. split; [apply Hi |]. rewrite (inv_calls _ _ _ _ _ Hi). by apply submseteq_inserts_r.
Qed.

(** When no thread of the sender can go on, every thread is idle, or the holder
    of the lock waits for the interrupt of its packet, which the device has asked
    for. *)
Theorem send_at_rest n s called : reach n s called -> (forall th, step s (Run th) = None) ->
  (forall th k, threads s !! th = Some k -> k = Idle tt) \/
  exists th k, threads s !! th = Some (CallP MessageSent k) /\ lockHolder (mon s) = Some th /\ asked (bus (mon s)) <> [].
Proof.
  intros (ps & log & lo & Hpt & Hi)%sender_ok Hb.
  assert (forall th p, ps !! th = Some p -> advance th (denote th p) (mon s) = None) as Hst.
  { intros th p Hp. by apply (stuck_advance denote s ps th p Hpt (Hb th) Hp). }
  assert (forall th p, ps !! th = Some p -> p = PIdle \/ (exists x, p = PGive x) \/ p = PWait) as Hcases.
  { intros th p Hp. specialize (Hst th p Hp). destruct p; try done; eauto. }
  destruct (decide (0 < total inside ps)%nat) as [(th & p & Hp & Hin)%total_pos | Hz].
  - right. destruct (Hcases th p Hp) as [-> | [[x ->] | ->]]; cbn in Hin; [lia | lia |]. pose proof (Hst th PWait Hp) as Hw. cbn in Hw.
    exists th, (Release th (Idle tt)). split; [by rewrite Hpt, Hp |]. split; [by apply (lk_holder _ _ _ _ _ (inv_lock _ _ _ _ _ Hi) th PWait Hp) |].
    destruct (Z.eqb_spec (messageSent (mon s)) 0) as [E |]; [| done]. intros Ea. pose proof (inv_waits _ _ _ _ _ Hi) as Ht. rewrite E, Ea in Ht.
    pose proof (total_le waits ps th PWait Hp) as Hle. cbn in Hle, Ht. lia.
  - left. intros th k Hk. rewrite Hpt in Hk. destruct (ps !! th) as [p |] eqn:Hp; [| done]. injection Hk as <-.
    pose proof (total_le inside ps th p Hp). destruct (Hcases th p Hp) as [-> | [[x ->] | ->]]; [done | | cbn in *; lia].
    pose proof (Hst th _ Hp) as Hg. cbn in Hg. pose proof (lk_one _ _ _ _ _ (inv_lock _ _ _ _ _ Hi)).
    destruct (Z.eqb_spec (sendLock (mon s)) 0); [lia | done].
Qed.
End host.
End Sender.

(** ** Demo *)

Module SenderDemo.
Import Bus Wire Procs PostOfficeOutput Letters Sender.

#[local] Instance demo_sender : Component t semref unit Empty_set call interrupt := component 1.
Definition idle : sys t semref unit Empty_set := mkSys create (replicate 2 (Idle tt)).
(** Two threads call [Send]; the first hands its packet to the device. *)
Definition handing : list (event call interrupt) := [Start 0 LettersDemo.call; Start 1 LettersDemo.call] ++ replicate 4 (Run 0) ++ [Run 1].
Definition handed_over : sys t semref unit Empty_set := after idle handing.

Lemma here_ok : is_s32 1.
Proof. done. Qed.

Lemma reach_sending s called es s' : reach 1 2 s called -> Forall admissible es -> events s es = Some s' ->
  reach 1 2 s' (called ++ concat (calls <$> es)).
Proof.
  revert s called. induction es as [| e es IH]; intros s called Hr Ha He; cbn [events] in He.
  - injection He as <-. by rewrite app_nil_r.
  - apply Forall_cons in Ha as [Ha Has]. destruct (step s e) as [[s1 |] |] eqn:Hs; [| done | done].
    rewrite fmap_cons, concat_cons, app_assoc. exact (IH s1 _ (reach_step 1 2 s called e s1 Hr Ha Hs) Has He).
Qed.

Lemma reach_handed_over : reach 1 2 handed_over [LettersDemo.call; LettersDemo.call].
Proof.
  apply (reach_sending idle [] handing); [constructor | | apply events_after; by vm_compute].
  unfold handing. rewrite !Forall_app. split_and!; [| by apply Forall_replicate | by apply Forall_singleton].
  repeat constructor; apply LettersDemo.call_typed.
Qed.

Lemma send_one_at_a_time_witness : length (NetworkOutput.wire (network (mon handed_over))) = 1%nat /\
  exists log, Forall2 (carries_call 1) (NetworkOutput.wire (network (mon handed_over))) log /\ log ⊆+ [LettersDemo.call; LettersDemo.call].
Proof.
  split; [vm_compute; reflexivity |].
  exact (proj2 (send_one_at_a_time 1 here_ok 2 handed_over _ reach_handed_over)).
Defined.

Lemma handed_over_waits th : step handed_over (Run th) = None.
Proof. destruct th as [| [| th]]; vm_compute; reflexivity. Qed.

(** The first waits for the interrupt, the second for the lock. *)
Lemma send_at_rest_witness : (forall th k, threads handed_over !! th = Some k -> k = Idle tt) \/
  exists th k, threads handed_over !! th = Some (CallP MessageSent k) /\ lockHolder (mon handed_over) = Some th /\ asked (bus (mon handed_over)) <> [].
Proof. exact (send_at_rest 1 here_ok 2 handed_over _ reach_handed_over handed_over_waits). Defined.
End SenderDemo.
