(* ===== verification/Route.v ===== *)
(** * Route: from [Send] on one machine to [Receive] on another

    Two machines joined by the host's sockets: the sending post office of one
    (Sender.v) and the receiving one of the other (Office.v).  The socket keeps
    the order of its packets and loses none; what is lost is lost by
    [NetworkOutput::Send].  Packets for other hosts go elsewhere. *)

From S2P Require Import Prelude Stats Interrupt Devices Procs Monitor Network Post Deliveries Office Sender.

Module Route.
Import Bus Wire Procs Letters.

#[local] Notation sender := (Procs.sys PostOfficeOutput.t PostOfficeOutput.semref unit Empty_set).
#[local] Notation office := (Procs.sys PostOfficeInput.t PostOfficeInput.semref PostOfficeInput.received PostOfficeInput.loop).
#[local] Notation call := PostOfficeOutput.call.

Section machines.
Context (nb : nat) (here there : Z) (Hhere : is_s32 here).
#[local] Set Default Proof Using "Type*".
#[local] Notation send_step := (Procs.step (Component0 := PostOfficeOutput.component here)).
#[local] Notation office_step := (Procs.step (Component0 := PostOfficeInput.component there)).

Definition on_wire (s : sender) : list (Z * list Z) := NetworkOutput.wire (PostOfficeOutput.network (mon s)).

(** Not the arrival of a packet. *)
Definition local (e : Procs.event Z PostOfficeInput.happening) : Prop := Office.arrives e = [].

(** Mail for [there] is for a box it has; other hosts are not looked at. *)
Definition addressed (c : call) : Prop :=
  pkt_to (PostOfficeOutput.pktHdr c) = there -> mail_to (PostOfficeOutput.mailHdr c) < Z.of_nat nb.
Definition sends (e : Procs.event call PostOfficeOutput.interrupt) : Prop := Sender.admissible e /\ Forall addressed (Sender.calls e).

(** [k]: how many packets have left the wire; [called]: the calls of [Send];
    [h]: what happened in the office of [there]. *)
Inductive reach (n m : nat) : sender -> office -> nat -> list call -> Office.history -> Prop :=
  | reach_start garbage buffer (r : office) : length garbage.2 = 52%nat -> length buffer = 52%nat ->
      PostOfficeInput.create nb m garbage buffer = Ok r ->
      reach n m (mkSys PostOfficeOutput.create (replicate n (Idle tt))) r 0 [] Office.nothing
  | reach_send s r k called h e s' : reach n m s r k called h -> sends e -> send_step s e = Some (Ok s') ->
      reach n m s' r k (called ++ Sender.calls e) h
  | reach_office s r k called h e r' : reach n m s r k called h -> local e ->
      office_step r e = Some (Ok r') -> reach n m s r' k called (Office.note h e r r')
  | reach_deliver s r k called h pkt r' : reach n m s r k called h -> on_wire s !! k = Some (there, pkt) ->
      office_step r (Device (PostOfficeInput.Arrive pkt)) = Some (Ok r') -> reach n m s r' (S k) called h
  | reach_elsewhere s r k called h host pkt : reach n m s r k called h -> on_wire s !! k = Some (host, pkt) -> host <> there ->
      reach n m s r (S k) called h.

(** The packets for [there]. *)
Definition for_there (l : list (Z * list Z)) : list (list Z) := snd <$> filter (fun w => w.1 = there) l.

Lemma for_there_app l l' : for_there (l ++ l') = for_there l ++ for_there l'.
Proof. unfold for_there. by rewrite filter_app, fmap_app. Qed.

Lemma take_next {A} (l : list A) k x : l !! k = Some x -> take (S k) l = take k l ++ [x].
Proof. apply take_S_r. Qed.

Lemma local_admissible e : local e -> Office.admissible there nb e.
Proof. intros H. destruct e as [| | [i now | pkt]]; [done.. |]. discriminate H. Qed.

(** What is on the wire for [there] is a letter for one of its boxes. *)
Lemma wire_letter s called k pkt : Sender.ok here s called -> Forall addressed called -> on_wire s !! k = Some (there, pkt) -> letter nb there pkt.
Proof.
  intros (ps & log & lo & _ & Hi) Ha Hw.
  destruct (Forall2_lookup_l _ _ _ _ _ (Sender.inv_wire _ _ _ _ _ _ Hi) Hw) as (c & Hc & Ht & Hl & _ & Hm).
  apply (letter_more _ nb _ _ Hl). replace (header_of _) with (PostOfficeOutput.mailHdr c) by (symmetry; exact (f_equal Mail.mailHdr Hm)).
  rewrite Forall_forall in Ha. apply Ha; [| by symmetry]. rewrite (Sender.inv_calls _ _ _ _ _ _ Hi).
  apply elem_of_app. left. by eapply list_elem_of_lookup_2.
Qed.

Definition good (s : sender) (r : office) (k : nat) (called : list call) (h : Office.history) : Prop :=
  Sender.ok here s called /\ Office.ok there nb r (for_there (take k (on_wire s))) h /\ (k <= length (on_wire s))%nat /\ Forall addressed called.

Lemma route_good n m s r k called h : reach n m s r k called h -> good s r k called h.
Proof.
  induction 1 as [garbage buffer r Hg Hb Hc | s r k called h e s' _ (Hs & Ho & Hk & Ha) [Ht He'] He | s r k called h e r' _ (Hs & Ho & Hk & Ha) Hl He
    | s r k called h pkt r' _ (Hs & Ho & Hk & Ha) Hw He | s r k called h host pkt _ (Hs & Ho & Hk & Ha) Hw Hne].
  - split; [by apply (Sender.sender_ok here Hhere n), Sender.reach_start | split; [| by cbn]].
    by apply (Office.office_start there nb m garbage buffer).
  - destruct (Sender.sender_step here Hhere s called e _ Hs Ht He) as [(? & [= <-] & Hs') | (? & ? & ? & _ & _ & _ & ?)]; [| done].
    destruct (Sender.wire_grows here Hhere s called e s' Hs He) as [w Hw]. unfold good, on_wire in *. rewrite Hw, length_app, take_app_le by done.
    split; [done | split; [done | split; [lia | by apply Forall_app]]].
  - destruct (Office.office_step there nb r _ h e _ Ho (local_admissible e Hl) He) as [(? & [= <-] & Ho') | (? & ? & _ & _ & _ & ?)]; [| done].
    rewrite Hl, app_nil_r in Ho'. by split.
  - pose proof (wire_letter s called k pkt Hs Ha Hw) as Hlt.
    destruct (Office.office_device there nb r _ h (PostOfficeInput.Arrive pkt) _ Ho Hlt He) as (? & [= <-] & Ho').
    unfold good. rewrite (take_next _ _ _ Hw), for_there_app. apply lookup_lt_Some in Hw.
    split; [done | split; [| split; [lia | done]]]. unfold for_there at 2. rewrite filter_cons_True by done. exact Ho'.
  - unfold good. rewrite (take_next _ _ _ Hw), for_there_app. apply lookup_lt_Some in Hw.
    split; [done | split; [| split; [lia | done]]]. unfold for_there at 2. rewrite filter_cons_False by done. by rewrite app_nil_r.
Qed.

(** Packets and the calls they carry. *)
Definition to_there (i : nat) (c : call) : Prop :=
  pkt_to (PostOfficeOutput.pktHdr c) = there /\ Z.to_nat (mail_to (PostOfficeOutput.mailHdr c)) = i.

Lemma carried_mail i ws log : Forall2 (Sender.carries_call here) ws log ->
  mail_of <$> filter (fun pkt => box_of pkt = i) (for_there ws) = Sender.message here <$> filter (to_there i) log.
Proof.
  induction 1 as [| w c ws log (Ht & _ & Hb & Hm) _ IH]; [done |]. change (w :: ws) with ([w] ++ ws).
  rewrite for_there_app, filter_app, fmap_app, IH.
  assert (for_there [w] = if decide (w.1 = there) then [w.2] else []) as -> by (unfold for_there; cbn; by case_decide).
  destruct (decide (to_there i c)) as [[E Ei] | Hn].
  - rewrite (filter_cons_True (to_there i)), decide_True by (done || congruence). rewrite (filter_cons_True _ w.2) by congruence. cbn. by rewrite Hm.
  - rewrite (filter_cons_False (to_there i)) by done. case_decide; [| done].
    rewrite (filter_cons_False _ w.2); [done |]. intros Ei. destruct Hn. split; congruence.
Qed.

(** C27: Mail from one machine to another: whatever the threads of the two post
    offices call and do when, with the interrupts of both network devices and the
    socket between them, as long as mail for the other machine is for a box it
    has.  No step fails on either side, but a call of [Send] that is refused
    ([refusal]) and one of [Receive] for a box that is not there.  The messages
    taken out of a box are, in this order and unchanged, those of calls of [Send]
    to this box, each at most once: none is made up, duplicated, altered or
    overtaken; and they are what the calls of [Receive] for this box give, thread
    by thread and in order, but for the one a call is about to give. *)
Theorem mail_end_to_end n m s r k called h : reach n m s r k called h ->
  (forall e x, sends e -> send_step s e = Some x -> (exists s' : sender, x = Ok s') \/
     exists th c f, e = Run th /\ threads s !! th = Some (PostOfficeOutput.Send here th c) /\ refusal c = Some f /\ x = Fault f) /\
  (forall e x, local e -> office_step r e = Some x -> (exists r' : office, x = Ok r') \/
     exists th box, e = Run th /\ threads r !! th = Some (PostOfficeInput.Receive th box) /\ ~ (0 <= box < Z.of_nat nb) /\ x = Fault AssertFailure) /\
  (forall pkt x, on_wire s !! k = Some (there, pkt) ->
     office_step r (Device (PostOfficeInput.Arrive pkt)) = Some x -> exists r' : office, x = Ok r') /\
  (exists log, log ⊆+ called /\ forall i, (i < nb)%nat -> (Office.taken h i).*2 `prefix_of` (Sender.message here <$> filter (to_there i) log)) /\
  (forall th p, threads r !! th = Some p -> Office.answered nb h th p).
Proof.
  intros (Hs & Ho & Hk & Ha)%route_good. split_and!.
  - intros e x [He _] Hx. destruct (Sender.sender_step here Hhere s called e _ Hs He Hx) as [(s' & -> & _) | ?]; [left; by exists s' | by right].
  - intros e x He Hx. destruct (Office.office_step there nb r _ h e _ Ho (local_admissible e He) Hx) as [(r' & -> & _) | ?]; [left; by exists r' | by right].
  - intros pkt x Hw Hx.
    destruct (Office.office_device there nb r _ h (PostOfficeInput.Arrive pkt) _ Ho (wire_letter s called k pkt Hs Ha Hw) Hx) as (r' & -> & _). by exists r'.
  - destruct Hs as (ps & log & lo & _ & Hi). exists log. split; [rewrite (Sender.inv_calls _ _ _ _ _ _ Hi); by apply submseteq_inserts_r |].
    intros i Hlt. etrans; [exact (Office.taken_prefix there nb r _ h i Ho Hlt) |].
    rewrite <- (carried_mail i (on_wire s)) by apply Hi. rewrite <- (take_drop k (on_wire s)) at 2.
    rewrite for_there_app, filter_app, fmap_app. by eexists.
  - intros th p Hp. by apply (Office.all_answered there nb r (for_there (take k (on_wire s)))).
Qed.
End machines.
End Route.

(** ** Demo *)

Module RouteDemo.
Import Wire Procs Letters Route.

#[local] Notation send_step := (Procs.step (Component0 := PostOfficeOutput.component 1)).
#[local] Notation office_after := (Procs.after (Component0 := PostOfficeInput.component 2)).
#[local] Notation office_events := (Procs.events (Component0 := PostOfficeInput.component 2)).

(** Host 1 has handed its first message over; at host 2 a thread waits at the
    box; then the packet comes, and the thread gets the message. *)
Definition waiting := office_after OfficeDemo.opened OfficeDemo.asking.
Definition arrived := office_after waiting [Device (PostOfficeInput.Arrive LettersDemo.packet)].
Definition receiving : list (event Z PostOfficeInput.happening) :=
  Device (PostOfficeInput.Interrupt 0 200) :: replicate 11 (Run 0) ++ replicate 8 (Run 1).
Definition received := office_after arrived receiving.
Definition diary0 : Office.history := OfficeDemo.noted Office.nothing OfficeDemo.opened OfficeDemo.asking.
Definition diary : Office.history := OfficeDemo.noted diary0 arrived receiving.

Lemma reach_local s r k called h es r' : reach 2 1 2 2 1 s r k called h -> Forall local es ->
  office_events r es = Some r' -> reach 2 1 2 2 1 s r' k called (OfficeDemo.noted h r es).
Proof.
  revert r h. induction es as [| e es IH]; intros r h Hr Hl He; cbn [events OfficeDemo.noted] in *; [by injection He as <- |].
  apply Forall_cons in Hl as [Hl Hls]. destruct (step r e) as [[r1 |] |] eqn:Hs; [| done | done].
  exact (IH r1 _ (reach_office 2 1 2 2 1 s r k called h e r1 Hr Hl Hs) Hls He).
Qed.

Lemma reach_sender s r k called h es s' : reach 2 1 2 2 1 s r k called h -> Forall (sends 2 2) es ->
  events (Component0 := PostOfficeOutput.component 1) s es = Some s' ->
  reach 2 1 2 2 1 s' r k (called ++ concat (Sender.calls <$> es)) h.
Proof.
  revert s called. induction es as [| e es IH]; intros s called Hr Ha He; cbn [events] in He.
  - injection He as <-. by rewrite app_nil_r.
  - apply Forall_cons in Ha as [Ha Has]. destruct (step s e) as [[s1 |] |] eqn:Hs; [| done | done].
    rewrite fmap_cons, concat_cons, app_assoc. exact (IH s1 _ (reach_send 2 1 2 2 1 s r k called h e s1 Hr Ha Hs) Has He).
Qed.

Lemma sends_call th : sends 2 2 (Start th LettersDemo.call).
Proof. split; [exact LettersDemo.call_typed | by apply Forall_singleton]. Qed.
Lemma sends_run th : sends 2 2 (Run th).
Proof. by split. Qed.

#[local] Notation calls := [LettersDemo.call; LettersDemo.call].

Lemma reach_sent : reach 2 1 2 2 1 SenderDemo.handed_over OfficeDemo.opened 0 calls Office.nothing.
Proof.
  apply (reach_sender SenderDemo.idle OfficeDemo.opened 0 [] Office.nothing SenderDemo.handing); [by apply (reach_start 2 1 2 2 1 OfficeDemo.garbage (replicate 52 8)) | |
    apply events_after; by vm_compute].
  repeat (apply Forall_cons; split; [apply sends_call || apply sends_run |]). by apply Forall_nil.
Qed.

Lemma reach_waits : reach 2 1 2 2 1 SenderDemo.handed_over waiting 0 calls diary0.
Proof.
  refine (reach_local _ OfficeDemo.opened 0 _ Office.nothing OfficeDemo.asking waiting reach_sent _ _); [repeat constructor |].
  apply events_after. by vm_compute.
Qed.

Lemma reach_arrived : reach 2 1 2 2 1 SenderDemo.handed_over arrived 1 calls diary0.
Proof.
  refine (reach_deliver 2 1 2 2 1 _ waiting 0 _ diary0 LettersDemo.packet arrived reach_waits _ _); [vm_compute; reflexivity |].
  apply step_after. by vm_compute.
Qed.

Lemma reach_received : reach 2 1 2 2 1 SenderDemo.handed_over received 1 calls diary.
Proof.
  refine (reach_local _ arrived 1 _ diary0 receiving received reach_arrived _ _); [repeat constructor |].
  apply events_after. by vm_compute.
Qed.

(** The thread at host 2 gets what was sent at host 1. *)
Lemma mail_end_to_end_witness : Office.results 1 (Office.answers diary 1) = [Office.answer (Sender.message 1 LettersDemo.call)] /\
  (exists log, log ⊆+ [LettersDemo.call; LettersDemo.call] /\
     prefix (Office.taken diary 1).*2 (Sender.message 1 <$> filter (to_there 2 1) log)) /\
  exists p, Office.answered 2 diary 1 p.
Proof.
  split; [vm_compute; reflexivity |].
  destruct (mail_end_to_end 2 1 2 SenderDemo.here_ok 2 1 _ _ _ _ _ reach_received) as (_ & _ & _ & (log & Hl & Hp) & Ha). split.
  - exists log. split; [exact Hl | exact (Hp 1%nat ltac:(lia))].
  - eexists. apply (Ha 1%nat). vm_compute. reflexivity.
Defined.
End RouteDemo.
