(* ===== verification/Boot.v ===== *)
(** * Boot: kernel.cc [Kernel::Initialize]

    The objects of the kernel, made in the order of the code on one interrupt
    hardware and one clock.  What a device asks the hardware for when it is made is
    in the pending list and in what the device knows of the kernel ([Bus]).  The
    machine has no interrupts due while it starts, unless the time slices are
    random.  The devices are those of their own files; the debug flag of the machine
    and the reliability of the network, which only their later calls use, are not
    kept. *)

From S2P Require Import Prelude Bitmap Lists Machine Stats Disk Interrupt Devices Threads Sched FileCalls SemTable.
From S2P Require Import Processes Procs Monitor Consoles Network Post.

Module Boot.
Import Stats Interrupt.

(** The objects that ask for interrupts. *)
Inductive device : Set := Alarm | Keyboard | NetworkIn.
#[global] Instance device_eq_dec : EqDecision device.
Proof. solve_decision. Defined.

Record W := mkW { timer : Timer.t; system : Threads.kernel }.
Notation hardware := (Interrupt.kernel device W).

(** [class Kernel]; [addrLock] is a semaphore of [system]. *)
Record t := mk {
  clock : hardware;
  synchConsoleIn : SynchConsoleInput.t;
  synchConsoleOut : SynchConsoleOutput.t;
  synchDisk : SynchDisk.t;
  addrLock : nat;
  gPhysPageBitMap : Bitmap.t;
  pageTable : Bitmap.t;
  pTab : PTable.t Bitmap.t;
  sTab : STable.t Bitmap.t;
  fileSystem : FileCalls.t;
  postOfficeIn : PostOfficeInput.t;
  postOfficeOut : PostOfficeOutput.t;
}.

Section initialize.
(** What [new] leaves in a thread, the code of the postal worker, and the random
    numbers; what the host's files hold, whether it creates a file, and what the
    members that are not initialised hold. *)
Context (fresh : list Z) (worker : list Threads.instr) (RandomNumber : W -> Z * W).
Context (typed : list Z) (disk : option (list Z)) (hostFiles : gmap (list Z) (list Z)) (creatable : list Z -> bool).
Context (garbage : Wire.PacketHeader * list Z).

(** Handlers and [Yield], which nothing calls before the first thread runs. *)
Context (CallBack : device -> hardware -> res hardware) (Yield : hardware -> res hardware).

Definition SetLevel (K : hardware) (l : IntStatus) : res hardware :=
  '(_, K) ← Interrupt.SetLevel CallBack Yield K l; Ok K.

Definition with_system (K : hardware) (k : Threads.kernel) : hardware := with_rest K (mkW (timer (rest K)) k).
Definition set_timer (w : W) (tm : Timer.t) : W := mkW tm (system w).

(** [new Semaphore(name, value)] *)
Definition new_semaphore (K : hardware) (v : Z) : nat * hardware :=
  let k := system (rest K) in
  (length (Threads.sems k), with_system K (Threads.with_sems k (Threads.sems k ++ [Threads.new_Semaphore v]))).

(** [new Thread] and [Fork] on the interrupt hardware *)
Definition Fork (K : hardware) (body : list Threads.instr) : res hardware :=
  let old := level (interrupt K) in
  K ← SetLevel K IntOff;
  k ← Threads.Fork fresh (Threads.with_level (system (rest K)) IntOff) body;
  SetLevel (with_system K k) old.

(** [new SynchConsoleInput]: the device asks for its first poll. *)
Definition new_SynchConsoleInput (K : hardware) : res (SynchConsoleInput.t * hardware) :=
  '(c, b) ← ConsoleInput.create typed (Bus.mk (stats K) []);
  K ← Schedule K Keyboard ConsoleTime ConsoleReadInt;
  Ok (SynchConsoleInput.mk c 1 None 0 b, K).

(** [new PostOfficeInput]: ten boxes, the first poll of the network, the worker. *)
Definition new_PostOfficeInput (nBoxes : nat) (K : hardware) : res (PostOfficeInput.t * hardware) :=
  '(n, b) ← NetworkInput.create garbage (Bus.mk (stats K) []);
  K ← Schedule K NetworkIn NetworkTime NetworkRecvInt;
  K ← Fork K worker;
  Ok (PostOfficeInput.mk n (replicate nBoxes Monitor.create) 0 [] b, K).

(** The state before: nothing but the thread that runs, with interrupts off. *)
Definition before : hardware :=
  mkKernel Interrupt.create Stats.create None
    (mkW (Timer.mk false false) (Threads.with_level (Threads.Initialize fresh Machine.create [] [] []) IntOff)).

Definition Initialize (randomSlice : bool) : res t :=
  K ← SetLevel before IntOn;
  K ← Timer.create Alarm timer RandomNumber set_timer K randomSlice;
  let K := with_machine K (Some Machine.create) in
  '(sIn, K) ← new_SynchConsoleInput K;
  let sOut := SynchConsoleOutput.create in
  sd ← SynchDisk.create disk (stats K);
  let '(addr, K) := new_semaphore K 1 in
  frames ← Bitmap.create 256;
  pages ← Bitmap.create 10;
  bp ← Bitmap.create 10;
  pt ← PTable.create bp;
  bs ← Bitmap.create 10;
  let st := STable.create bs in
  fs ← FileCalls.FileSystem creatable (FileCalls.mk Machine.create [] [] hostFiles [] [] 0);
  match fs with
  | FileCalls.Trapped _ _ => Fault AssertFailure
  | FileCalls.Returned _ fs =>
      '(pIn, K) ← new_PostOfficeInput 10 K;
      let pOut := PostOfficeOutput.create in
      K ← SetLevel K IntOn;
      Ok (mk K sIn sOut sd addr frames pages pt st fs pIn pOut)
  end.

(** ** What the kernel is then *)

(** The hardware between two calls of the code that starts the kernel. *)
Record starting (K : hardware) (xs : list (PendingInterrupt device)) (now : Z) (l : IntStatus) : Prop := {
  sg_agenda : agenda K xs;
  sg_ticks : ticks K = now;
  sg_level : level (interrupt K) = l;
  sg_handler : inHandler (interrupt K) = false;
  sg_yield : yieldOnReturn (interrupt K) = false;
  sg_status : status (interrupt K) = SystemMode;
}.

Lemma enable K xs now : starting K xs now IntOff -> Forall (fun p => now + SystemTick < when_ p) xs ->
  exists K', SetLevel K IntOn = Ok K' /\ starting K' xs (now + SystemTick) IntOn /\ machine K' = machine K /\ rest K' = rest K.
Proof.
  intros [Ha Ht Hl Hh Hy Hs] Hlate. unfold SetLevel, Interrupt.SetLevel. rewrite Hh, Hl. cbn [negb]. rewrite orb_true_r.
  cbn [ASSERT mbind res_bind]. rewrite !bool_decide_true by done. cbn [andb]. unfold OneTick.
  set (K1 := ChangeLevel (advance_clock (ChangeLevel K IntOn)) IntOff).
  assert (ticks K1 = now + SystemTick) as Ht1.
  { unfold K1, ticks, advance_clock. cbn. rewrite decide_True by done. cbn. unfold ticks in Ht. by rewrite Ht. }
  assert (agenda K1 xs) as Ha1 by (destruct Ha; by split).
  assert (CheckIfDue CallBack K1 false = Ok (false, K1)) as ->.
  { unfold CheckIfDue. rewrite bool_decide_true by done. cbn [ASSERT mbind res_bind].
    rewrite (CList.IsEmpty_rep _ _ (ag_rep _ _ Ha1)). destruct xs as [| p xs]; [by rewrite bool_decide_true |].
    rewrite bool_decide_false, (CList.Front_rep _ _ _ (ag_rep _ _ Ha1)) by done. cbn [mbind res_bind].
    apply Forall_cons in Hlate as [Hp _]. rewrite Ht1, Z.gtb_ltb, (proj2 (Z.ltb_lt _ _) Hp). done. }
  cbn [mbind res_bind]. change (yieldOnReturn (interrupt (ChangeLevel K1 IntOn))) with (yieldOnReturn (interrupt K)). rewrite Hy.
  cbn [mbind res_bind]. eexists. split; [reflexivity |]. split; [| done]. split; try done. destruct Ha1; by split.
Qed.

Lemma ask K xs now l obj fromNow ty : starting K xs now l -> 0 < fromNow ->
  exists K' xs', Schedule K obj fromNow ty = Ok K' /\ starting K' xs' now l /\
    xs' ≡ₚ mkPending (brk (interrupt K)) (Some obj) None (now + fromNow) ty :: xs /\
    machine K' = machine K /\ rest K' = rest K /\ stats K' = stats K.
Proof.
  intros [Ha Ht Hl Hh Hy Hs] Hpos. destruct (Schedule_spec K xs obj fromNow ty Ha Hpos) as (K' & E & Ha' & Hst & Hm & Hr & Hl' & Hi & Hy' & Hs').
  exists K'. eexists. rewrite Ht in Ha'. split; [exact E |]. split; [| split; [apply CList.insert_sorted_perm | done]].
  split; [exact Ha' | unfold ticks in *; by rewrite Hst | congruence..].
Qed.
(** Turning interrupts off, or on when they are on, takes no time. *)
Lemma SetLevel_still K xs now l l' : starting K xs now l -> l = IntOn \/ l' = IntOff ->
  exists K', SetLevel K l' = Ok K' /\ starting K' xs now l' /\ machine K' = machine K /\ rest K' = rest K.
Proof.
  intros [Ha Ht Hl Hh Hy Hs] Hor. unfold SetLevel, Interrupt.SetLevel. rewrite Hh, orb_true_r. cbn [ASSERT mbind res_bind].
  rewrite Hl. assert (bool_decide (l' = IntOn) && bool_decide (l = IntOff) = false) as ->.
  { destruct Hor as [-> | ->]; [by rewrite andb_false_r | done]. }
  cbn [mbind res_bind]. eexists. split; [reflexivity |]. split; [| done]. split; try done. destruct Ha; by split.
Qed.

Lemma starting_rest K xs now l w : starting K xs now l -> starting (with_rest K w) xs now l.
Proof. intros [[] ? ? ? ? ?]. by repeat split. Qed.
Lemma starting_machine K xs now l m : starting K xs now l -> starting (with_machine K m) xs now l.
Proof. intros [[] ? ? ? ? ?]. by repeat split. Qed.

Lemma before_starting : starting before [] 0 IntOff.
Proof. repeat split; [apply CList.rep_create | constructor..]. Qed.

(** A thread that is made with interrupts off is made all the same. *)
Lemma Fork_level k body : Threads.Fork fresh (Threads.with_level k IntOff) body =
  k' ← Threads.Fork fresh k body; Ok (Threads.with_level k' IntOff).
Proof. unfold Threads.Fork. cbn. by destruct (Threads.ReadyToRun _ _). Qed.

(** The threads when the postal worker has been made. *)
Definition main_thread : Threads.kernel := Threads.Initialize fresh Machine.create [] [Threads.new_Semaphore 1] [].

Lemma worker_forked : length fresh = 40%nat -> forallb (Threads.plain 1 0) worker = true ->
  exists k, Threads.Fork fresh main_thread worker = Ok k /\ Sched.Sched.good k /\ Threads.readyList k = [1%nat] /\
    Threads.currentThread k = 0%nat /\ Threads.sems k = [Threads.new_Semaphore 1].
Proof.
  intros Hf Hw. assert (Sched.Sched.good main_thread) as Hg.
  { apply Sched.Sched.Initialize_good. split; [done | done | by left | by repeat constructor | constructor]. }
  assert (Sched.Sched.running main_thread (Threads.mkThread true None Threads.RUNNING fresh None [])) as Hr by (split; done).
  exists (Sched.Sched.forked fresh main_thread worker). split_and!; [| | done..].
  - exact (Sched.Sched.Fork_forked _ _ _ _ Hg Hr Hf Hw).
  - exact (Sched.Sched.forked_good _ _ _ _ Hg Hr Hf Hw).
Qed.
(** What an interrupt of the list is about. *)
Definition about (p : PendingInterrupt device) : option device * Z * IntType := (callOnInterrupt p, when_ p, type p).

(** The time slices are asked for, on the clock of 10 after the first [Enable]. *)
Lemma Timer_create K xs now l : starting K xs now l ->
  exists K' xs' p, Timer.create Alarm timer RandomNumber set_timer K false = Ok K' /\ starting K' xs' now l /\
    xs' ≡ₚ p :: xs /\ about p = (Some Alarm, now + TimerTicks, TimerInt) /\
    machine K' = machine K /\ rest K' = mkW (Timer.mk false false) (system (rest K)).
Proof.
  intros HK. unfold Timer.create, Timer.SetInterrupt. cbn [timer set_timer rest with_rest Timer.disable Timer.randomize].
  apply (starting_rest _ _ _ _ (mkW (Timer.mk false false) (system (rest K)))) in HK.
  edestruct (ask _ _ _ _ Alarm TimerTicks TimerInt (starting_rest _ _ _ _ (rest (with_rest K (mkW (Timer.mk false false) (system (rest K))))) HK))
    as (K' & xs' & E & HK' & Hp & Hm & Hr & _); [done |].
  exists K', xs'. eexists. split_and!; [exact E | exact HK' | exact Hp | done | by rewrite Hm | by rewrite Hr].
Qed.

Lemma SynchConsoleInput_create K xs now l : starting K xs now l ->
  exists s K' xs' p, new_SynchConsoleInput K = Ok (s, K') /\ starting K' xs' now l /\
    xs' ≡ₚ p :: xs /\ about p = (Some Keyboard, now + ConsoleTime, ConsoleReadInt) /\
    Bus.asked (SynchConsoleInput.bus s) = [(now + ConsoleTime, ConsoleReadInt)] /\ machine K' = machine K /\ rest K' = rest K.
Proof.
  intros HK. destruct (ask K xs now l Keyboard ConsoleTime ConsoleReadInt HK ltac:(done)) as (K' & xs' & E & HK' & Hp & Hm & Hr & _).
  unfold new_SynchConsoleInput, ConsoleInput.create, Bus.Schedule. change (ASSERT (0 <? ConsoleTime)) with (Ok tt).
  cbn [mbind res_bind]. rewrite E. cbn [mbind res_bind]. destruct HK as [_ <- _ _ _ _].
  do 3 eexists. eexists. split_and!; [done | done | exact Hp | done..].
Qed.

(** The worker is made and interrupts are on again, one tick later. *)
Lemma Fork_worker K xs now : length fresh = 40%nat -> forallb (Threads.plain 1 0) worker = true ->
  starting K xs now IntOn -> Forall (fun p => now + SystemTick < when_ p) xs ->
  system (rest K) = Threads.with_level main_thread IntOff ->
  exists K' k, Fork K worker = Ok K' /\ starting K' xs (now + SystemTick) IntOn /\ machine K' = machine K /\
    rest K' = mkW (timer (rest K)) (Threads.with_level k IntOff) /\ Threads.Fork fresh main_thread worker = Ok k.
Proof.
  intros Hf Hw HK Hlate Hsys. unfold Fork. rewrite (sg_level _ _ _ _ HK).
  destruct (SetLevel_still K xs now IntOn IntOff HK ltac:(by left)) as (K1 & -> & HK1 & Hm1 & Hr1). cbn [mbind res_bind].
  destruct (worker_forked Hf Hw) as (k & Hk & _). rewrite Hr1, Hsys.
  change (Threads.with_level (Threads.with_level main_thread IntOff) IntOff) with (Threads.with_level main_thread IntOff).
  rewrite Fork_level, Hk. cbn [mbind res_bind].
  destruct (enable (with_system K1 (Threads.with_level k IntOff)) xs now) as (K2 & E & HK2 & Hm2 & Hr2);
    [by apply starting_rest | done |].
  exists K2, k. split_and!; [exact E | done | by rewrite Hm2 | by rewrite Hr2; cbn; rewrite Hr1 | done].
Qed.

Lemma PostOfficeInput_create n K xs now : length fresh = 40%nat -> forallb (Threads.plain 1 0) worker = true ->
  starting K xs now IntOn -> Forall (fun p => now + SystemTick < when_ p) xs ->
  system (rest K) = Threads.with_level main_thread IntOff ->
  exists o K' xs' p k, new_PostOfficeInput n K = Ok (o, K') /\ starting K' xs' (now + SystemTick) IntOn /\
    xs' ≡ₚ p :: xs /\ about p = (Some NetworkIn, now + NetworkTime, NetworkRecvInt) /\
    Bus.asked (PostOfficeInput.bus o) = [(now + NetworkTime, NetworkRecvInt)] /\ length (PostOfficeInput.boxes o) = n /\
    machine K' = machine K /\ rest K' = mkW (timer (rest K)) (Threads.with_level k IntOff) /\
    Threads.Fork fresh main_thread worker = Ok k.
Proof.
  intros Hf Hw HK Hlate Hsys.
  destruct (ask K xs now IntOn NetworkIn NetworkTime NetworkRecvInt HK ltac:(done)) as (K1 & xs1 & E & HK1 & Hp & Hm & Hr & _).
  assert (Forall (fun p => now + SystemTick < when_ p) xs1) as Hlate1.
  { rewrite Hp. apply Forall_cons. split; [cbn; unfold SystemTick, NetworkTime; lia | done]. }
  destruct (Fork_worker K1 xs1 now Hf Hw HK1 Hlate1 ltac:(by rewrite Hr)) as (K2 & k & E2 & HK2 & Hm2 & Hr2 & Hk).
  unfold new_PostOfficeInput, NetworkInput.create, Bus.Schedule. change (ASSERT (0 <? NetworkTime)) with (Ok tt).
  cbn [mbind res_bind]. rewrite E. cbn [mbind res_bind]. rewrite E2. cbn [mbind res_bind]. destruct HK as [_ Ht _ _ _ _].
  do 3 eexists. exists (mkPending (brk (interrupt K)) (Some NetworkIn) None (now + NetworkTime) NetworkRecvInt), k.
  split; [reflexivity |]. split_and!; [done | exact Hp | done | by cbn; rewrite <- Ht | apply length_replicate
    | congruence | by rewrite Hr2, Hr | exact Hk].
Qed.

(** The kernel starts: if the disk can be opened and the file system starts, every
    object is made, no [ASSERT] fails and no handler runs.  Two ticks have passed;
    the first time slice and the first polls of the keyboard and of the network are
    what the hardware has to deliver, as the devices know; the main thread runs and
    the postal worker is ready, in a state of the kernel that satisfies its
    invariant; and no frame of the memory is taken. *)
Theorem kernel_starts d fs : length fresh = 40%nat -> forallb (Threads.plain 1 0) worker = true ->
  Disk.create disk = Ok d ->
  FileCalls.FileSystem creatable (FileCalls.mk Machine.create [] [] hostFiles [] [] 0) = Ok (FileCalls.Returned tt fs) ->
  exists k xs, Initialize false = Ok k /\ starting (clock k) xs (2 * SystemTick) IntOn /\
    map about xs ≡ₚ [(Some Alarm, SystemTick + TimerTicks, TimerInt);
                      (Some Keyboard, SystemTick + ConsoleTime, ConsoleReadInt);
                      (Some NetworkIn, SystemTick + NetworkTime, NetworkRecvInt)] /\
    Bus.asked (SynchConsoleInput.bus (synchConsoleIn k)) = [(SystemTick + ConsoleTime, ConsoleReadInt)] /\
    Bus.asked (PostOfficeInput.bus (postOfficeIn k)) = [(SystemTick + NetworkTime, NetworkRecvInt)] /\
    length (PostOfficeInput.boxes (postOfficeIn k)) = 10%nat /\
    machine (clock k) = Some Machine.create /\
    (exists s, system (rest (clock k)) = Threads.with_level s IntOff /\ Sched.Sched.good s /\ Threads.currentThread s = 0%nat /\
      Threads.readyList s = [1%nat] /\ Threads.sems s !! addrLock k = Some (Threads.new_Semaphore 1)) /\
    Bitmap.wf (gPhysPageBitMap k) /\ Bitmap.bits (gPhysPageBitMap k) = replicate 256 false /\
    SynchDisk.disk (synchDisk k) = d /\ fileSystem k = fs.
Proof.
  intros Hf Hw Hd Hfs. unfold Initialize.
  destruct (enable before [] 0 before_starting ltac:(constructor)) as (K1 & -> & HK1 & Hm1 & Hr1). cbn [mbind res_bind].
  destruct (Timer_create K1 _ _ _ HK1) as (K2 & xs2 & p2 & -> & HK2 & Hp2 & Ha2 & Hm2 & Hr2). cbn [mbind res_bind].
  destruct (SynchConsoleInput_create (with_machine K2 (Some Machine.create)) _ _ _ (starting_machine _ _ _ _ _ HK2))
    as (sIn & K3 & xs3 & p3 & -> & HK3 & Hp3 & Ha3 & Hb3 & Hm3 & Hr3). cbn [mbind res_bind].
  unfold SynchDisk.create. rewrite Hd. cbn [mbind res_bind].
  destruct (Bitmap.create_spec 256) as (bm & -> & Hwf & _ & Hbits); [done |]. cbn [mbind res_bind].
  unfold new_semaphore. assert (system (rest K3) = Threads.with_level (Threads.Initialize fresh Machine.create [] [] []) IntOff) as Hs3
    by (rewrite Hr3; cbn [with_machine rest]; rewrite Hr2, Hr1; done).
  set (K4 := with_system K3 _). assert (starting K4 xs3 SystemTick IntOn) as HK4 by (apply starting_rest; exact HK3).
  assert (system (rest K4) = Threads.with_level main_thread IntOff) as Hs4 by (unfold K4; cbn [with_system with_rest rest system]; by rewrite Hs3).
  assert (Forall (fun p => SystemTick + SystemTick < when_ p) xs3) as Hlate.
  { rewrite Hp3, Hp2. injection Ha2 as _ E2 _. injection Ha3 as _ E3 _. repeat constructor; rewrite ?E2, ?E3; reflexivity. }
  assert (exists pages, Bitmap.create 10 = Ok pages) as [pages Hpages] by (destruct (Bitmap.create_spec 10) as (b & ? & _); [done | by exists b]).
  rewrite Hpages. cbn [mbind res_bind].
  assert (exists pt, PTable.create pages = Ok pt) as [pt Hpt].
  { vm_compute in Hpages. injection Hpages as <-. eexists. vm_compute. reflexivity. }
  rewrite Hpt. cbn [mbind res_bind]. rewrite Hfs. cbn [mbind res_bind].
  destruct (PostOfficeInput_create 10 K4 xs3 SystemTick Hf Hw HK4 Hlate Hs4)
    as (pIn & K5 & xs5 & p5 & k & -> & HK5 & Hp5 & Ha5 & Hb5 & Hn5 & Hm5 & Hr5 & Hk). cbn [mbind res_bind].
  destruct (SetLevel_still K5 _ _ _ IntOn HK5 ltac:(by left)) as (K6 & -> & HK6 & Hm6 & Hr6). cbn [mbind res_bind].
  destruct (worker_forked Hf Hw) as (k' & Hk' & Hg & Hready & Hcur & Hsems).
  assert (k' = k) as -> by congruence.
  do 2 eexists. split; [reflexivity |]. cbn [clock synchConsoleIn postOfficeIn gPhysPageBitMap synchDisk fileSystem addrLock SynchDisk.disk].
  split; [exact HK6 |]. split; [rewrite Hp5, Hp3, Hp2; cbn [map]; rewrite Ha2, Ha3, Ha5; solve_Permutation |].
  split; [exact Hb3 |]. split; [exact Hb5 |]. split; [exact Hn5 |].
  split; [rewrite Hm6, Hm5; unfold K4; cbn [with_system with_rest machine]; by rewrite Hm3 |].
  split; [| done]. exists k. rewrite Hr6, Hr5, Hsems, Hs3. done.
Qed.
End initialize.

(** On a host without a file for the disk, where files can be made. *)
Example kernel_starts_new : exists k xs,
  Initialize (replicate 40 0) [Threads.Call_Yield] (fun w => (0, w)) [] None ∅ (fun _ => true) (Wire.mkPacketHeader 0 0 0, [])
    (fun _ => Ok) Ok false = Ok k /\
  starting (clock k) xs 20 IntOn /\ map when_ xs ≡ₚ [110; 110; 110].
Proof.
  assert (exists fs, FileCalls.FileSystem (fun _ => true) (FileCalls.mk Machine.create [] [] ∅ [] [] 0) = Ok (FileCalls.Returned tt fs)) as [fs Hfs]
    by (eexists; vm_compute; reflexivity).
  destruct (kernel_starts (replicate 40 0) [Threads.Call_Yield] (fun w => (0, w)) [] None ∅ (fun _ => true) (Wire.mkPacketHeader 0 0 0, [])
    (fun _ => Ok) Ok _ fs eq_refl eq_refl eq_refl Hfs) as (k & xs & E & Hs & Hp & _).
  exists k, xs. split; [exact E |]. split; [exact Hs |].
  apply (fmap_Permutation (fun a => a.1.2)) in Hp. rewrite <- list_fmap_compose in Hp. exact Hp.
Qed.
End Boot.
